(* ===== verification/_CoqProject ===== *)
-Q . S2P
Prelude.v
Errors.v
Python.v
Effects.v
Paths.v
Models.v
Retention.v
Sha256.v
Registry.v
Codec.v
IpAddress.v
Urls.v
AdminQuery.v
RegistryInv.v
RegistrySound.v
RegistryNames.v
Scenario.v
RegistryProps.v
Capabilities.v
ObjectStore.v
Admin.v
AdminActions.v
AdminProps.v
RegistryPayload.v
Guard.v
GuardProps.v
GuardFlow.v
Lifecycle.v
LifecyclePlan.v
LifecycleProps.v
ServiceIdentity.v
Admission.v
IssuanceRate.v
Schemas.v
App.v
Api.v
ApiInv.v
ApiMint.v
ApiAuthority.v
ApiProps.v
PgSchema.v
PgRegistry.v
PgRelation.v
PgQuota.v
PgMethods.v
PgNames.v
PgReserve.v
PgQuery.v
PgRefinement.v
PgProps.v
Normalize.v
Rules.v
RuleConfig.v
Regex.v
PilotPolicy.v
PilotPolicyProps.v
Transport.v
Fetcher.v
Client.v
EnsureUrl.v
Pilot.v
FetcherApp.v
StoreContract.v
FetchStore.v
PilotProps.v
AddressProps.v
NetworkProps.v
FetcherAppProps.v
RulesProps.v
FetchDemo.v
S3Store.v
Csv.v
BulkLoader.v
BulkProps.v
WorkerSim.v
WorkerProps.v
ToolDemo.v
Preflight.v
PreflightProps.v
CachePilot.v
