(* ===== verification/Prelude.v ===== *)
(** * asset-store prototype: a verification library

    The asset store keeps immutable assets under qualified names
    [bucket/partition/name...].  A control plane, the registry, holds records,
    names, quotas and an audit log; a data plane, the object store, holds bytes;
    the storage guard authorises every request and composes the two, behind an
    HTTP API.  A second service, the fetcher, materialises URLs: it normalises a URL,
    names it by rewrite rules, fetches it past a guard on addresses, and stores it
    through that API.  This library models the core of [src/src/asset_store_core/] and
    [src/src/fetcher_service/] as executable functions and proves what makes it
    correct.

    ** Files

    - [Prelude]: Python [str] operations, insertion-ordered dictionaries, sums
      over finite maps, field replacement [r <| f := v |>], hint databases.
    - [Errors] ([errors.py], [api/errors.py]): the exception hierarchy, the result
      type [res], the HTTP answer to each error.
    - [Python]: [int], binary64 [float], JSON values, timestamps (microseconds
      since the epoch, UTC), UTF-8.
    - [Effects]: the environment [Env] (clock readings, identifiers, environment
      variables), the monad [M S A] of a method over the state [S] of its object
      (an exception keeps the writes made before it), weakest preconditions.
      [preserves]: what a computation keeps, by rules that follow its structure.
    - [Paths] ([paths.py], [storage.py]): normalisation, qualified aliases, object
      keys.
    - [Models] ([models.py]), [Retention] ([retention.py]): records; deadlines,
      liveness, cleanup transitions, hard capacity.
    - [Sha256]: executable SHA-256, checked against published digests.
    - [Registry] ([registry.py]): [InMemoryAssetRegistry], one definition per
      method.  [RegistryInv]: the class invariant [registry_wf], the relation
      [evolves] between successive states, rules to execute the helpers.
      [RegistrySound]: every method keeps the invariant; [call], [step],
      [reachable].  [RegistryNames]: names held by tombstones.  [Scenario]: a
      concrete environment.  [RegistryProps]: the registry's properties.
    - [Codec]: URL-safe base64, JSON texts, ISO 8601, as the standard library reads
      and writes them.  [AdminQuery] ([admin_query.py]): the operator's filters and
      cursors, and [query_assets].  [Admin] ([api/admin.py]): the console's routes;
      [AdminActions], [AdminProps]: what an action does, what following the
      cursors lists, what a bulk expiry expires.  [RegistryPayload]: only a commit
      gives an asset its bytes.
    - [Capabilities] ([capabilities.py], [service_policy.py]): grants, the
      single-use ledger, the bearer store, the service allowlists.
    - [ObjectStore] ([object_store.py]): the backend interface and its laws; the
      in-memory backend keeps them.
    - [AssetRegistry] ([registry_base.py], in the file [Registry]): the registry
      operations the guard and the sweep use, as a class; both registries are
      instances.
    - [Guard] ([guard.py]) and [GuardProps]: the guard over any registry and
      backend; its properties over the in-memory registry and any backend that
      keeps the laws.  [GuardFlow]: each method preserves the guard's invariant.
    - [Lifecycle] ([lifecycle.py]): the sweep, from its policy over the plan to the
      execution of each action under the asset's lock; [LifecyclePlan] and
      [LifecycleProps]: what a plan contains and what a sweep does.
    - [ServiceIdentity] ([service_identity.py]), [Admission] ([admission.py]),
      [IssuanceRate] ([issuance_rate.py]): credentials, bounded work, token
      buckets.
    - [Schemas] ([api/schemas.py]), [App] and [Api] ([api/app.py]): bodies and
      answers; the process [create_app] builds and the dependencies that
      authenticate; one definition [route_m] per route [m], and [serve], which
      dispatches a request and answers an exception.  [ApiInv]: the invariant of
      the process.  [ApiMint], [ApiAuthority]: what minting does, the credential each
      route demands and what each route changes.  [ApiProps]: the API's properties.
    - [PgSchema], [PgRegistry] ([pg_registry.py]): the tables, the SQL statements,
      units of work with commit and rollback, one definition [pg_m] per method [m].
      [PgRelation]: the tables [represents] an in-memory registry, and [refines]
      between a method's SQL and the in-memory method.  [PgQuota], [PgMethods],
      [PgNames], [PgReserve], [PgQuery]: the refinement of each method.  [PgRefinement]: of
      any request.  [PgProps]: the registry's properties.
    - [IpAddress], [Urls] (of the standard library: [ipaddress], [urlsplit],
      [urljoin], [unquote]).
    - [Normalize] ([normalize.py]), [Rules] ([rules.py]), [RuleConfig] ([config.py]):
      URLs in normal form, the rules that name them, the loader of rules.
      [RulesProps]: what a set that loads guarantees, when two image URLs share a name.
    - [Regex]: derivatives, the engine of the fixed expressions of [PilotPolicy]
      ([pilot_policy.py]).  [PilotPolicyProps]: what the policy accepts.
    - [Transport] ([transport.py]), [Fetcher] ([fetcher.py]): the addresses a host may
      have, the dialler, redirects and the byte limit, over a network that is a
      class [Net] and an HTTP client that is a class.  [AddressProps], [NetworkProps]:
      which addresses are blocked, what is dialled, what a fetch returns.
    - [Client] ([client.py]), [EnsureUrl] ([service.py]), [Pilot] ([pilot.py]),
      [FetcherApp] ([app.py], [errors.py]): the asset store as the fetcher sees it, the
      class [AssetStoreClient]; materialising a URL; the pilot cache; the endpoints.
      [StoreContract]: what the fetcher relies on of a store, and what it guarantees
      then; [ServerContract], a class: what a client relies on of a server over HTTP, from
      which the client of the fetcher keeps [StoreContract]; [FetchStore]: the HTTP API
      of [Api] keeps [ServerContract].  [PilotProps], [FetcherAppProps]: the pilot's and the endpoints'
      properties.  [FetchDemo]: the two services run together.
    - [S3Store] ([s3_object_store.py]): the adapter over a class [S3Client] with its
      documented behaviour [S3Laws]; over honest metadata it keeps the laws of
      [ObjectStore], so all that is proved over a backend holds over S3; and a service
      in memory that keeps the laws.
    - [Csv] (of the standard library), [BulkLoader] ([tools/bulk-loader/]), [WorkerSim]
      ([tools/worker-sim/]): two clients of the API.  [BulkProps], [WorkerProps]: what
      they guarantee over any server that keeps [ServerContract].  [ToolDemo]: both run
      against the API.
    - [Preflight] ([deploy/pilot/check_config.py]): what is demanded of the configuration
      Docker Compose renders.  [PreflightProps]: what the two services then find in
      their environments.
    - [CachePilot] ([tools/cache-pilot/cache_smoke.py], [pilot_acceptance.py]): the smoke
      check and the reads of the corpus over a class [PilotHttp]; [PilotServer], what they
      rely on, which the fetcher of [FetcherApp] keeps.

    ** What the theorems show

    The registry: in every reachable state names and alias sets correspond,
    tombstones are of free names, and the quota counters equal what the available
    assets add up to; a call that raises changes nothing but tombstones whose grace is
    over, except a detachment whose grace period would end after the last date, which
    is left half made;
    records never go back to [pending], leave [deleted] or change size or
    checksum; a commit happens once, within quota, with the expected checksum; a
    released name is not bound again during its grace period; reserve, commit,
    resolve and detach, rebind, resolve round-trip; a stale lifecycle plan is
    refused.  The guard: no effect without authorisation; a failed upload leaves
    no available asset and every committed asset has its bytes; a read returns the
    bytes on record; a presigned URL is bounded by its grant and its asset.

    The Postgres registry: for requests whose names are stable under normalisation it
    refines the in-memory one, request by request, under the same readings of the clock
    (a read of an unknown asset is noticed by one and not by the other), and its tables
    stay consistent; a unit of work commits or rolls back as a whole.  The sweep: its
    plan holds what is due, and evicts exactly where a trigger is reached, by score and
    down to the target; it deletes no payload that is not due, pinned or still
    available, it leaves no due asset behind, and its report counts what it did.  Credentials: exactly the configured pairs authenticate.  Work
    admission never exceeds its limit and the drain loop ends; a rate limit refuses
    a burst beyond its bucket and keeps callers apart.  The console: following the
    cursors ends and lists every match once, in order; an action is carried out on
    the version shown and on its asset alone, except for a name that is not its own
    normal form, which is a theorem too; a bulk expiry expires what its preview
    listed and is still as it was.  The HTTP API: over any sequence of requests the
    process keeps its invariant, down to the bytes of every committed asset and the
    upload slots; a request without the credential its route demands does nothing;
    an asset changes or comes to be only at the hand of the operator, its owner or
    the holder of a live capability for the name asked for; a minted capability is its
    caller's own and within the policy; an upload is stored whole, within the limit,
    or not at all.

    The fetcher: a URL is placed by the rules under one name; if the store takes the
    name as it is, the URL is fetched at most once for it unless a refetch is asked for,
    and what the name stands for are the bytes the origin answered; a refetch accepts
    only bytes with the checksum on record.  Two image URLs share a name exactly
    if they ask for the same rendition, two approved pilot URLs exactly if the same
    resource is fetched for them.  A preloaded image is read back without the origin.
    A fetch follows a bounded number of redirects, each allowed by the policy, to web
    hosts, and returns content within the limit; a host is
    resolved once for a connection, and no address is dialled that this answer did not
    hold, or when one in the answer leads inside.  A rule set
    that loads gives every URL it matches one name.  No request does anything
    without a dispatcher's credential, and every slot of work is given back.

    The S3 adapter: an upload, in parts or in one request, is whole or not at all.  The
    tools: a load that exits with 0 has every row of its manifest in the store; a row
    is tried again only after a failure that may pass; a worker's upload
    of its manifest is its last request, made only when each result in it is a copy of
    a verified input.  The
    deployment: a configuration that passes the preflight gives the asset store and the
    fetcher credentials that agree and private backends; the checks of a running pilot
    pass exactly when what they receive is in order, whatever the service, and over one
    that keeps its contract report what it holds, and blame the integrity of an image
    only when it is not the one expected.

    ** Conventions and bounds

    Python integers are unbounded and modelled by [Z]; floats by
    [Stdlib.Floats.SpecFloat] at binary64.  A [str] is a [string] of code points
    below 256.  Dictionaries are [gmap]s unless their order is observable.  Loops
    are structural; the JSON reader's fuel is one more than the length of the text, each
    of whose values and separators takes a character.  Locks make each method one step.
    The clock is an arbitrary sequence of readings, which are not bounded by the range of
    [datetime]; a sum of a reading and a duration is checked against that range where the
    duration has no small bound of its own (a deadline, the grace period of a name).  Of
    the clock and the identifiers, [ClockMono] (time does not go
    back), [FreshIds] (identifiers differ) and [UuidFormat] (their format) are
    assumed where a theorem names them.

    ** Not modelled

    Concurrent transactions of the Postgres registry: units of work run one at a
    time, row locks and isolation have no counterpart.  Requests of the API run one
    at a time as well, and so do those of the fetcher.  The decoding of a request into
    a [Route] or a [FetcherRoute] (FastAPI's and pydantic's), the static files of the
    console.  The text pydantic renders filters to, which cursors
    digest, is the parameter [DumpFilters].  Of the fetcher: the adapter
    [ValidatedTransport] between httpx and httpcore and the timeouts it is given; the
    engine of regular expressions and the TOML reader, which are parameters of the
    loader.  Log lines and metrics exporters have no effect on what is.  Of the
    tools that exercise a deployment: the threads of a burst, the schedule of a soak and
    the samples of its resources, the monitor's snapshot, which read Docker's output and
    Prometheus texts; the historical probes.  The migrations are SQL. *)

From stdpp Require Export base decidable option list strings gmap fin_maps pretty.
From Stdlib Require Export ZArith Lia Sorted.
From Stdlib Require Ascii.
Export Stdlib.Strings.Ascii (ascii(..), N_of_ascii, ascii_of_N).
Export (notations) Stdlib.Strings.Ascii.

#[global] Open Scope Z_scope.
#[global] Set Default Proof Using "Type".

(** ** Scope of the development's notations *)

Declare Scope asset_scope.
Delimit Scope asset_scope with asset.
#[global] Open Scope asset_scope.

(** ** Hint databases

    [paths] resolves goals about normalised paths, [registry] the lookups and
    well-formedness facts of the registry, [effects] the one-step lemmas of
    the effect monad. *)

Create HintDb paths.
Create HintDb registry.
Create HintDb effects.

(** ** Record fields that can be replaced

    [r <| f := v |>] is [dataclasses.replace(r, f=v)]: a copy of [r] whose
    field [f] is [v].  Each field of a frozen dataclass the program replaces
    declares an instance. *)

Class Replace {R T : Type} (proj : R → T) := replace_field : T → R → R.
Arguments replace_field {R T} proj {_} _ _ /.

Notation "r <| proj := v |>" := (replace_field proj v r)
  (at level 1, left associativity, format "r  <| proj  :=  v |>") : asset_scope.

(** ** Booleans and case analysis *)

(** Case-split on every boolean test and decision that a hypothesis or the goal
    matches on, then simplify. *)
Ltac split_tests :=
  repeat match goal with
  | H : context [if decide ?P then _ else _] |- _ => destruct (decide P); simplify_eq/=
  | |- context [if decide ?P then _ else _] => destruct (decide P); simplify_eq/=
  end.

Ltac split_ifs :=
  repeat match goal with
  | H : context [if ?b then _ else _] |- _ => destruct b eqn:?; simplify_eq/=
  | |- context [if ?b then _ else _] => destruct b eqn:?; simplify_eq/=
  end.

(** Appending to a literal prefix computes. *)
#[global] Arguments String.append !_ _ / : simpl nomatch.

(** ** Python [str] operations

    A Python [str] is a [string] whose characters are its code points; the model
    covers the code points below 256, so [str.strip] removes exactly the
    Latin-1 characters for which [str.isspace] holds. *)

Definition is_space (c : ascii) : bool :=
  let n := N_of_ascii c in
  ((9 <=? n) && (n <=? 13))%N || ((28 <=? n) && (n <=? 32))%N ||
  (n =? 133)%N || (n =? 160)%N.

Definition is_slash (c : ascii) : bool := Ascii.eqb c "/"%char.

Fixpoint lstrip_by (p : ascii → bool) (s : string) : string :=
  match s with
  | EmptyString => EmptyString
  | String c s' => if p c then lstrip_by p s' else s
  end.

Fixpoint rstrip_by (p : ascii → bool) (s : string) : string :=
  match s with
  | EmptyString => EmptyString
  | String c s' =>
      match rstrip_by p s' with
      | EmptyString => if p c then EmptyString else String c EmptyString
      | String d t => String c (String d t)
      end
  end.

Definition strip_by (p : ascii → bool) (s : string) : string := rstrip_by p (lstrip_by p s).

(** [s.strip()] and [s.strip("/")]. *)
Definition strip (s : string) : string := strip_by is_space s.
Definition strip_slashes (s : string) : string := strip_by is_slash s.

(** [s.split(c)] for a one-character separator: never empty. *)
Fixpoint split_on (c : ascii) (s : string) : list string :=
  match s with
  | EmptyString => [""]
  | String a s' =>
      if Ascii.eqb a c then "" :: split_on c s'
      else match split_on c s' with
           | [] => [String a EmptyString]
           | h :: t => String a h :: t
           end
  end.

(** [c.join(l)]. *)
Fixpoint join_with (c : ascii) (l : list string) : string :=
  match l with
  | [] => ""
  | [s] => s
  | s :: l' => s +:+ String c (join_with c l')
  end.

(** [c in s]. *)
Fixpoint contains_char (c : ascii) (s : string) : bool :=
  match s with
  | EmptyString => false
  | String a s' => Ascii.eqb a c || contains_char c s'
  end.

(** [s.startswith(p)]. *)
Definition startswith (p s : string) : bool := String.prefix p s.

(** [s.partition(c)]: the text before the first [c], whether [c] occurs, the
    text after it. *)
Fixpoint partition_on (c : ascii) (s : string) : string * bool * string :=
  match s with
  | EmptyString => ("", false, "")
  | String a s' =>
      if Ascii.eqb a c then ("", true, s')
      else let '(h, found, t) := partition_on c s' in (String a h, found, t)
  end.

(** Every character of [s] satisfies [p]. *)
Fixpoint all_chars (p : ascii → bool) (s : string) : bool :=
  match s with
  | EmptyString => true
  | String a s' => p a && all_chars p s'
  end.

(** Membership of a string in a constant collection. *)
Definition mem (s : string) (l : list string) : bool := bool_decide (s ∈ l).

(** ** Insertion-ordered dictionaries

    [d[k] = v] on an insertion-ordered dict: a present key keeps its position. *)
Fixpoint dict_set {V} (k : string) (v : V) (d : list (string * V)) : list (string * V) :=
  match d with
  | [] => [(k, v)]
  | (k', v') :: d' => if decide (k' = k) then (k, v) :: d' else (k', v') :: dict_set k v d'
  end.

(** ** Sorting

    [sorted(l)] where [lt] compares the keys: stable, like Python's sort. *)
Fixpoint insert_by {A} (lt : A → A → bool) (x : A) (l : list A) : list A :=
  match l with
  | [] => [x]
  | y :: l' => if lt y x then y :: insert_by lt x l' else x :: l
  end.

Definition sorted_by {A} (lt : A → A → bool) (l : list A) : list A := foldr (insert_by lt) [] l.

(** [s < t] for two [str]. *)
Definition str_ltb (s t : string) : bool :=
  match String.compare s t with Lt => true | _ => false end.

(** ** Sums over the values of a finite map *)

Definition sum_map {K V} `{Countable K} (f : V → Z) (m : gmap K V) : Z :=
  map_fold (λ _ v acc, f v + acc) 0 m.

Definition count_map {K V} `{Countable K} (p : V → bool) (m : gmap K V) : Z :=
  sum_map (λ v, if p v then 1 else 0) m.

(** * Lemmas *)

(** ** Strings *)

Lemma length_app_str (s t : string) :
  String.length (s +:+ t) = (String.length s + String.length t)%nat.
Proof. induction s as [|c s IH]; [done|]. cbn. by rewrite IH. Qed.

Lemma app_str_nil_r (s : string) : s +:+ "" = s.
Proof. induction s as [|c s IH]; [done|]. cbn. by f_equal. Qed.

Lemma app_str_assoc (s t u : string) : s +:+ (t +:+ u) = (s +:+ t) +:+ u.
Proof. induction s as [|c s IH]; [done|]. cbn. by f_equal. Qed.

Lemma app_str_cons (c : ascii) (s t : string) : String c s +:+ t = String c (s +:+ t).
Proof. done. Qed.

Lemma eqb_ascii_refl (c : ascii) : Ascii.eqb c c = true.
Proof. apply Ascii.eqb_refl. Qed.

Lemma mem_true (s : string) (l : list string) : mem s l = true ↔ s ∈ l.
Proof. apply bool_decide_eq_true. Qed.

Lemma mem_false (s : string) (l : list string) : mem s l = false ↔ s ∉ l.
Proof. apply bool_decide_eq_false. Qed.

Lemma startswith_iff (p s : string) : startswith p s = true ↔ ∃ t, s = p +:+ t.
Proof.
  revert s; induction p as [|c p IH]; intros s.
  - split; [intros _; by exists s | by destruct s].
  - destruct s as [|d s]; cbn.
    + split; [done | intros [t Ht]; discriminate].
    + destruct (Ascii.ascii_dec c d) as [->|Hne].
      * rewrite IH. split; intros [t Ht]; exists t; [by rewrite Ht|by injection Ht].
      * split; [done|]. intros [t Ht]. injection Ht as -> _. done.
Qed.

Lemma startswith_app (p t : string) : startswith p (p +:+ t) = true.
Proof. apply startswith_iff. by exists t. Qed.

Lemma split_on_nonnil (c : ascii) (s : string) : split_on c s ≠ [].
Proof.
  destruct s as [|a s]; cbn; [done|].
  destruct (Ascii.eqb a c); [done|]. by destruct (split_on c s).
Qed.

Lemma join_cons (c : ascii) (s : string) (l : list string) :
  l ≠ [] → join_with c (s :: l) = s +:+ String c (join_with c l).
Proof. by destruct l. Qed.

Lemma join_with_app (c : ascii) (l1 l2 : list string) :
  l1 ≠ [] → l2 ≠ [] → join_with c (l1 ++ l2) = join_with c l1 +:+ String c (join_with c l2).
Proof.
  intros H1 H2. induction l1 as [|s l1 IH]; [done|]. destruct l1 as [|s' l1].
  - change ([s] ++ l2) with (s :: l2). by rewrite join_cons.
  - change ((s :: s' :: l1) ++ l2) with (s :: ((s' :: l1) ++ l2)).
    rewrite (join_cons c s ((s' :: l1) ++ l2)), IH, (join_cons c s (s' :: l1)) by done.
    by rewrite <- app_str_assoc.
Qed.

Lemma join_split (c : ascii) (s : string) : join_with c (split_on c s) = s.
Proof.
  induction s as [|a s IH]; [done|]. cbn.
  destruct (Ascii.eqb_spec a c) as [->|Hne].
  - rewrite join_cons by apply split_on_nonnil. by rewrite IH.
  - destruct (split_on c s) as [|h [|h' t]] eqn:E; [by apply split_on_nonnil in E|..];
      cbn in *; by rewrite <- IH.
Qed.

Lemma split_on_app (c : ascii) (s t : string) :
  split_on c (s +:+ String c t) = split_on c s ++ split_on c t.
Proof.
  induction s as [|a s IH]; cbn.
  - by rewrite eqb_ascii_refl.
  - destruct (Ascii.eqb_spec a c) as [->|Hne]; [by rewrite IH|].
    rewrite IH. by destruct (split_on c s) as [|h l] eqn:E; [apply split_on_nonnil in E|].
Qed.

Lemma split_on_clean (c : ascii) (s : string) :
  contains_char c s = false → split_on c s = [s].
Proof.
  induction s as [|a s IH]; [done|]. cbn. intros [Ha Hs]%orb_false_iff.
  by rewrite Ha, (IH Hs).
Qed.

Lemma split_on_segments (c : ascii) (s : string) :
  Forall (λ x, contains_char c x = false) (split_on c s).
Proof.
  induction s as [|a s IH]; [by constructor|]. cbn.
  destruct (Ascii.eqb_spec a c) as [->|Hne]; [by constructor|].
  destruct (split_on c s) as [|h l]; [by constructor; [cbn; case (Ascii.eqb_spec a c)|]|].
  apply Forall_cons in IH as [Hh Hl]. constructor; [cbn|done].
  by destruct (Ascii.eqb_spec a c).
Qed.

Lemma split_join (c : ascii) (l : list string) :
  l ≠ [] → Forall (λ x, contains_char c x = false) l → split_on c (join_with c l) = l.
Proof.
  induction l as [|s l IH]; [done|]. intros _ [Hs Hl]%Forall_cons.
  destruct l as [|s' l]; [by apply split_on_clean|].
  rewrite join_cons by done. rewrite split_on_app, IH, split_on_clean by done. done.
Qed.

Lemma split_on_inj (c : ascii) (s t : string) : split_on c s = split_on c t → s = t.
Proof. intros H. by rewrite <- (join_split c s), <- (join_split c t), H. Qed.

Lemma contains_char_app (c : ascii) (s t : string) :
  contains_char c (s +:+ t) = contains_char c s || contains_char c t.
Proof. induction s as [|a s IH]; [done|]. cbn. by rewrite IH, orb_assoc. Qed.

Lemma partition_on_found (c : ascii) (s h t : string) :
  partition_on c s = (h, true, t) → s = h +:+ String c t ∧ contains_char c h = false.
Proof.
  revert h t; induction s as [|a s IH]; intros h t; cbn; [done|].
  destruct (Ascii.eqb_spec a c) as [->|Hne]; [by intros [= <- <-]|].
  destruct (partition_on c s) as [[h' f] t']. intros [= <- -> ->].
  destruct (IH h' t eq_refl) as [-> Hc]. split; [done|]. cbn.
  by destruct (Ascii.eqb_spec a c).
Qed.

Lemma partition_on_app (c : ascii) (h t : string) :
  contains_char c h = false → partition_on c (h +:+ String c t) = (h, true, t).
Proof.
  induction h as [|a h IH]; cbn; [by rewrite eqb_ascii_refl|].
  intros [Ha Hh]%orb_false_iff. by rewrite Ha, IH.
Qed.

(** A string stays as it is when its first and last character are kept. *)
Lemma rstrip_by_nil (p : ascii → bool) (s : string) :
  rstrip_by p s = "" ↔ all_chars p s = true.
Proof.
  induction s as [|c s IH]; [done|]. cbn.
  destruct (rstrip_by p s) as [|d t].
  - destruct (p c); cbn; [by rewrite <- IH|done].
  - rewrite andb_true_iff. split; [done|]. intros [_ H]. by apply IH in H.
Qed.

Lemma rstrip_by_cons (p : ascii → bool) (c : ascii) (s : string) :
  rstrip_by p (String c s) =
  match rstrip_by p s with
  | EmptyString => if p c then EmptyString else String c EmptyString
  | String d t => String c (String d t)
  end.
Proof. done. Qed.

Lemma rstrip_by_idem (p : ascii → bool) (s : string) :
  rstrip_by p (rstrip_by p s) = rstrip_by p s.
Proof.
  induction s as [|c s IH]; [done|]. rewrite rstrip_by_cons.
  destruct (rstrip_by p s) as [|d t].
  - destruct (p c) eqn:Hc; cbn; by rewrite ?Hc.
  - by rewrite rstrip_by_cons, IH.
Qed.

Lemma lstrip_by_length (p : ascii → bool) (s : string) :
  (String.length (lstrip_by p s) <= String.length s)%nat.
Proof. induction s as [|c s IH]; cbn; [lia|]. destruct (p c); cbn; lia. Qed.

(** A string is unchanged by [lstrip_by] exactly when its head is kept. *)
Lemma lstrip_by_fix (p : ascii → bool) (s : string) :
  lstrip_by p s = s ↔ match s with EmptyString => True | String c _ => p c = false end.
Proof.
  destruct s as [|c s]; [done|]. cbn. destruct (p c) eqn:Hc; [|done].
  split; [|done]. intros H. pose proof (lstrip_by_length p s). rewrite H in *. cbn in *. lia.
Qed.

Lemma lstrip_by_idem (p : ascii → bool) (s : string) :
  lstrip_by p (lstrip_by p s) = lstrip_by p s.
Proof.
  apply lstrip_by_fix. induction s as [|c s IH]; cbn; [done|]. by destruct (p c) eqn:Hc.
Qed.

Lemma lstrip_rstrip_by (p q : ascii → bool) (s : string) :
  lstrip_by p s = s → lstrip_by p (rstrip_by q s) = rstrip_by q s.
Proof.
  rewrite !lstrip_by_fix. destruct s as [|c s]; cbn; [done|]. intros Hc.
  destruct (rstrip_by q s); [by destruct (q c)|done].
Qed.

Lemma rstrip_by_length (p : ascii → bool) (s : string) :
  (String.length (rstrip_by p s) <= String.length s)%nat.
Proof.
  induction s as [|c s IH]; [done|]. rewrite rstrip_by_cons.
  destruct (rstrip_by p s); cbn in *; [destruct (p c); cbn; lia|lia].
Qed.

Lemma strip_by_length (p : ascii → bool) (s : string) :
  (String.length (strip_by p s) <= String.length s)%nat.
Proof. unfold strip_by. pose proof (lstrip_by_length p s). pose proof (rstrip_by_length p (lstrip_by p s)). lia. Qed.

(** Stripping that takes no character away changes nothing. *)
Lemma strip_by_length_fix (p : ascii → bool) (s : string) :
  (String.length s <= String.length (strip_by p s))%nat → strip_by p s = s.
Proof.
  unfold strip_by. intros Hlen. assert (Hfix : lstrip_by p s = s).
  { pose proof (rstrip_by_length p (lstrip_by p s)). destruct s as [|c s]; [done|]. cbn in *.
    destruct (p c); [|done]. pose proof (lstrip_by_length p s). lia. }
  rewrite Hfix in *. clear Hfix. induction s as [|c s IH]; [done|]. rewrite rstrip_by_cons in *.
  destruct (rstrip_by p s) as [|d t] eqn:Hr.
  - destruct (p c); cbn in Hlen; [lia|]. destruct s; [done|cbn in Hlen; lia].
  - f_equal. apply IH. cbn in *. lia.
Qed.

Lemma strip_by_idem (p : ascii → bool) (s : string) :
  strip_by p (strip_by p s) = strip_by p s.
Proof.
  unfold strip_by. by rewrite lstrip_rstrip_by, rstrip_by_idem by apply lstrip_by_idem.
Qed.

(** ** Dictionaries *)

Lemma dict_set_keys {V} (k : string) (v : V) (d : list (string * V)) :
  ∀ k', k' ∈ (dict_set k v d).*1 ↔ k' = k ∨ k' ∈ d.*1.
Proof.
  induction d as [|[k0 v0] d IH]; intros k'; cbn; [set_solver|].
  destruct (decide (k0 = k)) as [->|]; cbn; set_solver.
Qed.

(** ** Sorting *)

Lemma insert_by_Permutation {A} (lt : A → A → bool) (x : A) (l : list A) : insert_by lt x l ≡ₚ x :: l.
Proof.
  induction l as [|y l IH]; cbn; [done|]. destruct (lt y x); [|done].
  rewrite IH. apply Permutation_swap.
Qed.

Lemma sorted_by_Permutation {A} (lt : A → A → bool) (l : list A) : sorted_by lt l ≡ₚ l.
Proof. induction l as [|x l IH]; cbn; [done|]. by rewrite insert_by_Permutation, IH. Qed.

Lemma elem_of_sorted_by {A} (lt : A → A → bool) (x : A) (l : list A) : x ∈ sorted_by lt l ↔ x ∈ l.
Proof. by rewrite sorted_by_Permutation. Qed.

(** With a strict order on the keys the result is ordered. *)
Lemma insert_by_sorted {A} (lt : A → A → bool) (x : A) (l : list A) :
  (∀ a b, lt a b = true → lt b a = false) →
  Sorted (λ a b, lt b a = false) l → Sorted (λ a b, lt b a = false) (insert_by lt x l).
Proof.
  intros Hasym. induction l as [|y l IH]; cbn; intros Hl; [by repeat constructor|].
  apply Sorted_inv in Hl as [Hl Hhd]. destruct (lt y x) eqn:Hyx.
  - constructor; [by apply IH|]. destruct l as [|z l]; cbn; [by constructor; apply Hasym|].
    apply HdRel_inv in Hhd. destruct (lt z x); constructor; auto.
  - by repeat constructor.
Qed.

Lemma sorted_by_sorted {A} (lt : A → A → bool) (l : list A) :
  (∀ a b, lt a b = true → lt b a = false) → Sorted (λ a b, lt b a = false) (sorted_by lt l).
Proof. intros Hasym. induction l as [|x l IH]; cbn; [constructor|]. by apply insert_by_sorted. Qed.

Lemma str_ltb_asym s t : str_ltb s t = true → str_ltb t s = false.
Proof.
  unfold str_ltb. rewrite (String.compare_antisym s t). by destruct (String.compare t s).
Qed.

Lemma str_ltb_irrefl s : str_ltb s s = false.
Proof. destruct (str_ltb s s) eqn:H; [|done]. by rewrite (str_ltb_asym _ _ H) in H. Qed.

Lemma str_ltb_total s t : str_ltb s t = false → str_ltb t s = false → s = t.
Proof.
  unfold str_ltb. rewrite (String.compare_antisym s t).
  destruct (String.compare t s) eqn:Hc; cbn; [|done..]. intros _ _. symmetry. by apply String.compare_eq_iff.
Qed.

Lemma str_ltb_trans s t u : str_ltb s t = true → str_ltb t u = true → str_ltb s u = true.
Proof.
  unfold str_ltb. revert t u. induction s as [|a s IH]; intros [|b t] [|c u]; cbn; try done.
  specialize (IH t u). unfold Ascii.compare.
  destruct (N.compare_spec (N_of_ascii a) (N_of_ascii b)) as [Hab|Hab|Hab]; [|..|done];
    destruct (N.compare_spec (N_of_ascii b) (N_of_ascii c)) as [Hbc|Hbc|Hbc]; try done;
    destruct (N.compare_spec (N_of_ascii a) (N_of_ascii c)); try done; try lia; auto.
Qed.

(** With a strict total order on its elements the result is strictly increasing. *)
Lemma sorted_by_strict {A} (lt : A → A → bool) (l : list A) :
  (∀ a b, lt a b = true → lt b a = false) → (∀ a b c, lt a b = true → lt b c = true → lt a c = true) →
  (∀ a b, a ∈ l → b ∈ l → lt a b = false → lt b a = false → a = b) → NoDup l →
  StronglySorted (λ a b, lt a b = true) (sorted_by lt l).
Proof.
  intros Hasym Htrans Htotal Hnd. pose proof (sorted_by_sorted lt l Hasym) as Hs.
  rewrite <- (sorted_by_Permutation lt l) in Hnd.
  assert (Ht : ∀ a b, a ∈ sorted_by lt l → b ∈ sorted_by lt l → lt a b = false → lt b a = false → a = b).
  { intros a b. rewrite !elem_of_sorted_by. auto. }
  clear Htotal. revert Hnd Hs Ht. generalize (sorted_by lt l). intros k.
  induction k as [|x k IH]; intros Hnd Hs Ht; [constructor|].
  apply NoDup_cons in Hnd as [Hx Hnd]. apply Sorted_inv in Hs as [Hs Hhd].
  assert (Hk : StronglySorted (λ a b, lt a b = true) k) by (apply IH; [done..|]; intros a b ??; apply Ht; by right).
  constructor; [done|]. destruct k as [|y k]; [constructor|]. apply HdRel_inv in Hhd.
  assert (Hxy : lt x y = true).
  { destruct (lt x y) eqn:Hxy; [done|]. destruct Hx. rewrite (Ht x y) by (done || left || by right; left). left. }
  constructor; [done|]. apply StronglySorted_inv in Hk as [_ Hk]. eapply Forall_impl; [exact Hk|].
  intros z Hz. by apply (Htrans x y z).
Qed.

(** ** Sums *)

Section Sums.
Context {K V : Type} `{Countable K}.
Implicit Types (m : gmap K V) (f : V → Z) (k : K) (v : V).

Lemma sum_map_empty f : sum_map f (∅ : gmap K V) = 0.
Proof. apply map_fold_empty. Qed.

Lemma sum_map_insert f m k v :
  m !! k = None → sum_map f (<[k := v]> m) = f v + sum_map f m.
Proof.
  intros Hk. unfold sum_map. apply (map_fold_insert_L (λ _ v acc, f v + acc)); [|done].
  intros; lia.
Qed.

Lemma sum_map_delete f m k v :
  m !! k = Some v → sum_map f m = f v + sum_map f (delete k m).
Proof.
  intros Hk. rewrite <- (sum_map_insert f (delete k m) k v) by apply lookup_delete_eq.
  by rewrite insert_delete_eq, insert_id.
Qed.

Lemma sum_map_replace f m k v v' :
  m !! k = Some v → sum_map f (<[k := v']> m) = sum_map f m - f v + f v'.
Proof.
  intros Hk. rewrite <- insert_delete_eq, sum_map_insert by apply lookup_delete_eq.
  rewrite (sum_map_delete f m k v Hk). lia.
Qed.

Lemma sum_map_nonneg f m :
  (∀ k v, m !! k = Some v → 0 <= f v) → 0 <= sum_map f m.
Proof.
  induction m as [|k v m Hk IH] using map_ind; intros Hf.
  - by rewrite sum_map_empty.
  - rewrite sum_map_insert by done.
    assert (0 <= f v) by (apply (Hf k); apply lookup_insert_eq).
    assert (0 <= sum_map f m); [|lia].
    apply IH. intros k' v' Hk'. apply (Hf k'). rewrite lookup_insert_ne; [done|].
    intros ->. congruence.
Qed.

Lemma sum_map_ge f m k v :
  (∀ k v, m !! k = Some v → 0 <= f v) → m !! k = Some v → f v <= sum_map f m.
Proof.
  intros Hf Hk. rewrite (sum_map_delete f m k v Hk).
  assert (0 <= sum_map f (delete k m)); [|lia].
  apply sum_map_nonneg. intros k' v' [_ Hk']%lookup_delete_Some. by apply (Hf k').
Qed.

Lemma sum_map_ext f g m :
  (∀ k v, m !! k = Some v → f v = g v) → sum_map f m = sum_map g m.
Proof.
  induction m as [|k v m Hk IH] using map_ind; intros Hfg; [by rewrite !sum_map_empty|].
  rewrite !sum_map_insert by done. rewrite (Hfg k v) by apply lookup_insert_eq.
  rewrite IH; [done|]. intros k' v' Hk'. apply (Hfg k'). rewrite lookup_insert_ne; [done|].
  intros ->. congruence.
Qed.
End Sums.
