(* ===== verification/Errors.v ===== *)
(** * Domain errors and their HTTP projection

    [error] lists the exception classes of [asset_store_core/errors.py] and the
    other exceptions the modelled code can raise or let through: Python's own,
    those of the database driver, any failure of a backend.  Messages are
    not modelled; the attributes a handler reads are constructor arguments.
    [handle_domain] is the exception handler of [api/errors.py]. *)

From S2P Require Import Prelude.

(** [fetcher_service/errors.py]: the subclasses of [FetcherError]. *)
Inductive fetch_error : Type :=
  | InvalidRequestError
  | ContentMismatchError
  | UpstreamError
  | UpstreamTimeoutError
  | PilotDeniedError
  | CacheMissError
  | CacheBackendError (status : Z) (retry_after : option string).

#[export] Instance fetch_error_eq_dec : EqDecision fetch_error.
Proof. solve_decision. Defined.

(** The exceptions of [httpx] and [httpcore] the fetcher tells apart. *)
Inductive http_error : Type :=
  | HttpxTimeoutException
  | HttpxHTTPError
  | HttpcoreConnectTimeout
  | HttpcoreTimeoutException
  | HttpcoreConnectError
  | HttpcoreNetworkError
  | HttpcoreProtocolError.

#[export] Instance http_error_eq_dec : EqDecision http_error.
Proof. solve_decision. Defined.

(** The exceptions of the tools: the bulk loader's, the worker's with its message, the
    [csv] module's, the preflight's, the smoke check's with its message. *)
Inductive tool_error : Type :=
  | BulkLoadError
  | WorkerError (message : string)
  | CsvError
  | ConfigFailure
  | SmokeFailure (message : string).

#[export] Instance tool_error_eq_dec : EqDecision tool_error.
Proof. solve_decision. Defined.

Inductive error : Type :=
  | ServiceAuthError
  | ValidationError
  | AliasConflictError
  | AliasNotFoundError
  | AliasImmutableError
  | AssetNotFoundError
  | ObjectNotFoundError
  | PresignNotSupportedError
  | ChecksumMismatchError
  | CapabilityDeniedError
  | CapabilityAlreadyConsumedError
  | CapabilityCapacityError
  | InvalidStateTransitionError
  | AssetExpiredError
  | AssetDeletedError
  | CapacityExceededError
  | QuotaExceededError (scope : string)
  | UploadTooLargeError
  | RegistryUnavailableError
  | WorkCapacityError
  | CapabilityRateError (retry_after : Z)
  (** exceptions outside the domain hierarchy *)
  | PyValueError
  | PyOverflowError
  | PyRuntimeError
  | PyKeyError
  | PyIndexError
  | PyTypeError
  | PyAttributeError
  | PydanticError
  | RequestValidationError
  | PgUniqueViolation
  | PgNumericValueOutOfRange
  | BackendFailure
  (** exceptions of the fetcher: its own hierarchy, its client's and its settings',
      those of its HTTP libraries *)
  | FetchError (e : fetch_error)
  | InvalidUrl
  | RuleConfigError
  | ClientError (status : option Z) (retry_after : option string)
  | HttpError (e : http_error)
  (** botocore's [ClientError], with the code and the status of the response if it has
      them; the exceptions of the tools *)
  | BotoClientError (code : option string) (status : option Z)
  | ToolError (e : tool_error)
  (** no exception: the program goes on where the model stops, at a text with a
      character above U+00FF or a template field with a format of its own *)
  | OutsideModel.

#[export] Instance error_eq_dec : EqDecision error.
Proof. solve_decision. Defined.

(** ** Results *)

Inductive res (A : Type) : Type :=
  | Ok (a : A)
  | Err (e : error).
Arguments Ok {A} _.
Arguments Err {A} _.

#[export] Instance res_ret : MRet res := λ A a, Ok a.
#[export] Instance res_bind : MBind res := λ A B f r,
  match r with Ok a => f a | Err e => Err e end.

Definition is_Ok {A} (r : res A) : bool := match r with Ok _ => true | Err _ => false end.

(** ** Classification *)

(** [isinstance(exc, AssetStoreError)] *)
Definition is_asset_store_error (e : error) : bool :=
  match e with
  | PyValueError | PyOverflowError | PyRuntimeError | PyKeyError | PyIndexError | PyTypeError | PyAttributeError | PydanticError
  | RequestValidationError
  | PgUniqueViolation | PgNumericValueOutOfRange | BackendFailure
  | FetchError _ | InvalidUrl | RuleConfigError | ClientError _ _ | HttpError _ | BotoClientError _ _ | ToolError _ | OutsideModel => false
  | _ => true
  end.

(** [isinstance(exc, InvalidStateTransitionError)]: two subclasses refine it. *)
Definition is_invalid_state_transition (e : error) : bool :=
  match e with
  | InvalidStateTransitionError | AssetExpiredError | AssetDeletedError => true
  | _ => false
  end.

(** [_STATUS_BY_ERROR.get(type(exc))] *)
Definition status_by_error (e : error) : option Z :=
  match e with
  | ValidationError => Some 400
  | UploadTooLargeError => Some 413
  | ServiceAuthError => Some 401
  | CapabilityDeniedError => Some 403
  | CapabilityAlreadyConsumedError => Some 403
  | CapabilityCapacityError => Some 503
  | CapabilityRateError _ => Some 429
  | WorkCapacityError => Some 503
  | AliasNotFoundError => Some 404
  | AssetNotFoundError => Some 404
  | AssetExpiredError => Some 410
  | AssetDeletedError => Some 404
  | CapacityExceededError => Some 503
  | RegistryUnavailableError => Some 503
  | ObjectNotFoundError => Some 404
  | AliasConflictError => Some 409
  | AliasImmutableError => Some 409
  | ChecksumMismatchError => Some 409
  | InvalidStateTransitionError => Some 409
  | QuotaExceededError _ => Some 413
  | PresignNotSupportedError => Some 501
  | PyValueError | PyOverflowError | PyRuntimeError | PyKeyError | PyIndexError | PyTypeError | PyAttributeError | PydanticError
  | RequestValidationError
  | PgUniqueViolation | PgNumericValueOutOfRange | BackendFailure
  | FetchError _ | InvalidUrl | RuleConfigError | ClientError _ _ | HttpError _ | BotoClientError _ _ | ToolError _ | OutsideModel => None
  end.

(** The class name, [type(exc).__name__]. *)
Definition error_name (e : error) : string :=
  match e with
  | ServiceAuthError => "ServiceAuthError"
  | ValidationError => "ValidationError"
  | AliasConflictError => "AliasConflictError"
  | AliasNotFoundError => "AliasNotFoundError"
  | AliasImmutableError => "AliasImmutableError"
  | AssetNotFoundError => "AssetNotFoundError"
  | ObjectNotFoundError => "ObjectNotFoundError"
  | PresignNotSupportedError => "PresignNotSupportedError"
  | ChecksumMismatchError => "ChecksumMismatchError"
  | CapabilityDeniedError => "CapabilityDeniedError"
  | CapabilityAlreadyConsumedError => "CapabilityAlreadyConsumedError"
  | CapabilityCapacityError => "CapabilityCapacityError"
  | InvalidStateTransitionError => "InvalidStateTransitionError"
  | AssetExpiredError => "AssetExpiredError"
  | AssetDeletedError => "AssetDeletedError"
  | CapacityExceededError => "CapacityExceededError"
  | QuotaExceededError _ => "QuotaExceededError"
  | UploadTooLargeError => "UploadTooLargeError"
  | RegistryUnavailableError => "RegistryUnavailableError"
  | WorkCapacityError => "WorkCapacityError"
  | CapabilityRateError _ => "CapabilityRateError"
  | PyValueError => "ValueError"
  | PyOverflowError => "OverflowError"
  | PyRuntimeError => "RuntimeError"
  | PyKeyError => "KeyError"
  | PyIndexError => "IndexError"
  | PyTypeError => "TypeError"
  | PyAttributeError => "AttributeError"
  | PydanticError => "ValidationError"
  | RequestValidationError => "RequestValidationError"
  | PgUniqueViolation => "UniqueViolation"
  | PgNumericValueOutOfRange => "NumericValueOutOfRange"
  | BackendFailure | OutsideModel => "Exception"
  | FetchError e =>
      match e with
      | InvalidRequestError => "InvalidRequestError"
      | ContentMismatchError => "ContentMismatchError"
      | UpstreamError => "UpstreamError"
      | UpstreamTimeoutError => "UpstreamTimeoutError"
      | PilotDeniedError => "PilotDeniedError"
      | CacheMissError => "CacheMissError"
      | CacheBackendError _ _ => "CacheBackendError"
      end
  | InvalidUrl => "InvalidUrl"
  | RuleConfigError => "RuleConfigError"
  | ClientError _ _ => "AssetStoreError"
  | BotoClientError _ _ => "ClientError"
  | ToolError e =>
      match e with
      | BulkLoadError => "BulkLoadError"
      | WorkerError _ => "WorkerError"
      | CsvError => "Error"
      | ConfigFailure => "ConfigFailure"
      | SmokeFailure _ => "SmokeFailure"
      end
  | HttpError e =>
      match e with
      | HttpxTimeoutException | HttpcoreTimeoutException => "TimeoutException"
      | HttpxHTTPError => "HTTPError"
      | HttpcoreConnectTimeout => "ConnectTimeout"
      | HttpcoreConnectError => "ConnectError"
      | HttpcoreNetworkError => "NetworkError"
      | HttpcoreProtocolError => "ProtocolError"
      end
  end.

(** [urn:asset-store:error:<name>] *)
Definition slug (name : string) : string := "urn:asset-store:error:" +:+ name.

(** A problem+json response: its status, body fields and [Retry-After] header. *)
Record problem := mk_problem {
  problem_type : string;
  problem_title : string;
  problem_status : Z;
  problem_scope : option string;
  problem_retry_after : option string
}.

Definition handle_domain (e : error) : problem :=
  let status := if is_asset_store_error e then default 500 (status_by_error e) else 500 in
  {| problem_type := slug (error_name e);
     problem_title := error_name e;
     problem_status := status;
     problem_scope := match e with QuotaExceededError scope => Some scope | _ => None end;
     problem_retry_after :=
       match e with
       | CapabilityRateError retry_after => Some (pretty retry_after)
       | CapacityExceededError => Some "60"
       | RegistryUnavailableError | CapabilityCapacityError | WorkCapacityError => Some "1"
       | _ => None
       end |}.

(** [handle_validation]: FastAPI refused a parameter or a body. *)
Definition handle_validation : problem :=
  mk_problem (slug "RequestValidationError") "RequestValidationError" 422 None None.

(** The answer to a request whose handler raised: without a handler for the
    exception the server answers 500. *)
Definition error_response (e : error) : problem :=
  if decide (e = RequestValidationError) then handle_validation
  else if is_asset_store_error e then handle_domain e
  else mk_problem "" "" 500 None None.

(** Every error of the domain hierarchy has its own client-visible answer: a
    4xx or 5xx status that is never the generic 500, a [Retry-After] header
    exactly when the client is told to come back (429 and 503), and the
    exceeded scope exactly on a quota error; any other exception answers 500. *)
Theorem problem_response (e : error) :
  let p := handle_domain e in
  (is_asset_store_error e = true ↔ 400 <= problem_status p < 600 ∧ problem_status p ≠ 500) ∧
  (is_Some (problem_retry_after p) ↔ problem_status p = 429 ∨ problem_status p = 503) ∧
  (is_Some (problem_scope p) ↔ ∃ scope, e = QuotaExceededError scope) ∧
  problem_type p = "urn:asset-store:error:" +:+ error_name e.
Proof.
  destruct e; cbn; split_and!; try done; split;
    try (intros [? [=]]); try (intros [[=]|[=]]); try done; try lia; eauto.
Qed.

(** What a computation that returns went through. *)
Lemma res_bind_Ok {A B} (m : res A) (k : A → res B) b : m ≫= k = Ok b → ∃ a, m = Ok a ∧ k a = Ok b.
Proof. destruct m as [a|e]; [by exists a|done]. Qed.
