(* ===== verification/Python.v ===== *)
(** * Values of the Python language

    What the program uses of [int], [float], [json], [datetime] and [str.encode]:
    decimal parsing, IEEE binary64 arithmetic (exact, through [SpecFloat]), decoded
    JSON documents, and the text of a UTC timestamp.  A [datetime] is its number of
    microseconds since the epoch, always in UTC. *)

From S2P Require Import Prelude Errors.
From Stdlib Require Import SpecFloat.
Export Corelib.Floats.SpecFloat (spec_float(..)).

(** ** [int(text)] *)

Definition digit_value (c : ascii) : option Z :=
  let n := Z.of_N (N_of_ascii c) in
  if (48 <=? n) && (n <=? 57) then Some (n - 48) else None.

(** The digits after a first one: a single underscore may separate two digits. *)
Fixpoint int_digits (acc : Z) (after_digit : bool) (s : string) : option Z :=
  match s with
  | EmptyString => if after_digit then Some acc else None
  | String c s' =>
      match digit_value c with
      | Some d => int_digits (10 * acc + d) true s'
      | None => if Ascii.eqb c "_"%char && after_digit then int_digits acc false s' else None
      end
  end.

Fixpoint count_digits (s : string) : Z :=
  match s with
  | EmptyString => 0
  | String c s' => (match digit_value c with Some _ => 1 | None => 0 end) + count_digits s'
  end.

(** [int(text)]: [None] stands for [ValueError], also raised beyond 4300 digits. *)
Definition py_int (text : string) : option Z :=
  let t := strip text in
  if 4300 <? count_digits t then None
  else match t with
       | String "-" s => Z.opp <$> int_digits 0 false s
       | String "+" s => int_digits 0 false s
       | _ => int_digits 0 false t
       end.

(** ** [str] methods *)

(** [s.lower()] on the code points below 256. *)
Definition lower_ascii (c : ascii) : ascii :=
  let n := N_of_ascii c in
  if ((65 <=? n) && (n <=? 90))%N || ((192 <=? n) && (n <=? 222) && negb (n =? 215))%N
  then ascii_of_N (n + 32) else c.

Fixpoint lower (s : string) : string :=
  match s with EmptyString => EmptyString | String c s' => String (lower_ascii c) (lower s') end.

(** ** [float]: binary64 *)

Definition prec : Z := 53.
Definition emax : Z := 1024.

(** [float(n)] for an [int]; too large an [int] raises [OverflowError]. *)
Definition float_of_int (n : Z) : res spec_float :=
  match binary_normalize prec emax n 0 false with
  | S754_infinity _ => Err PyOverflowError
  | f => Ok f
  end.

(** The correctly rounded quotient of two integers, [a / b] with [b <> 0]. *)
Definition float_quotient (a b : Z) : spec_float :=
  let of_Z z := match z with
                | Z0 => S754_zero false
                | Zpos p => S754_finite false p 0
                | Zneg p => S754_finite true p 0
                end in
  SFdiv prec emax (of_Z a) (of_Z b).

(** [n * f] for an [int] and a [float]. *)
Definition int_mul_float (n : Z) (f : spec_float) : res spec_float :=
  g ← float_of_int n; mret (SFmul prec emax g f).

(** [n >= f]: Python compares an [int] with a [float] exactly. *)
Definition int_ge_float (n : Z) (f : spec_float) : bool :=
  match f with
  | S754_nan => false
  | S754_infinity negative => negative
  | S754_zero _ => 0 <=? n
  | S754_finite negative m e =>
      let v := if negative then Zneg m else Zpos m in
      if 0 <=? e then v * 2 ^ e <=? n else v <=? n * 2 ^ (- e)
  end.

(** [n > f] and [n <= f], [f >= n]. *)
Definition int_gt_float (n : Z) (f : spec_float) : bool :=
  match f with
  | S754_nan => false
  | S754_infinity negative => negative
  | S754_zero _ => 0 <? n
  | S754_finite negative m e =>
      let v := if negative then Zneg m else Zpos m in
      if 0 <=? e then v * 2 ^ e <? n else v <? n * 2 ^ (- e)
  end.

Definition int_le_float (n : Z) (f : spec_float) : bool :=
  match f with S754_nan => false | _ => negb (int_gt_float n f) end.

Definition float_ge_int (f : spec_float) (n : Z) : bool := int_le_float n f.

(** [a / b] for two [int]s with [b <> 0]: a quotient out of range raises. *)
Definition int_true_div (a b : Z) : res spec_float :=
  match float_quotient a b with
  | S754_infinity _ => Err PyOverflowError
  | f => Ok f
  end.

(** [f * n] for a [float] and an [int]. *)
Definition float_mul_int (f : spec_float) (n : Z) : res spec_float :=
  g ← float_of_int n; mret (SFmul prec emax f g).

(** [max(0.0, f)]: the first of two equal arguments is kept. *)
Definition max_zero (f : spec_float) : spec_float :=
  if SFltb (S754_zero false) f then f else S754_zero false.

(** [0 < f <= 1] *)
Definition float_in_unit (f : spec_float) : bool :=
  SFltb (S754_zero false) f && SFleb f (S754_finite false 1 0).

(** [0 <= f < 1] *)
Definition float_below_one (f : spec_float) : bool :=
  SFleb (S754_zero false) f && SFltb f (S754_finite false 1 0).

(** ** Decoded JSON documents, as [json.loads] returns them *)

#[warnings="-register-all"]
Inductive json : Type :=
  | JNull
  | JBool (b : bool)
  | JInt (z : Z)
  | JFloat
  | JStr (s : string)
  | JArr (l : list json)
  | JObj (items : list (string * json)).

(** ** [str(datetime)]

    The proleptic Gregorian date of a day count, then
    [YYYY-MM-DD HH:MM:SS[.ffffff]+00:00]. *)

Definition usec_per_sec : Z := 1000000.
Definition usec_per_day : Z := 86400 * usec_per_sec.

(** [timedelta.total_seconds()], of a difference in microseconds. *)
Definition total_seconds (delta : Z) : spec_float := float_quotient delta usec_per_sec.

(** [datetime.max] in UTC. *)
Definition datetime_max : Z := 253402300799999999.

(** [instant + delta] for a [datetime] and a positive [timedelta]. *)
Definition datetime_add (instant delta : Z) : res Z :=
  if datetime_max <? instant + delta then Err PyOverflowError else mret (instant + delta).

Definition civil_of_days (days : Z) : Z * Z * Z :=
  let z := days + 719468 in
  let era := z / 146097 in
  let doe := z - era * 146097 in
  let yoe := (doe - doe / 1460 + doe / 36524 - doe / 146096) / 365 in
  let doy := doe - (365 * yoe + yoe / 4 - yoe / 100) in
  let mp := (5 * doy + 2) / 153 in
  let d := doy - (153 * mp + 2) / 5 + 1 in
  let m := if mp <? 10 then mp + 3 else mp - 9 in
  (yoe + era * 400 + (if m <=? 2 then 1 else 0), m, d).

(** [n] in decimal with [width] digits, for [0 <= n < 10 ^ width]. *)
Fixpoint pad (width : nat) (n : Z) : string :=
  match width with
  | O => ""
  | S width' => pad width' (n / 10) +:+ String (ascii_of_N (Z.to_N (48 + n mod 10))) ""
  end.

(** The date and the time of day around [separator]. *)
Definition isoformat_with (separator : string) (t : Z) : string :=
  let '(y, m, d) := civil_of_days (t / usec_per_day) in
  let us := t mod usec_per_day in
  let secs := us / usec_per_sec in
  let frac := us mod usec_per_sec in
  pad 4 y +:+ "-" +:+ pad 2 m +:+ "-" +:+ pad 2 d +:+ separator +:+
  pad 2 (secs / 3600) +:+ ":" +:+ pad 2 (secs / 60 mod 60) +:+ ":" +:+ pad 2 (secs mod 60) +:+
  (if frac =? 0 then "" else "." +:+ pad 6 frac) +:+ "+00:00".

Definition str_datetime (t : Z) : string := isoformat_with " " t.
Definition isoformat (t : Z) : string := isoformat_with "T" t.

(** [str(x)] of an optional value and of a [bool]. *)
Definition str_opt {A} (show : A → string) (o : option A) : string :=
  match o with Some a => show a | None => "None" end.

Definition str_bool (b : bool) : string := if b then "True" else "False".

(** [str(b).lower()] *)
Definition str_bool_lower (b : bool) : string := if b then "true" else "false".

(** [s.encode()]: UTF-8, as a list of byte values. *)
Fixpoint utf8_encode (s : string) : list Z :=
  match s with
  | EmptyString => []
  | String c s' =>
      let n := Z.of_N (N_of_ascii c) in
      (if n <? 128 then [n] else [192 + n / 64; 128 + n mod 64]) ++ utf8_encode s'
  end.

(** * Lemmas *)

(** Comparing an [int] with a [float] is monotone in the [int]. *)
Lemma int_ge_float_mono (n m : Z) (f : spec_float) :
  n <= m → int_ge_float n f = true → int_ge_float m f = true.
Proof.
  intros Hnm. destruct f as [| | |b p e]; cbn; [rewrite !Z.leb_le; lia|done|done|].
  destruct (0 <=? e) eqn:He; rewrite !Z.leb_le; [lia|].
  intros H. etransitivity; [exact H|]. apply Z.mul_le_mono_nonneg_r; [|done].
  apply Z.pow_nonneg. lia.
Qed.
