(* ===== verification/Effects.v ===== *)
(** * The effect monad

    A method of the program is a computation [M S A] over the state [S] of the
    object it belongs to: it reads the environment, advances the count [n] of
    clock readings and identifiers drawn so far, may update the state and either
    returns or raises.  As in Python, raising keeps the updates made before it. *)

From S2P Require Import Prelude Errors Python.

(** ** The environment

    [clock n] is the [n]-th reading of [utcnow()], in microseconds since the
    epoch, [new_uuid n] the [n]-th identifier of [uuid]; the last fields are the
    environment variables of [retention.py]: the raw
    [ASSET_STORE_RESULTS_MAX_TTL_SECONDS], the decoded [ASSET_STORE_CAPACITY_BYTES]
    ([None] when [json.loads] raises, [JObj []] when unset) and the parsed
    [ASSET_STORE_CAPACITY_HARD_RATIO] ([None] when [float] raises). *)

Class Env := {
  clock : nat → Z;
  new_uuid : nat → string;
  results_max_ttl_env : option string;
  capacity_env : option json;
  hard_ratio_env : option spec_float
}.

(** Identifiers never repeat. *)
Class FreshIds (E : Env) : Prop := fresh_ids :: Inj (=) (=) new_uuid.

(** Time never goes back. *)
Class ClockMono (E : Env) : Prop := clock_mono n m : (n <= m)%nat → clock n <= clock m.

(** Identifiers in the format of [str(uuid)]: no white space, no slash. *)
Class UuidFormat (E : Env) : Prop := {
  uuid_strip n : strip (new_uuid n) = new_uuid n;
  uuid_no_slash n : contains_char "/" (new_uuid n) = false;
  uuid_nonempty n : new_uuid n ≠ ""
}.

(** ** Computations *)

Definition M (S A : Type) : Type := nat → S → res A * nat * S.

#[export] Instance M_ret (S : Type) : MRet (M S) := λ A a n s, (Ok a, n, s).
#[export] Instance M_bind (S : Type) : MBind (M S) := λ A B k m n s,
  match m n s with
  | (Ok a, n', s') => k a n' s'
  | (Err e, n', s') => (Err e, n', s')
  end.

Section Primitives.
Context {E : Env} {S : Type}.

Definition raise {A} (e : error) : M S A := λ n s, (Err e, n, s).
Definition get_state : M S S := λ n s, (Ok s, n, s).
Definition modify (f : S → S) : M S unit := λ n s, (Ok tt, n, f s).
Definition of_res {A} (r : res A) : M S A := λ n s, (r, n, s).

(** [utcnow()] and [str(uuid...())] *)
Definition utcnow : M S Z := λ n s, (Ok (clock n), Datatypes.S n, s).
Definition draw_uuid : M S string := λ n s, (Ok (new_uuid n), Datatypes.S n, s).

(** [if b: raise e] *)
Definition raise_if (b : bool) (e : error) : M S unit := if b then raise e else mret tt.

(** [try: m except e: h(e)] *)
Definition catch {A} (m : M S A) (h : error → M S A) : M S A := λ n s,
  match m n s with
  | (Err e, n', s') => h e n' s'
  | ok => ok
  end.

(** [for x in l: f(x)] *)
Fixpoint for_each {X} (l : list X) (f : X → M S unit) : M S unit :=
  match l with
  | [] => mret tt
  | x :: l' => f x ;; for_each l' f
  end.
End Primitives.

(** A computation over a component of a larger state. *)
Definition zoom {S T A} (get : T → S) (set : S → T → T) (m : M S A) : M T A := λ n t,
  let '(r, n', s') := m n (get t) in (r, n', set s' t).

(** ** Weakest preconditions

    [wp m Q n s]: running [m] from [s] after [n] draws ends, returning or
    raising, in a result, count and state that satisfy [Q]. *)

Definition wp {S A} (m : M S A) (Q : res A → nat → S → Prop) (n : nat) (s : S) : Prop :=
  let '(r, n', s') := m n s in Q r n' s'.

Section Wp.
Context {E : Env} {S : Type}.
Implicit Types (n : nat) (s : S).

Lemma wp_run {A} (m : M S A) Q n s :
  wp m Q n s ↔ ∀ r n' s', m n s = (r, n', s') → Q r n' s'.
Proof.
  unfold wp. destruct (m n s) as [[r n'] s']. split; [by intros ? ??? [= <- <- <-]|].
  intros H. by apply H.
Qed.

(** Running a rule forwards. *)
Lemma wp_inv {A} (m : M S A) Q n s r n' s' : wp m Q n s → m n s = (r, n', s') → Q r n' s'.
Proof. intros Hw Hrun. by apply (proj1 (wp_run _ _ _ _) Hw). Qed.

Lemma wp_mono {A} (m : M S A) (Q Q' : res A → nat → S → Prop) n s :
  wp m Q n s → (∀ r n' s', Q r n' s' → Q' r n' s') → wp m Q' n s.
Proof. unfold wp. destruct (m n s) as [[r n'] s']. auto. Qed.

Lemma wp_and {A} (m : M S A) (Q Q' : res A → nat → S → Prop) n s :
  wp m Q n s → wp m Q' n s → wp m (λ r n' s', Q r n' s' ∧ Q' r n' s') n s.
Proof. unfold wp. destruct (m n s) as [[r n'] s']. auto. Qed.

Lemma wp_ret {A} (a : A) Q n s : Q (Ok a) n s → wp (mret a : M S A) Q n s.
Proof. done. Qed.

Lemma wp_raise {A} (e : error) Q n s : Q (Err e) n s → wp (raise e : M S A) Q n s.
Proof. done. Qed.

Lemma wp_bind {A B} (m : M S A) (k : A → M S B) Q n s :
  wp m (λ r n' s', match r with Ok a => wp (k a) Q n' s' | Err e => Q (Err e) n' s' end) n s →
  wp (m ≫= k) Q n s.
Proof.
  unfold wp, mbind, M_bind. destruct (m n s) as [[[a|e] n'] s']; done.
Qed.

Lemma wp_bind_assoc {A B C} (m : M S A) (f : A → M S B) (k : B → M S C) Q n s :
  wp ((m ≫= f) ≫= k) Q n s → wp (m ≫= λ a, f a ≫= k) Q n s.
Proof. unfold wp, mbind, M_bind. by destruct (m n s) as [[[a|e] n'] s']. Qed.

Lemma wp_get (Q : res S → nat → S → Prop) n s : Q (Ok s) n s → wp get_state Q n s.
Proof. done. Qed.

Lemma wp_modify f (Q : res unit → nat → S → Prop) n s :
  Q (Ok tt) n (f s) → wp (modify f) Q n s.
Proof. done. Qed.

Lemma wp_of_res {A} (r : res A) Q n s : Q r n s → wp (of_res r) Q n s.
Proof. done. Qed.

Lemma wp_utcnow Q n s : Q (Ok (clock n)) (Datatypes.S n) s → wp utcnow Q n s.
Proof. done. Qed.

Lemma wp_draw_uuid Q n s : Q (Ok (new_uuid n)) (Datatypes.S n) s → wp draw_uuid Q n s.
Proof. done. Qed.

Lemma wp_raise_if (b : bool) (e : error) (Q : res unit → nat → S → Prop) n s :
  (b = true → Q (Err e) n s) → (b = false → Q (Ok tt) n s) → wp (raise_if b e) Q n s.
Proof. destruct b; unfold wp; cbn; auto. Qed.

Lemma wp_catch {A} (m : M S A) (h : error → M S A) Q n s :
  wp m (λ r n' s', match r with Ok a => Q (Ok a) n' s' | Err e => wp (h e) Q n' s' end) n s →
  wp (catch m h) Q n s.
Proof. unfold wp, catch. destruct (m n s) as [[[a|e] n'] s']; done. Qed.

(** A loop keeps an invariant that every iteration keeps, whether it returns or
    raises; [I] sees the elements still to come. *)
Lemma wp_for_each {X} (l : list X) (f : X → M S unit) (I : list X → nat → S → Prop)
    (Q : res unit → nat → S → Prop) n s :
  (∀ x l' n s, I (x :: l') n s →
     wp (f x) (λ r n' s', match r with Ok _ => I l' n' s' | Err e => Q (Err e) n' s' end) n s) →
  (∀ n s, I [] n s → Q (Ok tt) n s) →
  I l n s → wp (for_each l f) Q n s.
Proof.
  intros Hstep Hend. revert n s. induction l as [|x l IH]; intros n s HI; cbn.
  - apply wp_ret. auto.
  - apply wp_bind. eapply wp_mono; [by apply Hstep|]. intros [[]|e] n' s'; auto.
Qed.

Lemma zoom_run {T A} (get : S → T) (set : T → S → S) (m : M T A) n s :
  zoom get set m n s = let '(r, n', t') := m n (get s) in (r, n', set t' s).
Proof. done. Qed.

Lemma wp_zoom {T A} (get : S → T) (set : T → S → S) (m : M T A) Q n s :
  wp m (λ r n' t', Q r n' (set t' s)) n (get s) → wp (zoom get set m) Q n s.
Proof. unfold wp, zoom. by destruct (m n (get s)) as [[r n'] t']. Qed.
End Wp.

(** ** Draws

    A computation only ever advances the count of draws. *)

Definition advances {S A} (m : M S A) : Prop := ∀ n s, wp m (λ _ n' _, (n <= n')%nat) n s.

Section Advances.
Context {E : Env} {S : Type}.

Lemma advances_ret {A} (a : A) : advances (mret a : M S A).
Proof. intros n s. unfold wp. cbn. lia. Qed.

Lemma advances_raise {A} (e : error) : advances (raise e : M S A).
Proof. intros n s. unfold wp. cbn. lia. Qed.

Lemma advances_get : advances (get_state : M S S).
Proof. intros n s. unfold wp. cbn. lia. Qed.

Lemma advances_modify (f : S → S) : advances (modify f).
Proof. intros n s. unfold wp. cbn. lia. Qed.

Lemma advances_of_res {A} (r : res A) : advances (of_res r : M S A).
Proof. intros n s. unfold wp. cbn. lia. Qed.

Lemma advances_raise_if (b : bool) (e : error) : advances (raise_if b e : M S unit).
Proof. intros n s. unfold wp. destruct b; cbn; lia. Qed.

Lemma advances_utcnow : advances (utcnow : M S Z).
Proof. intros n s. apply wp_utcnow. lia. Qed.

Lemma advances_draw_uuid : advances (draw_uuid : M S string).
Proof. intros n s. apply wp_draw_uuid. lia. Qed.

Lemma advances_bind {A B} (m : M S A) (k : A → M S B) :
  advances m → (∀ a, advances (k a)) → advances (m ≫= k).
Proof.
  intros Hm Hk n s. apply wp_bind. eapply wp_mono; [by apply Hm|]. intros [a|e] n' s' Hn; [|done].
  eapply wp_mono; [by apply Hk|]. cbn. intros _ n'' _ Hn'. lia.
Qed.

Lemma advances_catch {A} (m : M S A) (h : error → M S A) :
  advances m → (∀ e, advances (h e)) → advances (catch m h).
Proof.
  intros Hm Hh n s. apply wp_catch. eapply wp_mono; [by apply Hm|]. intros [a|e] n' s' Hn; [done|].
  eapply wp_mono; [by apply Hh|]. cbn. intros _ n'' _ Hn'. lia.
Qed.

Lemma advances_for_each {X} (l : list X) (f : X → M S unit) :
  (∀ x, advances (f x)) → advances (for_each l f).
Proof.
  intros Hf. induction l; cbn; [apply advances_ret|]. by apply advances_bind.
Qed.

Lemma advances_zoom {T A} (get : S → T) (set : T → S → S) (m : M T A) :
  advances m → advances (zoom get set m).
Proof. intros Hm n s. apply wp_zoom, Hm. Qed.
End Advances.

#[export] Hint Resolve advances_ret advances_raise advances_get advances_modify advances_of_res
  advances_raise_if advances_utcnow advances_draw_uuid : effects.

(** Descend through a computation; the hints settle its leaves. *)
Ltac solve_advances :=
  repeat lazymatch goal with
  | |- advances (_ ≫= _) => apply advances_bind; [|intros ?]
  | |- advances (catch _ _) => apply advances_catch; [|intros ?]
  | |- advances (for_each _ _) => apply advances_for_each; intros ?
  | |- advances (zoom _ _ _) => apply advances_zoom
  | |- advances (match ?x with _ => _ end) => destruct x
  | |- advances _ => solve [auto with effects]
  end.

(** One step of symbolic execution: expose the head operation of [wp]. *)
Ltac wp_step :=
  lazymatch goal with
  | |- wp (_ ≫= _) _ _ _ => apply wp_bind
  | |- wp (mret _) _ _ _ => apply wp_ret
  | |- wp (raise _) _ _ _ => apply wp_raise
  | |- wp get_state _ _ _ => apply wp_get
  | |- wp (modify _) _ _ _ => apply wp_modify
  | |- wp (of_res _) _ _ _ => apply wp_of_res
  | |- wp utcnow _ _ _ => apply wp_utcnow
  | |- wp draw_uuid _ _ _ => apply wp_draw_uuid
  | |- wp (raise_if _ _) _ _ _ => apply wp_raise_if; intros ?
  | |- wp (if ?b then _ else _) _ _ _ => destruct b eqn:?
  | |- wp (match ?x with _ => _ end) _ _ _ => destruct x eqn:?
  | |- wp (let '(_, _) := ?x in _) _ _ _ => destruct x eqn:?
  end; cbv beta.

Ltac wp_steps := repeat (wp_step; cbv beta iota).

(** ** What a computation preserves

    [preserves I R m]: from a state in the invariant [I], which draws may only weaken,
    [m] ends in [I], whether it returns or raises, and the state before and the
    state after are related by the preorder [R].  The rules below follow the
    structure of a computation; the data base [preserves] settles its leaves. *)

Section Preserves.
Context {E : Env} {S : Type} (I : nat → S → Prop) (R : S → S → Prop).

Definition preserves {A} (m : M S A) : Prop := ∀ n s, I n s →
  wp m (λ _ n' s', (n <= n')%nat ∧ I n' s' ∧ R s s') n s.

Context (frame : PreOrder R ∧ ∀ n n' s, (n <= n')%nat → I n s → I n' s).

Lemma preserves_same {A} (m : M S A) : (∀ n s, wp m (λ _ n' s', (n <= n')%nat ∧ s' = s) n s) → preserves m.
Proof using Type*.
  destruct frame as [Hrefl Hmono]. intros Hm n s HI. eapply wp_mono; [apply Hm|]. intros r n' s' [Hn ->].
  split_and!; [done|by eapply Hmono|reflexivity].
Qed.

Lemma preserves_ret {A} (a : A) : preserves (mret a).
Proof using Type*. apply preserves_same. intros n s. by apply wp_ret. Qed.
Lemma preserves_raise {A} e : preserves (raise e : M S A).
Proof using Type*. apply preserves_same. intros n s. by apply wp_raise. Qed.
Lemma preserves_of_res {A} (r : res A) : preserves (of_res r).
Proof using Type*. apply preserves_same. intros n s. by apply wp_of_res. Qed.
Lemma preserves_raise_if b e : preserves (raise_if b e).
Proof using Type*. apply preserves_same. intros n s. by apply wp_raise_if. Qed.
Lemma preserves_utcnow : preserves utcnow.
Proof using Type*. apply preserves_same. intros n s. apply wp_utcnow. split; [lia|done]. Qed.
Lemma preserves_draw_uuid : preserves draw_uuid.
Proof using Type*. apply preserves_same. intros n s. apply wp_draw_uuid. split; [lia|done]. Qed.

Lemma preserves_bind {A B} (m : M S A) (k : A → M S B) : preserves m → (∀ a, preserves (k a)) → preserves (m ≫= k).
Proof using Type*.
  destruct frame as [Htrans _]. intros Hm Hk n s HI. apply wp_bind. eapply wp_mono; [by apply Hm|].
  intros [a|e] n1 s1 (Hn1 & HI1 & HR1); [|done]. eapply wp_mono; [by apply Hk|].
  intros r n2 s2 (Hn2 & HI2 & HR2). split_and!; [lia|done|by etrans].
Qed.

Lemma preserves_get {A} (k : S → M S A) : (∀ s, preserves (k s)) → preserves (get_state ≫= k).
Proof using Type*. intros Hk n s HI. apply wp_bind, wp_get. by apply Hk. Qed.

Lemma preserves_modify f : (∀ n s, I n s → I n (f s) ∧ R s (f s)) → preserves (modify f).
Proof using Type*. intros Hf n s HI. apply wp_modify. split; [done|by apply Hf]. Qed.

Lemma preserves_catch {A} (m : M S A) (h : error → M S A) : preserves m → (∀ e, preserves (h e)) → preserves (catch m h).
Proof using Type*.
  destruct frame as [Htrans _]. intros Hm Hh n s HI. apply wp_catch. eapply wp_mono; [by apply Hm|].
  intros [a|e] n1 s1 (Hn1 & HI1 & HR1); [done|]. eapply wp_mono; [by apply Hh|].
  intros r n2 s2 (Hn2 & HI2 & HR2). split_and!; [lia|done|by etrans].
Qed.

(** A computation over a component. *)
Lemma preserves_zoom {T A} (get : S → T) (set : T → S → S) (m : M T A) :
  (∀ n s, I n s → wp m (λ _ n' t', (n <= n')%nat ∧ I n' (set t' s) ∧ R s (set t' s)) n (get s)) →
  preserves (zoom get set m).
Proof using Type*. intros Hm n s HI. apply wp_zoom. by apply Hm. Qed.
End Preserves.

Create HintDb preserves.

(** Descend through a computation; [frame] proves that draws
    weaken the invariant and that the relation is a preorder. *)
Ltac solve_preserves frame :=
  repeat lazymatch goal with
  | |- preserves _ _ (get_state ≫= _) => apply preserves_get; [frame|intros ?]
  | |- preserves _ _ (_ ≫= _) => apply preserves_bind; [frame| |intros ?]
  | |- preserves _ _ (catch _ _) => apply preserves_catch; [frame| |intros ?]
  | |- preserves _ _ (mret _) => apply preserves_ret; frame
  | |- preserves _ _ (raise _) => apply preserves_raise; frame
  | |- preserves _ _ (of_res _) => apply preserves_of_res; frame
  | |- preserves _ _ (raise_if _ _) => apply preserves_raise_if; frame
  | |- preserves _ _ utcnow => apply preserves_utcnow; frame
  | |- preserves _ _ draw_uuid => apply preserves_draw_uuid; frame
  | |- preserves _ _ (match ?x with _ => _ end) => destruct x
  | |- preserves _ _ _ => solve [auto with preserves]
  end.
