(* ===== verification/Paths.v ===== *)
(** * Canonical paths and storage keys

    [asset_store_core/paths.py]: validation of bucket names and alias paths, and
    the qualified alias [bucket/path] that keys the registry and scopes
    capabilities.  [asset_store_core/storage.py]: the object key of an asset. *)

From S2P Require Import Prelude Errors.

(** ** paths.py *)

Definition STORAGE_BUCKETS : list string := ["cache"; "tmp"; "users"; "results"].

Definition normalize_bucket (bucket : string) : res string :=
  let name := strip_slashes (strip bucket) in
  if decide (name = "") then Err ValidationError
  else if contains_char "/" name then Err ValidationError
  else if mem name ["."; ".."] then Err ValidationError
  else if negb (mem name STORAGE_BUCKETS) then Err ValidationError
  else Ok name.

Definition normalize_space (space : string) : res string := normalize_bucket space.

Definition invalid_segment (part : string) : bool := mem part [""; "."; ".."].

Definition normalize_relative_alias (alias : string) : res string :=
  let a := strip_slashes (strip alias) in
  if decide (a = "") then Err ValidationError
  else if existsb invalid_segment (split_on "/" a) then Err ValidationError
  else Ok a.

Definition normalize_partition_id (partition_id : string) : res string :=
  normalize_relative_alias partition_id.

Definition qualified_alias (space alias : string) : res string :=
  s ← normalize_space space;
  a ← normalize_relative_alias alias;
  mret (s +:+ String "/" a).

Definition qualified_alias_for_partition (space partition_id relative_alias : string) : res string :=
  p ← normalize_partition_id partition_id;
  a ← normalize_relative_alias relative_alias;
  qualified_alias space (p +:+ String "/" a).

(** ** storage.py *)

Definition build_storage_key (partition_id asset_id : string) : res string :=
  pid ← normalize_partition_id partition_id;
  let aid := strip asset_id in
  if decide (aid = "") then Err ValidationError
  else mret (pid +:+ "/assets/" +:+ aid).

Record ObjectStoreLocation := mk_location { loc_bucket : string; loc_key : string }.

#[export] Instance location_eq_dec : EqDecision ObjectStoreLocation.
Proof. solve_decision. Defined.

Definition for_asset (space partition_id asset_id : string) : res ObjectStoreLocation :=
  bucket ← normalize_bucket space;
  key ← build_storage_key partition_id asset_id;
  mret (mk_location bucket key).

(** ** What a normalised path is *)

(** A path of at least one segment, none of them empty, [.] or [..]. *)
Definition valid_path (a : string) : Prop :=
  a ≠ "" ∧ Forall (λ part, part ≠ "" ∧ part ≠ "." ∧ part ≠ "..") (split_on "/" a).

(** * Lemmas *)

Lemma invalid_segment_false (part : string) :
  invalid_segment part = false ↔ part ≠ "" ∧ part ≠ "." ∧ part ≠ "..".
Proof. unfold invalid_segment. rewrite mem_false. set_solver. Qed.

Lemma existsb_invalid_false (l : list string) :
  existsb invalid_segment l = false ↔ Forall (λ part, part ≠ "" ∧ part ≠ "." ∧ part ≠ "..") l.
Proof.
  induction l as [|x l IH]; cbn; [split; [by constructor|done]|].
  by rewrite orb_false_iff, IH, invalid_segment_false, Forall_cons.
Qed.

Lemma normalize_relative_alias_Ok (alias a : string) :
  normalize_relative_alias alias = Ok a ↔ a = strip_slashes (strip alias) ∧ valid_path a.
Proof.
  unfold normalize_relative_alias, valid_path. rewrite <- existsb_invalid_false.
  split; intros H.
  - split_tests. destruct (existsb _ _) eqn:?; simplify_eq. done.
  - destruct H as (-> & H & ->). by rewrite decide_False.
Qed.

Lemma normalize_relative_alias_valid (alias a : string) :
  normalize_relative_alias alias = Ok a → valid_path a.
Proof. by intros [_ ?]%normalize_relative_alias_Ok. Qed.

Lemma normalize_bucket_member (bucket name : string) :
  normalize_bucket bucket = Ok name → name ∈ STORAGE_BUCKETS.
Proof.
  unfold normalize_bucket. intros H. split_tests. split_ifs.
  by rewrite <- mem_true; apply negb_false_iff.
Qed.

Lemma normalize_bucket_fix (name : string) :
  name ∈ STORAGE_BUCKETS → normalize_bucket name = Ok name.
Proof.
  unfold STORAGE_BUCKETS. rewrite !elem_of_cons, elem_of_nil.
  intros [->|[->|[->|[->|[]]]]]; by vm_compute.
Qed.

Lemma bucket_no_slash (name : string) :
  name ∈ STORAGE_BUCKETS → contains_char "/" name = false.
Proof.
  unfold STORAGE_BUCKETS. rewrite !elem_of_cons, elem_of_nil.
  intros [->|[->|[->|[->|[]]]]]; by vm_compute.
Qed.

Lemma qualified_alias_Ok (space alias q : string) :
  qualified_alias space alias = Ok q ↔
  ∃ s a, normalize_space space = Ok s ∧ normalize_relative_alias alias = Ok a ∧
         q = s +:+ String "/" a.
Proof.
  unfold qualified_alias, mbind, res_bind.
  destruct (normalize_space space) as [s|]; [|naive_solver].
  destruct (normalize_relative_alias alias) as [a|]; cbn; [|naive_solver].
  split; [intros [= <-]; by exists s, a|]. intros (? & ? & [= <-] & [= <-] & ->). done.
Qed.

Lemma build_storage_key_Ok (partition_id asset_id k : string) :
  build_storage_key partition_id asset_id = Ok k ↔
  ∃ p, normalize_partition_id partition_id = Ok p ∧ strip asset_id ≠ "" ∧
       k = p +:+ "/assets/" +:+ strip asset_id.
Proof.
  unfold build_storage_key, mbind, res_bind.
  destruct (normalize_partition_id partition_id) as [p|]; [|naive_solver].
  destruct (decide (strip asset_id = "")); [naive_solver|].
  split; [intros [= <-]; by exists p|]. by intros (? & [= <-] & _ & ->).
Qed.

#[export] Hint Resolve normalize_bucket_fix normalize_bucket_member bucket_no_slash
  normalize_relative_alias_valid : paths.

(** ** Stability of clean paths *)

Fixpoint last_char (s : string) : option ascii :=
  match s with
  | EmptyString => None
  | String c EmptyString => Some c
  | String _ s' => last_char s'
  end.

Lemma rstrip_by_fix (p : ascii → bool) (s : string) :
  rstrip_by p s = s ↔ match last_char s with Some c => p c = false | None => True end.
Proof.
  induction s as [|c s IH]; [done|]. rewrite rstrip_by_cons.
  destruct s as [|d s]; [cbn; by destruct (p c)|].
  change (last_char (String c (String d s))) with (last_char (String d s)).
  rewrite <- IH. destruct (rstrip_by p (String d s)) as [|e t].
  - destruct (p c); split; intros H; [discriminate|discriminate|discriminate|discriminate].
  - split; congruence.
Qed.

Lemma last_char_app (s : string) (c : ascii) :
  last_char s = Some c → ∃ t, s = t +:+ String c "".
Proof.
  induction s as [|d s IH]; [done|]. destruct s as [|e s].
  - intros [= ->]. by exists "".
  - intros [t Ht]%IH. exists (String d t). cbn. by rewrite Ht.
Qed.

(** Slashes at the ends of a string are empty segments of it. *)
Lemma valid_path_strip_slashes (a : string) : valid_path a → strip_slashes a = a.
Proof.
  intros [Hne Hseg]. unfold strip_slashes, strip_by.
  assert (Hl : lstrip_by is_slash a = a).
  { apply lstrip_by_fix. destruct a as [|c a]; [done|]. unfold is_slash.
    destruct (Ascii.eqb_spec c "/"%char) as [->|]; [|done].
    cbn in Hseg. apply Forall_cons in Hseg as [[? _] _]. done. }
  rewrite Hl. apply rstrip_by_fix. destruct (last_char a) as [c|] eqn:Hlast; [|done].
  unfold is_slash. destruct (Ascii.eqb_spec c "/"%char) as [->|]; [|done].
  apply last_char_app in Hlast as [t ->]. rewrite split_on_app, Forall_app in Hseg.
  destruct Hseg as [_ Hseg]. cbn in Hseg. apply Forall_cons in Hseg as [[? _] _]. done.
Qed.

(** A valid path without white space at its ends is its own normal form. *)
Lemma normalize_relative_alias_fix (a : string) :
  valid_path a → strip a = a → normalize_relative_alias a = Ok a.
Proof.
  intros Hv Hs. apply normalize_relative_alias_Ok. by rewrite Hs, valid_path_strip_slashes.
Qed.

Lemma valid_path_app (a b : string) :
  valid_path a → valid_path b → valid_path (a +:+ String "/" b).
Proof.
  intros [Ha Hsa] [Hb Hsb]. split; [by destruct a|].
  rewrite split_on_app. by apply Forall_app.
Qed.

#[export] Hint Resolve normalize_relative_alias_fix valid_path_app : paths.

(** A text without white space at its ends that is not empty. *)
Definition clean (s : string) : Prop := s ≠ "" ∧ strip s = s.

Lemma clean_ends s :
  clean s ↔ s ≠ "" ∧ match s with EmptyString => True | String c _ => is_space c = false end ∧
    match last_char s with Some c => is_space c = false | None => True end.
Proof.
  unfold clean, strip, strip_by. rewrite <- lstrip_by_fix, <- rstrip_by_fix. split; [|by intros (? & -> & ->)].
  intros [Hne H]. split; [done|]. pose proof (lstrip_by_length is_space s) as Hl.
  assert (Hl' : (String.length (rstrip_by is_space (lstrip_by is_space s)) <= String.length (lstrip_by is_space s))%nat).
  { clear. generalize (lstrip_by is_space s). induction s0 as [|c s0 IH]; [done|].
    rewrite rstrip_by_cons. destruct (rstrip_by is_space s0); cbn in *; [destruct (is_space c); cbn; lia|lia]. }
  assert (Hfix : lstrip_by is_space s = s).
  { rewrite H in Hl'. destruct s as [|c s]; [done|]. cbn in *. destruct (is_space c); [|done].
    pose proof (lstrip_by_length is_space s). lia. }
  rewrite Hfix in H. done.
Qed.

Lemma last_char_concat s t : t ≠ "" → last_char (s +:+ t) = last_char t.
Proof.
  intros Ht. induction s as [|c s IH]; [done|]. rewrite app_str_cons.
  change (last_char (String c (s +:+ t))) with
    (match s +:+ t with EmptyString => Some c | String _ _ => last_char (s +:+ t) end).
  rewrite IH. by destruct s, t.
Qed.

Lemma clean_concat s m t : clean s → clean t → clean (s +:+ m +:+ t).
Proof.
  rewrite !clean_ends. intros (Hs & Hs1 & _) (Ht & _ & Ht2). destruct s as [|c s]; [done|].
  split_and!; [done|done|]. rewrite app_str_assoc, last_char_concat by done. done.
Qed.

(** A path that is its own normal form is clean, and joining two such paths with a
    slash gives another. *)
Lemma normalize_stable_clean (a : string) : normalize_relative_alias a = Ok a → clean a.
Proof.
  intros [Heq [Hne _]]%normalize_relative_alias_Ok. split; [done|]. apply strip_by_length_fix.
  pose proof (strip_by_length is_slash (strip a)) as H. unfold strip_slashes in Heq. rewrite <- Heq in H. exact H.
Qed.

Lemma normalize_join (a b : string) :
  normalize_relative_alias a = Ok a → normalize_relative_alias b = Ok b →
  normalize_relative_alias (a +:+ "/" +:+ b) = Ok (a +:+ "/" +:+ b).
Proof.
  intros Ha Hb. apply normalize_relative_alias_fix; [apply valid_path_app; eauto with paths|].
  apply clean_concat; by apply normalize_stable_clean.
Qed.

Lemma build_storage_key_inj (p1 a1 p2 a2 k : string) :
  contains_char "/" (strip a1) = false → contains_char "/" (strip a2) = false →
  build_storage_key p1 a1 = Ok k → build_storage_key p2 a2 = Ok k →
  normalize_partition_id p1 = normalize_partition_id p2 ∧ strip a1 = strip a2.
Proof.
  intros Ha1 Ha2 (q1 & Hp1 & _ & ->)%build_storage_key_Ok (q2 & Hp2 & _ & Heq)%build_storage_key_Ok.
  rewrite Hp1, Hp2. apply (f_equal (split_on "/")) in Heq. revert Heq.
  change ("/assets/" +:+ strip a1) with (String "/" ("assets" +:+ String "/" (strip a1))).
  change ("/assets/" +:+ strip a2) with (String "/" ("assets" +:+ String "/" (strip a2))).
  rewrite !split_on_app, !(split_on_clean "/" (strip _)), !app_assoc by done.
  intros [[Heq _]%app_inj_tail ->]%app_inj_tail.
  by apply split_on_inj in Heq as ->.
Qed.

(** * Properties *)

(** Every qualified alias the registry uses as a key is a storage bucket
    followed by at least one segment, and no segment is empty, [.] or [..]: no
    alias can name a path outside its bucket, and the key has one spelling. *)
Theorem qualified_alias_confined (space alias q : string) :
  qualified_alias space alias = Ok q →
  ∃ bucket segments,
    split_on "/" q = bucket :: segments ∧ bucket ∈ STORAGE_BUCKETS ∧ segments ≠ [] ∧
    Forall (λ part, part ≠ "" ∧ part ≠ "." ∧ part ≠ "..") segments.
Proof.
  intros (s & a & Hs%normalize_bucket_member & [_ [Hne Hseg]]%normalize_relative_alias_Ok & ->)
    %qualified_alias_Ok.
  exists s, (split_on "/" a). rewrite split_on_app, split_on_clean by auto with paths.
  repeat split; [done|apply split_on_nonnil|done].
Qed.

Lemma qualified_alias_confined_witness :
  qualified_alias " /cache/ " "p1/iiif//../x" = Err ValidationError ∧
  ∃ bucket segments,
    split_on "/" "cache/p1/img/a.jpg" = bucket :: segments ∧ bucket ∈ STORAGE_BUCKETS ∧
    segments ≠ [] ∧ Forall (λ part, part ≠ "" ∧ part ≠ "." ∧ part ≠ "..") segments.
Proof.
  split; [by vm_compute|].
  apply (qualified_alias_confined " cache/ " "/p1/img/a.jpg/"). by vm_compute.
Defined.

(** A qualified alias determines its bucket and its normalised path: two
    requests get the same registry key only when both parts agree. *)
Theorem qualified_alias_injective (space1 alias1 space2 alias2 q : string) :
  qualified_alias space1 alias1 = Ok q → qualified_alias space2 alias2 = Ok q →
  normalize_space space1 = normalize_space space2 ∧
  normalize_relative_alias alias1 = normalize_relative_alias alias2.
Proof.
  intros (s1 & a1 & Hs1 & Ha1 & ->)%qualified_alias_Ok (s2 & a2 & Hs2 & Ha2 & Heq)%qualified_alias_Ok.
  rewrite Hs1, Hs2, Ha1, Ha2. unfold normalize_space in *.
  apply (f_equal (partition_on "/")) in Heq.
  rewrite !partition_on_app in Heq by eauto with paths. by injection Heq as -> ->.
Qed.

Lemma qualified_alias_injective_witness :
  normalize_space "cache" = normalize_space "/cache" ∧
  normalize_relative_alias "p/x " = normalize_relative_alias "/p/x".
Proof.
  apply (qualified_alias_injective "cache" "p/x " "/cache" "/p/x" "cache/p/x"); by vm_compute.
Defined.

(** Object keys keep assets apart: when neither identifier contains a slash,
    two assets share an object key only if they have the same identifier and
    the same normalised partition. *)
Theorem build_storage_key_injective (p1 a1 p2 a2 k : string) :
  contains_char "/" (strip a1) = false → contains_char "/" (strip a2) = false →
  build_storage_key p1 a1 = Ok k → build_storage_key p2 a2 = Ok k →
  normalize_partition_id p1 = normalize_partition_id p2 ∧ strip a1 = strip a2.
Proof. apply build_storage_key_inj. Qed.

Lemma build_storage_key_injective_witness :
  normalize_partition_id "m1/" = normalize_partition_id "m1" ∧ strip "id7 " = strip "id7".
Proof. apply (build_storage_key_injective "m1/" "id7 " "m1" "id7" "m1/assets/id7"); by vm_compute. Defined.

(** Normalising is not idempotent: white space that a first pass uncovers behind a
    slash is removed by a second one. *)
Theorem normalize_relative_alias_not_idempotent :
  normalize_relative_alias "/ p" = Ok " p" ∧ normalize_relative_alias " p" = Ok "p" ∧
  normalize_relative_alias "/ /. /" = Ok " /. " ∧
  normalize_relative_alias " /. " = Err ValidationError.
Proof. repeat split; by vm_compute. Qed.
