(* ===== verification/Models.v ===== *)
(** * Data model

    The dataclasses of [asset_store_core/models.py].  Field [f] of [Asset] is
    [a_f], of [AliasBinding] [b_f], of [AuditEvent] [ev_f], of [PartitionQuota]
    [pq_f], of [BucketQuota] [bq_f].  The dataclasses are frozen: a change is a
    [Replace] of a field, written [x <| f := v |>]. *)

From S2P Require Import Prelude Errors Python Paths.

Inductive AssetState := PENDING | AVAILABLE | EXPIRED | DELETED.

#[export] Instance AssetState_eq_dec : EqDecision AssetState.
Proof. solve_decision. Defined.

(** [AssetState.value] *)
Definition state_value (s : AssetState) : string :=
  match s with
  | PENDING => "pending"
  | AVAILABLE => "available"
  | EXPIRED => "expired"
  | DELETED => "deleted"
  end.

Inductive EvictionPolicy := INHERIT | EXEMPT.

#[export] Instance EvictionPolicy_eq_dec : EqDecision EvictionPolicy.
Proof. solve_decision. Defined.

(** [EvictionPolicy.value] *)
Definition eviction_value (p : EvictionPolicy) : string :=
  match p with INHERIT => "inherit" | EXEMPT => "exempt" end.

Record AliasBinding := mk_binding {
  b_space : string;
  b_alias : string;
  b_asset_id : option string;
  b_mutable : bool;
  b_previous_asset_id : option string;
  b_created_at : Z;
  b_updated_at : Z;
  b_created_by_service_id : string
}.

#[export] Instance replace_b_asset_id : Replace b_asset_id := λ v r,
  mk_binding (b_space r) (b_alias r) v (b_mutable r) (b_previous_asset_id r) (b_created_at r)
    (b_updated_at r) (b_created_by_service_id r).
#[export] Instance replace_b_previous_asset_id : Replace b_previous_asset_id := λ v r,
  mk_binding (b_space r) (b_alias r) (b_asset_id r) (b_mutable r) v (b_created_at r)
    (b_updated_at r) (b_created_by_service_id r).
#[export] Instance replace_b_updated_at : Replace b_updated_at := λ v r,
  mk_binding (b_space r) (b_alias r) (b_asset_id r) (b_mutable r) (b_previous_asset_id r)
    (b_created_at r) v (b_created_by_service_id r).

(** [AliasBinding.qualified_alias], recomputed from the two parts. *)
Definition b_qualified_alias (b : AliasBinding) : res string :=
  qualified_alias (b_space b) (b_alias b).

Record Asset := mk_asset {
  a_asset_id : string;
  a_space : string;
  a_partition_id : string;
  a_storage_key : string;
  a_state : AssetState;
  a_aliases : gset string;
  a_mime : option string;
  a_size_bytes : option Z;
  a_reserved_bytes : option Z;
  a_checksum_algo : string;
  a_checksum : option string;
  a_annotations : gmap string string;
  a_created_at : Z;
  a_updated_at : Z;
  a_expires_at : option Z;
  a_expired_at : option Z;
  a_last_read_at : option Z;
  a_read_count : Z;
  a_payload_deleted_at : option Z;
  a_owner_service_id : string;
  a_eviction_policy : EvictionPolicy
}.

#[export] Instance replace_a_state : Replace a_state := λ v r,
  mk_asset (a_asset_id r) (a_space r) (a_partition_id r) (a_storage_key r) v (a_aliases r)
    (a_mime r) (a_size_bytes r) (a_reserved_bytes r) (a_checksum_algo r)
    (a_checksum r) (a_annotations r) (a_created_at r) (a_updated_at r)
    (a_expires_at r) (a_expired_at r) (a_last_read_at r) (a_read_count r)
    (a_payload_deleted_at r) (a_owner_service_id r) (a_eviction_policy r).
#[export] Instance replace_a_aliases : Replace a_aliases := λ v r,
  mk_asset (a_asset_id r) (a_space r) (a_partition_id r) (a_storage_key r) (a_state r) v
    (a_mime r) (a_size_bytes r) (a_reserved_bytes r) (a_checksum_algo r)
    (a_checksum r) (a_annotations r) (a_created_at r) (a_updated_at r)
    (a_expires_at r) (a_expired_at r) (a_last_read_at r) (a_read_count r)
    (a_payload_deleted_at r) (a_owner_service_id r) (a_eviction_policy r).
#[export] Instance replace_a_mime : Replace a_mime := λ v r,
  mk_asset (a_asset_id r) (a_space r) (a_partition_id r) (a_storage_key r) (a_state r)
    (a_aliases r) v (a_size_bytes r) (a_reserved_bytes r) (a_checksum_algo r)
    (a_checksum r) (a_annotations r) (a_created_at r) (a_updated_at r)
    (a_expires_at r) (a_expired_at r) (a_last_read_at r) (a_read_count r)
    (a_payload_deleted_at r) (a_owner_service_id r) (a_eviction_policy r).
#[export] Instance replace_a_size_bytes : Replace a_size_bytes := λ v r,
  mk_asset (a_asset_id r) (a_space r) (a_partition_id r) (a_storage_key r) (a_state r)
    (a_aliases r) (a_mime r) v (a_reserved_bytes r) (a_checksum_algo r)
    (a_checksum r) (a_annotations r) (a_created_at r) (a_updated_at r)
    (a_expires_at r) (a_expired_at r) (a_last_read_at r) (a_read_count r)
    (a_payload_deleted_at r) (a_owner_service_id r) (a_eviction_policy r).
#[export] Instance replace_a_reserved_bytes : Replace a_reserved_bytes := λ v r,
  mk_asset (a_asset_id r) (a_space r) (a_partition_id r) (a_storage_key r) (a_state r)
    (a_aliases r) (a_mime r) (a_size_bytes r) v (a_checksum_algo r) (a_checksum r)
    (a_annotations r) (a_created_at r) (a_updated_at r) (a_expires_at r)
    (a_expired_at r) (a_last_read_at r) (a_read_count r) (a_payload_deleted_at r)
    (a_owner_service_id r) (a_eviction_policy r).
#[export] Instance replace_a_checksum : Replace a_checksum := λ v r,
  mk_asset (a_asset_id r) (a_space r) (a_partition_id r) (a_storage_key r) (a_state r)
    (a_aliases r) (a_mime r) (a_size_bytes r) (a_reserved_bytes r)
    (a_checksum_algo r) v (a_annotations r) (a_created_at r) (a_updated_at r)
    (a_expires_at r) (a_expired_at r) (a_last_read_at r) (a_read_count r)
    (a_payload_deleted_at r) (a_owner_service_id r) (a_eviction_policy r).
#[export] Instance replace_a_annotations : Replace a_annotations := λ v r,
  mk_asset (a_asset_id r) (a_space r) (a_partition_id r) (a_storage_key r) (a_state r)
    (a_aliases r) (a_mime r) (a_size_bytes r) (a_reserved_bytes r)
    (a_checksum_algo r) (a_checksum r) v (a_created_at r) (a_updated_at r)
    (a_expires_at r) (a_expired_at r) (a_last_read_at r) (a_read_count r)
    (a_payload_deleted_at r) (a_owner_service_id r) (a_eviction_policy r).
#[export] Instance replace_a_updated_at : Replace a_updated_at := λ v r,
  mk_asset (a_asset_id r) (a_space r) (a_partition_id r) (a_storage_key r) (a_state r)
    (a_aliases r) (a_mime r) (a_size_bytes r) (a_reserved_bytes r)
    (a_checksum_algo r) (a_checksum r) (a_annotations r) (a_created_at r) v
    (a_expires_at r) (a_expired_at r) (a_last_read_at r) (a_read_count r)
    (a_payload_deleted_at r) (a_owner_service_id r) (a_eviction_policy r).
#[export] Instance replace_a_expires_at : Replace a_expires_at := λ v r,
  mk_asset (a_asset_id r) (a_space r) (a_partition_id r) (a_storage_key r) (a_state r)
    (a_aliases r) (a_mime r) (a_size_bytes r) (a_reserved_bytes r)
    (a_checksum_algo r) (a_checksum r) (a_annotations r) (a_created_at r)
    (a_updated_at r) v (a_expired_at r) (a_last_read_at r) (a_read_count r)
    (a_payload_deleted_at r) (a_owner_service_id r) (a_eviction_policy r).
#[export] Instance replace_a_expired_at : Replace a_expired_at := λ v r,
  mk_asset (a_asset_id r) (a_space r) (a_partition_id r) (a_storage_key r) (a_state r)
    (a_aliases r) (a_mime r) (a_size_bytes r) (a_reserved_bytes r)
    (a_checksum_algo r) (a_checksum r) (a_annotations r) (a_created_at r)
    (a_updated_at r) (a_expires_at r) v (a_last_read_at r) (a_read_count r)
    (a_payload_deleted_at r) (a_owner_service_id r) (a_eviction_policy r).
#[export] Instance replace_a_last_read_at : Replace a_last_read_at := λ v r,
  mk_asset (a_asset_id r) (a_space r) (a_partition_id r) (a_storage_key r) (a_state r)
    (a_aliases r) (a_mime r) (a_size_bytes r) (a_reserved_bytes r)
    (a_checksum_algo r) (a_checksum r) (a_annotations r) (a_created_at r)
    (a_updated_at r) (a_expires_at r) (a_expired_at r) v (a_read_count r)
    (a_payload_deleted_at r) (a_owner_service_id r) (a_eviction_policy r).
#[export] Instance replace_a_read_count : Replace a_read_count := λ v r,
  mk_asset (a_asset_id r) (a_space r) (a_partition_id r) (a_storage_key r) (a_state r)
    (a_aliases r) (a_mime r) (a_size_bytes r) (a_reserved_bytes r)
    (a_checksum_algo r) (a_checksum r) (a_annotations r) (a_created_at r)
    (a_updated_at r) (a_expires_at r) (a_expired_at r) (a_last_read_at r) v
    (a_payload_deleted_at r) (a_owner_service_id r) (a_eviction_policy r).
#[export] Instance replace_a_payload_deleted_at : Replace a_payload_deleted_at := λ v r,
  mk_asset (a_asset_id r) (a_space r) (a_partition_id r) (a_storage_key r) (a_state r)
    (a_aliases r) (a_mime r) (a_size_bytes r) (a_reserved_bytes r)
    (a_checksum_algo r) (a_checksum r) (a_annotations r) (a_created_at r)
    (a_updated_at r) (a_expires_at r) (a_expired_at r) (a_last_read_at r)
    (a_read_count r) v (a_owner_service_id r) (a_eviction_policy r).
#[export] Instance replace_a_eviction_policy : Replace a_eviction_policy := λ v r,
  mk_asset (a_asset_id r) (a_space r) (a_partition_id r) (a_storage_key r) (a_state r)
    (a_aliases r) (a_mime r) (a_size_bytes r) (a_reserved_bytes r)
    (a_checksum_algo r) (a_checksum r) (a_annotations r) (a_created_at r)
    (a_updated_at r) (a_expires_at r) (a_expired_at r) (a_last_read_at r)
    (a_read_count r) (a_payload_deleted_at r) (a_owner_service_id r) v.

#[export] Instance Asset_eq_dec : EqDecision Asset.
Proof. solve_decision. Defined.

(** [Asset.is_resolvable] *)
Definition is_resolvable (a : Asset) : bool := bool_decide (a_state a = AVAILABLE).

Record AuditEvent := mk_event {
  ev_action : string;
  ev_target : string;
  ev_caller_service_id : string;
  ev_outcome : string;
  ev_before : gmap string string;
  ev_after : gmap string string;
  ev_ts : Z
}.


Record PartitionQuota := mk_partition_quota {
  pq_space : string;
  pq_partition_id : string;
  pq_quota_bytes : option Z;
  pq_quota_asset_count : option Z;
  pq_used_bytes : Z;
  pq_used_asset_count : Z;
  pq_eviction_sweep_enabled : bool
}.

#[export] Instance replace_pq_quota_bytes : Replace pq_quota_bytes := λ v r,
  mk_partition_quota (pq_space r) (pq_partition_id r) v (pq_quota_asset_count r) (pq_used_bytes r)
    (pq_used_asset_count r) (pq_eviction_sweep_enabled r).
#[export] Instance replace_pq_quota_asset_count : Replace pq_quota_asset_count := λ v r,
  mk_partition_quota (pq_space r) (pq_partition_id r) (pq_quota_bytes r) v (pq_used_bytes r)
    (pq_used_asset_count r) (pq_eviction_sweep_enabled r).
#[export] Instance replace_pq_used_bytes : Replace pq_used_bytes := λ v r,
  mk_partition_quota (pq_space r) (pq_partition_id r) (pq_quota_bytes r) (pq_quota_asset_count r) v
    (pq_used_asset_count r) (pq_eviction_sweep_enabled r).
#[export] Instance replace_pq_used_asset_count : Replace pq_used_asset_count := λ v r,
  mk_partition_quota (pq_space r) (pq_partition_id r) (pq_quota_bytes r) (pq_quota_asset_count r)
    (pq_used_bytes r) v (pq_eviction_sweep_enabled r).
#[export] Instance replace_pq_eviction_sweep_enabled : Replace pq_eviction_sweep_enabled := λ v r,
  mk_partition_quota (pq_space r) (pq_partition_id r) (pq_quota_bytes r) (pq_quota_asset_count r)
    (pq_used_bytes r) (pq_used_asset_count r) v.

Record BucketQuota := mk_bucket_quota {
  bq_space : string;
  bq_quota_bytes : option Z;
  bq_used_bytes : Z;
  bq_warn_threshold : spec_float;
  bq_hard_ceiling : spec_float
}.

#[export] Instance replace_bq_quota_bytes : Replace bq_quota_bytes := λ v r,
  mk_bucket_quota (bq_space r) v (bq_used_bytes r) (bq_warn_threshold r) (bq_hard_ceiling r).
#[export] Instance replace_bq_used_bytes : Replace bq_used_bytes := λ v r,
  mk_bucket_quota (bq_space r) (bq_quota_bytes r) v (bq_warn_threshold r) (bq_hard_ceiling r).
#[export] Instance replace_bq_warn_threshold : Replace bq_warn_threshold := λ v r,
  mk_bucket_quota (bq_space r) (bq_quota_bytes r) (bq_used_bytes r) v (bq_hard_ceiling r).
#[export] Instance replace_bq_hard_ceiling : Replace bq_hard_ceiling := λ v r,
  mk_bucket_quota (bq_space r) (bq_quota_bytes r) (bq_used_bytes r) (bq_warn_threshold r) v.

(** [PartitionQuota(space=..., partition_id=..., eviction_sweep_enabled=...)] and
    [BucketQuota(space=...)] with their default fields; 0.80 and 1.00 are the
    nearest binary64 numbers. *)
Definition new_partition_quota (space partition_id : string) (sweep : bool) : PartitionQuota :=
  mk_partition_quota space partition_id None None 0 0 sweep.

Definition default_warn_threshold : spec_float := float_quotient 80 100.
Definition default_hard_ceiling : spec_float := float_quotient 1 1.

Definition new_bucket_quota (space : string) : BucketQuota :=
  mk_bucket_quota space None 0 default_warn_threshold default_hard_ceiling.
