(* ===== verification/Retention.v ===== *)
(** * Retention rules

    [asset_store_core/retention.py]: the deadline of a new asset, read
    eligibility, the transitions maintenance may make, and the physical-capacity
    gate. *)

From S2P Require Import Prelude Errors Python Effects Paths Models.

Section Retention.
Context {E : Env}.

(** The bucket's maximum TTL, when it has one, and the TTL that applies. *)
Definition bucket_ttl (space : string) (ttl_seconds : option Z) : res (option Z * option Z) :=
  if decide (space = "tmp") then
    mret (Some (7 * 86400), Some (default 86400 ttl_seconds))
  else if decide (space = "results") then
    maximum ← match results_max_ttl_env with
              | None => mret (365 * 86400)
              | Some text => match py_int text with Some m => mret m | None => Err PyValueError end
              end;
    if maximum <=? 0 then Err ValidationError
    else mret (Some maximum, Some (default maximum ttl_seconds))
  else mret (None, ttl_seconds).

(** [now + timedelta(seconds=ttl_seconds)], [OverflowError] turned into
    [ValidationError]. *)
Definition add_seconds (now ttl_seconds : Z) : res Z :=
  let deadline := now + ttl_seconds * usec_per_sec in
  if datetime_max <? deadline then Err ValidationError else mret deadline.

Definition expiry_for (space : string) (ttl_seconds : option Z) (now : Z) : res (option Z) :=
  '(maximum, ttl) ← bucket_ttl space ttl_seconds;
  match ttl with
  | None => mret None
  | Some ttl =>
      if (ttl <=? 0) || match maximum with Some m => m <? ttl | None => false end
      then Err ValidationError
      else deadline ← add_seconds now ttl; mret (Some deadline)
  end.

(** Whether an available asset is past its deadline. *)
Definition past_deadline (a : Asset) (now : Z) : bool :=
  match a_expires_at a with Some t => t <=? now | None => false end.

Definition require_live (asset : Asset) (now : Z) : res unit :=
  if decide (a_state asset = DELETED) then Err AssetDeletedError
  else if bool_decide (a_state asset = EXPIRED) ||
          (bool_decide (a_state asset = AVAILABLE) &&
           match a_expires_at asset with Some t => t <=? now | None => false end)
  then Err AssetExpiredError
  else mret tt.

Definition validate_cleanup_transition (asset : Asset) (state : AssetState) (payload_deleted : bool)
    : res unit :=
  let allowed :=
    (bool_decide (state = EXPIRED) && bool_decide (a_state asset = AVAILABLE) &&
     negb payload_deleted) ||
    (bool_decide (state = DELETED) &&
     bool_decide (a_state asset = PENDING ∨ a_state asset = EXPIRED ∨ a_state asset = DELETED) &&
     (negb payload_deleted || bool_decide (a_state asset = DELETED))) in
  if negb allowed || bool_decide (is_Some (a_payload_deleted_at asset))
  then Err InvalidStateTransitionError
  else mret tt.

(** One entry of the decoded [ASSET_STORE_CAPACITY_BYTES] document. *)
Definition valid_capacity_item (item : string * json) : bool :=
  mem item.1 STORAGE_BUCKETS && match item.2 with JInt z => 0 <? z | _ => false end.

Definition capacity_limits : res (gmap string Z) :=
  match capacity_env with
  | Some (JObj items) =>
      if forallb valid_capacity_item items
      then mret (list_to_map (omap (λ item, match item.2 with
                                            | JInt z => Some (item.1, z)
                                            | _ => None
                                            end) items))
      else Err ValidationError
  | _ => Err ValidationError
  end.

Definition enforce_capacity (space : string) (prospective_bytes : Z) : res unit :=
  limits ← capacity_limits;
  match limits !! space with
  | None => mret tt
  | Some limit =>
      match hard_ratio_env with
      | None => Err PyValueError
      | Some ratio =>
          if negb (float_in_unit ratio) then Err ValidationError
          else
            ceiling ← int_mul_float limit ratio;
            if int_ge_float prospective_bytes ceiling then Err CapacityExceededError
            else mret tt
      end
  end.

(** * Properties *)

(** A deadline, when one is set, lies in the future and within the bucket's
    maximum; a [tmp] or [results] asset always has one, and only an asset of
    another bucket reserved without a TTL has none. *)
Theorem expiry_for_bounds (space : string) (ttl : option Z) (now : Z) (deadline : option Z) :
  expiry_for space ttl now = Ok deadline →
  match deadline with
  | None => space ≠ "tmp" ∧ space ≠ "results" ∧ ttl = None
  | Some d =>
      now < d <= datetime_max ∧
      (space = "tmp" → d <= now + 7 * usec_per_day) ∧
      (space = "results" → results_max_ttl_env = None → d <= now + 365 * usec_per_day) ∧
      (∀ t, ttl = Some t → d = now + t * usec_per_sec)
  end.
Proof.
  unfold expiry_for, bucket_ttl, add_seconds, mbind, res_bind, mret, res_ret, usec_per_day, usec_per_sec.
  intros H. split_tests; destruct ttl as [t|]; cbn in *; split_ifs; try done;
    try (destruct results_max_ttl_env as [text|]; [destruct (py_int text); simplify_eq/=|];
         split_ifs; try done);
    repeat match goal with
    | H : _ || _ = false |- _ => apply orb_false_iff in H as [??]
    end; naive_solver lia.
Qed.

(** Reads are allowed exactly on pending assets and on available assets whose
    deadline has not passed (resolution then also refuses the pending ones). *)
Theorem require_live_iff (asset : Asset) (now : Z) :
  require_live asset now = Ok tt ↔
  a_state asset = PENDING ∨
  (a_state asset = AVAILABLE ∧ ∀ t, a_expires_at asset = Some t → now < t).
Proof.
  unfold require_live. destruct (a_state asset) eqn:Hs; cbn; try naive_solver.
  destruct (a_expires_at asset) as [t|]; cbn; [|naive_solver].
  destruct (Z.leb_spec t now); [|naive_solver].
  split; [done|]. intros [|[_ H']]; [done|]. specialize (H' t eq_refl). lia.
Qed.

(** The maintenance transitions: an available asset may only expire; a pending,
    expired or deleted one may only be deleted; bytes are recorded as purged only
    on an asset already fenced as deleted, and nothing happens after the purge. *)
Theorem cleanup_transition_iff (asset : Asset) (state : AssetState) (payload_deleted : bool) :
  validate_cleanup_transition asset state payload_deleted = Ok tt ↔
  a_payload_deleted_at asset = None ∧
  ((a_state asset = AVAILABLE ∧ state = EXPIRED ∧ payload_deleted = false) ∨
   (a_state asset ≠ AVAILABLE ∧ state = DELETED ∧ (payload_deleted = true → a_state asset = DELETED))).
Proof.
  unfold validate_cleanup_transition.
  destruct (a_payload_deleted_at asset); [rewrite orb_comm; naive_solver|].
  rewrite orb_false_r.
  destruct (a_state asset), state, payload_deleted; cbn; naive_solver.
Qed.

(** A capacity document that passes validation maps buckets to positive limits. *)
Lemma capacity_limits_positive (limits : gmap string Z) (space : string) (limit : Z) :
  capacity_limits = Ok limits → limits !! space = Some limit →
  space ∈ STORAGE_BUCKETS ∧ 0 < limit.
Proof.
  unfold capacity_limits. destruct capacity_env as [[]|]; try done.
  destruct (forallb valid_capacity_item items) eqn:Hv; [|done]. intros [= <-] Hl.
  apply elem_of_list_to_map_2, list_elem_of_omap in Hl as ([k j] & Hin & Hj); cbn in Hj.
  destruct j; simplify_eq.
  rewrite forallb_forall in Hv. specialize (Hv _ (proj1 (list_elem_of_In _ _) Hin)).
  unfold valid_capacity_item in Hv. cbn in Hv. apply andb_true_iff in Hv as [Hm Hz].
  rewrite mem_true in Hm. split; [done|lia].
Qed.

(** The capacity gate only ever closes as usage grows. *)
Lemma enforce_capacity_mono (space : string) (n m : Z) :
  n <= m → enforce_capacity space m = Ok tt → enforce_capacity space n = Ok tt.
Proof.
  unfold enforce_capacity, mbind, res_bind. intros Hnm.
  destruct capacity_limits as [limits|]; [|done]. destruct (limits !! space) as [limit|]; [|done].
  destruct hard_ratio_env as [ratio|]; [|done]. destruct (negb _); [done|].
  destruct (int_mul_float limit ratio) as [ceiling|]; [|done].
  destruct (int_ge_float n ceiling) eqn:Hn; [|done].
  by rewrite (int_ge_float_mono n m ceiling Hnm Hn).
Qed.
End Retention.

Lemma expiry_for_bounds_witness :
  let E := Build_Env (λ _, 0) (λ _, "") None None None in
  let now := 1700000000000000 in
  let d := now + 600 * usec_per_sec in
  now < d <= datetime_max ∧
  ("tmp" = "tmp" → d <= now + 7 * usec_per_day) ∧
  ("tmp" = "results" → @results_max_ttl_env E = None → d <= now + 365 * usec_per_day) ∧
  (∀ t, Some 600 = Some t → d = now + t * usec_per_sec).
Proof.
  intros E now d.
  apply (@expiry_for_bounds E "tmp" (Some 600) now (Some d)). by vm_compute.
Defined.
