(* ===== verification/Sha256.v ===== *)
(** * SHA-256

    [hashlib.sha256] on a list of byte values, executable, with the lexical shape
    of its hexadecimal digest. *)

From S2P Require Import Prelude.

Definition word_mask : Z := 0xffffffff.
Definition add32 (a b : Z) : Z := Z.land (a + b) word_mask.
Definition rotr (n x : Z) : Z :=
  Z.lor (Z.shiftr x n) (Z.land (Z.shiftl x (32 - n)) word_mask).

(** The constants of the standard: the first 32 bits of the fractional parts of
    the square roots of the first 8 primes and of the cube roots of the first 64. *)

(** The largest [r] with [r ^ power <= n], bit by bit from [bits]. *)
Fixpoint root_bits (power n : Z) (bits : nat) (r : Z) : Z :=
  match bits with
  | O => r
  | S b =>
      let r' := r + 2 ^ Z.of_nat b in
      root_bits power n b (if r' ^ power <=? n then r' else r)
  end.

(** The first 32 bits of the fractional part of the root of [p]. *)
Definition root_fraction (power p : Z) : Z :=
  Z.land (root_bits power (p * 2 ^ (32 * power)) 40 0) word_mask.

Definition is_prime (n : Z) : bool :=
  forallb (λ d, negb (n mod Z.of_nat d =? 0)) (seq 2 (Z.to_nat n - 2)).

Definition primes_below (n : nat) : list Z := List.filter is_prime (Z.of_nat <$> seq 2 (n - 2)).

Definition initial_hash : list Z := Eval vm_compute in root_fraction 2 <$> primes_below 20.

Definition round_constants : list Z := Eval vm_compute in root_fraction 3 <$> primes_below 312.

Definition ch (x y z : Z) : Z := Z.lxor (Z.land x y) (Z.land (Z.lxor x word_mask) z).
Definition maj (x y z : Z) : Z := Z.lxor (Z.lxor (Z.land x y) (Z.land x z)) (Z.land y z).
Definition big_sigma0 (x : Z) : Z := Z.lxor (Z.lxor (rotr 2 x) (rotr 13 x)) (rotr 22 x).
Definition big_sigma1 (x : Z) : Z := Z.lxor (Z.lxor (rotr 6 x) (rotr 11 x)) (rotr 25 x).
Definition small_sigma0 (x : Z) : Z := Z.lxor (Z.lxor (rotr 7 x) (rotr 18 x)) (Z.shiftr x 3).
Definition small_sigma1 (x : Z) : Z := Z.lxor (Z.lxor (rotr 17 x) (rotr 19 x)) (Z.shiftr x 10).

(** Big-endian words of a byte list. *)
Fixpoint words_of (bytes : list Z) : list Z :=
  match bytes with
  | a :: b :: c :: d :: rest => (((a * 256 + b) * 256 + c) * 256 + d) :: words_of rest
  | _ => []
  end.

(** The schedule, newest word first, extended by [n] words. *)
Fixpoint extend (n : nat) (w : list Z) : list Z :=
  match n with
  | O => w
  | S n' =>
      let at_ k := nth k w 0 in
      extend n' (add32 (add32 (small_sigma1 (at_ 1%nat)) (at_ 6%nat))
                       (add32 (small_sigma0 (at_ 14%nat)) (at_ 15%nat)) :: w)
  end.

Definition schedule (block : list Z) : list Z := rev (extend 48 (rev (words_of block))).

Definition round (h : list Z) (kw : Z * Z) : list Z :=
  match h with
  | [a; b; c; d; e; f; g; hh] =>
      let t1 := add32 (add32 (add32 hh (big_sigma1 e)) (add32 (ch e f g) kw.1)) kw.2 in
      let t2 := add32 (big_sigma0 a) (maj a b c) in
      [add32 t1 t2; a; b; c; add32 d t1; e; f; g]
  | _ => h
  end.

Definition compress (h block : list Z) : list Z :=
  zip_with add32 h (fold_left round (combine round_constants (schedule block)) h).

Fixpoint compress_blocks (fuel : nat) (h bytes : list Z) : list Z :=
  match fuel with
  | O => h
  | S fuel' =>
      match bytes with
      | [] => h
      | _ => compress_blocks fuel' (compress h (take 64 bytes)) (drop 64 bytes)
      end
  end.

(** [n] as [k] big-endian bytes. *)
Fixpoint be_bytes (k : nat) (n : Z) : list Z :=
  match k with
  | O => []
  | S k' => be_bytes k' (n / 256) ++ [n mod 256]
  end.

Definition padded (bytes : list Z) : list Z :=
  let len := Z.of_nat (length bytes) in
  bytes ++ [128] ++ replicate (Z.to_nat ((55 - len) mod 64)) 0 ++ be_bytes 8 (8 * len).

Definition sha256 (bytes : list Z) : list Z :=
  let m := padded bytes in compress_blocks (length m) initial_hash m.

Definition hex_digit (n : Z) : ascii :=
  ascii_of_N (Z.to_N (if n <? 10 then 48 + n else 87 + n)).

(** [k] hexadecimal digits of [n]. *)
Fixpoint hex (k : nat) (n : Z) : string :=
  match k with
  | O => ""
  | S k' => hex k' (n / 16) +:+ String (hex_digit (n mod 16)) ""
  end.

Definition concat_str (l : list string) : string := foldr String.append "" l.

(** [hashlib.sha256(bytes).hexdigest()] *)
Definition sha256_hexdigest (bytes : list Z) : string := concat_str (hex 8 <$> sha256 bytes).

(** The published digests of the empty message, of "abc" and of a two-block one. *)
Example sha256_empty :
  sha256_hexdigest [] = "e3b0c44298fc1c149afbf4c8996fb92427ae41e4649b934ca495991b7852b855".
Proof. by vm_compute. Qed.

Example sha256_abc :
  sha256_hexdigest [97; 98; 99] =
  "ba7816bf8f01cfea414140de5dae2223b00361a396177a9cb410ff61f20015ad".
Proof. by vm_compute. Qed.

Example sha256_two_blocks :
  sha256_hexdigest (replicate 64 97) =
  "ffe054fe7ae0cb6dc65c3af9b61d5209f439851db43d0ba5997337df154668eb".
Proof. by vm_compute. Qed.

(** ** The shape of a digest *)

Definition is_hex_digit (c : ascii) : bool :=
  let n := N_of_ascii c in ((48 <=? n) && (n <=? 57))%N || ((97 <=? n) && (n <=? 102))%N.

Lemma hex_digit_is_hex (n : Z) : is_hex_digit (hex_digit (n mod 16)) = true.
Proof.
  assert (H : 0 <= n mod 16 < 16) by (apply Z.mod_pos_bound; lia).
  revert H. generalize (n mod 16). intros m Hm.
  assert (m = 0 ∨ m = 1 ∨ m = 2 ∨ m = 3 ∨ m = 4 ∨ m = 5 ∨ m = 6 ∨ m = 7 ∨ m = 8 ∨ m = 9 ∨
          m = 10 ∨ m = 11 ∨ m = 12 ∨ m = 13 ∨ m = 14 ∨ m = 15) as Hcases by lia.
  by repeat destruct Hcases as [->|Hcases]; [..|subst m]; vm_compute.
Qed.

Lemma all_chars_app (p : ascii → bool) (s t : string) :
  all_chars p (s +:+ t) = all_chars p s && all_chars p t.
Proof. induction s as [|c s IH]; [done|]. cbn. by rewrite IH, andb_assoc. Qed.

Lemma hex_shape (k : nat) (n : Z) :
  all_chars is_hex_digit (hex k n) = true ∧ String.length (hex k n) = k.
Proof.
  revert n; induction k as [|k IH]; intros n; cbn [hex]; [done|].
  destruct (IH (n / 16)) as [Hc Hl]. rewrite all_chars_app, length_app_str, Hc, Hl. cbn.
  rewrite hex_digit_is_hex. split; [done|lia].
Qed.

Lemma length_compress (h block : list Z) : length h = 8%nat → length (compress h block) = 8%nat.
Proof.
  intros Hh. unfold compress. rewrite length_zip_with.
  assert (length (fold_left round (combine round_constants (schedule block)) h) = 8%nat) as ->;
    [|lia].
  revert h Hh. induction (combine _ _) as [|kw l IH]; intros h Hh; [done|].
  cbn [fold_left]. apply IH.
  destruct h as [|a [|b [|c [|d [|e [|f [|g [|hh [|]]]]]]]]]; try discriminate Hh. reflexivity.
Qed.

Lemma length_sha256 (bytes : list Z) : length (sha256 bytes) = 8%nat.
Proof.
  unfold sha256. generalize (length (padded bytes)) as fuel. generalize (padded bytes) as m.
  intros m fuel. assert (H : length initial_hash = 8%nat) by done. revert m H.
  generalize initial_hash as h.
  induction fuel as [|fuel IH]; intros h m Hh; [done|]. cbn.
  destruct m; [done|]. apply IH. by apply length_compress.
Qed.

(** A digest is 64 lower-case hexadecimal digits. *)
Lemma sha256_hexdigest_shape (bytes : list Z) :
  all_chars is_hex_digit (sha256_hexdigest bytes) = true ∧
  String.length (sha256_hexdigest bytes) = 64%nat.
Proof.
  unfold sha256_hexdigest.
  assert (H : ∀ l, all_chars is_hex_digit (concat_str (hex 8 <$> l)) = true ∧
                   String.length (concat_str (hex 8 <$> l)) = (8 * length l)%nat).
  { induction l as [|x l [IHc IHl]]; [done|]. destruct (hex_shape 8 x) as [Hc Hl].
    change (concat_str (hex 8 <$> x :: l)) with (hex 8 x +:+ concat_str (hex 8 <$> l)).
    rewrite all_chars_app, length_app_str, Hc, Hl, IHc, IHl. cbn [length]. split; [done|lia]. }
  destruct (H (sha256 bytes)) as [Hc ->]. by rewrite length_sha256.
Qed.
