(* ===== verification/Registry.v ===== *)
(** * The in-memory asset registry

    [asset_store_core/registry.py]: [InMemoryAssetRegistry], the executable
    specification of the control plane.  [Registry] is the object's state, one
    definition per method, helpers included; a method is a computation of the
    effect monad, so that an exception keeps the writes made before it.
    [registry_wf] is the class invariant. *)

From S2P Require Import Prelude Errors Python Effects Paths Models Retention Sha256.

(** ** State *)

Record Registry := mk_registry {
  r_assets : gmap string Asset;
  r_aliases : gmap string AliasBinding;
  r_audit_events : list AuditEvent;
  r_tombstones : gmap string Z;
  r_partition_quotas : gmap (string * string) PartitionQuota;
  r_bucket_quotas : gmap string BucketQuota;
  r_alias_grace : Z
}.

#[export] Instance replace_r_assets : Replace r_assets := λ v r,
  mk_registry v (r_aliases r) (r_audit_events r) (r_tombstones r)
    (r_partition_quotas r) (r_bucket_quotas r) (r_alias_grace r).
#[export] Instance replace_r_aliases : Replace r_aliases := λ v r,
  mk_registry (r_assets r) v (r_audit_events r) (r_tombstones r)
    (r_partition_quotas r) (r_bucket_quotas r) (r_alias_grace r).
#[export] Instance replace_r_audit_events : Replace r_audit_events := λ v r,
  mk_registry (r_assets r) (r_aliases r) v (r_tombstones r)
    (r_partition_quotas r) (r_bucket_quotas r) (r_alias_grace r).
#[export] Instance replace_r_tombstones : Replace r_tombstones := λ v r,
  mk_registry (r_assets r) (r_aliases r) (r_audit_events r) v
    (r_partition_quotas r) (r_bucket_quotas r) (r_alias_grace r).
#[export] Instance replace_r_partition_quotas : Replace r_partition_quotas := λ v r,
  mk_registry (r_assets r) (r_aliases r) (r_audit_events r) (r_tombstones r)
    v (r_bucket_quotas r) (r_alias_grace r).
#[export] Instance replace_r_bucket_quotas : Replace r_bucket_quotas := λ v r,
  mk_registry (r_assets r) (r_aliases r) (r_audit_events r) (r_tombstones r)
    (r_partition_quotas r) v (r_alias_grace r).

(** 1.05 in binary64. *)
Definition PARTITION_HARD_RATIO : spec_float := S754_finite false 4728779608739021 (-52).

Definition SWEEP_DEFAULT_SPACES : list string := ["cache"; "tmp"].

Definition seven_days : Z := 7 * usec_per_day.

(** [InMemoryAssetRegistry(alias_name_grace_period=grace)] *)
Definition new_registry (grace : option Z) : res Registry :=
  match grace with
  | None => mret (mk_registry ∅ ∅ [] ∅ ∅ ∅ seven_days)
  | Some g => if g <? 0 then Err ValidationError else mret (mk_registry ∅ ∅ [] ∅ ∅ ∅ g)
  end.

(** ** Module functions *)

(** [aliases : Iterable[str] | Mapping[str, bool]] *)
Inductive alias_specs :=
  | AliasNames (names : list string)
  | AliasMap (items : list (string * bool)).

Definition _normalize_alias_specs (aliases : alias_specs) : res (list (string * bool)) :=
  let items := match aliases with
               | AliasMap items => items
               | AliasNames names => (λ name, (name, false)) <$> names
               end in
  foldl (λ acc item, d ← acc; k ← normalize_relative_alias item.1; mret (dict_set k item.2 d))
        (mret []) items.

(** [rel == prefix or rel.startswith(f"{prefix}/")] *)
Definition is_path_or_child (prefix rel : string) : bool :=
  bool_decide (rel = prefix) || startswith (prefix +:+ "/") rel.

Definition _alias_under_partition (partition_id relative_alias : string) : res string :=
  rel ← normalize_relative_alias relative_alias;
  prefix ← normalize_partition_id partition_id;
  mret (if is_path_or_child prefix rel then rel else prefix +:+ "/" +:+ rel).

Definition _partition_from_scoped_alias (scoped_alias : string) : res string :=
  normalize_partition_id (partition_on "/" scoped_alias).1.1.

(** ** Read-only helpers *)

Definition find_asset (r : Registry) (asset_id : string) : res Asset :=
  match r_assets r !! asset_id with Some a => Ok a | None => Err AssetNotFoundError end.

Definition find_binding (r : Registry) (space alias : string) : res AliasBinding :=
  sp ← normalize_space space;
  al ← normalize_relative_alias alias;
  key ← qualified_alias sp al;
  match r_aliases r !! key with Some b => Ok b | None => Err AliasNotFoundError end.

Definition find_partition_quota (r : Registry) (space partition_id : string) : res PartitionQuota :=
  norm_space ← normalize_space space;
  norm_partition ← normalize_partition_id partition_id;
  match r_partition_quotas r !! (norm_space, norm_partition) with
  | Some existing => mret existing
  | None => mret (new_partition_quota norm_space norm_partition (mem norm_space SWEEP_DEFAULT_SPACES))
  end.

Definition find_bucket_quota (r : Registry) (space : string) : res BucketQuota :=
  norm_space ← normalize_space space;
  match r_bucket_quotas r !! norm_space with
  | Some existing => mret existing
  | None => mret (new_bucket_quota norm_space)
  end.

(** The bytes an asset holds or will hold physically. *)
Definition physical_bytes (a : Asset) : Z :=
  match a_size_bytes a with Some size => size | None => default 0 (a_reserved_bytes a) end.

Section Quota.
Context {E : Env}.

Definition is_pending_reservation (space : string) (exclude : option string) (a : Asset) : bool :=
  bool_decide (a_space a = space) && bool_decide (a_state a = PENDING) &&
  bool_decide (is_Some (a_reserved_bytes a)) && bool_decide (Some (a_asset_id a) ≠ exclude).

Definition is_partition_reservation (space partition_id : string) (exclude : option string)
    (a : Asset) : bool :=
  is_pending_reservation space exclude a && bool_decide (a_partition_id a = partition_id).

Definition reserved_of (a : Asset) : Z := default 0 (a_reserved_bytes a).

Definition sum_where (p : Asset → bool) (f : Asset → Z) (assets : gmap string Asset) : Z :=
  sum_map (λ a, if p a then f a else 0) assets.

(** [quota is not None and used >= quota * ratio], else go on. *)
Definition check_ceiling (scope : string) (quota : option Z) (ratio : spec_float) (used : Z)
    : res unit :=
  match quota with
  | None => mret tt
  | Some q =>
      ceiling ← int_mul_float q ratio;
      if int_ge_float used ceiling then Err (QuotaExceededError scope) else mret tt
  end.

Definition enforce_quota (r : Registry) (space partition_id : string) (new_bytes : Z)
    (exclude : option string) : res unit :=
  let assets := r_assets r in
  let partition_pending := is_partition_reservation space partition_id exclude in
  let pending_bytes := sum_where partition_pending reserved_of assets in
  pq ← find_partition_quota r space partition_id;
  _ ← check_ceiling "partition" (pq_quota_bytes pq) PARTITION_HARD_RATIO
        (pq_used_bytes pq + pending_bytes + new_bytes);
  _ ← match pq_quota_asset_count pq with
      | Some limit =>
          if limit <? pq_used_asset_count pq + count_map partition_pending assets + 1
          then Err (QuotaExceededError "partition") else mret tt
      | None => mret tt
      end;
  limits ← capacity_limits;
  _ ← match limits !! space with
      | Some _ =>
          enforce_capacity space
            (sum_where (λ a, bool_decide (a_space a = space) &&
                             bool_decide (a_payload_deleted_at a = None) &&
                             bool_decide (Some (a_asset_id a) ≠ exclude))
                       physical_bytes assets + new_bytes)
      | None => mret tt
      end;
  bq ← find_bucket_quota r space;
  check_ceiling "bucket" (bq_quota_bytes bq) (bq_hard_ceiling bq)
    (bq_used_bytes bq + sum_where (is_pending_reservation space exclude) reserved_of assets
     + new_bytes).
End Quota.

(** ** Methods *)

Section Methods.
Context {E : Env}.

Abbreviation RM := (M Registry).

(** A read-only computation. *)
Definition reads {A} (f : Registry → res A) : RM A := λ n r, (f r, n, r).

Definition _audit (action target caller_service_id outcome : string)
    (before after : gmap string string) : RM unit :=
  ts ← utcnow;
  modify (λ r, r <| r_audit_events :=
    r_audit_events r ++ [mk_event action target caller_service_id outcome before after ts] |>).

Definition _get_asset (asset_id : string) : RM Asset := reads (λ r, find_asset r asset_id).

Definition _get_binding (space alias : string) : RM AliasBinding :=
  reads (λ r, find_binding r space alias).

(** [raise e(f"... {binding.qualified_alias!r} ...")]: the message is built first. *)
Definition raise_about {A} (binding : AliasBinding) (e : error) : RM A :=
  of_res (b_qualified_alias binding) ;; raise e.

Definition raise_about_if (b : bool) (binding : AliasBinding) (e : error) : RM unit :=
  if b then raise_about binding e else mret tt.

Definition put_asset (asset_id : string) (a : Asset) : RM unit :=
  modify (λ r, r <| r_assets := <[asset_id := a]> (r_assets r) |>).

Definition put_alias (key : string) (b : AliasBinding) : RM unit :=
  modify (λ r, r <| r_aliases := <[key := b]> (r_aliases r) |>).

Definition _partition_quota (space partition_id : string) : RM PartitionQuota :=
  reads (λ r, find_partition_quota r space partition_id).

Definition _bucket_quota (space : string) : RM BucketQuota := reads (λ r, find_bucket_quota r space).

Definition put_partition_quota (q : PartitionQuota) : RM unit :=
  modify (λ r, r <| r_partition_quotas :=
    <[(pq_space q, pq_partition_id q) := q]> (r_partition_quotas r) |>).

Definition put_bucket_quota (q : BucketQuota) : RM unit :=
  modify (λ r, r <| r_bucket_quotas := <[bq_space q := q]> (r_bucket_quotas r) |>).

Definition _enforce_quota (space partition_id : string) (new_bytes : Z)
    (exclude : option string) : RM unit :=
  reads (λ r, enforce_quota r space partition_id new_bytes exclude).

Definition _acquire_quota (space partition_id : string) (nbytes : Z) : RM unit :=
  pq ← _partition_quota space partition_id;
  put_partition_quota (pq <| pq_used_bytes := pq_used_bytes pq + nbytes |>
                          <| pq_used_asset_count := pq_used_asset_count pq + 1 |>) ;;
  bq ← _bucket_quota space;
  put_bucket_quota (bq <| bq_used_bytes := bq_used_bytes bq + nbytes |>).

Definition _release_quota (asset : Asset) : RM unit :=
  if decide (a_state asset = AVAILABLE) then
    let nbytes := default 0 (a_size_bytes asset) in
    pq ← _partition_quota (a_space asset) (a_partition_id asset);
    put_partition_quota (pq <| pq_used_bytes := Z.max 0 (pq_used_bytes pq - nbytes) |>
                            <| pq_used_asset_count := Z.max 0 (pq_used_asset_count pq - 1) |>) ;;
    bq ← _bucket_quota (a_space asset);
    put_bucket_quota (bq <| bq_used_bytes := Z.max 0 (bq_used_bytes bq - nbytes) |>)
  else mret tt.

Definition _alias_name_is_blocked (norm_space alias_name : string) : RM bool :=
  key ← of_res (qualified_alias norm_space alias_name);
  r ← get_state;
  if decide (is_Some (r_aliases r !! key)) then mret true
  else match r_tombstones r !! key with
       | None => mret false
       | Some grace_until =>
           now ← utcnow;
           if grace_until <=? now
           then modify (λ r, r <| r_tombstones := delete key (r_tombstones r) |>) ;; mret false
           else mret true
       end.

Definition _require_alias_name_available (norm_space alias_name : string) : RM unit :=
  blocked ← _alias_name_is_blocked norm_space alias_name;
  if (blocked : bool) then
    of_res (qualified_alias norm_space alias_name) ;; raise AliasConflictError
  else mret tt.

Definition _add_alias_to_asset (asset_id qualified_key : string) : RM unit :=
  asset ← _get_asset asset_id;
  now ← utcnow;
  put_asset asset_id (asset <| a_aliases := {[qualified_key]} ∪ a_aliases asset |>
                            <| a_updated_at := now |>).

Definition _remove_alias_from_asset (asset_id qualified_key : string) : RM unit :=
  asset ← _get_asset asset_id;
  now ← utcnow;
  put_asset asset_id (asset <| a_aliases := a_aliases asset ∖ {[qualified_key]} |>
                            <| a_updated_at := now |>).

Definition _mark_for_gc_if_orphaned (asset_id caller_service_id : string) : RM unit :=
  asset ← _get_asset asset_id;
  if decide (a_aliases asset ≠ ∅) then mret tt
  else if decide (a_state asset = EXPIRED ∨ a_state asset = DELETED) then mret tt
  else
    updated_at ← utcnow;
    expired_at ← utcnow;
    put_asset asset_id (asset <| a_state := EXPIRED |> <| a_updated_at := updated_at |>
                              <| a_expired_at := Some expired_at |>) ;;
    _release_quota asset ;;
    _audit "asset.gc_mark" asset_id caller_service_id "success"
      {["state" := state_value (a_state asset); "reason" := "zero_aliases"]}
      {["state" := state_value EXPIRED]}.

Definition record_capability_issue (caller_service_id operation scope_prefix : string)
    (ttl_seconds : Z) (outcome : string) (capability_id : option string) : RM unit :=
  let after := {["operation" := operation; "ttl_seconds" := pretty ttl_seconds]} in
  _audit "capability.issue" scope_prefix caller_service_id outcome ∅
    match capability_id with
    | None => after
    | Some id => <["capability_fingerprint" := sha256_hexdigest (utf8_encode id)]> after
    end.

(** The loop of [reserve_asset] that binds one alias. *)
Definition bind_alias (norm_space norm_partition asset_id owner_service_id : string) (now : Z)
    (spec : string * bool) : RM unit :=
  scoped ← of_res (_alias_under_partition norm_partition spec.1);
  let binding := mk_binding norm_space scoped (Some asset_id) spec.2 None now now owner_service_id in
  key ← of_res (b_qualified_alias binding);
  put_alias key binding ;;
  _audit "alias.create" key owner_service_id "success" ∅
    {["asset_id" := asset_id; "mutable" := str_bool_lower spec.2]}.

Definition reserve_asset (space partition_id : string) (aliases : alias_specs)
    (owner_service_id : string) (mime : option string) (annotations : option (gmap string string))
    (policy : EvictionPolicy) (ttl_seconds reserved_bytes : option Z) : RM Asset :=
  norm_space ← of_res (normalize_space space);
  norm_partition ← of_res (normalize_partition_id partition_id);
  specs ← of_res (_normalize_alias_specs aliases);
  for_each specs (λ spec,
    scoped ← of_res (_alias_under_partition norm_partition spec.1);
    _require_alias_name_available norm_space scoped) ;;
  match reserved_bytes with
  | Some bytes =>
      raise_if (bytes <? 0) ValidationError ;;
      _enforce_quota norm_space norm_partition bytes None
  | None => mret tt
  end ;;
  asset_id ← draw_uuid;
  now ← utcnow;
  qualified_aliases ← of_res (mapM (λ spec : string * bool,
    scoped ← _alias_under_partition norm_partition spec.1;
    qualified_alias norm_space scoped) specs);
  storage_key ← of_res (build_storage_key norm_partition asset_id);
  expires_at ← of_res (expiry_for norm_space ttl_seconds now);
  let asset := mk_asset asset_id norm_space norm_partition storage_key PENDING
    (list_to_set qualified_aliases) mime None reserved_bytes "sha256" None
    (default ∅ annotations) now now expires_at None None 0 None owner_service_id policy in
  put_asset asset_id asset ;;
  for_each specs (bind_alias norm_space norm_partition asset_id owner_service_id now) ;;
  match reserved_bytes with
  | Some bytes =>
      _audit "asset.upload_reserve" asset_id owner_service_id "success" ∅
        {["reserved_bytes" := pretty bytes]}
  | None => mret tt
  end ;;
  mret asset.

Definition attach_alias (asset_id alias : string) (mutable : bool) (caller_service_id : string)
    : RM AliasBinding :=
  asset ← _get_asset asset_id;
  raise_if (bool_decide (a_state asset = DELETED)) InvalidStateTransitionError ;;
  norm_space ← of_res (normalize_space (a_space asset));
  alias_name ← of_res (_alias_under_partition (a_partition_id asset) alias);
  _require_alias_name_available norm_space alias_name ;;
  key ← of_res (qualified_alias norm_space alias_name);
  now ← utcnow;
  let binding :=
    mk_binding norm_space alias_name (Some asset_id) mutable None now now caller_service_id in
  put_alias key binding ;;
  _add_alias_to_asset asset_id key ;;
  _audit "alias.attach" key caller_service_id "success" ∅
    {["asset_id" := asset_id; "mutable" := str_bool_lower mutable]} ;;
  mret binding.

(** [mime or asset.mime] *)
Definition or_mime (mime fallback : option string) : option string :=
  match mime with Some m => if decide (m = "") then fallback else mime | None => fallback end.

Definition commit_asset (asset_id : string) (size_bytes : Z) (checksum caller_service_id : string)
    (mime expected_checksum : option string) : RM Asset :=
  raise_if (size_bytes <? 0) ValidationError ;;
  let server_checksum := strip checksum in
  raise_if (bool_decide (server_checksum = "")) ValidationError ;;
  raise_if match expected_checksum with
           | Some expected => bool_decide (expected ≠ server_checksum)
           | None => false
           end ChecksumMismatchError ;;
  asset ← _get_asset asset_id;
  raise_if (bool_decide (a_state asset ≠ PENDING)) InvalidStateTransitionError ;;
  raise_if match a_reserved_bytes asset with
           | Some reserved => negb (reserved =? size_bytes)
           | None => false
           end ValidationError ;;
  _enforce_quota (a_space asset) (a_partition_id asset) size_bytes (Some asset_id) ;;
  now ← utcnow;
  let updated := asset <| a_state := AVAILABLE |> <| a_size_bytes := Some size_bytes |>
    <| a_reserved_bytes := None |> <| a_checksum := Some server_checksum |>
    <| a_mime := or_mime mime (a_mime asset) |> <| a_updated_at := now |> in
  put_asset asset_id updated ;;
  _acquire_quota (a_space asset) (a_partition_id asset) size_bytes ;;
  _audit "asset.commit" asset_id caller_service_id "success"
    {["state" := state_value (a_state asset)]} {["state" := state_value (a_state updated)]} ;;
  mret updated.

Definition update_annotations (asset_id : string) (patch : gmap string string)
    (caller_service_id : string) (overwrite : bool) : RM Asset :=
  asset ← _get_asset asset_id;
  raise_if (bool_decide (a_state asset = DELETED)) InvalidStateTransitionError ;;
  let merged := if overwrite then patch else patch ∪ a_annotations asset in
  now ← utcnow;
  let updated := asset <| a_annotations := merged |> <| a_updated_at := now |> in
  put_asset asset_id updated ;;
  _audit "asset.annotations_update" asset_id caller_service_id "success"
    (a_annotations asset) (a_annotations updated) ;;
  mret updated.

Definition resolve_alias (space alias : string) : RM Asset :=
  binding ← _get_binding space alias;
  match b_asset_id binding with
  | None => raise_about binding InvalidStateTransitionError
  | Some asset_id =>
      asset ← _get_asset asset_id;
      now ← utcnow;
      of_res (require_live asset now) ;;
      raise_if (negb (is_resolvable asset)) InvalidStateTransitionError ;;
      mret asset
  end.

Definition detach_alias (space alias caller_service_id : string) : RM unit :=
  binding ← _get_binding space alias;
  raise_about_if (b_mutable binding) binding AliasImmutableError ;;
  key ← of_res (b_qualified_alias binding);
  match b_asset_id binding with
  | None => raise InvalidStateTransitionError
  | Some asset_id =>
      modify (λ r, r <| r_aliases := delete key (r_aliases r) |>) ;;
      _remove_alias_from_asset asset_id key ;;
      r ← get_state;
      (if 0 <? r_alias_grace r then
         now ← utcnow;
         until ← of_res (datetime_add now (r_alias_grace r));
         modify (λ r, r <| r_tombstones := <[key := until]> (r_tombstones r) |>)
       else mret tt) ;;
      _audit "alias.detach" key caller_service_id "success" {["asset_id" := asset_id]} ∅ ;;
      _mark_for_gc_if_orphaned asset_id caller_service_id
  end.

Definition detach_mutable_alias (space alias caller_service_id : string) : RM AliasBinding :=
  binding ← _get_binding space alias;
  raise_about_if (negb (b_mutable binding)) binding AliasImmutableError ;;
  match b_asset_id binding with
  | None => raise_about binding InvalidStateTransitionError
  | Some old_asset_id =>
      key ← of_res (b_qualified_alias binding);
      _remove_alias_from_asset old_asset_id key ;;
      now ← utcnow;
      let updated_binding := binding <| b_asset_id := None |>
        <| b_previous_asset_id := Some old_asset_id |> <| b_updated_at := now |> in
      put_alias key updated_binding ;;
      _audit "alias.detach_mutable" key caller_service_id "success"
        {["asset_id" := old_asset_id]} {["asset_id" := ""]} ;;
      _mark_for_gc_if_orphaned old_asset_id caller_service_id ;;
      mret updated_binding
  end.

Definition rebind_alias (space alias new_asset_id caller_service_id : string) : RM AliasBinding :=
  binding ← _get_binding space alias;
  raise_about_if (negb (b_mutable binding)) binding AliasImmutableError ;;
  raise_about_if (bool_decide (is_Some (b_asset_id binding))) binding InvalidStateTransitionError ;;
  new_asset ← _get_asset new_asset_id;
  raise_if (bool_decide (a_space new_asset ≠ b_space binding)) AliasConflictError ;;
  partition ← of_res (_partition_from_scoped_alias (b_alias binding));
  raise_if (bool_decide (a_partition_id new_asset ≠ partition)) AliasConflictError ;;
  raise_if (bool_decide (a_state new_asset ≠ AVAILABLE)) InvalidStateTransitionError ;;
  key ← of_res (b_qualified_alias binding);
  let previous_asset_id := default "" (b_previous_asset_id binding) in
  now ← utcnow;
  let updated_binding := binding <| b_asset_id := Some new_asset_id |>
    <| b_previous_asset_id := None |> <| b_updated_at := now |> in
  put_alias key updated_binding ;;
  _add_alias_to_asset new_asset_id key ;;
  _audit "alias.rebind" key caller_service_id "success"
    {["asset_id" := previous_asset_id]} {["asset_id" := new_asset_id]} ;;
  mret updated_binding.

Definition expire_asset (asset_id caller_service_id : string) : RM Asset :=
  asset ← _get_asset asset_id;
  raise_if (bool_decide (a_state asset ≠ AVAILABLE)) InvalidStateTransitionError ;;
  updated_at ← utcnow;
  expired_at ← utcnow;
  let updated := asset <| a_state := EXPIRED |> <| a_updated_at := updated_at |>
    <| a_expired_at := Some expired_at |> in
  put_asset asset_id updated ;;
  _release_quota asset ;;
  _audit "asset.expire" asset_id caller_service_id "success"
    {["state" := state_value (a_state asset)]} {["state" := state_value (a_state updated)]} ;;
  mret updated.

Definition delete_asset (asset_id caller_service_id : string) : RM Asset :=
  asset ← _get_asset asset_id;
  raise_if (bool_decide (a_state asset ≠ AVAILABLE ∧ a_state asset ≠ EXPIRED))
    InvalidStateTransitionError ;;
  now ← utcnow;
  let updated := asset <| a_state := DELETED |> <| a_updated_at := now |> in
  put_asset asset_id updated ;;
  _release_quota asset ;;
  _audit "asset.delete" asset_id caller_service_id "success"
    {["state" := state_value (a_state asset)]} {["state" := state_value (a_state updated)]} ;;
  mret updated.

Definition set_eviction_policy (asset_id : string) (policy : EvictionPolicy)
    (caller_service_id : string) : RM Asset :=
  asset ← _get_asset asset_id;
  raise_if (bool_decide (a_state asset = DELETED)) InvalidStateTransitionError ;;
  now ← utcnow;
  let updated := asset <| a_eviction_policy := policy |> <| a_updated_at := now |> in
  put_asset asset_id updated ;;
  _audit "asset.eviction_policy_set" asset_id caller_service_id "success"
    {["eviction_policy" := eviction_value (a_eviction_policy asset)]}
    {["eviction_policy" := eviction_value (a_eviction_policy updated)]} ;;
  mret updated.

(** [x is not None and x < 0] *)
Definition is_negative (x : option Z) : bool :=
  match x with Some z => z <? 0 | None => false end.

Definition set_partition_quota (space partition_id : string)
    (quota_bytes quota_asset_count : option Z) (sweep_enabled : option bool)
    (caller_service_id : string) : RM PartitionQuota :=
  raise_if (is_negative quota_bytes) ValidationError ;;
  raise_if (is_negative quota_asset_count) ValidationError ;;
  current ← _partition_quota space partition_id;
  let sweep := default (pq_eviction_sweep_enabled current) sweep_enabled in
  let updated := current <| pq_quota_bytes := quota_bytes |>
    <| pq_quota_asset_count := quota_asset_count |> <| pq_eviction_sweep_enabled := sweep |> in
  put_partition_quota updated ;;
  _audit "admin.quota_set" (pq_space updated +:+ "/" +:+ pq_partition_id updated)
    caller_service_id "success"
    {["quota_bytes" := str_opt pretty (pq_quota_bytes current);
      "quota_asset_count" := str_opt pretty (pq_quota_asset_count current);
      "eviction_sweep_enabled" := str_bool (pq_eviction_sweep_enabled current)]}
    {["quota_bytes" := str_opt pretty quota_bytes;
      "quota_asset_count" := str_opt pretty quota_asset_count;
      "eviction_sweep_enabled" := str_bool sweep]} ;;
  mret updated.

Definition set_bucket_quota (space : string) (quota_bytes : option Z)
    (warn_threshold hard_ceiling : spec_float) : RM BucketQuota :=
  raise_if (is_negative quota_bytes) ValidationError ;;
  current ← _bucket_quota space;
  let updated := current <| bq_quota_bytes := quota_bytes |>
    <| bq_warn_threshold := warn_threshold |> <| bq_hard_ceiling := hard_ceiling |> in
  put_bucket_quota updated ;;
  mret updated.

Definition get_partition_quota (space partition_id : string) : RM PartitionQuota :=
  _partition_quota space partition_id.

Definition get_bucket_quota (space : string) : RM BucketQuota := _bucket_quota space.

Definition get_asset (asset_id : string) : RM Asset := _get_asset asset_id.

(** Normalising [space] is part of the comprehension's filter: with no asset it is
    never evaluated, so an invalid space then sums to zero. *)
Definition reserved_upload_bytes (space : string) : RM Z :=
  reads (λ r,
    if decide (r_assets r = ∅) then mret 0
    else norm_space ← normalize_space space;
         mret (sum_where (λ a, bool_decide (a_space a = norm_space) &&
                               bool_decide (a_payload_deleted_at a = None))
                         reserved_of (r_assets r))).

(** The values of a dict: the model leaves their order open. *)
Definition list_assets : RM (list Asset) :=
  reads (λ r, mret (filter (λ a, a_payload_deleted_at a = None)
                           ((map_to_list (r_assets r)).*2))).

Definition record_read (asset_id : string) : RM unit :=
  asset ← _get_asset asset_id;
  if decide (a_state asset = AVAILABLE) then
    now ← utcnow;
    put_asset asset_id (asset <| a_last_read_at := Some now |>
                              <| a_read_count := a_read_count asset + 1 |>)
  else mret tt.

Definition lifecycle_action (state : AssetState) (payload_deleted : bool) : string :=
  if payload_deleted then "asset.payload_delete"
  else if decide (state = EXPIRED) then "asset.expire" else "asset.delete".

Definition lifecycle_update (asset : Asset) (state : AssetState) (now : Z) (reason : string)
    (payload_deleted : bool) : RM Asset :=
  current ← _get_asset (a_asset_id asset);
  raise_if (bool_decide (current ≠ asset)) InvalidStateTransitionError ;;
  of_res (validate_cleanup_transition asset state payload_deleted) ;;
  let updated := asset <| a_state := state |> <| a_updated_at := now |>
    <| a_expired_at := if decide (state = EXPIRED) then Some now else a_expired_at asset |>
    <| a_payload_deleted_at := if payload_deleted then Some now else a_payload_deleted_at asset |> in
  _release_quota asset ;;
  put_asset (a_asset_id asset) updated ;;
  _audit (lifecycle_action state payload_deleted) (a_asset_id asset) "lifecycle-worker" "success"
    {["state" := state_value (a_state asset)]}
    {["state" := state_value state; "reason" := reason]} ;;
  mret updated.

Definition concerns_asset (asset_id : option string) (e : AuditEvent) : bool :=
  match asset_id with
  | None => true
  | Some id => bool_decide (ev_target e = id) ||
               bool_decide (ev_before e !! "asset_id" = Some id) ||
               bool_decide (ev_after e !! "asset_id" = Some id)
  end.

Definition recent_audit (asset_id : option string) (limit : Z) : RM (list AuditEvent) :=
  raise_if (negb ((1 <=? limit) && (limit <=? 500))) ValidationError ;;
  reads (λ r,
    let events := filter (λ e, Is_true (concerns_asset asset_id e)) (r_audit_events r) in
    mret (drop (length events - Z.to_nat limit) events)).

Definition set_asset_ttl (asset_id : string) (ttl_seconds : Z) (caller_service_id : string)
    : RM Asset :=
  asset ← _get_asset asset_id;
  raise_if (bool_decide (a_state asset ≠ AVAILABLE ∧ a_state asset ≠ EXPIRED))
    InvalidStateTransitionError ;;
  raise_if (bool_decide (a_size_bytes asset = None ∨ a_checksum asset = None))
    InvalidStateTransitionError ;;
  now ← utcnow;
  deadline ← of_res (expiry_for (a_space asset) (Some ttl_seconds) now);
  let size := default 0 (a_size_bytes asset) in
  (if decide (a_state asset = EXPIRED) then
     _enforce_quota (a_space asset) (a_partition_id asset) size (Some (a_asset_id asset)) ;;
     _acquire_quota (a_space asset) (a_partition_id asset) size
   else mret tt) ;;
  let updated := asset <| a_state := AVAILABLE |> <| a_expires_at := deadline |>
    <| a_expired_at := None |> <| a_updated_at := now |> in
  put_asset asset_id updated ;;
  _audit "admin.ttl_set" asset_id caller_service_id "success"
    {["expires_at" := str_opt str_datetime (a_expires_at asset);
      "state" := state_value (a_state asset)]}
    {["expires_at" := str_opt str_datetime deadline; "state" := "available"]} ;;
  mret updated.
End Methods.

(** ** The registry interface

    [asset_store_core/registry_base.py]: the control-plane operations the guard
    depends on, as an interface, and the in-memory registry as an instance.  A
    client computation runs over a larger state [W] that holds the registry. *)

Class AssetRegistry (R : Type) := {
  ar_resolve_alias : string → string → M R Asset;
  ar_reserve_asset : string → string → alias_specs → string → option string →
    option (gmap string string) → EvictionPolicy → option Z → option Z → M R Asset;
  ar_commit_asset : string → Z → string → string → option string → option string → M R Asset;
  ar_record_read : string → M R unit;
  ar_lifecycle_update : Asset → AssetState → Z → string → bool → M R Asset;
  ar_list_assets : M R (list Asset);
  ar_get_partition_quota : string → string → M R PartitionQuota;
  ar_get_bucket_quota : string → M R BucketQuota;
  (** [with registry.asset_lock(asset_id) as locked: body(locked)], over a client
      state in which [get] and [set] reach the registry *)
  ar_asset_lock : ∀ {W A : Type}, (W → R) → (R → W → W) → string → (Asset → M W A) → M W A
}.

(** [InMemoryAssetRegistry.asset_lock]: the lookup, then the body; nothing to
    undo when the body raises. *)
Definition asset_lock `{Env} {W A} (get : W → Registry) (set : Registry → W → W) (asset_id : string)
    (body : Asset → M W A) : M W A :=
  locked ← zoom get set (_get_asset asset_id);
  body locked.

#[export] Instance memory_registry `{Env} : AssetRegistry Registry := {|
  ar_resolve_alias := resolve_alias;
  ar_reserve_asset := reserve_asset;
  ar_commit_asset := commit_asset;
  ar_record_read := record_read;
  ar_lifecycle_update := lifecycle_update;
  ar_list_assets := list_assets;
  ar_get_partition_quota := get_partition_quota;
  ar_get_bucket_quota := get_bucket_quota;
  ar_asset_lock := λ W A get set, asset_lock get set
|}.
