(* ===== verification/Codec.v ===== *)
(** * Text encodings of the standard library

    What the cursors are made of: URL-safe base64 ([base64.urlsafe_b64encode],
    [base64.b64decode(altchars=b"-_", validate=True)]), JSON text ([json.dumps],
    [json.loads]) and ISO 8601 times ([datetime.isoformat],
    [datetime.fromisoformat]), with their round trips.

    Reading accepts a little less than Python does: JSON in UTF-16 or UTF-32, code
    points above 255, the compact and week-date spellings of ISO 8601 and dates
    without a time are refused. *)

From S2P Require Import Prelude Errors Python.

Definition byte_of (c : ascii) : Z := Z.of_N (N_of_ascii c).
Definition chr (z : Z) : ascii := ascii_of_N (Z.to_N z).

(** ** Base64 *)

Definition b64_alphabet : string := "ABCDEFGHIJKLMNOPQRSTUVWXYZabcdefghijklmnopqrstuvwxyz0123456789-_".

Definition b64_char (sextet : Z) : ascii := default "="%char (String.get (Z.to_nat sextet) b64_alphabet).

(** [+] and [/] are accepted beside [-] and [_]. *)
Definition b64_value (c : ascii) : option Z :=
  let n := byte_of c in
  if (65 <=? n) && (n <=? 90) then Some (n - 65)
  else if (97 <=? n) && (n <=? 122) then Some (n - 71)
  else if (48 <=? n) && (n <=? 57) then Some (n + 4)
  else if (n =? 45) || (n =? 43) then Some 62
  else if (n =? 95) || (n =? 47) then Some 63
  else None.

Fixpoint b64_encode (s : string) : string :=
  match s with
  | String a (String b (String c s')) =>
      let n := byte_of a * 65536 + byte_of b * 256 + byte_of c in
      String (b64_char (n / 262144)) (String (b64_char (n / 4096 mod 64))
        (String (b64_char (n / 64 mod 64)) (String (b64_char (n mod 64)) (b64_encode s'))))
  | String a (String b EmptyString) =>
      let n := byte_of a * 1024 + byte_of b * 4 in
      String (b64_char (n / 4096)) (String (b64_char (n / 64 mod 64))
        (String (b64_char (n mod 64)) (String "=" EmptyString)))
  | String a EmptyString =>
      let n := byte_of a * 16 in
      String (b64_char (n / 64)) (String (b64_char (n mod 64)) (String "=" (String "=" EmptyString)))
  | EmptyString => EmptyString
  end.

Fixpoint b64_decode (s : string) : option string :=
  match s with
  | EmptyString => Some EmptyString
  | String w (String x (String y (String z s'))) =>
      w ← b64_value w;
      x ← b64_value x;
      let a := chr ((w * 64 + x) / 16) in
      if Ascii.eqb y "=" then
        if Ascii.eqb z "=" && bool_decide (s' = "") then Some (String a EmptyString) else None
      else
        y ← b64_value y;
        let b := chr ((x * 64 + y) / 4 mod 256) in
        if Ascii.eqb z "=" then
          if bool_decide (s' = "") then Some (String a (String b EmptyString)) else None
        else
          z ← b64_value z;
          rest ← b64_decode s';
          Some (String a (String b (String (chr ((y * 64 + z) mod 256)) rest)))
  | _ => None
  end.

(** ** JSON *)

Definition hex_digit (z : Z) : ascii := chr (if z <? 10 then 48 + z else 87 + z).

(** [ensure_ascii]: what is not printable ASCII is escaped. *)
Definition json_escape (c : ascii) : string :=
  let n := byte_of c in
  if n =? 34 then "\" +:+ String (chr 34) ""
  else if n =? 92 then "\\"
  else if n =? 10 then "\n"
  else if n =? 13 then "\r"
  else if n =? 9 then "\t"
  else if n =? 8 then "\b"
  else if n =? 12 then "\f"
  else if (32 <=? n) && (n <=? 126) then String c ""
  else "\u00" +:+ String (hex_digit (n / 16)) (String (hex_digit (n mod 16)) "").

Fixpoint json_escape_all (s : string) : string :=
  match s with
  | EmptyString => ""
  | String c s' => json_escape c +:+ json_escape_all s'
  end.

Definition quoted (s : string) : string := String (chr 34) (json_escape_all s +:+ String (chr 34) "").

(** [json.dumps] of a list of strings. *)
Fixpoint dump_items (l : list string) : string :=
  match l with
  | [] => ""
  | [s] => quoted s
  | s :: l' => quoted s +:+ ", " +:+ dump_items l'
  end.

Definition json_dumps_list (l : list string) : string := "[" +:+ dump_items l +:+ "]".

(** The characters after a backslash that stand for one character. *)
Definition simple_escape (c : ascii) : option ascii :=
  let n := byte_of c in
  if (n =? 34) || (n =? 92) || (n =? 47) then Some c
  else if n =? 98 then Some (chr 8)
  else if n =? 102 then Some (chr 12)
  else if n =? 110 then Some (chr 10)
  else if n =? 114 then Some (chr 13)
  else if n =? 116 then Some (chr 9)
  else None.

Definition hex_value (c : ascii) : option Z :=
  let n := byte_of c in
  if (48 <=? n) && (n <=? 57) then Some (n - 48)
  else if (97 <=? n) && (n <=? 102) then Some (n - 87)
  else if (65 <=? n) && (n <=? 70) then Some (n - 55)
  else None.

(** The rest of a string literal after its opening quote. *)
Fixpoint read_string (s : string) : option (string * string) :=
  match s with
  | EmptyString => None
  | String c s1 =>
      if byte_of c =? 34 then Some ("", s1)
      else if byte_of c =? 92 then
        match s1 with
        | EmptyString => None
        | String e s2 =>
            match simple_escape e with
            | Some d => '(t, rest) ← read_string s2; Some (String d t, rest)
            | None =>
                if byte_of e =? 117 then
                  match s2 with
                  | String h1 (String h2 (String h3 (String h4 s3))) =>
                      h1 ← hex_value h1; h2 ← hex_value h2; h3 ← hex_value h3; h4 ← hex_value h4;
                      if (h1 =? 0) && (h2 =? 0) then
                        '(t, rest) ← read_string s3; Some (String (chr (h3 * 16 + h4)) t, rest)
                      else None
                  | _ => None
                  end
                else None
            end
        end
      else if byte_of c <? 32 then None
      else '(t, rest) ← read_string s1; Some (String c t, rest)
  end.

Definition json_space (c : ascii) : bool :=
  let n := byte_of c in (n =? 32) || (n =? 9) || (n =? 10) || (n =? 13).

Fixpoint skip_space (s : string) : string :=
  match s with
  | String c s' => if json_space c then skip_space s' else s
  | EmptyString => ""
  end.

Fixpoint skip_digits (s : string) : string :=
  match s with
  | String c s' => match digit_value c with Some _ => skip_digits s' | None => s end
  | EmptyString => ""
  end.

Fixpoint read_digits (acc : Z) (s : string) : Z :=
  match s with
  | String c s' => match digit_value c with Some d => read_digits (10 * acc + d) s' | None => acc end
  | EmptyString => acc
  end.

Fixpoint leading_digits (s : string) : Z :=
  match s with
  | String c s' => match digit_value c with Some _ => 1 + leading_digits s' | None => 0 end
  | EmptyString => 0
  end.

(** One digit or more. *)
Definition skip_digits1 (s : string) : option string :=
  match s with
  | String c s' => match digit_value c with Some _ => Some (skip_digits s') | None => None end
  | EmptyString => None
  end.

(** [0] or a digit string without leading zero *)
Definition skip_integer (s : string) : option string :=
  match s with String "0" s' => Some s' | _ => skip_digits1 s end.

Definition skip_fraction (s : string) : string :=
  match s with String "." s' => default s (skip_digits1 s') | _ => s end.

Definition skip_exponent (s : string) : string :=
  match s with
  | String c s' =>
      if Ascii.eqb c "e" || Ascii.eqb c "E" then
        default s (skip_digits1 match s' with
                                | String "+" s2 | String "-" s2 => s2
                                | _ => s'
                                end)
      else s
  | EmptyString => ""
  end.

Definition read_number (s : string) : option (json * string) :=
  let '(negative, digits) := match s with String "-" s' => (true, s') | _ => (false, s) end in
  rest ← skip_integer digits;
  let rest' := skip_exponent (skip_fraction rest) in
  if bool_decide (rest' = rest) then
    let n := read_digits 0 digits in
    if 4300 <? leading_digits digits then None
    else Some (JInt (if negative then - n else n), rest)
  else Some (JFloat, rest').

Fixpoint drop_prefix (text s : string) : option string :=
  match text, s with
  | EmptyString, _ => Some s
  | String c text', String d s' => if Ascii.eqb c d then drop_prefix text' s' else None
  | _, EmptyString => None
  end.

Definition literal (text : string) (v : json) (s : string) : option (json * string) :=
  rest ← drop_prefix text s; Some (v, rest).

(** A value; [fuel] bounds the values and the separators read. *)
Fixpoint read_value (fuel : nat) (s : string) : option (json * string) :=
  match fuel with
  | O => None
  | S fuel =>
      match skip_space s with
      | EmptyString => None
      | String c s1 =>
          if byte_of c =? 34 then '(t, rest) ← read_string s1; Some (JStr t, rest)
          else if Ascii.eqb c "[" then
            match skip_space s1 with
            | String "]" rest => Some (JArr [], rest)
            | _ => '(l, rest) ← read_items fuel s1; Some (JArr l, rest)
            end
          else if Ascii.eqb c "{" then
            match skip_space s1 with
            | String "}" rest => Some (JObj [], rest)
            | _ => '(l, rest) ← read_members fuel s1;
                   Some (JObj (foldl (λ d kv, dict_set kv.1 kv.2 d) [] l), rest)
            end
          else
            let s := String c s1 in
            match literal "null" JNull s with Some r => Some r | None =>
            match literal "true" (JBool true) s with Some r => Some r | None =>
            match literal "false" (JBool false) s with Some r => Some r | None =>
            match literal "NaN" JFloat s with Some r => Some r | None =>
            match literal "Infinity" JFloat s with Some r => Some r | None =>
            match literal "-Infinity" JFloat s with Some r => Some r | None => read_number s
            end end end end end end
      end
  end
with read_items (fuel : nat) (s : string) : option (list json * string) :=
  match fuel with
  | O => None
  | S fuel =>
      '(v, rest) ← read_value fuel s;
      match skip_space rest with
      | String "," s1 => '(l, rest) ← read_items fuel s1; Some (v :: l, rest)
      | String "]" rest => Some ([v], rest)
      | _ => None
      end
  end
with read_members (fuel : nat) (s : string) : option (list (string * json) * string) :=
  match fuel with
  | O => None
  | S fuel =>
      match skip_space s with
      | String q s1 =>
          if negb (byte_of q =? 34) then None
          else
            '(k, rest) ← read_string s1;
            match skip_space rest with
            | String ":" s2 =>
                '(v, rest) ← read_value fuel s2;
                match skip_space rest with
                | String "," s3 => '(l, rest) ← read_members fuel s3; Some ((k, v) :: l, rest)
                | String "}" rest => Some ([(k, v)], rest)
                | _ => None
                end
            | _ => None
            end
      | EmptyString => None
      end
  end.

(** [bytes.decode("utf-8")] *)
Fixpoint utf8_decode (s : string) : option string :=
  match s with
  | EmptyString => Some ""
  | String c s' =>
      let n := byte_of c in
      if n <? 128 then String c <$> utf8_decode s'
      else if (194 <=? n) && (n <=? 195) then
        match s' with
        | String d s2 =>
            let m := byte_of d in
            if (128 <=? m) && (m <=? 191) then String (chr ((n - 192) * 64 + m - 128)) <$> utf8_decode s2
            else None
        | EmptyString => None
        end
      else None
  end.

(** [json.loads(data)]: [None] stands for [ValueError]. *)
Definition json_loads (data : string) : option json :=
  s ← utf8_decode data;
  '(v, rest) ← read_value (S (String.length s)) s;
  if bool_decide (skip_space rest = "") then Some v else None.

(** ** ISO 8601 *)

(** The day count of a proleptic Gregorian date; the inverse of [civil_of_days]. *)
Definition days_of_civil (y m d : Z) : Z :=
  let y' := if m <=? 2 then y - 1 else y in
  let era := y' / 400 in
  let yoe := y' - era * 400 in
  let doy := (153 * (if 2 <? m then m - 3 else m + 9) + 2) / 5 + d - 1 in
  let doe := yoe * 365 + yoe / 4 - yoe / 100 + doy in
  era * 146097 + doe - 719468.

Definition is_leap (y : Z) : bool :=
  (y mod 4 =? 0) && (negb (y mod 100 =? 0) || (y mod 400 =? 0)).

Definition days_in_month (y m : Z) : Z :=
  if m =? 2 then (if is_leap y then 29 else 28)
  else if (m =? 4) || (m =? 6) || (m =? 9) || (m =? 11) then 30 else 31.

(** Exactly [width] digits. *)
Fixpoint fixed_digits (acc : Z) (width : nat) (s : string) : option (Z * string) :=
  match width, s with
  | O, _ => Some (acc, s)
  | S width', String c s' => d ← digit_value c; fixed_digits (10 * acc + d) width' s'
  | S _, EmptyString => None
  end.

Definition expect (c : ascii) (s : string) : option string :=
  match s with String d s' => if Ascii.eqb c d then Some s' else None | EmptyString => None end.

(** The first six digits of a fraction; further digits are dropped. *)
Fixpoint fraction_digits (acc scale : Z) (s : string) : Z * string :=
  match s with
  | String c s' =>
      match digit_value c with
      | Some d => fraction_digits (acc + d * scale) (scale / 10) s'
      | None => (acc, s)
      end
  | EmptyString => (acc, "")
  end.

(** Hours, then perhaps minutes, seconds and a fraction. *)
Definition read_time (s : string) : option (Z * Z * Z * Z * string) :=
  '(h, s) ← fixed_digits 0 2 s;
  match s with
  | String ":" s =>
      '(mi, s) ← fixed_digits 0 2 s;
      match s with
      | String ":" s =>
          '(sec, s) ← fixed_digits 0 2 s;
          match s with
          | String c s' =>
              if Ascii.eqb c "." || Ascii.eqb c "," then
                _ ← skip_digits1 s';
                let '(us, s) := fraction_digits 0 100000 s' in Some (h, mi, sec, us, s)
              else Some (h, mi, sec, 0, s)
          | EmptyString => Some (h, mi, sec, 0, "")
          end
      | _ => Some (h, mi, 0, 0, s)
      end
  | _ => Some (h, 0, 0, 0, s)
  end.

Definition time_of (h mi sec us : Z) : Z := ((h * 60 + mi) * 60 + sec) * usec_per_sec + us.

Definition valid_time (h mi sec : Z) : bool := (h <? 24) && (mi <? 60) && (sec <? 60).

(** The offset from UTC in microseconds, [None] for a naive time. *)
Definition read_offset (s : string) : option (option Z) :=
  match s with
  | EmptyString => Some None
  | String "Z" EmptyString => Some (Some 0)
  | String c s' =>
      if Ascii.eqb c "+" || Ascii.eqb c "-" then
        '(h, mi, sec, us, rest) ← read_time s';
        if bool_decide (rest = "") && valid_time h mi sec then
          Some (Some (if Ascii.eqb c "-" then - time_of h mi sec us else time_of h mi sec us))
        else None
      else None
  end.

(** [datetime.fromisoformat(text)]: [None] stands for [ValueError]; the instant of
    an aware time, [Some None] for a naive one. *)
Definition fromisoformat (text : string) : option (option Z) :=
  '(y, s) ← fixed_digits 0 4 text; s ← expect "-" s;
  '(m, s) ← fixed_digits 0 2 s; s ← expect "-" s;
  '(d, s) ← fixed_digits 0 2 s;
  match s with
  | EmptyString => None
  | String _ s =>
      '(h, mi, sec, us, s) ← read_time s;
      offset ← read_offset s;
      if (1 <=? y) && (1 <=? m) && (m <=? 12) && (1 <=? d) && (d <=? days_in_month y m) && valid_time h mi sec then
        let local := days_of_civil y m d * usec_per_day + time_of h mi sec us in
        Some match (offset : option Z) with Some o => Some (local - o) | None => None end
      else None
  end.

(** * Round trips *)

(** ** Characters *)

Lemma byte_of_range c : 0 <= byte_of c < 256.
Proof. unfold byte_of. pose proof (Ascii.N_ascii_bounded c). lia. Qed.

Lemma chr_byte_of c : chr (byte_of c) = c.
Proof. unfold chr, byte_of. rewrite N2Z.id. apply Ascii.ascii_N_embedding. Qed.

Lemma byte_of_chr z : 0 <= z < 256 → byte_of (chr z) = z.
Proof. intros Hz. unfold chr, byte_of. rewrite Ascii.N_ascii_embedding; lia. Qed.

(** What holds of all numbers below a bound, checked one by one. *)
Lemma check_below (n : nat) (P : Z → bool) :
  forallb (λ k, P (Z.of_nat k)) (seq 0 n) = true → ∀ z, 0 <= z < Z.of_nat n → P z = true.
Proof.
  intros H z Hz. rewrite forallb_forall in H. specialize (H (Z.to_nat z)).
  rewrite Z2Nat.id in H by lia. apply H, in_seq. lia.
Qed.

(** ** Base64 *)

Lemma b64_value_char v : 0 <= v < 64 → b64_value (b64_char v) = Some v ∧ Ascii.eqb (b64_char v) "=" = false.
Proof.
  intros Hv. pose proof (check_below 64 (λ v, bool_decide (b64_value (b64_char v) = Some v) &&
    negb (Ascii.eqb (b64_char v) "=")) ltac:(by vm_compute) v Hv) as H.
  apply andb_prop in H as [H1%bool_decide_eq_true H2%negb_true_iff]. done.
Qed.

Lemma b64_decode_quad w x y z s' :
  0 <= w < 64 → 0 <= x < 64 → 0 <= y < 64 → 0 <= z < 64 →
  b64_decode (String (b64_char w) (String (b64_char x) (String (b64_char y) (String (b64_char z) s')))) =
  rest ← b64_decode s';
  Some (String (chr ((w * 64 + x) / 16)) (String (chr ((x * 64 + y) / 4 mod 256))
    (String (chr ((y * 64 + z) mod 256)) rest))).
Proof.
  intros Hw Hx Hy Hz. cbn [b64_decode].
  destruct (b64_value_char w Hw) as [-> _], (b64_value_char x Hx) as [-> _].
  destruct (b64_value_char y Hy) as [-> ->], (b64_value_char z Hz) as [-> ->]. done.
Qed.

(** Three characters at a time. *)
Lemma string_ind3 (P : string → Prop) :
  P "" → (∀ a, P (String a "")) → (∀ a b, P (String a (String b ""))) →
  (∀ a b c s, P s → P (String a (String b (String c s)))) → ∀ s, P s.
Proof.
  intros H0 H1 H2 H3. fix IH 1. intros [|a [|b [|c s]]]; [done|done|done|]. apply H3, IH.
Qed.

Lemma b64_roundtrip s : b64_decode (b64_encode s) = Some s.
Proof.
  induction s as [|a|a b|a b c s IH] using string_ind3; [done| | |]; pose proof (byte_of_range a).
  - cbn [b64_encode b64_decode]. set (n := byte_of a * 16).
    destruct (b64_value_char (n / 64)) as [-> _]; [unfold n; Z.to_euclidean_division_equations; lia|].
    destruct (b64_value_char (n mod 64)) as [-> _]; [unfold n; Z.to_euclidean_division_equations; lia|].
    cbn. replace ((n / 64 * 64 + n mod 64) / 16) with (byte_of a); [by rewrite chr_byte_of|].
    unfold n. Z.to_euclidean_division_equations; lia.
  - pose proof (byte_of_range b). cbn [b64_encode b64_decode]. set (n := byte_of a * 1024 + byte_of b * 4).
    destruct (b64_value_char (n / 4096)) as [-> _]; [unfold n; Z.to_euclidean_division_equations; lia|].
    destruct (b64_value_char (n / 64 mod 64)) as [-> _]; [unfold n; Z.to_euclidean_division_equations; lia|].
    destruct (b64_value_char (n mod 64)) as [-> ->]; [unfold n; Z.to_euclidean_division_equations; lia|].
    cbn. replace ((n / 4096 * 64 + n / 64 mod 64) / 16) with (byte_of a) by (unfold n; Z.to_euclidean_division_equations; lia).
    replace ((n / 64 mod 64 * 64 + n mod 64) / 4 mod 256) with (byte_of b) by (unfold n; Z.to_euclidean_division_equations; lia).
    by rewrite !chr_byte_of.
  - pose proof (byte_of_range b). pose proof (byte_of_range c). cbn [b64_encode].
    set (n := byte_of a * 65536 + byte_of b * 256 + byte_of c).
    rewrite b64_decode_quad, IH by (unfold n; Z.to_euclidean_division_equations; lia). cbn.
    replace ((n / 262144 * 64 + n / 4096 mod 64) / 16) with (byte_of a) by (unfold n; Z.to_euclidean_division_equations; lia).
    replace ((n / 4096 mod 64 * 64 + n / 64 mod 64) / 4 mod 256) with (byte_of b) by (unfold n; Z.to_euclidean_division_equations; lia).
    replace ((n / 64 mod 64 * 64 + n mod 64) mod 256) with (byte_of c) by (unfold n; Z.to_euclidean_division_equations; lia).
    by rewrite !chr_byte_of.
Qed.

(** ** JSON *)

Lemma read_escaped c s : read_string (json_escape c +:+ s) = '(t, rest) ← read_string s; Some (String c t, rest).
Proof.
  destruct c as [[] [] [] [] [] [] [] []]; reflexivity.
Qed.

Lemma read_string_escaped s rest :
  read_string (json_escape_all s +:+ String (chr 34) rest) = Some (s, rest).
Proof.
  induction s as [|c s IH]; [done|]. cbn [json_escape_all].
  rewrite <- app_str_assoc, read_escaped, IH. done.
Qed.

Lemma read_quoted fuel s rest : read_value (S fuel) (quoted s +:+ rest) = Some (JStr s, rest).
Proof.
  unfold quoted. rewrite app_str_cons. cbn [read_value skip_space].
  change (json_space (chr 34)) with false. change (byte_of (chr 34) =? 34) with true. cbv iota.
  rewrite <- app_str_assoc. cbn [String.append]. by rewrite read_string_escaped.
Qed.

Lemma read_value_space fuel s : read_value fuel (String " " s) = read_value fuel s.
Proof. by destruct fuel. Qed.

Lemma read_items_space fuel s : read_items fuel (String " " s) = read_items fuel s.
Proof. destruct fuel as [|fuel]; [done|]. cbn [read_items]. by rewrite read_value_space. Qed.

Lemma read_dumped fuel l s rest :
  (length l < fuel)%nat →
  read_items (S fuel) (dump_items (s :: l) +:+ String "]" rest) = Some (JStr <$> s :: l, rest).
Proof.
  revert fuel s. induction l as [|s2 l IH]; intros fuel s Hf; (destruct fuel as [|fuel]; [cbn in Hf; lia|]).
  - change (dump_items [s]) with (quoted s). cbn [read_items]. by rewrite read_quoted.
  - change (dump_items (s :: s2 :: l)) with (quoted s +:+ ", " +:+ dump_items (s2 :: l)).
    rewrite <- !app_str_assoc. remember (S fuel) as fuel' eqn:Hfuel. cbn [read_items]. rewrite Hfuel at 1. rewrite read_quoted.
    set (more := dump_items (s2 :: l) +:+ String "]" rest).
    cbn [mbind option_bind]. change (skip_space (", " +:+ more)) with (String "," (String " " more)).
    cbv iota beta. rewrite read_items_space. unfold more. rewrite Hfuel, IH by (cbn in Hf; lia). done.
Qed.

(** Texts of ASCII characters decode to themselves. *)
Fixpoint is_ascii (s : string) : bool :=
  match s with EmptyString => true | String c s' => (byte_of c <? 128) && is_ascii s' end.

Lemma is_ascii_app s t : is_ascii (s +:+ t) = is_ascii s && is_ascii t.
Proof. induction s as [|c s IH]; [done|]. cbn. by rewrite IH, andb_assoc. Qed.

Lemma utf8_decode_ascii s : is_ascii s = true → utf8_decode s = Some s.
Proof.
  induction s as [|c s IH]; [done|]. cbn. intros [Hc Hs]%andb_prop. by rewrite Hc, (IH Hs).
Qed.

Lemma json_escape_ascii c : is_ascii (json_escape c) = true.
Proof. destruct c as [[] [] [] [] [] [] [] []]; reflexivity. Qed.

Lemma json_escape_all_ascii s : is_ascii (json_escape_all s) = true.
Proof.
  induction s as [|c s IH]; [done|]. cbn [json_escape_all]. by rewrite is_ascii_app, json_escape_ascii, IH.
Qed.

Lemma quoted_ascii s : is_ascii (quoted s) = true.
Proof.
  unfold quoted. cbn [is_ascii]. by rewrite is_ascii_app, json_escape_all_ascii.
Qed.

Lemma dump_items_ascii l : is_ascii (dump_items l) = true.
Proof.
  induction l as [|s [|s2 l] IH]; [done|apply quoted_ascii|].
  change (dump_items (s :: s2 :: l)) with (quoted s +:+ ", " +:+ dump_items (s2 :: l)).
  by rewrite !is_ascii_app, quoted_ascii, IH.
Qed.

Lemma dump_items_length l : (length l <= String.length (dump_items l))%nat.
Proof.
  induction l as [|s [|s2 l] IH]; [cbn; lia|cbn; lia|].
  change (dump_items (s :: s2 :: l)) with (quoted s +:+ ", " +:+ dump_items (s2 :: l)).
  rewrite !length_app_str. cbn [length] in *. cbn [String.length]. lia.
Qed.

Lemma json_roundtrip s l : json_loads (json_dumps_list (s :: l)) = Some (JArr (JStr <$> s :: l)).
Proof.
  unfold json_loads, json_dumps_list. set (items := dump_items (s :: l)).
  rewrite utf8_decode_ascii by (rewrite !is_ascii_app; unfold items; by rewrite dump_items_ascii).
  cbn [mbind option_bind]. pose proof (dump_items_length (s :: l)) as Hlen. fold items in Hlen. cbn [length] in Hlen.
  assert (Hread : read_value (S (String.length ("[" +:+ items +:+ "]"))) ("[" +:+ items +:+ "]") =
    Some (JArr (JStr <$> s :: l), "")); [|by rewrite Hread].
  assert (Hitems : read_items (String.length ("[" +:+ items +:+ "]")) (items +:+ "]") = Some (JStr <$> s :: l, "")).
  { rewrite !length_app_str. cbn [String.length]. rewrite Nat.add_1_r. apply (read_dumped _ l s ""). cbn [plus]. lia. }
  change ("[" +:+ items +:+ "]") with (String "[" (items +:+ "]")) in *.
  assert (Hskip : skip_space (items +:+ "]") = items +:+ "]") by (unfold items; destruct l; done).
  cbn [read_value skip_space]. change (json_space "[") with false. change (byte_of "[" =? 34) with false. cbv iota.
  change (Ascii.eqb "[" "[") with true. cbv iota. rewrite Hskip, Hitems.
  assert (∃ t, items +:+ "]" = String (chr 34) t) as [t ->] by (unfold items; destruct l; cbn; by eexists). done.
Qed.

(** ** Dates *)

(** The year, counted from March, and the day of the year that a day of an era of
    400 years lies in. *)
Lemma year_of_era doe :
  0 <= doe < 146097 →
  let yoe := (doe - doe / 1460 + doe / 36524 - doe / 146096) / 365 in
  let doy := doe - (365 * yoe + yoe / 4 - yoe / 100) in
  0 <= yoe < 400 ∧ 0 <= doy <= 365 ∧
  (doy = 365 → (yoe + 1) mod 4 = 0 ∧ ((yoe + 1) mod 100 ≠ 0 ∨ yoe = 399)).
Proof.
  intros H yoe doy. unfold doy, yoe. split_and!; [..|intros Hd; split].
  all: Z.to_euclidean_division_equations; lia.
Qed.

(** What [civil_of_days] computes: eras, years, days of the year, months. *)
Lemma civil_of_days_spec z : ∃ era yoe doy mp,
  0 <= yoe < 400 ∧ 0 <= doy <= 365 ∧ 0 <= mp <= 11 ∧ 153 * mp <= 5 * doy + 2 < 153 * (mp + 1) ∧
  (doy = 365 → (yoe + 1) mod 4 = 0 ∧ ((yoe + 1) mod 100 ≠ 0 ∨ yoe = 399)) ∧
  z + 719468 = 146097 * era + (365 * yoe + yoe / 4 - yoe / 100 + doy) ∧
  civil_of_days z = (let m := if mp <? 10 then mp + 3 else mp - 9 in
                     (yoe + era * 400 + (if m <=? 2 then 1 else 0), m, doy - (153 * mp + 2) / 5 + 1)).
Proof.
  set (era := (z + 719468) / 146097). set (doe := z + 719468 - era * 146097).
  assert (Hdoe : 0 <= doe < 146097) by (unfold doe, era; Z.to_euclidean_division_equations; lia).
  destruct (year_of_era doe Hdoe) as (Hy & Hd & Hleap).
  set (yoe := (doe - doe / 1460 + doe / 36524 - doe / 146096) / 365) in *.
  set (doy := doe - (365 * yoe + yoe / 4 - yoe / 100)) in *.
  exists era, yoe, doy, ((5 * doy + 2) / 153). split_and!; try done; try (Z.to_euclidean_division_equations; lia).
Qed.

Lemma days_of_civil_of_days z : let '(y, m, d) := civil_of_days z in days_of_civil y m d = z.
Proof.
  destruct (civil_of_days_spec z) as (era & yoe & doy & mp & Hy & Hd & Hmp & Hdoy & _ & Hz & ->). cbv zeta.
  unfold days_of_civil. set (m := if mp <? 10 then mp + 3 else mp - 9).
  assert (Hm : (if 2 <? m then m - 3 else m + 9) = mp) by (unfold m; destruct (mp <? 10) eqn:?; destruct (2 <? _) eqn:?; lia).
  rewrite Hm. replace (if m <=? 2 then _ - 1 else _) with (yoe + era * 400) by (destruct (m <=? 2); lia).
  rewrite Z.div_add, (Z.div_small yoe) by lia. replace (yoe + era * 400 - (0 + era) * 400) with yoe by lia. lia.
Qed.

Lemma civil_of_days_range z :
  let '(y, m, d) := civil_of_days z in 1 <= m <= 12 ∧ 1 <= d <= days_in_month y m ∧ d <= 31.
Proof.
  destruct (civil_of_days_spec z) as (era & yoe & doy & mp & Hy & Hd & Hmp & Hdoy & Hleap & _ & ->). cbv zeta.
  assert (Hm : 1 <= (if mp <? 10 then mp + 3 else mp - 9) <= 12) by (destruct (mp <? 10) eqn:?; lia).
  split; [done|]. assert (mp = 11 ∨ mp <> 11) as [-> |Hne] by lia.
  - change (11 <? 10) with false. cbv iota. change (11 - 9) with 2. change (2 <=? 2) with true. cbv iota.
    change ((153 * 11 + 2) / 5) with 337.
    change (days_in_month (yoe + era * 400 + 1) 2) with (if is_leap (yoe + era * 400 + 1) then 29 else 28).
    unfold is_leap.
    assert ((yoe + era * 400 + 1) mod 4 = (yoe + 1) mod 4) as -> by (Z.to_euclidean_division_equations; lia).
    assert ((yoe + era * 400 + 1) mod 100 = (yoe + 1) mod 100) as -> by (Z.to_euclidean_division_equations; lia).
    assert ((yoe + era * 400 + 1) mod 400 = (yoe + 1) mod 400) as -> by (Z.to_euclidean_division_equations; lia).
    destruct (decide (doy = 365)) as [->|]; [|destruct (_ && _); lia].
    destruct (Hleap eq_refl) as [-> [Hc | ->]]; [|done].
    by replace ((yoe + 1) mod 100 =? 0) with false by (symmetry; lia).
  - unfold days_in_month.
    assert (mp = 0 ∨ mp = 1 ∨ mp = 2 ∨ mp = 3 ∨ mp = 4 ∨ mp = 5 ∨ mp = 6 ∨ mp = 7 ∨ mp = 8 ∨ mp = 9 ∨ mp = 10) as Hcases by lia.
    destruct_or! Hcases; subst mp; clear Hm;
      repeat match goal with
      | |- context [?a =? ?b] => let v := eval vm_compute in (a =? b) in change (a =? b) with v
      | |- context [?a <? 10] => let v := eval vm_compute in (a <? 10) in change (a <? 10) with v
      | |- context [(153 * ?a + 2) / 5] =>
          let v := eval vm_compute in ((153 * a + 2) / 5) in change ((153 * a + 2) / 5) with v
      end; cbn [orb]; lia.
Qed.

(** The days of the years 1 to 9999. *)
Lemma civil_of_days_year z :
  -719162 <= z <= 2932896 → let '(y, _, _) := civil_of_days z in 1 <= y <= 9999.
Proof.
  intros Hz. destruct (civil_of_days_spec z) as (era & yoe & doy & mp & Hy & Hd & Hmp & Hdoy & _ & Heq & ->). cbv zeta.
  assert (0 <= era <= 24) by (Z.to_euclidean_division_equations; lia).
  destruct (mp <? 10) eqn:Hmp10; [replace (mp + 3 <=? 2) with false by (symmetry; lia)|replace (mp - 9 <=? 2) with true by (symmetry; lia)].
  all: Z.to_euclidean_division_equations; lia.
Qed.

(** ** Digits *)

Lemma digit_value_chr d : 0 <= d < 10 → digit_value (chr (48 + d)) = Some d.
Proof.
  intros Hd. pose proof (check_below 10 (λ d, bool_decide (digit_value (chr (48 + d)) = Some d)) ltac:(by vm_compute) d Hd) as H.
  by apply bool_decide_eq_true in H.
Qed.

Lemma fixed_digits_pad w acc n rest :
  0 <= n < 10 ^ Z.of_nat w → fixed_digits acc w (pad w n +:+ rest) = Some (acc * 10 ^ Z.of_nat w + n, rest).
Proof.
  assert (Hgen : ∀ w k acc n rest, 0 <= n < 10 ^ Z.of_nat w →
    fixed_digits acc (w + k) (pad w n +:+ rest) = fixed_digits (acc * 10 ^ Z.of_nat w + n) k rest).
  { clear. intros w. induction w as [|w IH]; intros k acc n rest Hn.
    - cbn in Hn |- *. replace n with 0 by lia. f_equal. lia.
    - rewrite Nat2Z.inj_succ, Z.pow_succ_r in * by lia. cbn [pad]. rewrite <- app_str_assoc.
      assert (Hq : 0 <= n / 10 < 10 ^ Z.of_nat w) by (Z.to_euclidean_division_equations; lia).
      replace (S w + k)%nat with (w + S k)%nat by lia. rewrite (IH (S k) acc (n / 10)) by done.
      cbn [String.append fixed_digits]. change (ascii_of_N (Z.to_N (48 + n mod 10))) with (chr (48 + n mod 10)).
      rewrite digit_value_chr by (apply Z.mod_pos_bound; lia). cbn [mbind option_bind]. f_equal.
      rewrite (Z.div_mod n 10) at 3 by lia. ring. }
  intros Hn. specialize (Hgen w 0%nat acc n rest Hn). by rewrite Nat.add_0_r in Hgen.
Qed.

Lemma fixed_digits_pad0 w n rest :
  0 <= n < 10 ^ Z.of_nat w → fixed_digits 0 w (pad w n +:+ rest) = Some (n, rest).
Proof. intros Hn. by rewrite fixed_digits_pad. Qed.

Lemma fraction_pad n rest :
  0 <= n < 1000000 → match rest with String c _ => digit_value c = None | EmptyString => False end →
  fraction_digits 0 100000 (pad 6 n +:+ rest) = (n, rest) ∧ is_Some (skip_digits1 (pad 6 n +:+ rest)).
Proof.
  intros Hn Hrest. cbn [pad String.append fraction_digits skip_digits1].
  repeat match goal with |- context [ascii_of_N (Z.to_N (48 + ?d mod 10))] =>
    change (ascii_of_N (Z.to_N (48 + d mod 10))) with (chr (48 + d mod 10));
    rewrite !(digit_value_chr (d mod 10)) by (apply Z.mod_pos_bound; lia) end.
  destruct rest as [|c rest]; [done|]. split; [|by eexists]. cbn [fraction_digits]. rewrite Hrest. f_equal.
  change (100000 / 10) with 10000. change (10000 / 10) with 1000. change (1000 / 10) with 100.
  change (100 / 10) with 10. change (10 / 10) with 1. Z.to_euclidean_division_equations; lia.
Qed.

(** ** Times *)

(** The first instant of a [datetime], in UTC. *)
Definition datetime_min : Z := -62135596800000000.

Lemma expect_same c s : expect c (String c s) = Some s.
Proof. unfold expect. by rewrite (proj2 (Ascii.eqb_eq c c) eq_refl). Qed.

Lemma isoformat_roundtrip t :
  datetime_min <= t <= datetime_max → fromisoformat (isoformat t) = Some (Some t).
Proof.
  intros Ht. unfold isoformat, isoformat_with. set (days := t / usec_per_day). set (us := t mod usec_per_day).
  assert (Hus : 0 <= us < usec_per_day) by (apply Z.mod_pos_bound; done).
  assert (Hsum : t = days * usec_per_day + us) by (unfold days, us; rewrite (Z.div_mod t usec_per_day) at 1; [ring|done]).
  assert (Hdays : -719162 <= days <= 2932896).
  { unfold days, usec_per_day, usec_per_sec, datetime_min, datetime_max in *. Z.to_euclidean_division_equations; lia. }
  pose proof (civil_of_days_year days Hdays) as Hy. pose proof (civil_of_days_range days) as Hmd.
  pose proof (days_of_civil_of_days days) as Hdc. destruct (civil_of_days days) as [[y m] d].
  set (secs := us / usec_per_sec). set (frac := us mod usec_per_sec).
  assert (Hsecs : 0 <= secs < 86400).
  { unfold secs, usec_per_day, usec_per_sec in *. Z.to_euclidean_division_equations; lia. }
  assert (Hfrac : 0 <= frac < 1000000) by (apply Z.mod_pos_bound; done).
  assert (Hus2 : us = secs * usec_per_sec + frac) by (unfold secs, frac; rewrite (Z.div_mod us usec_per_sec) at 1; [ring|done]).
  assert (Hh : 0 <= secs / 3600 < 24) by (Z.to_euclidean_division_equations; lia).
  assert (Hmi : 0 <= secs / 60 mod 60 < 60) by (apply Z.mod_pos_bound; lia).
  assert (Hs : 0 <= secs mod 60 < 60) by (apply Z.mod_pos_bound; lia).
  assert (Htime : time_of (secs / 3600) (secs / 60 mod 60) (secs mod 60) frac = us).
  { rewrite Hus2. unfold time_of. f_equal. f_equal. Z.to_euclidean_division_equations; lia. }
  unfold fromisoformat. rewrite fixed_digits_pad0 by (cbn; lia).
  cbn [mbind option_bind String.append]. rewrite expect_same. cbn [mbind option_bind]. rewrite fixed_digits_pad0 by (cbn; lia).
  cbn [mbind option_bind String.append]. rewrite expect_same. cbn [mbind option_bind]. rewrite fixed_digits_pad0 by (cbn; lia).
  cbn [mbind option_bind String.append]. unfold read_time.
  rewrite fixed_digits_pad0 by (cbn; lia). cbn [mbind option_bind String.append].
  rewrite fixed_digits_pad0 by (cbn; lia). cbn [mbind option_bind String.append].
  rewrite fixed_digits_pad0 by (cbn; lia). cbn [mbind option_bind].
  assert (Hend : ∀ f : Z, f = frac →
    (if (1 <=? y) && (1 <=? m) && (m <=? 12) && (1 <=? d) && (d <=? days_in_month y m) &&
        valid_time (secs / 3600) (secs / 60 mod 60) (secs mod 60)
     then Some (Some (days_of_civil y m d * usec_per_day +
            time_of (secs / 3600) (secs / 60 mod 60) (secs mod 60) f - 0)) else None) = Some (Some t)).
  { intros f ->. rewrite Htime, Hdc. unfold valid_time.
    repeat match goal with |- context [?a <=? ?b] => replace (a <=? b) with true by (symmetry; lia) end.
    repeat match goal with |- context [?a <? ?b] => replace (a <? b) with true by (symmetry; lia) end.
    cbn. by rewrite Z.sub_0_r, Hsum. }
  destruct (frac =? 0) eqn:Hf.
  - cbn [String.append Ascii.eqb]. exact (Hend 0 ltac:(lia)).
  - destruct (fraction_pad frac "+00:00" Hfrac eq_refl) as [Hfr [r Hr]].
    cbn [String.append]. change (Ascii.eqb "." ".") with true. cbn [orb]. rewrite Hr. cbn [mbind option_bind]. rewrite Hfr.
    exact (Hend frac eq_refl).
Qed.
