(* ===== verification/IpAddress.v ===== *)
(** * IP addresses

    What the program uses of the standard library's [ipaddress] (Python 3.12):
    parsing and printing an address, the ranges it belongs to. *)

From S2P Require Import Prelude Errors Python Codec.

(** ** Addresses

    An IPv4 address is a 32-bit integer; an IPv6 address a 128-bit one with the
    zone that may follow it. *)

Inductive IPAddress :=
  | IPv4 (ip : Z)
  | IPv6 (ip : Z) (scope_id : option string).

#[export] Instance ip_eq_dec : EqDecision IPAddress.
Proof. solve_decision. Defined.

(** A network: its address and the length of its prefix. *)
Record Network := mk_network { net_address : Z; net_prefixlen : Z }.

Definition v4 (a b c d len : Z) : Network := mk_network (((a * 256 + b) * 256 + c) * 256 + d) len.

(** From its eight groups. *)
Definition v6_int (groups : list Z) : Z := foldl (λ acc g, acc * 65536 + g) 0 groups.
Definition v6 (groups : list Z) (len : Z) : Network :=
  mk_network (v6_int (groups ++ replicate (8 - length groups) 0)) len.

(** [ip in network], for an address of [width] bits. *)
Definition in_network (width ip : Z) (n : Network) : bool :=
  Z.shiftr ip (width - net_prefixlen n) =? Z.shiftr (net_address n) (width - net_prefixlen n).

Definition in_v4 : Z → Network → bool := in_network 32.
Definition in_v6 : Z → Network → bool := in_network 128.

(** ** Classification *)

Definition v4_private_networks : list Network :=
  [v4 0 0 0 0 8; v4 10 0 0 0 8; v4 127 0 0 0 8; v4 169 254 0 0 16; v4 172 16 0 0 12; v4 192 0 0 0 24;
   v4 192 0 0 170 31; v4 192 0 2 0 24; v4 192 168 0 0 16; v4 198 18 0 0 15; v4 198 51 100 0 24;
   v4 203 0 113 0 24; v4 240 0 0 0 4; v4 255 255 255 255 32].
Definition v4_private_exceptions : list Network := [v4 192 0 0 9 32; v4 192 0 0 10 32].
Definition v4_public_network : Network := v4 100 64 0 0 10.
Definition v4_multicast_network : Network := v4 224 0 0 0 4.

Definition v6_private_networks : list Network :=
  [v6 [0; 0; 0; 0; 0; 0; 0; 1] 128; v6 [] 128; v6 [0; 0; 0; 0; 0; 65535] 96; v6 [100; 65435; 1] 48;
   v6 [256] 64; v6 [8193] 23; v6 [8193; 3512] 32; v6 [8194] 16; v6 [64512] 7; v6 [65152] 10].
Definition v6_private_exceptions : list Network :=
  [v6 [8193; 1; 0; 0; 0; 0; 0; 1] 128; v6 [8193; 1; 0; 0; 0; 0; 0; 2] 128; v6 [8193; 3] 32; v6 [8193; 4; 274] 48;
   v6 [8193; 32] 28; v6 [8193; 48] 28].
Definition v6_multicast_network : Network := v6 [65280] 8.

Definition v4_is_private (ip : Z) : bool :=
  existsb (in_v4 ip) v4_private_networks && forallb (λ n, negb (in_v4 ip n)) v4_private_exceptions.

(** The IPv4 address of [::ffff:0:0/96]. *)
Definition ipv4_mapped (ip : Z) : option Z :=
  if Z.shiftr ip 32 =? 65535 then Some (Z.land ip (2 ^ 32 - 1)) else None.

Definition v6_is_private (ip : Z) : bool :=
  match ipv4_mapped ip with
  | Some mapped => v4_is_private mapped
  | None => existsb (in_v6 ip) v6_private_networks && forallb (λ n, negb (in_v6 ip n)) v6_private_exceptions
  end.

Definition is_global (a : IPAddress) : bool :=
  match a with
  | IPv4 ip => negb (in_v4 ip v4_public_network) && negb (v4_is_private ip)
  | IPv6 ip _ => negb (v6_is_private ip)
  end.

Definition is_multicast (a : IPAddress) : bool :=
  match a with
  | IPv4 ip => in_v4 ip v4_multicast_network
  | IPv6 ip _ => in_v6 ip v6_multicast_network
  end.

(** ** Parsing

    [None] stands for [ValueError]. *)

Definition is_digit (c : ascii) : bool := match digit_value c with Some _ => true | None => false end.
Definition is_hex (c : ascii) : bool := match hex_value c with Some _ => true | None => false end.

(** The value of a text of hexadecimal digits. *)
Fixpoint hex_int (acc : Z) (s : string) : Z :=
  match s with
  | EmptyString => acc
  | String c s' => hex_int (16 * acc + default 0 (hex_value c)) s'
  end.

(** An octet: one to three decimal digits, no leading zero, at most 255. *)
Definition parse_octet (s : string) : option Z :=
  let n := read_digits 0 s in
  if all_chars is_digit s && (1 <=? String.length s)%nat && (String.length s <=? 3)%nat &&
     negb (match s with String "0" (String _ _) => true | _ => false end) && (n <=? 255)
  then Some n else None.

Definition parse_v4 (s : string) : option Z :=
  match split_on "." s with
  | [a; b; c; d] =>
      a ← parse_octet a; b ← parse_octet b; c ← parse_octet c; d ← parse_octet d;
      Some (((a * 256 + b) * 256 + c) * 256 + d)
  | _ => None
  end.

(** A group: one to four hexadecimal digits. *)
Definition parse_hextet (s : string) : option Z :=
  if all_chars is_hex s && (1 <=? String.length s)%nat && (String.length s <=? 4)%nat
  then Some (hex_int 0 s) else None.

(** The positions of the empty parts that are neither the first nor the last. *)
Definition skips (parts : list string) : list nat :=
  filter (λ i, (0 < i)%nat ∧ (S i < length parts)%nat ∧ parts !! i = Some "") (seq 0 (length parts)).

(** The groups of a text whose parts are hexadecimal. *)
Definition parse_groups (parts : list string) : option (list Z) :=
  if (length parts <? 3)%nat || (9 <? length parts)%nat then None else
  match skips parts with
  | [] => if (length parts =? 8)%nat then mapM parse_hextet parts else None
  | [skip] =>
      let high := take skip parts in
      let low := drop (S skip) parts in
      high ← (if decide (head high = Some "") then if decide (high = [""]) then Some [] else None else Some high);
      low ← (if decide (last low = Some "") then if decide (low = [""]) then Some [] else None else Some low);
      if (8 <=? length high + length low)%nat then None else
      high ← mapM parse_hextet high;
      low ← mapM parse_hextet low;
      Some (high ++ replicate (8 - (length high + length low)) 0 ++ low)
  | _ => None
  end.

(** [%x] of a number below 65536. *)
Fixpoint hex_digits (width : nat) (n : Z) : string :=
  match width with
  | O => ""
  | S width' => if (n <? 16) then String (hex_digit n) "" else hex_digits width' (n / 16) +:+ String (hex_digit (n mod 16)) ""
  end.
Definition hex16 (n : Z) : string := hex_digits 4 n.

(** The parts of the text, a final IPv4 address as two groups. *)
Definition v6_parts (s : string) : option (list string) :=
  let parts := split_on ":" s in
  match last parts with
  | Some tail =>
      if contains_char "." tail then
        ip ← parse_v4 tail;
        Some (take (length parts - 1) parts ++ [hex16 (ip / 65536); hex16 (ip mod 65536)])
      else Some parts
  | None => Some parts
  end.

Definition parse_v6 (s : string) : option IPAddress :=
  let '(address, sep, scope_id) := partition_on "%" s in
  if contains_char "/" s || (sep && (bool_decide (scope_id = "") || contains_char "%" scope_id)) then None else
  if (length (split_on ":" address) <? 3)%nat then None else
  parts ← v6_parts address;
  groups ← parse_groups parts;
  Some (IPv6 (v6_int groups) (if sep then Some scope_id else None)).

(** [ip_address(text)] *)
Definition ip_address (s : string) : option IPAddress :=
  match parse_v4 s with
  | Some ip => Some (IPv4 ip)
  | None => parse_v6 s
  end.

(** ** Printing *)

Definition v4_octets (ip : Z) : list Z := [ip / 2 ^ 24 mod 256; ip / 2 ^ 16 mod 256; ip / 2 ^ 8 mod 256; ip mod 256].

Definition v6_groups (ip : Z) : list Z := (λ i, ip / 2 ^ (16 * (7 - Z.of_nat i)) mod 65536) <$> seq 0 8.

(** How many groups from the front are zero, and where the longest run of zeros
    begins, the first of two equally long. *)
Fixpoint zero_run (l : list Z) : nat :=
  match l with 0 :: l' => S (zero_run l') | _ => O end.

Fixpoint longest_run (i : nat) (l : list Z) : nat * nat :=
  match l with
  | [] => (i, O)
  | _ :: l' =>
      let '(j, len) := longest_run (S i) l' in
      let here := zero_run l in
      if (len <=? here)%nat then (i, here) else (j, len)
  end.

Definition str_v6 (ip : Z) : string :=
  let groups := v6_groups ip in
  let '(start, len) := longest_run 0 groups in
  let hex := fmap hex16 in
  if (1 <? len)%nat then
    join_with ":" (hex (take start groups)) +:+ "::" +:+ join_with ":" (hex (drop (start + len) groups))
  else join_with ":" (hex groups).

(** [str(ip)] *)
Definition str_ip (a : IPAddress) : string :=
  match a with
  | IPv4 ip => join_with "." (pretty <$> v4_octets ip)
  | IPv6 ip None => str_v6 ip
  | IPv6 ip (Some scope_id) => str_v6 ip +:+ "%" +:+ scope_id
  end.
