(* ===== verification/Urls.v ===== *)
(** * URLs

    What the program uses of the standard library's [urllib.parse] (Python 3.12):
    splitting a URL, its host and port, percent-encoding, joining a reference to its
    base.  A raised [ValueError] is [Err PyValueError].  [unquote] is undefined where
    the text it decodes to has a character above U+00FF, which no [string] holds. *)

From S2P Require Import Prelude Errors Python Sha256 Codec IpAddress.

(** ** Text *)

(** [s.rpartition(c)]: the text before the last [c], whether [c] occurs, the text
    after it. *)
Fixpoint rpartition_on (c : ascii) (s : string) : string * bool * string :=
  match s with
  | EmptyString => ("", false, "")
  | String a s' =>
      let '(h, found, t) := rpartition_on c s' in
      if found then (String a h, true, t)
      else if Ascii.eqb a c then ("", true, s')
      else ("", false, s)
  end.

Fixpoint filter_chars (p : ascii → bool) (s : string) : string :=
  match s with
  | EmptyString => ""
  | String c s' => if p c then String c (filter_chars p s') else filter_chars p s'
  end.

(** [s.startswith(p)] and [s.endswith(p)], with what is left. *)
Fixpoint endswith (p s : string) : bool :=
  bool_decide (s = p) || match s with EmptyString => false | String _ s' => endswith p s' end.

(** [s.removeprefix(p)] *)
Definition removeprefix (p s : string) : string := default s (drop_prefix p s).

(** The text up to the first character that satisfies [p], and the rest from it. *)
Fixpoint break_at (p : ascii → bool) (s : string) : string * string :=
  match s with
  | EmptyString => ("", "")
  | String c s' => if p c then ("", s) else let '(h, t) := break_at p s' in (String c h, t)
  end.

Definition is_upper (c : ascii) : bool := (65 <=? byte_of c) && (byte_of c <=? 90).
Definition is_lower (c : ascii) : bool := (97 <=? byte_of c) && (byte_of c <=? 122).
Definition is_alpha (c : ascii) : bool := is_upper c || is_lower c.
Definition is_alnum (c : ascii) : bool := is_alpha c || is_digit c.

(** ** [urlsplit] *)

Record SplitResult := mk_split {
  sr_scheme : string;
  sr_netloc : string;
  sr_path : string;
  sr_query : string;
  sr_fragment : string
}.

Definition is_c0_or_space (c : ascii) : bool := byte_of c <=? 32.
Definition is_unsafe (c : ascii) : bool := (byte_of c =? 9) || (byte_of c =? 10) || (byte_of c =? 13).
Definition is_scheme_char (c : ascii) : bool :=
  is_alnum c || Ascii.eqb c "+" || Ascii.eqb c "-" || Ascii.eqb c ".".
Definition is_netloc_end (c : ascii) : bool := Ascii.eqb c "/" || Ascii.eqb c "?" || Ascii.eqb c "#".

(** The scheme before the first colon, in lower case, and the rest. *)
Definition split_scheme (scheme url : string) : string * string :=
  let '(h, found, t) := partition_on ":" url in
  match h with
  | String c _ => if found && is_alpha c && all_chars is_scheme_char h then (lower h, t) else (scheme, url)
  | EmptyString => (scheme, url)
  end.

(** A host between brackets: an IPv6 address or [v<hex>.<anything>]. *)
Definition valid_bracketed_host (host : string) : bool :=
  match host with
  | String "v" rest =>
      let '(version, found, tail) := partition_on "." rest in
      found && negb (bool_decide (version = "")) && all_chars is_hex version && negb (bool_decide (tail = "")) &&
      negb (contains_char (chr 10) tail)
  | _ => match ip_address host with Some (IPv6 _ _) => true | _ => false end
  end.

Definition valid_bracketed_netloc (netloc : string) : bool :=
  let '(_, _, hostport) := rpartition_on "@" netloc in
  let '(before, found, bracketed) := partition_on "[" hostport in
  if found then
    let '(host, _, port) := partition_on "]" bracketed in
    bool_decide (before = "") && (bool_decide (port = "") || startswith ":" port) && valid_bracketed_host host
  else
    let '(host, _, _) := partition_on ":" hostport in valid_bracketed_host host.

Definition valid_netloc (netloc : string) : bool :=
  match contains_char "[" netloc, contains_char "]" netloc with
  | true, true => valid_bracketed_netloc netloc
  | false, false => true
  | _, _ => false
  end.

(** Text around the first [c]; all of it when there is none. *)
Definition split_first (c : ascii) (s : string) : string * string :=
  let '(h, _, t) := partition_on c s in (h, t).

(** [urlsplit(url, scheme)].  The check of characters that [NFKC] normalises to a
    delimiter refuses none below U+0100. *)
Definition urlsplit (url scheme : string) : res SplitResult :=
  let url := filter_chars (λ c, negb (is_unsafe c)) (lstrip_by is_c0_or_space url) in
  let scheme := filter_chars (λ c, negb (is_unsafe c)) (strip_by is_c0_or_space scheme) in
  let '(scheme, url) := split_scheme scheme url in
  let '(netloc, url) := match drop_prefix "//" url with
                        | Some rest => break_at is_netloc_end rest
                        | None => ("", url)
                        end in
  if negb (valid_netloc netloc) then Err PyValueError else
  let '(url, fragment) := split_first "#" url in
  let '(path, query) := split_first "?" url in
  mret (mk_split scheme netloc path query fragment).

(** [_hostinfo]: the host and the text of the port. *)
Definition hostinfo (netloc : string) : string * string :=
  let '(_, _, hostport) := rpartition_on "@" netloc in
  let '(_, found, bracketed) := partition_on "[" hostport in
  if found then
    let '(host, _, rest) := partition_on "]" bracketed in
    (host, (split_first ":" rest).2)
  else split_first ":" hostport.

(** [hostname]: [None] for an empty host; a zone is not lowered. *)
Definition hostname (r : SplitResult) : option string :=
  let '(host, _) := hostinfo (sr_netloc r) in
  if decide (host = "") then None else
  let '(name, percent, zone) := partition_on "%" host in
  Some (lower name +:+ (if percent then String "%" zone else "")).

(** [port]: [int(text)] also refuses more than 4300 digits. *)
Definition port (r : SplitResult) : res (option Z) :=
  let '(_, text) := hostinfo (sr_netloc r) in
  if decide (text = "") then mret None else
  if all_chars is_digit text && (String.length text <=? 4300)%nat && (read_digits 0 text <=? 65535)
  then mret (Some (read_digits 0 text)) else Err PyValueError.

(** ** Percent-encoding *)

Fixpoint unquote_to_bytes (s : string) : string :=
  match s with
  | EmptyString => ""
  | String c s' =>
      match s' with
      | String a (String b rest) =>
          if Ascii.eqb c "%" then
            match hex_value a, hex_value b with
            | Some h, Some l => String (chr (16 * h + l)) (unquote_to_bytes rest)
            | _, _ => String c (unquote_to_bytes s')
            end
          else String c (unquote_to_bytes s')
      | _ => String c (unquote_to_bytes s')
      end
  end.

(** The runs of ASCII characters are decoded; [run] is the current one. *)
Fixpoint unquote_runs (run s : string) : option string :=
  match s with
  | EmptyString => utf8_decode (unquote_to_bytes run)
  | String c s' =>
      if byte_of c <? 128 then unquote_runs (run +:+ String c "") s'
      else
        h ← utf8_decode (unquote_to_bytes run);
        t ← unquote_runs "" s';
        Some (h +:+ String c t)
  end.

(** [unquote(s)] *)
Definition unquote (s : string) : option string := unquote_runs "" s.

Definition hex_upper (z : Z) : ascii := chr (if z <? 10 then 48 + z else 55 + z).

(** [quote(s, safe="/")] *)
Definition is_unreserved (c : ascii) : bool :=
  is_alnum c || Ascii.eqb c "_" || Ascii.eqb c "." || Ascii.eqb c "-" || Ascii.eqb c "~" || Ascii.eqb c "/".

Definition quote_byte (b : Z) : string :=
  if is_unreserved (chr b) then String (chr b) ""
  else String "%" (String (hex_upper (b / 16)) (String (hex_upper (b mod 16)) "")).

Definition quote (s : string) : string := foldr (λ b t, quote_byte b +:+ t) "" (utf8_encode s).

(** ** [urljoin] *)

Definition uses_relative : list string :=
  [""; "ftp"; "http"; "gopher"; "nntp"; "imap"; "wais"; "file"; "https"; "shttp"; "mms"; "prospero"; "rtsp";
   "rtspu"; "sftp"; "svn"; "svn+ssh"; "ws"; "wss"].
Definition uses_netloc : list string :=
  [""; "ftp"; "http"; "gopher"; "nntp"; "telnet"; "imap"; "wais"; "file"; "mms"; "https"; "shttp"; "snews";
   "prospero"; "rtsp"; "rtspu"; "rsync"; "svn"; "svn+ssh"; "sftp"; "nfs"; "git"; "git+ssh"; "ws"; "wss"].
Definition uses_params : list string :=
  [""; "ftp"; "hdl"; "prospero"; "http"; "imap"; "https"; "shttp"; "rtsp"; "rtspu"; "sip"; "sips"; "mms";
   "sftp"; "tel"].

(** [_splitparams]: what follows the first [;] of the last segment. *)
Definition split_params (path : string) : string * string :=
  let '(h, found, t) := rpartition_on "/" path in
  let '(name, params) := split_first ";" t in
  (h +:+ (if found then "/" else "") +:+ name, params).

(** [urlparse(url, scheme)] *)
Definition urlparse (url scheme : string) : res (SplitResult * string) :=
  r ← urlsplit url scheme;
  if mem (sr_scheme r) uses_params then
    let '(path, params) := split_params (sr_path r) in
    mret (mk_split (sr_scheme r) (sr_netloc r) path (sr_query r) (sr_fragment r), params)
  else mret (r, "").

(** [urlunsplit] *)
Definition urlunsplit (r : SplitResult) : string :=
  let url := sr_path r in
  let url :=
    if negb (bool_decide (sr_netloc r = "")) then
      "//" +:+ sr_netloc r +:+ (if bool_decide (url = "") || startswith "/" url then url else "/" +:+ url)
    else if startswith "//" url then "//" +:+ url
    else if negb (bool_decide (sr_scheme r = "")) && mem (sr_scheme r) uses_netloc &&
            (bool_decide (url = "") || startswith "/" url) then "//" +:+ url
    else url in
  (if bool_decide (sr_scheme r = "") then "" else sr_scheme r +:+ ":") +:+ url +:+
  (if bool_decide (sr_query r = "") then "" else "?" +:+ sr_query r) +:+
  (if bool_decide (sr_fragment r = "") then "" else "#" +:+ sr_fragment r).

(** [urlunparse] *)
Definition urlunparse (r : SplitResult) (params : string) : string :=
  urlunsplit (mk_split (sr_scheme r) (sr_netloc r)
    (if bool_decide (params = "") then sr_path r else sr_path r +:+ ";" +:+ params) (sr_query r) (sr_fragment r)).

(** [..] leaves the last segment, if any; [.] stays. *)
Definition resolve_segments (segments : list string) : list string :=
  let resolved := foldl (λ acc s, if decide (s = "..") then take (length acc - 1) acc
                                  else if decide (s = ".") then acc else acc ++ [s]) [] segments in
  match last segments with
  | Some "." | Some ".." => resolved ++ [""]
  | _ => resolved
  end.

(** All but the first and the last are not empty. *)
Definition without_inner_empty (l : list string) : list string :=
  match l with
  | first :: rest =>
      first :: filter (.≠ "") (take (length rest - 1) rest) ++ drop (length rest - 1) rest
  | [] => []
  end.

Definition join_path (base path : string) : string :=
  let base_parts := split_on "/" base in
  let base_parts := match last base_parts with
                    | Some "" => base_parts
                    | _ => take (length base_parts - 1) base_parts
                    end in
  let segments := if startswith "/" path then split_on "/" path
                  else without_inner_empty (base_parts ++ split_on "/" path) in
  let joined := join_with "/" (resolve_segments segments) in
  if decide (joined = "") then "/" else joined.

(** [urljoin(base, url)] *)
Definition urljoin (base url : string) : res string :=
  if decide (base = "") then mret url else
  if decide (url = "") then mret base else
  '(b, bparams) ← urlparse base "";
  '(u, params) ← urlparse url (sr_scheme b);
  if bool_decide (sr_scheme u ≠ sr_scheme b) || negb (mem (sr_scheme u) uses_relative) then mret url else
  if mem (sr_scheme u) uses_netloc && negb (bool_decide (sr_netloc u = "")) then mret (urlunparse u params) else
  let netloc := if mem (sr_scheme u) uses_netloc then sr_netloc b else sr_netloc u in
  if bool_decide (sr_path u = "") && bool_decide (params = "") then
    mret (urlunparse (mk_split (sr_scheme u) netloc (sr_path b)
            (if decide (sr_query u = "") then sr_query b else sr_query u) (sr_fragment u)) bparams)
  else
    mret (urlunparse (mk_split (sr_scheme u) netloc (join_path (sr_path b) (sr_path u)) (sr_query u) (sr_fragment u))
            params).

(** * Lemmas *)

(** ** Text *)

Lemma all_chars_impl (p q : ascii → bool) s :
  (∀ c, p c = true → q c = true) → all_chars p s = true → all_chars q s = true.
Proof.
  intros Hpq. induction s as [|c s IH]; [done|]. cbn. intros [Hc Hs]%andb_prop. by rewrite (Hpq c Hc), IH.
Qed.

Lemma filter_chars_all p s : all_chars p s = true → filter_chars p s = s.
Proof. induction s as [|c s IH]; [done|]. cbn. intros [-> Hs]%andb_prop. by rewrite IH. Qed.

Lemma contains_char_all c s : all_chars (λ a, negb (Ascii.eqb a c)) s = true ↔ contains_char c s = false.
Proof.
  induction s as [|a s IH]; [done|]. cbn. rewrite andb_true_iff, orb_false_iff, negb_true_iff, IH. done.
Qed.

Lemma partition_on_none c s : contains_char c s = false → partition_on c s = (s, false, "").
Proof. induction s as [|a s IH]; [done|]. cbn. intros [-> Hs]%orb_false_iff. by rewrite IH. Qed.

Lemma rpartition_on_none c s : contains_char c s = false → rpartition_on c s = ("", false, s).
Proof. induction s as [|a s IH]; [done|]. cbn. intros [Ha Hs]%orb_false_iff. by rewrite IH, Ha. Qed.

Lemma split_first_none c s : contains_char c s = false → split_first c s = (s, "").
Proof. intros Hs. unfold split_first. by rewrite partition_on_none. Qed.

Lemma split_first_app c s t : contains_char c s = false → split_first c (s +:+ String c t) = (s, t).
Proof. intros Hs. unfold split_first. by rewrite partition_on_app. Qed.

Lemma rpartition_on_found c s h t :
  rpartition_on c s = (h, true, t) → s = h +:+ String c t ∧ contains_char c t = false.
Proof.
  revert h t. induction s as [|a s IH]; intros h t; cbn; [done|].
  destruct (rpartition_on c s) as [[h' [|]] t'] eqn:Hp.
  - intros [= <- <-]. by destruct (IH h' t' eq_refl) as [-> Ht].
  - destruct (Ascii.eqb_spec a c) as [->|]; [|done]. intros [= <- <-]. split; [done|].
    clear IH. revert h' t' Hp. induction s as [|b s IHs]; intros h' t'; cbn; [done|].
    destruct (rpartition_on c s) as [[h2 [|]] t2]; [done|].
    destruct (Ascii.eqb b c) eqn:Hb; [done|]. intros _. by apply (IHs h2 t2).
Qed.

Lemma rpartition_on_app c h t : contains_char c t = false → rpartition_on c (h +:+ String c t) = (h, true, t).
Proof.
  intros Ht. induction h as [|a h IH]; cbn; [|by rewrite IH].
  by rewrite rpartition_on_none, eqb_ascii_refl by done.
Qed.

Lemma break_at_app p s t :
  all_chars (λ c, negb (p c)) s = true → match t with EmptyString => True | String c _ => p c = true end →
  break_at p (s +:+ t) = (s, t).
Proof.
  intros Hs Ht. induction s as [|c s IH]; cbn.
  - destruct t as [|c t]; [done|]. cbn. by rewrite Ht.
  - cbn in Hs. apply andb_prop in Hs as [Hc Hs]. apply negb_true_iff in Hc. by rewrite Hc, IH.
Qed.

Lemma drop_prefix_app p s : drop_prefix p (p +:+ s) = Some s.
Proof. induction p as [|c p IH]; [by destruct s|]. cbn. by rewrite eqb_ascii_refl. Qed.

(** ** Splitting a URL that was put together *)

(** A part of a URL without the characters the split removes or ends it at. *)
Definition url_text (stop : ascii → bool) (s : string) : bool :=
  all_chars (λ c, negb (is_unsafe c) && negb (stop c)) s.

Definition is_netloc_stop (c : ascii) : bool := is_netloc_end c || Ascii.eqb c "[" || Ascii.eqb c "]".
Definition is_path_stop (c : ascii) : bool := Ascii.eqb c "?" || Ascii.eqb c "#".

Definition is_web_scheme (scheme : string) : Prop := scheme = "http" ∨ scheme = "https".

Definition query_suffix (query : string) : string := if decide (query = "") then "" else "?" +:+ query.

Lemma url_text_safe stop s : url_text stop s = true → all_chars (λ c, negb (is_unsafe c)) s = true.
Proof. apply all_chars_impl. by intros c [? _]%andb_prop. Qed.

Lemma url_text_stop stop s : url_text stop s = true → all_chars (λ c, negb (stop c)) s = true.
Proof. apply all_chars_impl. by intros c [_ ?]%andb_prop. Qed.

Lemma url_text_without stop d s :
  stop d = true → url_text stop s = true → contains_char d s = false.
Proof.
  intros Hd Hs. apply contains_char_all. eapply all_chars_impl; [|exact (url_text_stop _ _ Hs)].
  cbn. intros c Hc. destruct (Ascii.eqb_spec c d) as [->|]; [by rewrite Hd in Hc|done].
Qed.

Lemma urlsplit_canonical scheme netloc path query :
  is_web_scheme scheme → url_text is_netloc_stop netloc = true → url_text is_path_stop path = true →
  (path = "" ∨ ∃ p, path = "/" +:+ p) → url_text (Ascii.eqb "#") query = true →
  urlsplit (scheme +:+ "://" +:+ netloc +:+ path +:+ query_suffix query) "" = Ok (mk_split scheme netloc path query "").
Proof.
  intros Hscheme Hnetloc Hpath Hstart Hquery. unfold urlsplit.
  set (rest := netloc +:+ path +:+ query_suffix query).
  assert (Hrest : all_chars (λ c, negb (is_unsafe c)) rest = true).
  { unfold rest, query_suffix. rewrite !all_chars_app, !(url_text_safe _ _ Hnetloc), (url_text_safe _ _ Hpath).
    destruct (decide (query = "")); [done|]. cbn. apply (url_text_safe _ _ Hquery). }
  assert (Hfilter : filter_chars (λ c, negb (is_unsafe c)) (lstrip_by is_c0_or_space (scheme +:+ "://" +:+ rest)) =
    scheme +:+ "://" +:+ rest).
  { assert (lstrip_by is_c0_or_space (scheme +:+ "://" +:+ rest) = scheme +:+ "://" +:+ rest) as -> by
      by destruct Hscheme as [-> | ->].
    apply filter_chars_all. rewrite !all_chars_app, Hrest. by destruct Hscheme as [-> | ->]. }
  rewrite Hfilter. clear Hfilter Hrest.
  assert (Hsplit : split_scheme (filter_chars (λ c, negb (is_unsafe c)) (strip_by is_c0_or_space ""))
    (scheme +:+ "://" +:+ rest) = (scheme, "//" +:+ rest)).
  { unfold split_scheme. change ("://" +:+ rest) with (String ":" ("//" +:+ rest)).
    rewrite partition_on_app by by destruct Hscheme as [-> | ->]. by destruct Hscheme as [-> | ->]. }
  rewrite Hsplit, drop_prefix_app. unfold rest.
  assert (Htail : match path +:+ query_suffix query with EmptyString => True | String c _ => is_netloc_end c = true end).
  { unfold query_suffix. destruct Hstart as [-> |[p ->]]; [|done]. by destruct (decide (query = "")). }
  rewrite break_at_app; [|eapply all_chars_impl; [|exact (url_text_stop _ _ Hnetloc)];
    cbn; intros c; unfold is_netloc_stop; by destruct (is_netloc_end c)|done].
  assert (Hvalid : valid_netloc netloc = true).
  { unfold valid_netloc. by rewrite !(url_text_without is_netloc_stop _ netloc) by done. }
  rewrite Hvalid. cbn [negb].
  assert (Hhash : contains_char "#" (path +:+ query_suffix query) = false).
  { rewrite contains_char_app, (url_text_without is_path_stop) by done. unfold query_suffix.
    destruct (decide (query = "")); [done|]. cbn. by apply (url_text_without (Ascii.eqb "#")). }
  rewrite (split_first_none _ _ Hhash). unfold query_suffix. destruct (decide (query = "")) as [->|].
  - rewrite app_str_nil_r, split_first_none by (by apply (url_text_without is_path_stop)). done.
  - change ("?" +:+ query) with (String "?" query). rewrite split_first_app by (by apply (url_text_without is_path_stop)).
    done.
Qed.

(** ** Decoding plain text *)

Lemma unquote_to_bytes_plain s : contains_char "%" s = false → unquote_to_bytes s = s.
Proof.
  induction s as [|c s IH]; [done|]. cbn. intros [Hc Hs]%orb_false_iff.
  destruct s as [|a [|b s]]; [done|by rewrite IH|]. by rewrite Hc, IH.
Qed.

Lemma unquote_plain s : contains_char "%" s = false → unquote s = Some s.
Proof.
  intros Hs. unfold unquote.
  assert (Hgen : ∀ run, is_ascii run = true → contains_char "%" run = false →
    unquote_runs run s = Some (run +:+ s)); [|by rewrite (Hgen "")].
  induction s as [|c s IH]; intros run Hrun Hclean; cbn.
  - by rewrite unquote_to_bytes_plain, utf8_decode_ascii, app_str_nil_r by done.
  - cbn in Hs. apply orb_false_iff in Hs as [Hc Hs]. destruct (byte_of c <? 128) eqn:Hb.
    + rewrite IH by (done || by rewrite ?is_ascii_app, ?contains_char_app, ?Hrun, ?Hclean; cbn; rewrite ?Hb, ?Hc).
      by rewrite <- app_str_assoc.
    + rewrite unquote_to_bytes_plain, utf8_decode_ascii by done. cbn [mbind option_bind].
      rewrite (IH Hs "") by done. done.
Qed.

(** ** Stripping *)

Lemma strip_by_none p s : all_chars (λ c, negb (p c)) s = true → strip_by p s = s.
Proof.
  intros Hs. unfold strip_by. assert (lstrip_by p s = s) as ->.
  { apply lstrip_by_fix. destruct s as [|c s]; [done|]. cbn in Hs. by apply andb_prop in Hs as [?%negb_true_iff _]. }
  induction s as [|c s IH]; [done|]. cbn in Hs. apply andb_prop in Hs as [Hc Hs]. apply negb_true_iff in Hc.
  rewrite rstrip_by_cons, IH by done. by destruct s; rewrite ?Hc.
Qed.

Lemma endswith_last c d s : endswith (String c "") (s +:+ String d "") = Ascii.eqb c d.
Proof.
  induction s as [|a s IH].
  - cbn. rewrite orb_false_r. destruct (Ascii.eqb_spec c d) as [->|Hne]; [by apply bool_decide_eq_true|].
    apply bool_decide_eq_false. congruence.
  - cbn. rewrite IH. destruct (bool_decide_reflect (String a (s +:+ String d "") = String c "")) as [H|]; [|done].
    injection H as -> H. by destruct s.
Qed.

(** ** Percent-encoding is undone *)

Fixpoint chars_of (l : list Z) : string :=
  match l with [] => "" | b :: l' => String (chr b) (chars_of l') end.

Lemma unquote_runs_ascii run s : is_ascii s = true → unquote_runs run s = utf8_decode (unquote_to_bytes (run +:+ s)).
Proof.
  revert run. induction s as [|c s IH]; intros run; cbn; [by rewrite app_str_nil_r|].
  intros [-> Hs]%andb_prop. rewrite IH by done. by rewrite <- app_str_assoc.
Qed.

Lemma unquote_to_bytes_other c s : Ascii.eqb c "%" = false → unquote_to_bytes (String c s) = String c (unquote_to_bytes s).
Proof. intros Hc. destruct s as [|a [|b s]]; cbn; [done..|]. by rewrite Hc. Qed.

Lemma unquote_quote_byte b s :
  0 <= b < 256 → is_ascii (quote_byte b) = true ∧ unquote_to_bytes (quote_byte b +:+ s) = String (chr b) (unquote_to_bytes s).
Proof.
  intros Hb. unfold quote_byte.
  pose proof (check_below 256 (λ b, implb (is_unreserved (chr b)) ((byte_of (chr b) <? 128) && negb (Ascii.eqb (chr b) "%")))
    ltac:(by vm_compute) b Hb) as Hplain.
  cbv beta in Hplain. destruct (is_unreserved (chr b)).
  - cbn [implb] in Hplain. apply andb_prop in Hplain as [Hp1 Hp2%negb_true_iff].
    split; [cbn; by rewrite Hp1|]. by apply unquote_to_bytes_other.
  - pose proof (check_below 256 (λ b, is_ascii (String (hex_upper (b / 16)) (String (hex_upper (b mod 16)) "")) &&
      bool_decide (hex_value (hex_upper (b / 16)) = Some (b / 16)) && bool_decide (hex_value (hex_upper (b mod 16)) = Some (b mod 16)))
      ltac:(by vm_compute) b Hb) as Hhex. cbv beta in Hhex.
    apply andb_prop in Hhex as [[Ha H1%bool_decide_eq_true]%andb_prop H2%bool_decide_eq_true].
    split; [exact Ha|]. cbn [String.append unquote_to_bytes]. rewrite eqb_ascii_refl, H1, H2. do 2 f_equal.
    symmetry. apply Z.div_mod. done.
Qed.

Lemma unquote_quote_bytes l :
  Forall (λ b, 0 <= b < 256) l → let t := foldr (λ b t, quote_byte b +:+ t) "" l in
  is_ascii t = true ∧ unquote_to_bytes t = chars_of l.
Proof.
  intros Hl. induction Hl as [|b l Hb Hl [IH1 IH2]]; [done|]. cbn in *.
  destruct (unquote_quote_byte b (foldr (λ b t, quote_byte b +:+ t) "" l) Hb) as [H1 H2].
  rewrite is_ascii_app, H1, IH1, H2, IH2. done.
Qed.

Lemma byte_of_bound c : 0 <= byte_of c < 256.
Proof. unfold byte_of. pose proof (Ascii.N_ascii_bounded c). lia. Qed.

Lemma utf8_encode_bytes s : Forall (λ b, 0 <= b < 256) (utf8_encode s).
Proof.
  induction s as [|c s IH]; [constructor|]. cbn. fold (byte_of c). pose proof (byte_of_bound c).
  destruct (byte_of c <? 128); cbn; repeat (constructor; [Z.to_euclidean_division_equations; lia|]); done.
Qed.

Lemma utf8_decode_encode s : utf8_decode (chars_of (utf8_encode s)) = Some s.
Proof.
  induction s as [|c s IH]; [done|]. cbn [utf8_encode]. fold (byte_of c). pose proof (byte_of_bound c).
  destruct (byte_of c <? 128) eqn:Hc; cbn [app chars_of utf8_decode]; rewrite !byte_of_chr
    by (Z.to_euclidean_division_equations; lia).
  - by rewrite Hc, IH, chr_byte_of.
  - assert (Hq : byte_of c / 64 = 2 ∨ byte_of c / 64 = 3) by (Z.to_euclidean_division_equations; lia).
    assert (H1 : (192 + byte_of c / 64 <? 128) = false) by lia.
    assert (H2 : (194 <=? 192 + byte_of c / 64) && (192 + byte_of c / 64 <=? 195) = true) by lia.
    assert (H3 : (128 <=? 128 + byte_of c mod 64) && (128 + byte_of c mod 64 <=? 191) = true)
      by (Z.to_euclidean_division_equations; lia).
    rewrite H1, H2, H3, IH. cbn. do 2 f_equal. rewrite <- (chr_byte_of c) at 3. f_equal.
    Z.to_euclidean_division_equations. lia.
Qed.

(** What is sent in a path is read from it. *)
Lemma unquote_quote s : unquote (quote s) = Some s.
Proof.
  unfold unquote, quote. destruct (unquote_quote_bytes (utf8_encode s) (utf8_encode_bytes s)) as [H1 H2].
  rewrite unquote_runs_ascii by done. cbn [String.append]. rewrite H2. apply utf8_decode_encode.
Qed.

(** What is sent in a path is no query and no fragment. *)
Lemma quote_no_query s : contains_char "?" (quote s) || contains_char "#" (quote s) = false.
Proof.
  unfold quote. induction (utf8_encode_bytes s) as [|b l Hb _ IH]; [done|]. cbn [foldr]. rewrite !contains_char_app.
  apply orb_false_iff in IH as [-> ->]. rewrite !orb_false_r. apply negb_true_iff.
  exact (check_below 256 (λ b, negb (contains_char "?" (quote_byte b) || contains_char "#" (quote_byte b))) ltac:(by vm_compute) b Hb).
Qed.
