(* ===== verification/AdminQuery.v ===== *)
(** * Admin queries and cursors

    [asset_store_core/admin_query.py]: the filters of the operator's listing, and
    cursors bound to them; and the in-memory registry's [query_assets].

    A cursor carries a digest of the filters.  The text that is digested,
    [json.dumps(self.model_dump(mode="json", exclude={"cursor", "limit"}),
    sort_keys=True)], comes from pydantic: [DumpFilters] stands for it. *)

From stdpp Require Import sorting.
From S2P Require Import Prelude Errors Python Effects Paths Models Retention Sha256 Registry Codec.

(** An aware [datetime] with its own offset from UTC, both in microseconds. *)
Record aware := mk_aware { instant : Z; utcoffset : Z }.

Class DumpFilters := dump_filters :
  option string → option string → option AssetState → option aware → option aware → option string → string.

Record AssetQuery := mk_query {
  q_space : option string;
  q_partition_id : option string;
  q_state : option AssetState;
  q_created_from : option aware;
  q_created_to : option aware;
  q_prefix : option string;
  q_limit : Z;
  q_cursor : option string
}.

#[export] Instance replace_q_space : Replace q_space := λ v q,
  mk_query v (q_partition_id q) (q_state q) (q_created_from q) (q_created_to q) (q_prefix q) (q_limit q) (q_cursor q).
#[export] Instance replace_q_partition_id : Replace q_partition_id := λ v q,
  mk_query (q_space q) v (q_state q) (q_created_from q) (q_created_to q) (q_prefix q) (q_limit q) (q_cursor q).
#[export] Instance replace_q_prefix : Replace q_prefix := λ v q,
  mk_query (q_space q) (q_partition_id q) (q_state q) (q_created_from q) (q_created_to q) v (q_limit q) (q_cursor q).
#[export] Instance replace_q_cursor : Replace q_cursor := λ v q,
  mk_query (q_space q) (q_partition_id q) (q_state q) (q_created_from q) (q_created_to q) (q_prefix q) (q_limit q) v.

(** [if text:] for an optional string. *)
Definition given (text : option string) : option string :=
  match text with Some "" => None | _ => text end.

(** The fields' constraints, then [validate_filters]. *)
Definition validate_filters (q : AssetQuery) : res AssetQuery :=
  if negb ((1 <=? q_limit q) && (q_limit q <=? 500)) ||
     match q_cursor q with Some c => 2048 <? Z.of_nat (String.length c) | None => false end
  then Err PydanticError
  else
    q ← match given (q_space q) with
        | Some space => space ← normalize_space space; mret (q <| q_space := Some space |>)
        | None => mret q
        end;
    q ← match given (q_partition_id q) with
        | Some partition =>
            match given (q_space q) with
            | Some _ =>
                partition ← normalize_partition_id partition; mret (q <| q_partition_id := Some partition |>)
            | None => Err PydanticError
            end
        | None => mret q
        end;
    q ← match given (q_prefix q) with
        | Some prefix =>
            prefix ← normalize_relative_alias prefix;
            _ ← normalize_space (partition_on "/" prefix).1.1;
            mret (q <| q_prefix := Some prefix |>)
        | None => mret q
        end;
    match q_created_from q, q_created_to q with
    | Some lo, Some hi => if instant hi <? instant lo then Err PydanticError else mret q
    | _, _ => mret q
    end.

Definition prefix_matches (alias prefix : string) : bool :=
  bool_decide (alias = prefix) || startswith (prefix +:+ "/") alias.

Definition matches (q : AssetQuery) (a : Asset) : bool :=
  match q_space q with Some space => bool_decide (a_space a = space) | None => true end &&
  match q_partition_id q with Some p => bool_decide (a_partition_id a = p) | None => true end &&
  match q_state q with Some state => bool_decide (a_state a = state) | None => true end &&
  match q_created_from q with Some t => instant t <=? a_created_at a | None => true end &&
  match q_created_to q with Some t => a_created_at a <=? instant t | None => true end &&
  match q_prefix q with
  | Some prefix => existsb (λ alias, prefix_matches alias prefix) (elements (a_aliases a))
  | None => true
  end.

Section Cursors.
Context {D : DumpFilters}.

Definition fingerprint (q : AssetQuery) : string :=
  sha256_hexdigest (utf8_encode (dump_filters (q_space q) (q_partition_id q) (q_state q) (q_created_from q)
    (q_created_to q) (q_prefix q))).

(** Every failure to decode, and another digest, is a [ValidationError]. *)
Definition after (q : AssetQuery) : res (option (Z * string)) :=
  match given (q_cursor q) with
  | None => mret None
  | Some cursor =>
      match b64_decode cursor ≫= json_loads with
      | Some (JArr (JStr print :: JStr time :: JStr asset_id :: _)) =>
          match fromisoformat time with
          | Some (Some instant) =>
              if bool_decide (print = fingerprint q) then mret (Some (instant, asset_id)) else Err ValidationError
          | _ => Err ValidationError
          end
      | _ => Err ValidationError
      end
  end.

Definition cursor_for (q : AssetQuery) (a : Asset) : string :=
  b64_encode (json_dumps_list [fingerprint q; isoformat (a_created_at a); a_asset_id a]).

(** [(created_at, asset_id)], ordered as tuples. *)
Definition asset_key (a : Asset) : Z * string := (a_created_at a, a_asset_id a).

Definition key_ltb (x y : Z * string) : bool :=
  (x.1 <? y.1) || ((x.1 =? y.1) && str_ltb x.2 y.2).

Definition beyond (after : option (Z * string)) (key : Z * string) : bool :=
  match after with Some k => key_ltb k key | None => true end.

Definition query_assets (q : AssetQuery) : M Registry (list Asset) :=
  after ← of_res (after q);
  r ← get_state;
  let assets := sorted_by (λ a b, key_ltb (asset_key a) (asset_key b)) ((map_to_list (r_assets r)).*2) in
  mret (take (Z.to_nat (q_limit q + 1))
          (filter (λ a, Is_true (matches q a && beyond after (asset_key a))) assets)).
End Cursors.

(** ** The order of the listing *)

Lemma key_ltb_asym x y : key_ltb x y = true → key_ltb y x = false.
Proof.
  unfold key_ltb. destruct x as [t i], y as [u j]. cbn. intros [H|[H1 H2]%andb_prop]%orb_prop.
  - replace (u <? t) with false by (symmetry; lia). by replace (u =? t) with false by (symmetry; lia).
  - replace (u <? t) with false by (symmetry; lia). by rewrite (str_ltb_asym _ _ H2), andb_false_r.
Qed.

Lemma key_ltb_trans x y z : key_ltb x y = true → key_ltb y z = true → key_ltb x z = true.
Proof.
  unfold key_ltb. destruct x as [t i], y as [u j], z as [v k]. cbn.
  intros [H1|[H1 S1]%andb_prop]%orb_prop [H2|[H2 S2]%andb_prop]%orb_prop; apply orb_true_iff.
  1-3: left; lia. right. apply andb_true_intro. split; [lia|by eapply str_ltb_trans].
Qed.

Lemma key_ltb_total x y : key_ltb x y = false → key_ltb y x = false → x = y.
Proof.
  unfold key_ltb. destruct x as [t i], y as [u j]. cbn. intros [H1 H2]%orb_false_iff [H3 H4]%orb_false_iff.
  assert (t = u) as -> by lia. rewrite Z.eqb_refl in *. f_equal. by apply str_ltb_total.
Qed.

(** ** Cursors *)

Lemma cursor_roundtrip `{D : DumpFilters} q a :
  datetime_min <= a_created_at a <= datetime_max →
  after (q <| q_cursor := Some (cursor_for q a) |>) = Ok (Some (asset_key a)).
Proof.
  intros Ha. unfold after. cbn [q_cursor replace_field replace_q_cursor].
  assert (given (Some (cursor_for q a)) = Some (cursor_for q a)) as ->.
  { unfold cursor_for. set (l := json_dumps_list _). pose proof (b64_roundtrip l) as Hl.
    destruct (b64_encode l) eqn:He; [|done]. cbn in Hl. injection Hl as Hl. discriminate Hl. }
  unfold cursor_for. rewrite b64_roundtrip. cbn [mbind option_bind]. rewrite json_roundtrip. cbn [fmap list_fmap].
  rewrite isoformat_roundtrip by done. by rewrite bool_decide_eq_true_2.
Qed.

(** ** What a query returns *)

(** The assets that match, in the order of the listing. *)
Definition found (q : AssetQuery) (r : Registry) : list Asset :=
  filter (λ a, Is_true (matches q a))
    (sorted_by (λ a b, key_ltb (asset_key a) (asset_key b)) ((map_to_list (r_assets r)).*2)).

Lemma elem_of_found q r a : a ∈ found q r ↔ (∃ i, r_assets r !! i = Some a) ∧ matches q a = true.
Proof.
  unfold found. rewrite list_elem_of_filter, elem_of_sorted_by, list_elem_of_fmap, Is_true_true. split.
  - intros [Hm ([i a'] & -> & Hi%elem_of_map_to_list)]. split; [by exists i|done].
  - intros [[i Hi] Hm]. split; [done|]. exists (i, a). by rewrite elem_of_map_to_list.
Qed.

Lemma found_length q r : (length (found q r) <= size (r_assets r))%nat.
Proof.
  unfold found. etrans; [apply length_filter|]. by rewrite sorted_by_Permutation, length_fmap, length_map_to_list.
Qed.

Lemma StronglySorted_filter {A} (R : A → A → Prop) (P : A → Prop) `{∀ x, Decision (P x)} l :
  StronglySorted R l → StronglySorted R (filter P l).
Proof.
  induction 1 as [|x l Hl IH Hx]; [constructor|]. rewrite filter_cons. case_decide; [|done].
  constructor; [done|]. apply Forall_forall. intros y [_ Hy]%list_elem_of_filter. by apply (proj1 (Forall_forall _ _) Hx).
Qed.

Lemma filter_all {A} (P : A → Prop) `{∀ x, Decision (P x)} (l : list A) : (∀ x, x ∈ l → P x) → filter P l = l.
Proof.
  intros HP. induction l as [|x l IH]; [done|]. rewrite filter_cons_True by apply HP, list_elem_of_here.
  f_equal. apply IH. intros y Hy. by apply HP, list_elem_of_further.
Qed.

Lemma fmap_NoDup_inj {A B} (f : A → B) (l : list A) a b :
  NoDup (f <$> l) → a ∈ l → b ∈ l → f a = f b → a = b.
Proof.
  induction l as [|x l IH]; [by intros _ ?%elem_of_nil|]. intros [Hx Hnd]%NoDup_cons [->|Ha]%elem_of_cons [->|Hb]%elem_of_cons Hf.
  - done.
  - destruct Hx. rewrite Hf. by apply list_elem_of_fmap_2.
  - destruct Hx. rewrite <- Hf. by apply list_elem_of_fmap_2.
  - by apply IH.
Qed.

Lemma filter_NoDup_fmap {A B} (f : A → B) (P : A → Prop) `{∀ x, Decision (P x)} (l : list A) :
  NoDup (f <$> l) → NoDup (f <$> filter P l).
Proof. intros Hnd. eapply sublist_NoDup; [exact Hnd|]. apply fmap_sublist, sublist_filter. Qed.

(** The values of a map under their own identifiers. *)
Lemma map_ids_NoDup {A} (id : A → string) (m : gmap string A) :
  (∀ i a, m !! i = Some a → id a = i) → NoDup (id <$> (map_to_list m).*2).
Proof.
  intros Hid. assert (id <$> (map_to_list m).*2 = (map_to_list m).*1) as ->; [|apply NoDup_fst_map_to_list].
  rewrite <- list_fmap_compose. apply list_fmap_ext. intros k [i a] Hi%list_elem_of_lookup_2%elem_of_map_to_list. by apply Hid.
Qed.

Lemma found_ids_NoDup q r :
  (∀ i a, r_assets r !! i = Some a → a_asset_id a = i) → NoDup (a_asset_id <$> found q r).
Proof. intros Hid. apply filter_NoDup_fmap. rewrite sorted_by_Permutation. by apply map_ids_NoDup. Qed.

(** Records under distinct identifiers have distinct keys. *)
Lemma keyed_sorted {A} (key : A → Z * string) (l : list A) :
  NoDup ((λ a, (key a).2) <$> l) →
  StronglySorted (λ a b, key_ltb (key a) (key b) = true) (sorted_by (λ a b, key_ltb (key a) (key b)) l).
Proof.
  intros Hnd. apply sorted_by_strict; [intros a b; apply key_ltb_asym|intros a b c; apply key_ltb_trans| |].
  - intros a b Ha Hb H1 H2. apply (fmap_NoDup_inj _ _ _ _ Hnd); [done..|]. by rewrite (key_ltb_total _ _ H1 H2).
  - by apply NoDup_fmap_1 in Hnd.
Qed.

Lemma found_sorted q r :
  (∀ i a, r_assets r !! i = Some a → a_asset_id a = i) →
  StronglySorted (λ a b, key_ltb (asset_key a) (asset_key b) = true) (found q r).
Proof. intros Hid. by apply StronglySorted_filter, keyed_sorted, (map_ids_NoDup a_asset_id). Qed.

(** Two listings with the same members are one. *)
Lemma key_order_unique (l1 l2 : list Asset) :
  StronglySorted (λ a b, key_ltb (asset_key a) (asset_key b) = true) l1 →
  StronglySorted (λ a b, key_ltb (asset_key a) (asset_key b) = true) l2 →
  (∀ a, a ∈ l1 ↔ a ∈ l2) → l1 = l2.
Proof.
  assert (Hnd : ∀ l, StronglySorted (λ a b, key_ltb (asset_key a) (asset_key b) = true) l → NoDup l).
  { induction 1 as [|x l _ IH Hx]; constructor; [|done]. intros Hin.
    pose proof (proj1 (Forall_forall _ _) Hx x Hin) as Hxx. pose proof (key_ltb_asym _ _ Hxx). congruence. }
  intros H1 H2 Hin. eapply StronglySorted_unique_strong; [|exact H1|exact H2|apply NoDup_Permutation; auto].
  intros x y _ _ Hxy Hyx. pose proof (key_ltb_asym _ _ Hxy). congruence.
Qed.

(** In a strictly increasing list, what lies beyond a member is what follows it. *)
Lemma filter_beyond (l1 l2 : list Asset) x :
  StronglySorted (λ a b, key_ltb (asset_key a) (asset_key b) = true) (l1 ++ x :: l2) →
  filter (λ a, Is_true (key_ltb (asset_key x) (asset_key a))) (l1 ++ x :: l2) = l2.
Proof.
  intros Hs. rewrite filter_app, filter_cons_False; cycle 1.
  { destruct (key_ltb (asset_key x) (asset_key x)) eqn:H; [|by intros []]. pose proof (key_ltb_asym _ _ H). congruence. }
  replace (filter _ l1) with (@nil Asset); cycle 1.
  { symmetry. induction l1 as [|y l1 IH]; [done|]. cbn in Hs. apply StronglySorted_inv in Hs as [Hs Hy].
    rewrite filter_cons_False; [by apply IH|]. apply Forall_app in Hy as [_ Hy]. apply Forall_inv in Hy.
    rewrite (key_ltb_asym _ _ Hy). by intros []. }
  cbn [app]. induction l1 as [|y l1 IH]; cbn in Hs; apply StronglySorted_inv in Hs as [Hs Hx]; [|by apply IH].
  clear -Hx. induction Hx as [|y l2 Hy _ IH]; [done|]. rewrite filter_cons_True; [by rewrite IH|by rewrite Hy].
Qed.
