(* ===== verification/RegistryInv.v ===== *)
(** * The registry invariant

    The class invariant of [InMemoryAssetRegistry], component by component:
    well-formed asset records, the two-way correspondence between bindings and
    the alias sets of assets, tombstones of free names only, quota rows under
    their own key, and usage counters equal to the bytes and the number of
    available assets.  Then the rules that symbolically execute the helpers of
    [Registry], and the lemmas that keep each component. *)

From S2P Require Import Prelude Errors Python Effects Paths Models Retention Sha256 Registry.

(** ** The components *)

Record asset_wf (i : string) (a : Asset) : Prop := {
  aw_id : a_asset_id a = i;
  aw_space : a_space a ∈ STORAGE_BUCKETS;
  aw_key : build_storage_key (a_partition_id a) i = Ok (a_storage_key a);
  aw_size : ∀ z, a_size_bytes a = Some z → 0 <= z;
  aw_reserved : ∀ z, a_reserved_bytes a = Some z → 0 <= z;
  aw_committed : is_Some (a_size_bytes a) → a_reserved_bytes a = None ∧ is_Some (a_checksum a);
  aw_available : a_state a = AVAILABLE → is_Some (a_size_bytes a);
  aw_pending : a_state a = PENDING → a_size_bytes a = None ∧ a_checksum a = None;
  aw_purged : is_Some (a_payload_deleted_at a) → a_state a = DELETED
}.

(** Asset [a] counts towards partition [p] of bucket [space]. *)
Definition in_partition (space p : string) (a : Asset) : bool :=
  bool_decide (a_state a = AVAILABLE) && bool_decide (a_space a = space) &&
  match normalize_partition_id (a_partition_id a) with
  | Ok p' => bool_decide (p' = p)
  | Err _ => false
  end.

Definition in_bucket (space : string) (a : Asset) : bool :=
  bool_decide (a_state a = AVAILABLE) && bool_decide (a_space a = space).

Definition size_of (a : Asset) : Z := default 0 (a_size_bytes a).

Definition partition_used (pqs : gmap (string * string) PartitionQuota) (space p : string) : Z :=
  from_option pq_used_bytes 0 (pqs !! (space, p)).
Definition partition_count (pqs : gmap (string * string) PartitionQuota) (space p : string) : Z :=
  from_option pq_used_asset_count 0 (pqs !! (space, p)).
Definition bucket_used (bqs : gmap string BucketQuota) (space : string) : Z :=
  from_option bq_used_bytes 0 (bqs !! space).

Section Invariant.
Context {E : Env}.

Record assets_wf (n : nat) (assets : gmap string Asset) : Prop := {
  asw_fresh : ∀ i, is_Some (assets !! i) → ∃ m, (m < n)%nat ∧ i = new_uuid m;
  asw_wf : ∀ i a, assets !! i = Some a → asset_wf i a
}.

(** [pend]: alias names already recorded on asset [new] but not yet bound. *)
Record links_wf (new : string) (pend : list string) (assets : gmap string Asset)
    (aliases : gmap string AliasBinding) : Prop := {
  lw_key : ∀ k b, aliases !! k = Some b → b_qualified_alias b = Ok k;
  lw_target : ∀ k b i, aliases !! k = Some b → b_asset_id b = Some i →
    ∃ a, assets !! i = Some a ∧ k ∈ a_aliases a ∧ a_space a = b_space b;
  lw_detached : ∀ k b, aliases !! k = Some b → b_asset_id b = None → b_mutable b = true;
  lw_alias : ∀ i a k, assets !! i = Some a → k ∈ a_aliases a →
    (∃ b, aliases !! k = Some b ∧ b_asset_id b = Some i) ∨ (i = new ∧ k ∈ pend)
}.

Definition tombstones_wf (aliases : gmap string AliasBinding) (tombstones : gmap string Z) : Prop :=
  ∀ k, is_Some (tombstones !! k) → aliases !! k = None.

Record quota_keys_wf (pqs : gmap (string * string) PartitionQuota)
    (bqs : gmap string BucketQuota) : Prop := {
  qk_partition : ∀ k q, pqs !! k = Some q → (pq_space q, pq_partition_id q) = k;
  qk_bucket : ∀ k q, bqs !! k = Some q → bq_space q = k
}.

Record accounts_wf (assets : gmap string Asset) (pqs : gmap (string * string) PartitionQuota)
    (bqs : gmap string BucketQuota) : Prop := {
  ac_partition : ∀ space p, partition_used pqs space p = sum_where (in_partition space p) size_of assets;
  ac_count : ∀ space p, partition_count pqs space p = count_map (in_partition space p) assets;
  ac_bucket : ∀ space, bucket_used bqs space = sum_where (in_bucket space) size_of assets
}.

Record registry_wf (n : nat) (r : Registry) : Prop := {
  rw_assets : assets_wf n (r_assets r);
  rw_links : links_wf "" [] (r_assets r) (r_aliases r);
  rw_tombstones : tombstones_wf (r_aliases r) (r_tombstones r);
  rw_keys : quota_keys_wf (r_partition_quotas r) (r_bucket_quotas r);
  rw_accounts : accounts_wf (r_assets r) (r_partition_quotas r) (r_bucket_quotas r)
}.

(** ** How a registry may change *)

(** The lifecycle order: nothing returns to [PENDING], [DELETED] is final. *)
Definition may_become (s s' : AssetState) : bool :=
  match s, s' with
  | PENDING, _ => true
  | _, PENDING => false
  | DELETED, DELETED => true
  | DELETED, _ => false
  | _, _ => true
  end.

Record asset_step (a a' : Asset) : Prop := {
  as_id : a_asset_id a' = a_asset_id a;
  as_space : a_space a' = a_space a;
  as_partition : a_partition_id a' = a_partition_id a;
  as_key : a_storage_key a' = a_storage_key a;
  as_owner : a_owner_service_id a' = a_owner_service_id a;
  as_created : a_created_at a' = a_created_at a;
  as_size : is_Some (a_size_bytes a) → a_size_bytes a' = a_size_bytes a;
  as_checksum : is_Some (a_checksum a) → a_checksum a' = a_checksum a;
  as_state : may_become (a_state a) (a_state a') = true;
  as_reads : a_read_count a <= a_read_count a';
  as_purged : is_Some (a_payload_deleted_at a) → a_payload_deleted_at a' = a_payload_deleted_at a
}.

(** What any call may do: assets persist and follow [asset_step], the audit log
    grows at its end. *)
Record evolves (r r' : Registry) : Prop := {
  ev_assets : ∀ i a, r_assets r !! i = Some a → ∃ a', r_assets r' !! i = Some a' ∧ asset_step a a';
  ev_audit : r_audit_events r `prefix_of` r_audit_events r';
  ev_grace : r_alias_grace r' = r_alias_grace r
}.

(** What a call that raises may do: forget tombstones. *)
Definition only_pruned (r r' : Registry) : Prop :=
  ∃ tombstones, r' = r <| r_tombstones := tombstones |> ∧ tombstones ⊆ r_tombstones r.

(** A call that may be [late] meets a date that does not exist only after some of
    its writes; any other raises before the first. *)
Definition step_ok {A} (late : Prop) (r : Registry) (res : res A) (r' : Registry) : Prop :=
  match res with
  | Ok _ => evolves r r'
  | Err e => only_pruned r r' ∨ late ∧ e = PyOverflowError ∧ evolves r r'
  end.

(** A computation that keeps the invariant and changes the registry as allowed. *)
Definition sound_upto {A} (late : Prop) (m : M Registry A) : Prop := ∀ n r,
  registry_wf n r → wp m (λ res n' r', registry_wf n' r' ∧ step_ok late r res r') n r.
End Invariant.

(** A computation that keeps the invariant, whatever it raises. *)
Abbreviation sound := (sound_upto True).

Arguments Build_asset_wf {_ _}.

(** ** Changing usage counters *)

Definition adjust_quota (bytes count : Z → Z) (space p : string) (r : Registry) : Registry :=
  let pq := default (new_partition_quota space p (mem space SWEEP_DEFAULT_SPACES))
              (r_partition_quotas r !! (space, p)) in
  let bq := default (new_bucket_quota space) (r_bucket_quotas r !! space) in
  r <| r_partition_quotas := <[(space, p) :=
         pq <| pq_used_bytes := bytes (pq_used_bytes pq) |>
            <| pq_used_asset_count := count (pq_used_asset_count pq) |>]> (r_partition_quotas r) |>
    <| r_bucket_quotas := <[space :=
         bq <| bq_used_bytes := bytes (bq_used_bytes bq) |>]> (r_bucket_quotas r) |>.

(** The effect of [_release_quota] on the counters. *)
Definition release_state (a : Asset) (p : string) (r : Registry) : Registry :=
  if decide (a_state a = AVAILABLE)
  then adjust_quota (λ u, Z.max 0 (u - size_of a)) (λ c, Z.max 0 (c - 1)) (a_space a) p r
  else r.

(** * Lemmas *)

#[export] Instance asset_step_preorder : PreOrder asset_step.
Proof.
  split.
  - intros a. split; try done. by destruct (a_state a).
  - intros a b c [] []. split; try congruence; try lia.
    + intros Hs. rewrite as_size1; [auto|]. by rewrite as_size0.
    + intros Hs. rewrite as_checksum1; [auto|]. by rewrite as_checksum0.
    + revert as_state0 as_state1. by destruct (a_state a), (a_state b), (a_state c).
    + intros Hs. rewrite as_purged1; [auto|]. by rewrite as_purged0.
Qed.

#[export] Instance evolves_preorder : PreOrder evolves.
Proof.
  split.
  - intros r. split; [|done..]. intros i a Ha. exists a. by split.
  - intros r r' r'' [H1 H2 H3] [H1' H2' H3']. split; [|by etrans|congruence].
    intros i a Ha. destruct (H1 i a Ha) as (b & Hb & Hab). destruct (H1' i b Hb) as (c & Hc & Hbc).
    exists c. split; [done|by etrans].
Qed.

Lemma only_pruned_refl (r : Registry) : only_pruned r r.
Proof. exists (r_tombstones r). by destruct r. Qed.

#[export] Hint Resolve only_pruned_refl : registry.

Section Rules.
Context {E : Env}.
Implicit Types (n : nat) (r : Registry).

(** ** Symbolic execution of the helpers *)

Lemma wp_reads {A} (f : Registry → res A) Q n r : Q (f r) n r → wp (reads f) Q n r.
Proof. done. Qed.

Lemma wp_get_asset i Q n r :
  (∀ a, r_assets r !! i = Some a → Q (Ok a) n r) →
  (r_assets r !! i = None → Q (Err AssetNotFoundError) n r) → wp (_get_asset i) Q n r.
Proof. intros H1 H2. apply wp_reads. unfold find_asset. destruct (r_assets r !! i); auto. Qed.

Lemma wp_audit action target caller outcome before after Q n r :
  Q (Ok tt) (S n) (r <| r_audit_events :=
    r_audit_events r ++ [mk_event action target caller outcome before after (clock n)] |>) →
  wp (_audit action target caller outcome before after) Q n r.
Proof. done. Qed.

Lemma wp_put_asset i a (Q : res unit → nat → Registry → Prop) n r :
  Q (Ok tt) n (r <| r_assets := <[i := a]> (r_assets r) |>) → wp (put_asset i a) Q n r.
Proof. done. Qed.

Lemma wp_put_alias k b (Q : res unit → nat → Registry → Prop) n r :
  Q (Ok tt) n (r <| r_aliases := <[k := b]> (r_aliases r) |>) → wp (put_alias k b) Q n r.
Proof. done. Qed.

Lemma asset_wf_partition i a : asset_wf i a → ∃ p, normalize_partition_id (a_partition_id a) = Ok p.
Proof. intros [_ _ H _ _ _ _ _ _]. apply build_storage_key_Ok in H as (p & Hp & _). by exists p. Qed.

Lemma find_partition_quota_run r space partition p :
  quota_keys_wf (r_partition_quotas r) (r_bucket_quotas r) →
  space ∈ STORAGE_BUCKETS → normalize_partition_id partition = Ok p →
  ∃ q, find_partition_quota r space partition = Ok q ∧ (pq_space q, pq_partition_id q) = (space, p) ∧
       q = default (new_partition_quota space p (mem space SWEEP_DEFAULT_SPACES))
             (r_partition_quotas r !! (space, p)).
Proof.
  intros [Hk _] Hs Hp. unfold find_partition_quota, mbind, res_bind, normalize_space.
  rewrite normalize_bucket_fix, Hp by done.
  destruct (r_partition_quotas r !! (space, p)) as [q|] eqn:Hq; cbn; eauto.
Qed.

Lemma find_bucket_quota_run r space :
  quota_keys_wf (r_partition_quotas r) (r_bucket_quotas r) → space ∈ STORAGE_BUCKETS →
  ∃ q, find_bucket_quota r space = Ok q ∧ bq_space q = space ∧
       q = default (new_bucket_quota space) (r_bucket_quotas r !! space).
Proof.
  intros [_ Hk] Hs. unfold find_bucket_quota, mbind, res_bind, normalize_space.
  rewrite normalize_bucket_fix by done.
  destruct (r_bucket_quotas r !! space) as [q|] eqn:Hq; cbn; eauto.
Qed.

Lemma wp_acquire_quota space partition p nbytes (Q : res unit → nat → Registry → Prop) n r :
  quota_keys_wf (r_partition_quotas r) (r_bucket_quotas r) →
  space ∈ STORAGE_BUCKETS → normalize_partition_id partition = Ok p →
  Q (Ok tt) n (adjust_quota (λ u, u + nbytes) (λ c, c + 1) space p r) →
  wp (_acquire_quota space partition nbytes) Q n r.
Proof.
  intros Hk Hs Hp HQ.
  destruct (find_partition_quota_run r space partition p Hk Hs Hp) as (q & Hq & Hkey & Hdef).
  destruct (find_bucket_quota_run r space Hk Hs) as (b & Hb & Hbkey & Hbdef).
  unfold _acquire_quota. apply wp_bind, wp_reads. rewrite Hq. apply wp_bind, wp_modify.
  apply wp_bind, wp_reads. change (find_bucket_quota _ space) with (find_bucket_quota r space).
  rewrite Hb. apply wp_modify. unfold adjust_quota in HQ. rewrite <- Hdef, <- Hbdef in HQ.
  unfold replace_field, replace_r_partition_quotas, replace_r_bucket_quotas in *. cbn in *.
  by rewrite Hkey, Hbkey.
Qed.

Lemma wp_release_quota a p (Q : res unit → nat → Registry → Prop) n r :
  quota_keys_wf (r_partition_quotas r) (r_bucket_quotas r) →
  a_space a ∈ STORAGE_BUCKETS → normalize_partition_id (a_partition_id a) = Ok p →
  Q (Ok tt) n (release_state a p r) → wp (_release_quota a) Q n r.
Proof.
  intros Hk Hs Hp HQ. unfold release_state in HQ. unfold _release_quota. destruct (decide (a_state a = AVAILABLE)); [|done].
  destruct (find_partition_quota_run r _ _ p Hk Hs Hp) as (q & Hq & Hkey & Hdef).
  destruct (find_bucket_quota_run r _ Hk Hs) as (b & Hb & Hbkey & Hbdef).
  apply wp_bind, wp_reads. rewrite Hq. apply wp_bind, wp_modify.
  apply wp_bind, wp_reads. change (find_bucket_quota _ ?s) with (find_bucket_quota r s).
  rewrite Hb. apply wp_modify. unfold adjust_quota in HQ. rewrite <- Hdef, <- Hbdef in HQ.
  unfold replace_field, replace_r_partition_quotas, replace_r_bucket_quotas in *. cbn in *.
  by rewrite Hkey, Hbkey.
Qed.

(** ** Keeping [assets_wf] *)

Lemma assets_wf_mono n n' assets : (n <= n')%nat → assets_wf n assets → assets_wf n' assets.
Proof.
  intros Hle [Hf Hw]. split; [|done]. intros i Hi. destruct (Hf i Hi) as (m & ? & ?).
  exists m. split; [lia|done].
Qed.

Lemma assets_wf_replace n assets i a a' :
  assets_wf n assets → assets !! i = Some a → asset_wf i a' → assets_wf n (<[i := a']> assets).
Proof.
  intros [Hf Hw] Hi Ha'. split.
  - intros j Hj. apply Hf. rewrite lookup_insert in Hj. by case_decide; simplify_eq.
  - intros j b. rewrite lookup_insert. case_decide; [by intros [= <-]; simplify_eq|by apply Hw].
Qed.

Lemma assets_wf_fresh n n' assets a :
  assets_wf n assets → (n < n')%nat → asset_wf (new_uuid n) a →
  assets_wf n' (<[new_uuid n := a]> assets).
Proof.
  intros [Hf Hw] Hn Ha. split.
  - intros j Hj. rewrite lookup_insert in Hj. case_decide; [by exists n|].
    destruct (Hf j Hj) as (m & ? & ?). exists m. split; [lia|done].
  - intros j b. rewrite lookup_insert. case_decide; [by intros [= <-]; simplify_eq|by apply Hw].
Qed.

(** ** Keeping [links_wf] *)

Lemma links_wf_pend new pend assets aliases :
  links_wf "" [] assets aliases → links_wf new pend assets aliases.
Proof.
  intros [H1 H2 H3 H4]. split; try done. intros i a k Hi Hk.
  destruct (H4 i a k Hi Hk) as [?|[_ ?%not_elem_of_nil]]; [by left|done].
Qed.

Lemma links_wf_same_names new pend assets aliases i a a' :
  links_wf new pend assets aliases → assets !! i = Some a → a_aliases a' = a_aliases a → a_space a' = a_space a →
  links_wf new pend (<[i := a']> assets) aliases.
Proof.
  intros [H1 H2 H3 H4] Hi Hal Hsp. split; try done.
  - intros k b j Hk Hb. destruct (H2 k b j Hk Hb) as (c & Hc & Hin & Hs).
    rewrite lookup_insert. case_decide; [|eauto]. simplify_eq. exists a'. by rewrite Hal, Hsp.
  - intros j c k. rewrite lookup_insert. case_decide; [|by apply H4].
    intros [= <-]. simplify_eq. rewrite Hal. by apply H4.
Qed.

(** Bind [k] to the asset [i] whose alias set gains [k]. *)
Lemma links_wf_bind new pend assets aliases i a a' k b :
  links_wf new pend assets aliases → assets !! i = Some a →
  (∀ b0, aliases !! k = Some b0 → b_asset_id b0 = None ∨ b_asset_id b0 = Some i) →
  b_qualified_alias b = Ok k → b_asset_id b = Some i → b_space b = a_space a →
  a_aliases a' = {[k]} ∪ a_aliases a → a_space a' = a_space a →
  links_wf new pend (<[i := a']> assets) (<[k := b]> aliases).
Proof.
  intros [H1 H2 H3 H4] Hi Hfree Hkey Hb Hsp Hal Hsp'. split.
  - intros k' b'. rewrite lookup_insert. case_decide; [by intros [= <-]; simplify_eq|by apply H1].
  - intros k' b' j. rewrite !lookup_insert. case_decide as Hk.
    + intros [= <-] Hj. simplify_eq. rewrite decide_True by done. exists a'.
      rewrite Hal. split_and!; [done|apply elem_of_union_l; by apply elem_of_singleton|congruence].
    + intros Hk' Hj. destruct (H2 k' b' j Hk' Hj) as (c & Hc & Hin & Hs).
      case_decide; [|eauto]. simplify_eq. exists a'. rewrite Hal, Hsp'.
      split_and!; [done|by apply elem_of_union_r|done].
  - intros k' b'. rewrite lookup_insert. case_decide; [by intros [= <-]; congruence|by apply H3].
  - intros j c k'. rewrite !lookup_insert. case_decide as Hj.
    + intros [= <-]. subst j. rewrite Hal. intros [->%elem_of_singleton|Hin]%elem_of_union.
      * rewrite decide_True by done. eauto.
      * case_decide; [subst; eauto|by eapply H4].
    + intros Hc Hin. destruct (H4 j c k' Hc Hin) as [(b' & Hb' & Hbj)|?]; [|by right].
      case_decide as Hkk; [|eauto]. subst k'. exfalso.
      destruct (Hfree b' Hb') as [|]; congruence.
Qed.

(** Unbind [k] from the asset [i] whose alias set loses [k]: the binding is dropped,
    or kept detached. *)
Lemma links_wf_unbind new pend assets aliases i a a' k b (ob : option AliasBinding) :
  links_wf new pend assets aliases → assets !! i = Some a → aliases !! k = Some b → b_asset_id b = Some i →
  a_aliases a' = a_aliases a ∖ {[k]} → a_space a' = a_space a →
  (∀ b', ob = Some b' → b_qualified_alias b' = Ok k ∧ b_asset_id b' = None ∧ b_mutable b' = true) →
  links_wf new pend (<[i := a']> assets) (partial_alter (λ _, ob) k aliases).
Proof.
  intros [H1 H2 H3 H4] Hi Hk Hb Hal Hsp Hob. split.
  - intros k' b'. rewrite lookup_partial_alter. case_decide; [|by apply H1].
    subst. intros ->. by destruct (Hob b' eq_refl) as (? & ? & ?).
  - intros k' b' j. rewrite lookup_partial_alter. case_decide as Hkk.
    + intros -> Hj. destruct (Hob b' eq_refl) as (_ & ? & _). congruence.
    + intros Hk' Hj. destruct (H2 k' b' j Hk' Hj) as (c & Hc & Hin & Hs).
      rewrite lookup_insert. case_decide; [|eauto]. simplify_eq. exists a'. rewrite Hal, Hsp.
      split_and!; [done|by apply elem_of_difference, conj; [|apply not_elem_of_singleton]|done].
  - intros k' b'. rewrite lookup_partial_alter. case_decide; [|by apply H3].
    subst. intros ->. by destruct (Hob b' eq_refl) as (? & ? & ?).
  - intros j c k'. rewrite lookup_insert, lookup_partial_alter. case_decide as Hj.
    + intros [= <-]. subst j. rewrite Hal. intros [Hin Hne]%elem_of_difference.
      rewrite decide_False by (intros ->; apply Hne; by apply elem_of_singleton). by eapply H4.
    + intros Hc Hin. destruct (H4 j c k' Hc Hin) as [(b' & Hb' & Hbj)|?]; [|by right].
      case_decide; [|eauto]. subst k'. congruence.
Qed.

(** A new asset whose names are still to be bound. *)
Lemma links_wf_new assets aliases i a :
  links_wf "" [] assets aliases → assets !! i = None →
  links_wf i (elements (a_aliases a)) (<[i := a]> assets) aliases.
Proof.
  intros [H1 H2 H3 H4] Hi. split; try done.
  - intros k b j Hk Hb. destruct (H2 k b j Hk Hb) as (c & Hc & Hin & Hs).
    rewrite lookup_insert. case_decide; [congruence|eauto].
  - intros j c k. rewrite lookup_insert. case_decide.
    + intros [= <-] Hk. right. split; [done|]. by apply elem_of_elements.
    + intros Hc Hk. destruct (H4 j c k Hc Hk) as [?|[_ ?%not_elem_of_nil]]; [by left|done].
Qed.

(** One binding of a new asset is made. *)
Lemma links_wf_bind_pend assets aliases i a k b pend pend' :
  links_wf i pend assets aliases → assets !! i = Some a → k ∈ a_aliases a →
  (∀ b0, aliases !! k = Some b0 → b_asset_id b0 = Some i) →
  (∀ k', k' ∈ pend → k' = k ∨ k' ∈ pend') →
  b_qualified_alias b = Ok k → b_asset_id b = Some i → b_space b = a_space a →
  links_wf i pend' assets (<[k := b]> aliases).
Proof.
  intros Hl Hi Hin Hfree Hp Hkey Hb Hsp.
  assert (Hl' : links_wf i pend (<[i := a]> assets) (<[k := b]> aliases)).
  { eapply links_wf_bind; eauto.
    symmetry. apply subseteq_union_1_L. by apply singleton_subseteq_l. }
  rewrite insert_id in Hl' by done. destruct Hl' as [H1 H2 H3 H4]. split; try done.
  intros j c k' Hj Hk'. destruct (H4 j c k' Hj Hk') as [?|[-> Hk'p]]; [by left|].
  destruct (Hp k' Hk'p) as [->|]; [|by right]. left. exists b. by rewrite lookup_insert_eq.
Qed.

(** ** Keeping [accounts_wf] *)

Lemma partition_used_insert pqs space p q space' p' :
  partition_used (<[(space, p) := q]> pqs) space' p' =
  if decide ((space, p) = (space', p')) then pq_used_bytes q else partition_used pqs space' p'.
Proof. unfold partition_used. rewrite lookup_insert. by case_decide. Qed.

Lemma partition_count_insert pqs space p q space' p' :
  partition_count (<[(space, p) := q]> pqs) space' p' =
  if decide ((space, p) = (space', p')) then pq_used_asset_count q else partition_count pqs space' p'.
Proof. unfold partition_count. rewrite lookup_insert. by case_decide. Qed.

Lemma bucket_used_insert bqs space q space' :
  bucket_used (<[space := q]> bqs) space' =
  if decide (space = space') then bq_used_bytes q else bucket_used bqs space'.
Proof. unfold bucket_used. rewrite lookup_insert. by case_decide. Qed.

Lemma adjust_quota_partition bytes count space p r space' p' :
  partition_used (r_partition_quotas (adjust_quota bytes count space p r)) space' p' =
    (if decide ((space, p) = (space', p')) then bytes (partition_used (r_partition_quotas r) space p)
     else partition_used (r_partition_quotas r) space' p') ∧
  partition_count (r_partition_quotas (adjust_quota bytes count space p r)) space' p' =
    (if decide ((space, p) = (space', p')) then count (partition_count (r_partition_quotas r) space p)
     else partition_count (r_partition_quotas r) space' p').
Proof.
  cbn. rewrite partition_used_insert, partition_count_insert.
  unfold partition_used, partition_count. case_decide; [|done].
  by destruct (r_partition_quotas r !! (space, p)).
Qed.

Lemma adjust_quota_bucket bytes count space p r space' :
  bucket_used (r_bucket_quotas (adjust_quota bytes count space p r)) space' =
    if decide (space = space') then bytes (bucket_used (r_bucket_quotas r) space)
    else bucket_used (r_bucket_quotas r) space'.
Proof.
  cbn. rewrite bucket_used_insert. unfold bucket_used.
  case_decide; [|done]. by destruct (r_bucket_quotas r !! space).
Qed.

Lemma adjust_quota_keys bytes count space p r :
  quota_keys_wf (r_partition_quotas r) (r_bucket_quotas r) →
  quota_keys_wf (r_partition_quotas (adjust_quota bytes count space p r))
                (r_bucket_quotas (adjust_quota bytes count space p r)).
Proof.
  intros [Hp Hb]. split; cbn; intros k q; rewrite lookup_insert; case_decide as Hk; try by auto.
  - intros [= <-]. subst k. destruct (r_partition_quotas r !! (space, p)) as [q0|] eqn:Hq; [|done].
    by specialize (Hp _ _ Hq).
  - intros [= <-]. subst k. destruct (r_bucket_quotas r !! space) as [q0|] eqn:Hq; [|done].
    by specialize (Hb _ _ Hq).
Qed.

Lemma in_partition_ext space p a a' :
  (a_state a' = AVAILABLE ↔ a_state a = AVAILABLE) → a_space a' = a_space a →
  a_partition_id a' = a_partition_id a → in_partition space p a' = in_partition space p a.
Proof. intros Hs H1 H2. unfold in_partition. rewrite H1, H2. by rewrite (bool_decide_ext _ _ Hs). Qed.

Lemma in_bucket_ext space a a' :
  (a_state a' = AVAILABLE ↔ a_state a = AVAILABLE) → a_space a' = a_space a →
  in_bucket space a' = in_bucket space a.
Proof. intros Hs H1. unfold in_bucket. rewrite H1. by rewrite (bool_decide_ext _ _ Hs). Qed.

Lemma not_available_uncounted a :
  a_state a ≠ AVAILABLE → (∀ space p : string, in_partition space p a = false) ∧ (∀ space : string, in_bucket space a = false).
Proof.
  intros H. unfold in_partition, in_bucket. rewrite (bool_decide_eq_false_2 _ H). done.
Qed.

Lemma in_partition_available (p : string) (a : Asset) :
  a_state a = AVAILABLE → normalize_partition_id (a_partition_id a) = Ok p →
  ∀ space' p', in_partition space' p' a = bool_decide ((a_space a, p) = (space', p')).
Proof.
  intros Hs Hp space' p'. unfold in_partition. rewrite Hp, (bool_decide_eq_true_2 _ Hs). cbn.
  rewrite <- bool_decide_and. apply bool_decide_ext. split; [by intros [-> ->]|by intros [= -> ->]].
Qed.

Lemma in_bucket_available (a : Asset) :
  a_state a = AVAILABLE → ∀ space', in_bucket space' a = bool_decide (a_space a = space').
Proof. intros Hs space'. unfold in_bucket. by rewrite (bool_decide_eq_true_2 _ Hs). Qed.

(** Replacing an asset by one that counts the same. *)
Lemma accounts_wf_same assets pqs bqs i a a' :
  accounts_wf assets pqs bqs → assets !! i = Some a →
  (a_state a' = AVAILABLE ↔ a_state a = AVAILABLE) → a_space a' = a_space a →
  a_partition_id a' = a_partition_id a → a_size_bytes a' = a_size_bytes a →
  accounts_wf (<[i := a']> assets) pqs bqs.
Proof.
  intros [H1 H2 H3] Hi Hs Hsp Hp Hsz.
  split; intros; rewrite ?H1, ?H2, ?H3; unfold sum_where, count_map;
    rewrite (sum_map_replace _ _ _ a) by done; rewrite ?(in_partition_ext _ _ a a'), ?(in_bucket_ext _ a a') by done;
    unfold size_of; rewrite ?Hsz; lia.
Qed.

(** A new asset that is not available. *)
Lemma accounts_wf_new assets pqs bqs i a :
  accounts_wf assets pqs bqs → assets !! i = None → a_state a ≠ AVAILABLE →
  accounts_wf (<[i := a]> assets) pqs bqs.
Proof.
  intros [H1 H2 H3] Hi [Hp Hb]%not_available_uncounted.
  split; intros; rewrite ?H1, ?H2, ?H3; unfold sum_where, count_map;
    rewrite sum_map_insert by done; rewrite ?Hp, ?Hb; lia.
Qed.

(** An asset becomes available and its usage is added. *)
Lemma accounts_wf_acquire r i a a' p nbytes :
  accounts_wf (r_assets r) (r_partition_quotas r) (r_bucket_quotas r) →
  r_assets r !! i = Some a → a_state a ≠ AVAILABLE → a_state a' = AVAILABLE →
  a_space a' = a_space a → normalize_partition_id (a_partition_id a') = Ok p → size_of a' = nbytes →
  let r' := adjust_quota (λ u, u + nbytes) (λ c, c + 1) (a_space a) p r in
  accounts_wf (<[i := a']> (r_assets r)) (r_partition_quotas r') (r_bucket_quotas r').
Proof.
  intros [H1 H2 H3] Hi [Hp0 Hb0]%not_available_uncounted Hs' Hsp Hp Hsz r'.
  split; intros space'; [intros p'..|]; unfold r';
    rewrite ?(proj1 (adjust_quota_partition _ _ _ _ _ _ _)),
      ?(proj2 (adjust_quota_partition _ _ _ _ _ _ _)), ?adjust_quota_bucket, ?H1, ?H2, ?H3;
    unfold sum_where, count_map; rewrite (sum_map_replace _ _ _ a) by done;
    rewrite ?Hp0, ?Hb0, ?(in_partition_available p a' Hs' Hp),
      ?(in_bucket_available a' Hs'), Hsp, ?Hsz; case_decide as Hd; simplify_eq;
    rewrite ?bool_decide_eq_true_2 by done; rewrite ?(bool_decide_eq_false_2 _ Hd); lia.
Qed.

(** An available asset leaves that state and its usage is released; the clamp at
    zero never engages. *)
Lemma accounts_wf_release n r i a a' p :
  assets_wf n (r_assets r) →
  accounts_wf (r_assets r) (r_partition_quotas r) (r_bucket_quotas r) →
  r_assets r !! i = Some a → a_state a = AVAILABLE → a_state a' ≠ AVAILABLE →
  normalize_partition_id (a_partition_id a) = Ok p →
  let r' := adjust_quota (λ u, Z.max 0 (u - size_of a)) (λ c, Z.max 0 (c - 1)) (a_space a) p r in
  accounts_wf (<[i := a']> (r_assets r)) (r_partition_quotas r') (r_bucket_quotas r').
Proof.
  intros [_ Hw] [H1 H2 H3] Hi Hs [Hp0 Hb0]%not_available_uncounted Hp r'.
  assert (Hnn : ∀ j b, r_assets r !! j = Some b → 0 <= size_of b).
  { intros j b Hj. unfold size_of. destruct (a_size_bytes b) as [z|] eqn:Hz; [|done].
    by apply (aw_size j b (Hw j b Hj)). }
  assert (Hge : ∀ (q : Asset → bool) f, (∀ j b, r_assets r !! j = Some b → 0 <= f b) →
            q a = true → f a <= sum_map (λ b, if q b then f b else 0) (r_assets r)).
  { intros q f Hf Hq. assert (f a = if q a then f a else 0) as -> by (by rewrite Hq).
    apply (sum_map_ge (λ b, if q b then f b else 0) _ i a); [|done]. intros j b Hj. destruct (q b); [by eapply Hf|done]. }
  assert (Hpart := in_partition_available p a Hs Hp).
  assert (Hbuck := in_bucket_available a Hs).
  pose proof (Hge (in_partition (a_space a) p) size_of Hnn) as G1.
  pose proof (Hge (in_partition (a_space a) p) (λ _, 1) (λ _ _ _, Z.le_0_1)) as G2.
  pose proof (Hge (in_bucket (a_space a)) size_of Hnn) as G3.
  rewrite Hpart, Hbuck in *. rewrite !bool_decide_eq_true_2 in * by done.
  specialize (G1 eq_refl). specialize (G2 eq_refl). specialize (G3 eq_refl).
  split; intros space'; [intros p'..|]; unfold r';
    rewrite ?(proj1 (adjust_quota_partition _ _ _ _ _ _ _)),
      ?(proj2 (adjust_quota_partition _ _ _ _ _ _ _)), ?adjust_quota_bucket, ?H1, ?H2, ?H3;
    unfold sum_where, count_map; rewrite (sum_map_replace _ _ _ a) by done;
    rewrite ?Hp0, ?Hb0, ?Hpart, ?Hbuck; case_decide as Hd; simplify_eq;
    rewrite ?bool_decide_eq_true_2 by done; rewrite ?(bool_decide_eq_false_2 _ Hd); lia.
Qed.

(** ** Keeping the whole invariant *)

Lemma registry_wf_mono n n' r : (n <= n')%nat → registry_wf n r → registry_wf n' r.
Proof. intros Hle []. split; try done. by eapply assets_wf_mono. Qed.

Lemma registry_wf_audit n r events :
  registry_wf n r → registry_wf n (r <| r_audit_events := events |>).
Proof. by intros []; split. Qed.

Lemma registry_wf_prune n r tombstones :
  registry_wf n r → tombstones ⊆ r_tombstones r →
  registry_wf n (r <| r_tombstones := tombstones |>).
Proof.
  intros [H1 H2 H3 H4 H5] Hsub. split; try done.
  intros k [v Hk]. apply H3. exists v. by eapply lookup_weaken.
Qed.

Lemma release_state_fields a p r :
  r_assets (release_state a p r) = r_assets r ∧ r_aliases (release_state a p r) = r_aliases r ∧
  r_audit_events (release_state a p r) = r_audit_events r ∧
  r_tombstones (release_state a p r) = r_tombstones r ∧
  r_alias_grace (release_state a p r) = r_alias_grace r.
Proof. unfold release_state. by case_decide. Qed.

Lemma release_state_put a p r assets :
  release_state a p (r <| r_assets := assets |>) = (release_state a p r) <| r_assets := assets |>.
Proof. unfold release_state. by case_decide. Qed.

Lemma release_state_keys a p r :
  quota_keys_wf (r_partition_quotas r) (r_bucket_quotas r) →
  quota_keys_wf (r_partition_quotas (release_state a p r)) (r_bucket_quotas (release_state a p r)).
Proof. intros Hk. unfold release_state. case_decide; [by apply adjust_quota_keys|done]. Qed.

(** An asset is replaced by one that is not available, its usage released. *)
Lemma registry_wf_leave n r i a a' p :
  registry_wf n r → r_assets r !! i = Some a → asset_wf i a' →
  a_aliases a' = a_aliases a → a_space a' = a_space a → a_partition_id a' = a_partition_id a →
  a_size_bytes a' = a_size_bytes a → a_state a' ≠ AVAILABLE →
  normalize_partition_id (a_partition_id a) = Ok p →
  registry_wf n ((release_state a p r) <| r_assets := <[i := a']> (r_assets r) |>).
Proof.
  intros [H1 H2 H3 H4 H5] Hi Ha' Hal Hsp Hpa Hsz Hs' Hp.
  destruct (release_state_fields a p r) as (F1 & F2 & F3 & F4 & F5).
  split; cbn; rewrite ?F2, ?F4.
  - by eapply assets_wf_replace.
  - by eapply links_wf_same_names.
  - done.
  - by apply release_state_keys.
  - unfold release_state. case_decide; [by eapply accounts_wf_release|by eapply accounts_wf_same].
Qed.

(** An asset changes without leaving or entering the available state. *)
Lemma registry_wf_put n r i a a' :
  registry_wf n r → r_assets r !! i = Some a → asset_wf i a' →
  a_aliases a' = a_aliases a → a_space a' = a_space a → a_partition_id a' = a_partition_id a →
  a_size_bytes a' = a_size_bytes a → (a_state a' = AVAILABLE ↔ a_state a = AVAILABLE) →
  registry_wf n (r <| r_assets := <[i := a']> (r_assets r) |>).
Proof.
  intros [H1 H2 H3 H4 H5] Hi Ha' Hal Hsp Hpa Hsz Hs.
  split; cbn; try done; [by eapply assets_wf_replace|by eapply links_wf_same_names|].
  by eapply accounts_wf_same.
Qed.

(** An asset becomes available, its usage acquired. *)
Lemma registry_wf_enter n r i a a' p nbytes :
  registry_wf n r → r_assets r !! i = Some a → asset_wf i a' →
  a_aliases a' = a_aliases a → a_space a' = a_space a → a_partition_id a' = a_partition_id a →
  a_state a ≠ AVAILABLE → a_state a' = AVAILABLE → size_of a' = nbytes →
  normalize_partition_id (a_partition_id a) = Ok p →
  registry_wf n ((adjust_quota (λ u, u + nbytes) (λ c, c + 1) (a_space a) p r)
                   <| r_assets := <[i := a']> (r_assets r) |>).
Proof.
  intros [H1 H2 H3 H4 H5] Hi Ha' Hal Hsp Hpa Hs Hs' Hsz Hp.
  split; cbn; try done.
  - by eapply assets_wf_replace.
  - by eapply links_wf_same_names.
  - by apply (adjust_quota_keys (λ u, u + nbytes) (λ c, c + 1)).
  - by eapply (accounts_wf_acquire r i a a'); rewrite ?Hpa.
Qed.

(** A free or detached name is bound to an asset. *)
Lemma registry_wf_bind n r i a a' k b :
  registry_wf n r → r_assets r !! i = Some a → asset_wf i a' →
  (∀ b0, r_aliases r !! k = Some b0 → b_asset_id b0 = None) → r_tombstones r !! k = None →
  b_qualified_alias b = Ok k → b_asset_id b = Some i → b_space b = a_space a →
  a_aliases a' = {[k]} ∪ a_aliases a → a_space a' = a_space a →
  a_partition_id a' = a_partition_id a → a_size_bytes a' = a_size_bytes a →
  a_state a' = a_state a →
  registry_wf n (r <| r_aliases := <[k := b]> (r_aliases r) |>
                   <| r_assets := <[i := a']> (r_assets r) |>).
Proof.
  intros [H1 H2 H3 H4 H5] Hi Ha' Hfree Htomb Hkey Hb Hbsp Hal Hsp Hpa Hsz Hs. split; cbn.
  - by eapply assets_wf_replace.
  - eapply links_wf_bind; eauto.
  - intros k' Hk'. rewrite lookup_insert. case_decide; [|by apply H3].
    subst k'. destruct Hk'. congruence.
  - done.
  - eapply accounts_wf_same; try done. by rewrite Hs.
Qed.

(** A name is taken from an asset: the binding goes, or stays detached. *)
Lemma registry_wf_unbind n r i a a' k b ob tombstones :
  registry_wf n r → r_assets r !! i = Some a → asset_wf i a' →
  r_aliases r !! k = Some b → b_asset_id b = Some i →
  (∀ b', ob = Some b' → b_qualified_alias b' = Ok k ∧ b_asset_id b' = None ∧ b_mutable b' = true) →
  (∀ k', is_Some (tombstones !! k') → is_Some (r_tombstones r !! k') ∨ k' = k ∧ ob = None) →
  a_aliases a' = a_aliases a ∖ {[k]} → a_space a' = a_space a →
  a_partition_id a' = a_partition_id a → a_size_bytes a' = a_size_bytes a →
  a_state a' = a_state a →
  registry_wf n (r <| r_aliases := partial_alter (λ _, ob) k (r_aliases r) |>
                   <| r_assets := <[i := a']> (r_assets r) |> <| r_tombstones := tombstones |>).
Proof.
  intros [H1 H2 H3 H4 H5] Hi Ha' Hk Hb Hob Htomb Hal Hsp Hpa Hsz Hs. split; cbn.
  - by eapply assets_wf_replace.
  - by eapply links_wf_unbind.
  - intros k' Hk'. rewrite lookup_partial_alter.
    destruct (Htomb k' Hk') as [Hin%H3|[-> ->]]; [|by rewrite decide_True].
    case_decide; [congruence|done].
  - done.
  - eapply accounts_wf_same; try done. by rewrite Hs.
Qed.

Lemma asset_wf_aliases i a names now :
  asset_wf i a → asset_wf i (a <| a_aliases := names |> <| a_updated_at := now |>).
Proof. by intros []; split. Qed.

Lemma asset_step_aliases a names now :
  asset_step a (a <| a_aliases := names |> <| a_updated_at := now |>).
Proof. split; cbn; try done. by destruct (a_state a). Qed.

(** ** Evolution *)

Lemma evolves_put r r' i a a' events :
  r_assets r !! i = Some a → asset_step a a' → r_assets r' = <[i := a']> (r_assets r) →
  r_audit_events r' = r_audit_events r ++ events → r_alias_grace r' = r_alias_grace r →
  evolves r r'.
Proof.
  intros Hi Hstep Ha Hev Hg. split; [|rewrite Hev; by apply prefix_app_r|done].
  intros j b Hj. rewrite Ha, lookup_insert. case_decide; [|by exists b].
  simplify_eq. by exists a'.
Qed.

Lemma evolves_same r r' events :
  r_assets r' = r_assets r → r_audit_events r' = r_audit_events r ++ events →
  r_alias_grace r' = r_alias_grace r → evolves r r'.
Proof.
  intros Ha Hev Hg. split; [|rewrite Hev; by apply prefix_app_r|done].
  intros j b Hj. rewrite Ha. by exists b.
Qed.
End Rules.

#[export] Hint Resolve asset_wf_partition registry_wf_audit : registry.
