(* ===== verification/RegistrySound.v ===== *)
(** * Every registry method keeps the invariant

    One soundness lemma per method of [InMemoryAssetRegistry]: from a well-formed
    registry the call ends in a well-formed one; when it returns, assets only
    evolved and the audit log grew; when it raises, nothing but expired
    tombstones went.  [call] enumerates the methods and [reachable] the states
    any sequence of calls leads to. *)

From S2P Require Import Prelude Errors Python Effects Paths Models Retention Sha256 Registry RegistryInv.

(** ** Automation *)

(** One step of symbolic execution of a method. *)
Ltac reg_step :=
  lazymatch goal with
  | |- wp (_audit _ _ _ _ _ _) _ _ _ => apply wp_audit
  | |- wp (put_asset _ _) _ _ _ => apply wp_put_asset
  | |- wp (put_alias _ _) _ _ _ => apply wp_put_alias
  | |- wp (_get_asset _) _ _ _ => apply wp_get_asset; [intros ? ?|intros ?]
  | |- wp (reads _) _ _ _ => apply wp_reads
  | |- wp (_enforce_quota _ _ _ _) _ _ _ => apply wp_reads
  | |- match ?x with Ok _ => _ | Err _ => _ end => destruct x eqn:?
  | _ => wp_step
  end; cbv beta iota.

Ltac reg_steps := repeat reg_step.

(** Steps up to the first write. *)
Ltac reg_reads :=
  repeat lazymatch goal with
  | |- wp (put_asset _ _ ≫= _) _ _ _ => fail
  | |- wp (put_alias _ _ ≫= _) _ _ _ => fail
  | |- wp (put_partition_quota _ ≫= _) _ _ _ => fail
  | |- wp (put_bucket_quota _ ≫= _) _ _ _ => fail
  | |- wp (for_each _ _ ≫= _) _ _ _ => fail
  | _ => reg_step
  end.

(** A branch that raises before any write, and one that returns unchanged. *)
Ltac raised :=
  match goal with
  | H : registry_wf _ ?r |- registry_wf _ ?r ∧ step_ok _ ?r (Err _) ?r =>
      split; [eapply registry_wf_mono; [|exact H]; lia|left; apply only_pruned_refl]
  end.

(** Turn decided boolean guards into propositions. *)
Ltac guards :=
  repeat match goal with
  | H : bool_decide _ = true |- _ => apply bool_decide_eq_true in H
  | H : bool_decide _ = false |- _ => apply bool_decide_eq_false in H
  end.

(** The updated record of a transition is well formed. *)
Ltac solve_asset_wf :=
  match goal with
  | H : asset_wf ?i ?a |- asset_wf ?i _ =>
      destruct H; split; cbn in *; try done; try congruence; try (intros; simplify_eq/=; lia);
      intuition (congruence || eauto)
  end.

Ltac solve_asset_step :=
  split; cbn; repeat (match goal with H : a_state _ = _ |- _ => rewrite H end);
  try done; try lia; try congruence.

Section Sound.
Context {E : Env} {late : Prop}.

Lemma get_wf n r i a : registry_wf n r → r_assets r !! i = Some a → asset_wf i a.
Proof. intros [[_ Hw] _ _ _ _]. by apply Hw. Qed.

Lemma wp_audit_ok action target caller outcome before after (Q : res unit → nat → Registry → Prop) n r :
  registry_wf n r →
  (∀ r', registry_wf (S n) r' → evolves r r' → Q (Ok tt) (S n) r') →
  wp (_audit action target caller outcome before after) Q n r.
Proof.
  intros Hwf HQ. apply wp_audit, HQ; [|by eapply evolves_same].
  apply registry_wf_audit, registry_wf_mono with n; [lia|done].
Qed.

(** A sound method may be executed knowing that it keeps the invariant. *)
Lemma wp_sound {A} (m : M Registry A) (Q : res A → nat → Registry → Prop) n r :
  sound_upto late m → registry_wf n r →
  wp m (λ res n' r', registry_wf n' r' → step_ok late r res r' → Q res n' r') n r → wp m Q n r.
Proof.
  intros Hs Hwf. specialize (Hs n r Hwf). unfold wp in *.
  destruct (m n r) as [[res n'] r']. destruct Hs. auto.
Qed.

(** Putting the record of an asset that leaves the available state and releasing
    its usage. *)
Lemma wp_leave {B} (k : M Registry B) Q n r i a a' :
  registry_wf n r → r_assets r !! i = Some a → asset_wf i a' → asset_step a a' →
  a_aliases a' = a_aliases a → a_size_bytes a' = a_size_bytes a → a_state a' ≠ AVAILABLE →
  (∀ r', registry_wf n r' → evolves r r' → r_assets r' = <[i := a']> (r_assets r) → wp k Q n r') →
  wp (put_asset i a' ;; _release_quota a ;; k) Q n r.
Proof.
  intros Hwf Hi Ha' Hstep Hal Hsz Hs Hk. pose proof (get_wf _ _ _ _ Hwf Hi) as Ha.
  destruct (asset_wf_partition _ _ Ha) as [p Hp]. pose proof (aw_space _ _ Ha).
  reg_step. reg_step. reg_step. eapply wp_release_quota; [by apply Hwf|done|done|].
  rewrite release_state_put. apply Hk; [by eapply registry_wf_leave; try done; apply Hstep| |done].
  destruct (release_state_fields a p r) as (_ & _ & F3 & _ & F5).
  eapply (evolves_put _ _ _ _ _ []); [exact Hi|done|reflexivity|cbn; by rewrite F3, app_nil_r|done].
Qed.

Lemma wp_put_release {B} r0 i a a' action target caller outcome before after (b : B) n r :
  registry_wf n r → evolves r0 r → r_assets r !! i = Some a → asset_wf i a' → asset_step a a' →
  a_aliases a' = a_aliases a → a_size_bytes a' = a_size_bytes a → a_state a' ≠ AVAILABLE →
  wp (put_asset i a' ;; _release_quota a ;; _audit action target caller outcome before after ;; mret b)
     (λ res n' r', registry_wf n' r' ∧ step_ok late r0 res r') n r.
Proof.
  intros Hwf Hev ? ? ? ? ? ?. eapply wp_leave; try done. intros r1 Hwf1 Hev1 _.
  apply wp_bind, wp_audit_ok; [done|]. intros r2 Hwf2 Hev2. split; [done|].
  cbn. by do 2 (etrans; [eassumption|]).
Qed.

(** The same without a change of usage. *)
Lemma wp_put_audit {B} r0 i a a' action target caller outcome before after (b : B) n r :
  registry_wf n r → evolves r0 r → r_assets r !! i = Some a → asset_wf i a' → asset_step a a' →
  a_aliases a' = a_aliases a → a_size_bytes a' = a_size_bytes a →
  (a_state a' = AVAILABLE ↔ a_state a = AVAILABLE) →
  wp (put_asset i a' ;; _audit action target caller outcome before after ;; mret b)
     (λ res n' r', registry_wf n' r' ∧ step_ok late r0 res r') n r.
Proof.
  intros Hwf Hev Hi Ha' Hstep Hal Hsz Hs. reg_steps. split.
  - apply registry_wf_audit, registry_wf_mono with n; [lia|].
    eapply registry_wf_put; try done; apply Hstep.
  - cbn [step_ok]. etrans; [exact Hev|]. by eapply evolves_put; [exact Hi|done|reflexivity|done|].
Qed.

Lemma expire_asset_sound i caller : sound_upto late (expire_asset i caller).
Proof.
  intros n r Hwf. unfold expire_asset. reg_reads; [raised| |raised].
  guards. assert (a_state a = AVAILABLE) as Hs by (by destruct (decide (a_state a = AVAILABLE))).
  pose proof (get_wf _ _ _ _ Hwf H) as Ha.
  apply wp_put_release; try done; [by apply (registry_wf_mono n); [lia|]|solve_asset_wf|solve_asset_step].
Qed.

Lemma delete_asset_sound i caller : sound_upto late (delete_asset i caller).
Proof.
  intros n r Hwf. unfold delete_asset. reg_reads; [raised| |raised].
  pose proof (get_wf _ _ _ _ Hwf H) as Ha.
  apply wp_put_release; try done; [by apply (registry_wf_mono n); [lia|]|solve_asset_wf|].
  split; cbn; try done. by destruct (a_state a).
Qed.

Lemma update_annotations_sound i patch caller overwrite :
  sound_upto late (update_annotations i patch caller overwrite).
Proof.
  intros n r Hwf. unfold update_annotations. reg_reads; [raised| |raised].
  pose proof (get_wf _ _ _ _ Hwf H) as Ha.
  apply wp_put_audit with (a := a); try done; [by apply (registry_wf_mono n); [lia|]|solve_asset_wf|].
  split; cbn; try done. by destruct (a_state a).
Qed.

Lemma set_eviction_policy_sound i policy caller : sound_upto late (set_eviction_policy i policy caller).
Proof.
  intros n r Hwf. unfold set_eviction_policy. reg_reads; [raised| |raised].
  pose proof (get_wf _ _ _ _ Hwf H) as Ha.
  apply wp_put_audit with (a := a); try done; [by apply (registry_wf_mono n); [lia|]|solve_asset_wf|].
  split; cbn; try done. by destruct (a_state a).
Qed.

Lemma record_read_sound i : sound_upto late (record_read i).
Proof.
  intros n r Hwf. unfold record_read. reg_steps; [| |raised].
  - pose proof (get_wf _ _ _ _ Hwf H) as Ha. split.
    + apply registry_wf_mono with n; [lia|]. eapply registry_wf_put; try done. solve_asset_wf.
    + eapply (evolves_put _ _ _ _ _ []); [exact H| |reflexivity|cbn; by rewrite app_nil_r|done].
      split; cbn; try done; [by destruct (a_state a)|lia].
  - split; [done|]. cbn. reflexivity.
Qed.

Lemma record_capability_issue_sound caller op scope ttl outcome id :
  sound_upto late (record_capability_issue caller op scope ttl outcome id).
Proof.
  intros n r Hwf. unfold record_capability_issue. reg_steps. split.
  - apply registry_wf_audit, (registry_wf_mono n); [lia|done].
  - by eapply evolves_same.
Qed.

Lemma reads_sound {A} (f : Registry → res A) : sound_upto late (reads f).
Proof.
  intros n r Hwf. reg_steps. split; [done|]. destruct (f r); cbn; [reflexivity|auto with registry].
Qed.

Lemma recent_audit_sound asset_id limit : sound_upto late (recent_audit asset_id limit).
Proof.
  intros n r Hwf. unfold recent_audit. apply wp_bind, wp_raise_if; intros _; [raised|].
  by apply reads_sound.
Qed.

Lemma resolve_alias_sound space alias : sound_upto late (resolve_alias space alias).
Proof.
  intros n r Hwf. unfold resolve_alias, _get_binding, raise_about.
  reg_steps; try raised; (split; [eapply registry_wf_mono; [|exact Hwf]; lia|]);
    cbn; auto with registry; reflexivity.
Qed.

(** Writing a quota row that keeps its usage counters. *)
Lemma registry_wf_partition_quota n r q q' k :
  registry_wf n r → k = (pq_space q, pq_partition_id q) →
  q = default (new_partition_quota (pq_space q) (pq_partition_id q) (mem (pq_space q) SWEEP_DEFAULT_SPACES))
        (r_partition_quotas r !! (pq_space q, pq_partition_id q)) →
  pq_space q' = pq_space q → pq_partition_id q' = pq_partition_id q →
  pq_used_bytes q' = pq_used_bytes q → pq_used_asset_count q' = pq_used_asset_count q →
  registry_wf n (r <| r_partition_quotas := <[k := q']> (r_partition_quotas r) |>).
Proof.
  intros [H1 H2 H3 [K1 K2] [A1 A2 A3]] -> Hq Hs Hp Hu Hc.
  assert (G1 : pq_used_bytes q = partition_used (r_partition_quotas r) (pq_space q) (pq_partition_id q)).
  { unfold partition_used. rewrite Hq at 1. by destruct (r_partition_quotas r !! _). }
  assert (G2 : pq_used_asset_count q =
               partition_count (r_partition_quotas r) (pq_space q) (pq_partition_id q)).
  { unfold partition_count. rewrite Hq at 1. by destruct (r_partition_quotas r !! _). }
  split; try done; split; cbn; try done.
  - intros k' q0. rewrite lookup_insert. case_decide as Hk; [|apply K1].
    intros [= <-]. subst k'. by rewrite Hs, Hp.
  - intros space p. rewrite partition_used_insert, <- A1. case_decide; [|done]. by simplify_eq; rewrite Hu.
  - intros space p. rewrite partition_count_insert, <- A2. case_decide; [|done]. by simplify_eq; rewrite Hc.
Qed.

Lemma registry_wf_bucket_quota n r q q' k :
  registry_wf n r → k = bq_space q → q = default (new_bucket_quota (bq_space q)) (r_bucket_quotas r !! bq_space q) →
  bq_space q' = bq_space q → bq_used_bytes q' = bq_used_bytes q →
  registry_wf n (r <| r_bucket_quotas := <[k := q']> (r_bucket_quotas r) |>).
Proof.
  intros [H1 H2 H3 [K1 K2] [A1 A2 A3]] -> Hq Hs Hu.
  assert (G : bq_used_bytes q = bucket_used (r_bucket_quotas r) (bq_space q)).
  { unfold bucket_used. rewrite Hq at 1. by destruct (r_bucket_quotas r !! _). }
  split; try done; split; cbn; try done.
  - intros k q0. rewrite lookup_insert. case_decide; [by intros [= <-]; congruence|apply K2].
  - intros space. rewrite bucket_used_insert, <- A3. case_decide; [|done]. by simplify_eq; rewrite Hu.
Qed.

Lemma find_partition_quota_Ok r space partition q :
  quota_keys_wf (r_partition_quotas r) (r_bucket_quotas r) → find_partition_quota r space partition = Ok q →
  q = default (new_partition_quota (pq_space q) (pq_partition_id q) (mem (pq_space q) SWEEP_DEFAULT_SPACES))
        (r_partition_quotas r !! (pq_space q, pq_partition_id q)).
Proof.
  intros [K _]. unfold find_partition_quota, mbind, res_bind.
  destruct (normalize_space space) as [s|]; [|done].
  destruct (normalize_partition_id partition) as [p|]; [|done].
  destruct (r_partition_quotas r !! (s, p)) as [q0|] eqn:Hq; intros [= <-]; cbn.
  - pose proof (K _ _ Hq) as Hk. rewrite Hk, Hq. done.
  - by rewrite Hq.
Qed.

Lemma find_bucket_quota_Ok r space q :
  quota_keys_wf (r_partition_quotas r) (r_bucket_quotas r) → find_bucket_quota r space = Ok q →
  q = default (new_bucket_quota (bq_space q)) (r_bucket_quotas r !! bq_space q).
Proof.
  intros [_ K]. unfold find_bucket_quota, mbind, res_bind.
  destruct (normalize_space space) as [s|]; [|done].
  destruct (r_bucket_quotas r !! s) as [q0|] eqn:Hq; intros [= <-]; cbn.
  - by rewrite (K _ _ Hq), Hq.
  - by rewrite Hq.
Qed.

Lemma set_partition_quota_sound space partition qb qc sweep caller :
  sound_upto late (set_partition_quota space partition qb qc sweep caller).
Proof.
  intros n r Hwf. unfold set_partition_quota, _partition_quota. reg_reads; try raised.
  reg_steps. cbn. split.
  - apply registry_wf_audit, (registry_wf_mono n); [lia|].
    eapply (registry_wf_partition_quota n r a); try done. eapply find_partition_quota_Ok; [apply Hwf|done].
  - by eapply evolves_same.
Qed.

Lemma set_bucket_quota_sound space qb warn hard : sound_upto late (set_bucket_quota space qb warn hard).
Proof.
  intros n r Hwf. unfold set_bucket_quota, _bucket_quota. reg_reads; try raised. reg_steps. split.
  - eapply (registry_wf_bucket_quota n r a); try done. eapply find_bucket_quota_Ok; [apply Hwf|done].
  - eapply (evolves_same _ _ []); cbn; [done|by rewrite app_nil_r|done].
Qed.

Lemma validate_cleanup_Ok asset state purge u :
  validate_cleanup_transition asset state purge = Ok u →
  a_payload_deleted_at asset = None ∧ may_become (a_state asset) state = true ∧
  (state = EXPIRED ∨ state = DELETED) ∧ (purge = true → state = DELETED) ∧
  (state = EXPIRED → a_state asset = AVAILABLE).
Proof.
  unfold validate_cleanup_transition. intros H.
  destruct (a_payload_deleted_at asset), (a_state asset), state, purge; try discriminate H;
    cbn; intuition discriminate.
Qed.

Lemma asset_wf_cleanup i a state updated expired purged :
  asset_wf i a → state = EXPIRED ∨ state = DELETED →
  (is_Some purged → state = DELETED) →
  asset_wf i (a <| a_state := state |> <| a_updated_at := updated |>
    <| a_expired_at := expired |> <| a_payload_deleted_at := purged |>).
Proof.
  intros [] Hs Hp. split; cbn; try done; destruct Hs as [-> | ->]; done.
Qed.

(** The record [lifecycle_update] writes. *)
Definition cleaned (a : Asset) (state : AssetState) (now : Z) (purge : bool) : Asset :=
  a <| a_state := state |> <| a_updated_at := now |>
    <| a_expired_at := if decide (state = EXPIRED) then Some now else a_expired_at a |>
    <| a_payload_deleted_at := if purge then Some now else a_payload_deleted_at a |>.

Lemma wp_lifecycle_update asset state now reason purge (Q : res Asset → nat → Registry → Prop) n r :
  registry_wf n r →
  (∀ e, r_assets r !! a_asset_id asset ≠ Some asset ∨
        validate_cleanup_transition asset state purge ≠ Ok tt → Q (Err e) n r) →
  (∀ p events, r_assets r !! a_asset_id asset = Some asset →
     validate_cleanup_transition asset state purge = Ok tt →
     normalize_partition_id (a_partition_id asset) = Ok p →
     let a' := cleaned asset state now purge in
     Q (Ok a') (S n) ((release_state asset p r)
                        <| r_assets := <[a_asset_id asset := a']> (r_assets r) |>
                        <| r_audit_events := r_audit_events r ++ events |>)) →
  wp (lifecycle_update asset state now reason purge) Q n r.
Proof.
  intros Hwf Herr HQ. unfold lifecycle_update. reg_reads; guards;
    try (apply Herr; (left; congruence) || (right; congruence)).
  apply dec_stable in H0. subst a.
  pose proof (get_wf _ _ _ _ Hwf H) as Ha. destruct (asset_wf_partition _ _ Ha) as [p Hp].
  eapply wp_release_quota; [by apply Hwf|by apply (aw_space _ _ Ha)|done|]. destruct a0.
  destruct (release_state_fields asset p r) as (F1 & F2 & F3 & F4 & F5).
  reg_steps. rewrite F1. cbn. rewrite F3. by eapply HQ.
Qed.

Lemma lifecycle_update_sound asset state now reason purge :
  sound_upto late (lifecycle_update asset state now reason purge).
Proof.
  intros n r Hwf. apply wp_lifecycle_update; [done|intros; raised|].
  intros p events H Hval Hp a'. pose proof (get_wf _ _ _ _ Hwf H) as Ha.
  apply validate_cleanup_Ok in Hval as (Hpay & Hmay & Hstate & Hpurge & Hexp). split.
  - apply registry_wf_audit, registry_wf_mono with n; [lia|].
    eapply registry_wf_leave; try done; [apply asset_wf_cleanup; try done; rewrite Hpay;
      destruct purge; [by auto|by intros []]|].
    cbn. by destruct Hstate as [-> | ->].
  - destruct (release_state_fields asset p r) as (F1 & _ & F3 & _ & F5). cbn [step_ok].
    eapply (evolves_put r); [exact H| |done|done|exact F5].
    split; cbn; try done. rewrite Hpay. by intros [].
Qed.

Lemma asset_wf_commit i a size checksum mime now :
  asset_wf i a → 0 <= size → a_state a = PENDING →
  asset_wf i (a <| a_state := AVAILABLE |> <| a_size_bytes := Some size |>
    <| a_reserved_bytes := None |> <| a_checksum := Some checksum |>
    <| a_mime := mime |> <| a_updated_at := now |>).
Proof.
  intros [] Hsize Hs. split; cbn; try done; eauto.
  - intros z [= <-]. done.
  - intros Hp. by rewrite aw_purged in Hs.
Qed.

(** The record [commit_asset] writes. *)
Definition committed (a : Asset) (size : Z) (checksum : string) (mime : option string) (now : Z) : Asset :=
  a <| a_state := AVAILABLE |> <| a_size_bytes := Some size |> <| a_reserved_bytes := None |>
    <| a_checksum := Some (strip checksum) |> <| a_mime := or_mime mime (a_mime a) |>
    <| a_updated_at := now |>.

(** The guards of [commit_asset], in the order of the code. *)
Record commit_admitted (r : Registry) (i : string) (size : Z) (checksum : string)
    (expected : option string) (a : Asset) : Prop := {
  ca_size : 0 <= size;
  ca_checksum : strip checksum ≠ "";
  ca_expected : ∀ e, expected = Some e → e = strip checksum;
  ca_asset : r_assets r !! i = Some a;
  ca_pending : a_state a = PENDING;
  ca_reserved : ∀ z, a_reserved_bytes a = Some z → z = size;
  ca_quota : enforce_quota r (a_space a) (a_partition_id a) size (Some i) = Ok tt
}.

Lemma wp_commit_asset i size checksum caller mime expected (Q : res Asset → nat → Registry → Prop) n r :
  registry_wf n r → (∀ e, Q (Err e) n r) →
  (∀ a p events, commit_admitted r i size checksum expected a →
     normalize_partition_id (a_partition_id a) = Ok p →
     let a' := committed a size checksum mime (clock n) in
     Q (Ok a') (S (S n))
       ((adjust_quota (λ u, u + size) (λ c, c + 1) (a_space a) p r)
          <| r_assets := <[i := a']> (r_assets r) |>
          <| r_audit_events := r_audit_events r ++ events |>)) →
  wp (commit_asset i size checksum caller mime expected) Q n r.
Proof.
  intros Hwf Herr HQ. unfold commit_asset. reg_reads; try apply Herr.
  guards. apply Z.ltb_ge in H. destruct (decide (a_state a = PENDING)) as [Hs|]; [|done].
  pose proof (get_wf _ _ _ _ Hwf H2) as Ha. destruct (asset_wf_partition _ _ Ha) as [p Hp].
  reg_steps; try apply Herr.
  eapply wp_acquire_quota; [exact (rw_keys _ _ Hwf)|by apply (aw_space _ _ Ha)|done|].
  reg_steps. apply (HQ a p _); [|done]. destruct a0. split; try done.
  - intros e ->. by apply bool_decide_eq_false, dec_stable in H1.
  - intros z Hz. rewrite Hz in H4. by apply negb_false_iff, Z.eqb_eq in H4.
Qed.

Lemma commit_asset_sound i size checksum caller mime expected :
  sound_upto late (commit_asset i size checksum caller mime expected).
Proof.
  intros n r Hwf. apply wp_commit_asset; [done|intros; raised|]. intros a p events [? ? ? Hi Hs _ _] Hp.
  pose proof (get_wf _ _ _ _ Hwf Hi) as Ha. split.
  - apply registry_wf_audit, registry_wf_mono with n; [lia|].
    eapply (registry_wf_enter n r); try done; [by apply asset_wf_commit|congruence].
  - cbn [step_ok]. eapply (evolves_put r); [exact Hi| |done..].
    destruct (aw_pending _ _ Ha Hs) as [Hsz Hck].
    split; cbn; rewrite ?Hsz, ?Hck; try done; try by intros []. by rewrite Hs.
Qed.

Lemma asset_wf_reactivate i a deadline now :
  asset_wf i a → a_state a = AVAILABLE ∨ a_state a = EXPIRED → is_Some (a_size_bytes a) →
  asset_wf i (a <| a_state := AVAILABLE |> <| a_expires_at := deadline |>
    <| a_expired_at := None |> <| a_updated_at := now |>).
Proof.
  intros [] Hs Hsz. split; cbn; try done.
  intros Hp. by destruct Hs as [Hs|Hs]; rewrite aw_purged in Hs.
Qed.

Lemma set_asset_ttl_sound i ttl caller : sound_upto late (set_asset_ttl i ttl caller).
Proof.
  intros n r Hwf. unfold set_asset_ttl. reg_reads; try raised; guards;
    pose proof (get_wf _ _ _ _ Hwf H) as Ha; destruct (asset_wf_partition _ _ Ha) as [p Hp];
    assert (is_Some (a_size_bytes a)) as Hsz by (destruct (a_size_bytes a); [done|by destruct H1; left]).
  - eapply wp_acquire_quota; [exact (rw_keys _ _ Hwf)|by apply (aw_space _ _ Ha)|done|].
    reg_steps. split.
    + apply registry_wf_audit, registry_wf_mono with n; [lia|].
      eapply (registry_wf_enter n r); try done; [|congruence].
      apply asset_wf_reactivate; auto.
    + cbn [step_ok]. eapply (evolves_put r); [exact H| |done..]. solve_asset_step.
  - assert (a_state a = AVAILABLE) as Hs.
    { by destruct (a_state a) eqn:Hs; try done; destruct H0. }
    apply wp_put_audit with (a := a); try done; [by apply (registry_wf_mono n); [lia|]| |].
    + apply asset_wf_reactivate; auto.
    + solve_asset_step.
Qed.

(** ** Alias names *)

Definition Pruned (n : nat) (r : Registry) (n' : nat) (r' : Registry) : Prop :=
  (n <= n')%nat ∧ only_pruned r r'.

Lemma only_pruned_wf n n' r r' : (n <= n')%nat → only_pruned r r' → registry_wf n r → registry_wf n' r'.
Proof.
  intros Hn (t & -> & Ht) Hwf. apply registry_wf_prune; [by eapply registry_wf_mono|done].
Qed.

Lemma only_pruned_evolves r r' : only_pruned r r' → evolves r r'.
Proof. intros (t & -> & _). eapply (evolves_same _ _ []); [done|by rewrite app_nil_r|done]. Qed.

Lemma step_ok_evolves {A} (res : res A) r r' : step_ok late r res r' → evolves r r'.
Proof. destruct res; [done|]. intros [?|(_ & _ & ?)]; [by apply only_pruned_evolves|done]. Qed.

Lemma only_pruned_trans r1 r2 r3 : only_pruned r1 r2 → only_pruned r2 r3 → only_pruned r1 r3.
Proof. intros (t & -> & Ht) (t' & -> & Ht'). exists t'. split; [done|by etrans]. Qed.

(** A name is free when it is neither bound nor kept by a tombstone. *)
Definition name_free (key : string) (r : Registry) : Prop :=
  r_aliases r !! key = None ∧ r_tombstones r !! key = None.

Lemma only_pruned_free r r' key : only_pruned r r' → name_free key r → name_free key r'.
Proof.
  intros (t & -> & Ht) [H1 H2]. split; [done|]. by eapply lookup_weaken_None.
Qed.

(** [_require_alias_name_available] returns exactly on a name that is free, or
    whose tombstone is over and is then removed. *)
Lemma wp_require_alias_name_available space name (Q : res unit → nat → Registry → Prop) n r :
  (∀ e n', (n <= n')%nat → Q (Err e) n' r) →
  (∀ key n' r', qualified_alias space name = Ok key → (n <= n')%nat → only_pruned r r' →
     name_free key r' → Q (Ok tt) n' r') →
  wp (_require_alias_name_available space name) Q n r.
Proof.
  intros Herr Hok. unfold _require_alias_name_available, _alias_name_is_blocked.
  destruct (qualified_alias space name) as [key|e] eqn:Hq; [|by apply wp_bind, wp_bind, wp_of_res, Herr].
  reg_steps; try (apply Herr; lia).
  all: assert (r_aliases r !! key = None) as Hk by by apply eq_None_not_Some.
  - apply (Hok key); [done|lia| |split; [done|by apply lookup_delete_eq]].
    eexists. split; [done|apply delete_subseteq].
  - apply (Hok key); auto with registry. done.
Qed.

Lemma attach_alias_sound i alias mutable caller : sound_upto late (attach_alias i alias mutable caller).
Proof.
  intros n r Hwf. unfold attach_alias, _add_alias_to_asset. reg_reads; try raised.
  pose proof (get_wf _ _ _ _ Hwf H) as Ha.
  unfold normalize_space in Heqr0. rewrite normalize_bucket_fix in Heqr0 by apply (aw_space _ _ Ha).
  injection Heqr0 as <-.
  apply wp_require_alias_name_available.
  { intros e n' Hn. split; [by eapply registry_wf_mono|left; apply only_pruned_refl]. }
  intros key n' r' Hkey Hn Hpr [Hf1 Hf2]. rewrite Hkey.
  pose proof (only_pruned_wf _ _ _ _ Hn Hpr Hwf) as Hwf'.
  assert (r_assets r' !! i = Some a) as Hi by by destruct Hpr as (? & -> & _).
  reg_steps; [|cbn in *; congruence].
  cbn in *; simplify_eq. split.
  - apply registry_wf_audit, registry_wf_mono with n'; [lia|].
    eapply (registry_wf_bind n' r'); try done; [by apply asset_wf_aliases|congruence].
  - cbn [step_ok]. etrans; [by apply only_pruned_evolves|].
    eapply (evolves_put r'); [exact Hi|apply asset_step_aliases|done..].
Qed.

Lemma find_binding_Ok r space alias b :
  find_binding r space alias = Ok b → ∃ sp al key,
    normalize_space space = Ok sp ∧ normalize_relative_alias alias = Ok al ∧
    qualified_alias sp al = Ok key ∧ r_aliases r !! key = Some b.
Proof.
  unfold find_binding, mbind, res_bind. intros H.
  destruct (normalize_space space) as [sp|]; [|done].
  destruct (normalize_relative_alias alias) as [al|]; [|done].
  destruct (qualified_alias sp al) as [key|] eqn:Hk; [|done].
  destruct (r_aliases r !! key) eqn:?; [|done]. exists sp, al, key. naive_solver.
Qed.

(** A binding the registry finds is stored under its own qualified name. *)
Lemma find_binding_key n r space alias b :
  registry_wf n r → find_binding r space alias = Ok b →
  ∃ key, b_qualified_alias b = Ok key ∧ r_aliases r !! key = Some b.
Proof.
  intros Hwf (sp & al & key & _ & _ & _ & Hk)%find_binding_Ok. exists key.
  split; [by apply (lw_key _ _ _ _ (rw_links _ _ Hwf))|done].
Qed.

Lemma bound_no_tombstone n r k b :
  registry_wf n r → r_aliases r !! k = Some b → r_tombstones r !! k = None.
Proof.
  intros Hwf Hb. apply eq_None_not_Some. intros Ht%(rw_tombstones _ _ Hwf). congruence.
Qed.

Lemma rebind_alias_sound space alias i caller : sound_upto late (rebind_alias space alias i caller).
Proof.
  intros n r Hwf. unfold rebind_alias, raise_about_if, raise_about, _get_binding, _add_alias_to_asset.
  reg_reads; try raised.
  pose proof (get_wf _ _ _ _ Hwf H) as Ha.
  destruct (find_binding_key _ _ _ _ _ Hwf Heqr0) as (key & Hkey & Hb).
  apply bool_decide_eq_false in Heqb0, H0. apply eq_None_not_Some in Heqb0.
  destruct (decide (a_space a0 = b_space a)) as [Hsp|]; [|done].
  rewrite Hkey in Heqr2. injection Heqr2 as <-.
  reg_steps; [|cbn in *; congruence]. cbn in *; simplify_eq. split.
  - apply registry_wf_audit, registry_wf_mono with n; [lia|].
    eapply (registry_wf_bind n r); try done; [by apply asset_wf_aliases|congruence|].
    by eapply bound_no_tombstone.
  - cbn [step_ok]. eapply (evolves_put r); [exact H|apply asset_step_aliases|done..].
Qed.

Lemma wp_mark_for_gc i a caller (Q : res unit → nat → Registry → Prop) n r :
  registry_wf n r → r_assets r !! i = Some a →
  (∀ n' r', (n <= n')%nat → registry_wf n' r' → evolves r r' → Q (Ok tt) n' r') →
  wp (_mark_for_gc_if_orphaned i caller) Q n r.
Proof.
  intros Hwf Hi HQ. pose proof (get_wf _ _ _ _ Hwf Hi) as Ha.
  unfold _mark_for_gc_if_orphaned. do 2 reg_step; [|congruence]. simplify_eq.
  reg_reads; try (apply HQ; [lia|done|reflexivity]).
  assert (a_state a = PENDING ∨ a_state a = AVAILABLE) as Hs
    by (destruct (a_state a); auto; destruct n1; auto).
  eapply wp_leave; [by apply (registry_wf_mono n); [lia|]|exact Hi|..]; try done.
  - destruct Ha. split; cbn; try done. intros Hp. destruct Hs as [Hs|Hs]; by rewrite aw_purged in Hs.
  - split; cbn; try done. by destruct Hs as [-> | ->].
  - intros r1 Hwf1 Hev1 _. apply wp_audit_ok; [done|]. intros r2 Hwf2 Hev2.
    apply HQ; [lia|done|by etrans].
Qed.

Lemma datetime_add_cases t d :
  datetime_add t d = Ok (t + d) ∨ datetime_add t d = Err PyOverflowError ∧ datetime_max < t + d.
Proof. unfold datetime_add. destruct (Z.ltb_spec datetime_max (t + d)); auto. Qed.

(** The registry left by a detach of [key] whose grace period ends beyond the last
    date: the name is released, and neither held nor recorded as released. *)
Definition half_detached (key i : string) (a : Asset) (now : Z) (r : Registry) : Registry :=
  r <| r_aliases := delete key (r_aliases r) |>
    <| r_assets := <[i := a <| a_aliases := a_aliases a ∖ {[key]} |> <| a_updated_at := now |>]> (r_assets r) |>.

(** [detach_alias] up to the point where the asset may be collected. *)
Lemma wp_detach_alias space alias caller (Q : res unit → nat → Registry → Prop) n r :
  registry_wf n r → (∀ e, Q (Err e) n r) →
  (∀ key b i a, find_binding r space alias = Ok b → b_mutable b = false →
     b_qualified_alias b = Ok key → r_aliases r !! key = Some b → b_asset_id b = Some i →
     r_assets r !! i = Some a → key ∈ a_aliases a → 0 < r_alias_grace r →
     datetime_max < clock (S n) + r_alias_grace r →
     let r' := half_detached key i a (clock n) r in
     registry_wf (S (S n)) r' → evolves r r' → Q (Err PyOverflowError) (S (S n)) r') →
  (∀ key b i a n' r', find_binding r space alias = Ok b → b_mutable b = false →
     b_qualified_alias b = Ok key → r_aliases r !! key = Some b → b_asset_id b = Some i →
     r_assets r !! i = Some a → key ∈ a_aliases a → (n <= n')%nat →
     registry_wf n' r' → evolves r r' →
     r_assets r' = <[i := a <| a_aliases := a_aliases a ∖ {[key]} |> <| a_updated_at := clock n |>]>
                     (r_assets r) →
     r_aliases r' = delete key (r_aliases r) →
     (0 < r_alias_grace r → datetime_add (clock (S n)) (r_alias_grace r) = Ok (clock (S n) + r_alias_grace r)) →
     r_tombstones r' = (if 0 <? r_alias_grace r
                        then <[key := clock (S n) + r_alias_grace r]> (r_tombstones r)
                        else r_tombstones r) →
     wp (_mark_for_gc_if_orphaned i caller) Q n' r') →
  wp (detach_alias space alias caller) Q n r.
Proof.
  intros Hwf Herr Hover HQ. unfold detach_alias, raise_about_if, raise_about, _get_binding.
  reg_step; reg_step. destruct (find_binding r space alias) as [b|] eqn:Hb; [|by apply Herr].
  destruct (find_binding_key _ _ _ _ _ Hwf Hb) as (key & Hkey & Hbk).
  reg_reads; try apply Herr. injection Hkey as ->.
  destruct (lw_target _ _ _ _ (rw_links _ _ Hwf) _ _ _ Hbk Heqo) as (a & Hi & Hin & Hsp).
  pose proof (get_wf _ _ _ _ Hwf Hi) as Ha. unfold _remove_alias_from_asset.
  reg_step; reg_step; [|cbn in *; congruence]. cbn in H; simplify_eq.
  set (half := half_detached key s a (clock n) r).
  assert (Hhalf : ∀ t n', (n <= n')%nat → (∀ k, is_Some (t !! k) → k = key ∨ is_Some (r_tombstones r !! k)) →
    registry_wf n' (half <| r_tombstones := t |>)).
  { intros t n' Hn Ht. apply registry_wf_mono with n; [lia|].
    eapply (registry_wf_unbind n r); try done; [by apply asset_wf_aliases|].
    intros k' [->|?]%Ht; auto. }
  assert (Hev : ∀ t events, evolves r (half <| r_tombstones := t |> <| r_audit_events := r_audit_events r ++ events |>)).
  { intros t events. eapply evolves_put; [exact Hi|apply asset_step_aliases|done..]. }
  assert (Hgo : ∀ n' t, (n <= n')%nat →
    (0 < r_alias_grace r → datetime_add (clock (S n)) (r_alias_grace r) = Ok (clock (S n) + r_alias_grace r)) →
    t = (if 0 <? r_alias_grace r then <[key := clock (S n) + r_alias_grace r]> (r_tombstones r) else r_tombstones r) →
    wp (_audit "alias.detach" key caller "success" {["asset_id" := s]} ∅ ;; _mark_for_gc_if_orphaned s caller)
       Q n' (half <| r_tombstones := t |>)).
  { intros n' t Hn Hadd ->. apply wp_bind, wp_audit.
    eapply (HQ key b s a); try done; [lia|]. apply registry_wf_audit, Hhalf; [lia|].
    intros k. case_match; [|by auto]. rewrite lookup_insert. case_decide; auto. }
  clear HQ. do 6 reg_step. change (r_alias_grace (_ <| r_assets := _ |>)) with (r_alias_grace r).
  destruct (Z.ltb_spec 0 (r_alias_grace r)) as [Hg|Hg].
  - do 2 reg_step. apply wp_bind, wp_of_res.
    destruct (datetime_add_cases (clock (S n)) (r_alias_grace r)) as [Hadd|[Hadd Hlast]]; rewrite Hadd.
    + reg_step. apply Hgo; [lia|done|done].
    + eapply (Hover key b s a); try done.
      * apply (Hhalf (r_tombstones r) (S (S n))); [lia|auto].
      * specialize (Hev (r_tombstones r) []). rewrite app_nil_r in Hev. exact Hev.
  - reg_step. specialize (Hgo (S n) (r_tombstones r) ltac:(lia) ltac:(lia) eq_refl). by destruct r.
Qed.

Lemma detach_alias_sound space alias caller : sound (detach_alias space alias caller).
Proof.
  intros n r Hwf. apply wp_detach_alias; [done|intros; raised|by split; [|by right]|].
  intros key b i a n1 r1 _ _ _ _ _ Hi _ _ Hwf1 Hev1 Has _ _ _.
  eapply wp_mark_for_gc; [done|by rewrite Has, lookup_insert_eq|].
  intros n2 r2 _ Hwf2 Hev2. split; [done|]. cbn. by etrans.
Qed.

Lemma detach_mutable_alias_sound space alias caller : sound_upto late (detach_mutable_alias space alias caller).
Proof.
  intros n r Hwf. unfold detach_mutable_alias, raise_about_if, raise_about, _get_binding.
  reg_step; reg_step. destruct (find_binding r space alias) as [b|] eqn:Hb; [|raised].
  destruct (find_binding_key _ _ _ _ _ Hwf Hb) as (key & Hkey & Hbk).
  reg_reads; try raised. injection Hkey as ->.
  destruct (lw_target _ _ _ _ (rw_links _ _ Hwf) _ _ _ Hbk Heqo) as (a & Hi & Hin & Hsp).
  pose proof (get_wf _ _ _ _ Hwf Hi) as Ha. unfold _remove_alias_from_asset.
  reg_step; reg_step; [|congruence]. simplify_eq. reg_step. reg_step. reg_step.
  reg_step. reg_step. reg_step. reg_step.
  match goal with |- wp _ _ ?n' ?r' => set (n1 := n'); set (r1 := r') end.
  assert (Hwf1 : registry_wf n1 r1).
  { apply registry_wf_mono with n; [unfold n1; lia|].
    eapply (registry_wf_unbind n r _ _ _ _ _ (Some _)); try done; [by apply asset_wf_aliases| |by auto].
    intros b' [= <-]. split_and!; [done..|]. by apply negb_false_iff. }
  assert (Hev1 : evolves r r1).
  { eapply (evolves_put r _ _ _ _ []); [exact Hi|apply asset_step_aliases|done|by rewrite app_nil_r|done]. }
  clearbody n1. apply wp_bind, wp_audit_ok; [done|]. intros r2 Hwf2 Hev2.
  destruct (ev_assets _ _ Hev2 s _ (lookup_insert_eq _ _ _)) as (a2 & Hi2 & _).
  apply wp_bind. eapply wp_mark_for_gc; [done..|]. intros n3 r3 _ Hwf3 Hev3. split; [done|].
  cbn. by do 2 (etrans; [eassumption|]).
Qed.

(** ** Reserving *)

Lemma fresh_asset `{!FreshIds E} n n' r :
  registry_wf n r → (n <= n')%nat → r_assets r !! new_uuid n' = None.
Proof.
  intros Hwf Hn. apply eq_None_not_Some. intros Hs.
  destruct (asw_fresh _ _ (rw_assets _ _ Hwf) _ Hs) as (m & Hm & Heq%(inj new_uuid)). lia.
Qed.

(** The key an alias specification is bound under. *)
Definition spec_key (space partition : string) (spec : string * bool) : res string :=
  scoped ← _alias_under_partition partition spec.1;
  qualified_alias space scoped.

Lemma reserve_names_free space partition specs (Q : res unit → nat → Registry → Prop) n r :
  (∀ e n' r', (n <= n')%nat → only_pruned r r' → Q (Err e) n' r') →
  (∀ n' r', (n <= n')%nat → only_pruned r r' →
     (∀ spec key, spec ∈ specs → spec_key space partition spec = Ok key → name_free key r') →
     Q (Ok tt) n' r') →
  wp (for_each specs (λ spec,
        scoped ← of_res (_alias_under_partition partition spec.1);
        _require_alias_name_available space scoped)) Q n r.
Proof.
  intros Herr Hok.
  apply (wp_for_each _ _ (λ rest n' r', (n <= n')%nat ∧ only_pruned r r' ∧
    ∀ spec key, spec ∈ specs → spec ∈ rest ∨
      (spec_key space partition spec = Ok key → name_free key r'))).
  - intros spec rest n' r' (Hn & Hpr & Hfree). apply wp_bind, wp_of_res.
    destruct (_alias_under_partition partition spec.1) as [scoped|e] eqn:Hsc; [|by apply Herr].
    apply wp_require_alias_name_available; [intros; apply Herr; [lia|done]|].
    intros key n'' r'' Hkey Hn' Hpr' Hf. split_and!; [lia|by eapply only_pruned_trans|].
    intros spec' key' Hin. destruct (Hfree spec' key' Hin) as [Hr|Hr];
      [|right; intros Hk; by eapply only_pruned_free, Hr].
    apply elem_of_cons in Hr as [->|]; [|by left]. right. unfold spec_key. rewrite Hsc. cbn.
    intros Hk. congruence.
  - intros n' r' (Hn & Hpr & Hfree). apply Hok; [done..|]. intros spec key Hin Hk.
    by destruct (Hfree spec key Hin) as [?%not_elem_of_nil|?]; auto.
  - split_and!; [lia|apply only_pruned_refl|by left].
Qed.

Lemma mapM_res_Ok {A B} (f : A → res B) l k :
  mapM f l = Ok k → ∀ x, x ∈ l → ∃ y, f x = Ok y ∧ y ∈ k.
Proof.
  revert k. induction l as [|x l IH]; intros k H y Hy; [by apply not_elem_of_nil in Hy|].
  cbn in H. unfold mbind, res_bind in H. destruct (f x) as [v|] eqn:Hf; [|done].
  destruct (mapM f l) as [k'|]; [|done]. injection H as <-.
  apply elem_of_cons in Hy as [->|Hy]; [exists v|destruct (IH k' eq_refl y Hy) as (w & ? & ?); exists w];
    split; try done; by constructor.
Qed.

Lemma mapM_res_inv {A B} (f : A → res B) l k :
  mapM f l = Ok k → ∀ y, y ∈ k → ∃ x, x ∈ l ∧ f x = Ok y.
Proof.
  revert k. induction l as [|x l IH]; intros k H y Hy.
  - injection H as <-. by apply not_elem_of_nil in Hy.
  - cbn in H. unfold mbind, res_bind in H. destruct (f x) as [v|] eqn:Hf; [|done].
    destruct (mapM f l) as [k'|]; [|done]. injection H as <-.
    apply elem_of_cons in Hy as [->|Hy]; [exists x|destruct (IH k' eq_refl y Hy) as (w & ? & ?); exists w];
      split; try done; by constructor.
Qed.

(** The state between two bindings of a new asset [a]: [r] is the registry when
    the loop starts, the names of [rest] are still to be bound. *)
Record binding_state (a : Asset) (n : nat) (r : Registry) (rest : list (string * bool))
    (n' : nat) (r' : Registry) : Prop := {
  bs_draws : (n <= n')%nat;
  bs_state : ∃ aliases events, r' = r <| r_aliases := aliases |>
               <| r_audit_events := r_audit_events r ++ events |>;
  bs_tombstones : tombstones_wf (r_aliases r') (r_tombstones r');
  bs_links : ∃ pend, links_wf (a_asset_id a) pend (r_assets r') (r_aliases r') ∧
    ∀ k, k ∈ pend → ∃ spec, spec ∈ rest ∧ spec_key (a_space a) (a_partition_id a) spec = Ok k;
  bs_frame : ∀ k, k ∉ a_aliases a → r_aliases r' !! k = r_aliases r !! k;
  bs_names : ∀ k b, k ∈ a_aliases a → r_aliases r' !! k = Some b → b_asset_id b = Some (a_asset_id a);
  bs_specs : ∀ spec, spec ∈ rest → ∃ k, spec_key (a_space a) (a_partition_id a) spec = Ok k ∧
    k ∈ a_aliases a ∧ r_tombstones r' !! k = None
}.

Lemma wp_bind_alias a owner now n r spec rest n' r' (Q : res unit → nat → Registry → Prop) :
  r_assets r !! a_asset_id a = Some a →
  binding_state a n r (spec :: rest) n' r' →
  (∀ n'' r'', binding_state a n r rest n'' r'' → Q (Ok tt) n'' r'') →
  wp (bind_alias (a_space a) (a_partition_id a) (a_asset_id a) owner now spec) Q n' r'.
Proof.
  intros Ha [Hn (aliases & events & ->) Ht (pend & Hl & Hpend) Hframe Hnames Hspecs] HQ.
  destruct (Hspecs spec ltac:(left)) as (k & Hk & Hin & Htk). cbn in *.
  pose proof Hk as Hk'. unfold spec_key in Hk'.
  unfold bind_alias. apply wp_bind, wp_of_res.
  destruct (_alias_under_partition (a_partition_id a) spec.1) as [scoped|]; [|done]. cbn in Hk'.
  apply wp_bind, wp_of_res. unfold b_qualified_alias at 1. cbn. rewrite Hk'. reg_steps. apply HQ.
  split; cbn.
  - lia.
  - eexists _, _. rewrite <- app_assoc. done.
  - intros k' Hk1. rewrite lookup_insert. case_decide; [|by apply Ht].
    subst. by rewrite Htk in Hk1; destruct Hk1.
  - exists (filter (λ k', k' ≠ k) pend). split.
    + eapply (links_wf_bind_pend _ _ _ a); [exact Hl|exact Ha|exact Hin|by intros; eapply Hnames| |done..].
      intros k' Hk1. destruct (decide (k' = k)); [by left|right]. by apply list_elem_of_filter.
    + intros k' [Hne Hk1]%list_elem_of_filter. destruct (Hpend k' Hk1) as (spec' & Hs & Hks).
      apply elem_of_cons in Hs as [->|Hs]; [congruence|by exists spec'].
  - intros k' Hk1. rewrite lookup_insert. case_decide; [by subst|by apply Hframe].
  - intros k' b Hk1. rewrite lookup_insert. case_decide; [by intros [= <-]|by apply Hnames].
  - intros spec' Hs. apply Hspecs. by right.
Qed.

Lemma wp_bind_aliases a owner now specs n r (Q : res unit → nat → Registry → Prop) :
  r_assets r !! a_asset_id a = Some a →
  binding_state a n r specs n r →
  (∀ n' r', binding_state a n r [] n' r' → Q (Ok tt) n' r') →
  wp (for_each specs (bind_alias (a_space a) (a_partition_id a) (a_asset_id a) owner now)) Q n r.
Proof.
  intros Ha Hstart HQ.
  apply (wp_for_each _ _ (binding_state a n r)); [|done|done].
  intros spec rest n' r' Hbs. by eapply wp_bind_alias.
Qed.

Lemma links_wf_nil i j assets aliases : links_wf i [] assets aliases → links_wf j [] assets aliases.
Proof.
  intros [H1 H2 H3 H4]. split; try done. intros k a q Hk Hq.
  destruct (H4 k a q Hk Hq) as [?|[_ ?%not_elem_of_nil]]; [by left|done].
Qed.

(** What [reserve_asset] leaves behind when it returns. *)
Record reserved (space partition : string) (aliases : alias_specs) (owner : string)
    (bytes : option Z) (r : Registry) (a : Asset) (r' : Registry) : Prop := {
  rs_space : normalize_space space = Ok (a_space a);
  rs_partition : normalize_partition_id partition = Ok (a_partition_id a);
  rs_state : a_state a = PENDING;
  rs_owner : a_owner_service_id a = owner;
  rs_bytes : a_reserved_bytes a = bytes;
  rs_fresh : r_assets r !! a_asset_id a = None;
  rs_assets : r_assets r' = <[a_asset_id a := a]> (r_assets r);
  rs_specs : ∃ specs, _normalize_alias_specs aliases = Ok specs ∧
    (∀ spec, spec ∈ specs → ∃ k, spec_key (a_space a) (a_partition_id a) spec = Ok k ∧ k ∈ a_aliases a) ∧
    (∀ k, k ∈ a_aliases a → ∃ spec, spec ∈ specs ∧ spec_key (a_space a) (a_partition_id a) spec = Ok k);
  rs_names : ∀ k, k ∈ a_aliases a → r_aliases r !! k = None ∧
    ∃ b, r_aliases r' !! k = Some b ∧ b_asset_id b = Some (a_asset_id a);
  rs_frame : ∀ k, k ∉ a_aliases a → r_aliases r' !! k = r_aliases r !! k;
  rs_quotas : r_partition_quotas r' = r_partition_quotas r ∧ r_bucket_quotas r' = r_bucket_quotas r
}.

(** The second half of the method, once the new record is built. *)
Lemma wp_insert_reserved a owner now specs n n1 r (Q : res unit → nat → Registry → Prop) :
  registry_wf n r → (n < n1)%nat → a_asset_id a = new_uuid n → asset_wf (a_asset_id a) a →
  r_assets r !! a_asset_id a = None → a_state a = PENDING →
  (∀ k, k ∈ a_aliases a → ∃ spec, spec ∈ specs ∧ spec_key (a_space a) (a_partition_id a) spec = Ok k) →
  (∀ spec, spec ∈ specs → ∃ k, spec_key (a_space a) (a_partition_id a) spec = Ok k ∧
     k ∈ a_aliases a ∧ name_free k r) →
  (∀ n' r', registry_wf n' r' → evolves r r' → r_assets r' = <[a_asset_id a := a]> (r_assets r) →
     (∀ k, k ∉ a_aliases a → r_aliases r' !! k = r_aliases r !! k) →
     r_partition_quotas r' = r_partition_quotas r → r_bucket_quotas r' = r_bucket_quotas r →
     Q (Ok tt) n' r') →
  wp (put_asset (a_asset_id a) a ;;
      for_each specs (bind_alias (a_space a) (a_partition_id a) (a_asset_id a) owner now)) Q n1 r.
Proof.
  intros Hwf Hn Hid Ha Hnew Hs Hal Hspecs HQ. apply wp_bind, wp_put_asset.
  set (r1 := r <| r_assets := <[a_asset_id a := a]> (r_assets r) |>).
  apply (wp_bind_aliases a owner now specs n1 r1); [by apply lookup_insert_eq| |].
  - split; [done| |apply Hwf| |done| |].
    + eexists _, []. rewrite app_nil_r. by destruct r.
    + exists (elements (a_aliases a)). split; [by apply links_wf_new; [apply Hwf|]|].
      intros k Hk%elem_of_elements. by apply Hal.
    + intros k b Hk Hb. destruct (Hal k Hk) as (spec & Hin & Hkey).
      destruct (Hspecs spec Hin) as (k' & Hkey' & _ & Hfree & _). cbn in *. congruence.
    + intros spec Hin. destruct (Hspecs spec Hin) as (k & ? & ? & [_ ?]). by exists k.
  - intros n' r' [Hn' (aliases & events & ->) Ht (pend & Hl & Hpend) Hframe Hnames _].
    assert (pend = []) as -> by (destruct pend as [|k pend]; [done|];
      destruct (Hpend k ltac:(left)) as (? & ?%not_elem_of_nil & _); done).
    apply HQ; try done.
    + destruct Hwf as [H1 H2 H3 H4 H5]. split; cbn in *; [|by eapply links_wf_nil|done|done|].
      * rewrite Hid in Ha |- *. by apply (assets_wf_fresh n); [|lia|].
      * apply accounts_wf_new; [done|done|by rewrite Hs].
    + split; [|cbn; by apply prefix_app_r|done]. intros i b Hi. exists b. split; [|done].
      cbn. rewrite lookup_insert_ne; [done|congruence].
Qed.

Lemma wp_reserve_asset `{!FreshIds E} space partition aliases owner mime annotations policy ttl bytes
    (Q : res Asset → nat → Registry → Prop) n r :
  registry_wf n r →
  (∀ e n' r', (n <= n')%nat → only_pruned r r' → Q (Err e) n' r') →
  (∀ a n' r', registry_wf n' r' → evolves r r' →
     reserved space partition aliases owner bytes r a r' → Q (Ok a) n' r') →
  wp (reserve_asset space partition aliases owner mime annotations policy ttl bytes) Q n r.
Proof.
  intros Hwf Herr Hok. unfold reserve_asset.
  reg_reads; try (apply Herr; [lia|apply only_pruned_refl]).
  apply wp_bind, reserve_names_free; [done|]. intros n0 r0 Hn0 Hpr Hfree.
  pose proof (only_pruned_wf _ _ _ _ Hn0 Hpr Hwf) as Hwf0.
  apply wp_bind.
  apply (wp_mono _ (λ res n' r', n' = n0 ∧ r' = r0 ∧
    (is_Ok res = true → ∀ z, bytes = Some z → 0 <= z))).
  { destruct bytes as [z|]; reg_steps; try (split_and!; try done; lia).
    destruct (enforce_quota r0 _ _ z None); split_and!; try done; intros _ ? [= <-]; lia. }
  intros [[]|e] n1 r1 (-> & -> & Hb); [|by apply Herr]. specialize (Hb eq_refl).
  reg_reads; try (apply Herr; [lia|done]).
  match goal with |- wp (put_asset _ ?asset ≫= _) _ _ _ => set (x := asset) end.
  pose proof (mapM_res_Ok _ _ _ Heqr3) as Hm1. pose proof (mapM_res_inv _ _ _ Heqr3) as Hm2.
  change (∀ spec, spec ∈ a1 → ∃ k, spec_key a a0 spec = Ok k ∧ k ∈ a2) in Hm1.
  change (∀ k, k ∈ a2 → ∃ spec, spec ∈ a1 ∧ spec_key a a0 spec = Ok k) in Hm2.
  assert (Hnew : r_assets r0 !! new_uuid n0 = None) by by eapply fresh_asset.
  assert (Hold : r_assets r0 = r_assets r ∧ r_aliases r0 = r_aliases r ∧
    r_partition_quotas r0 = r_partition_quotas r ∧ r_bucket_quotas r0 = r_bucket_quotas r)
    by by destruct Hpr as (? & -> & _).
  destruct Hold as (Ho1 & Ho2 & Ho3 & Ho4).
  apply wp_bind_assoc, wp_bind. change (new_uuid n0) with (a_asset_id x) at 1 2.
  apply (wp_insert_reserved x owner _ a1 n0); try done; [lia| | | |].
  { split; try done; [by apply normalize_bucket_member in Heqr0|by intros []..]. }
  { intros k Hk%elem_of_list_to_set. by apply Hm2. }
  { intros spec Hin. destruct (Hm1 spec Hin) as (k & Hk & Hk2). exists k.
    split_and!; [done|by apply elem_of_list_to_set|by eapply Hfree]. }
  intros n1 r1 Hwf1 Hev1 Has Hfr Hpq Hbq.
  assert (Hres : ∀ r2 events, r2 = r1 <| r_audit_events := events |> →
    reserved space partition aliases owner bytes r x r2).
  { intros r2 events ->. split; cbn; try done; [by rewrite <- Ho1|by rewrite Has, Ho1|..].
    - exists a1. split; [done|]. split.
      + intros spec Hin. destruct (Hm1 spec Hin) as (k & ? & ?). exists k. by rewrite elem_of_list_to_set.
      + intros k Hk%elem_of_list_to_set. by apply Hm2.
    - intros k Hk. split.
      + rewrite <- Ho2. apply elem_of_list_to_set in Hk. destruct (Hm2 k Hk) as (spec & Hin & Hks).
        by apply (Hfree spec).
      + destruct (lw_alias _ _ _ _ (rw_links _ _ Hwf1) (new_uuid n0) x k) as [?|[_ ?%not_elem_of_nil]];
          [by rewrite Has, lookup_insert_eq|done..].
    - intros k Hk. by rewrite Hfr, Ho2.
    - by rewrite Hpq, Hbq. }
  apply only_pruned_evolves in Hpr.
  apply wp_bind. destruct bytes as [z|].
  - apply wp_audit, wp_ret. apply Hok; [apply registry_wf_audit, (registry_wf_mono n1); [lia|done]| |].
    + do 2 (etrans; [eassumption|]). by eapply evolves_same.
    + by eapply Hres.
  - apply wp_ret, wp_ret. apply Hok; [done|by etrans|]. eapply (Hres _ (r_audit_events r1)).
    by destruct r1.
Qed.

Lemma reserve_asset_sound `{!FreshIds E} space partition aliases owner mime annotations policy ttl bytes :
  sound_upto late (reserve_asset space partition aliases owner mime annotations policy ttl bytes).
Proof.
  intros n r Hwf. apply wp_reserve_asset; [done|..].
  - intros e n' r' Hn Hpr. split; [by eapply only_pruned_wf|by left].
  - intros a n' r' Hwf' Hev _. by split.
Qed.

(** ** The registry as a transition system *)

(** The methods a client of the registry may call. *)
Inductive call :=
  | CallReserve (space partition : string) (aliases : alias_specs) (owner : string)
      (mime : option string) (annotations : option (gmap string string))
      (policy : EvictionPolicy) (ttl bytes : option Z)
  | CallCommit (asset_id : string) (size : Z) (checksum caller : string)
      (mime expected : option string)
  | CallAnnotate (asset_id : string) (patch : gmap string string) (caller : string) (overwrite : bool)
  | CallAttach (asset_id alias : string) (mutable : bool) (caller : string)
  | CallResolve (space alias : string)
  | CallDetach (space alias caller : string)
  | CallDetachMutable (space alias caller : string)
  | CallRebind (space alias asset_id caller : string)
  | CallExpire (asset_id caller : string)
  | CallDelete (asset_id caller : string)
  | CallEvictionPolicy (asset_id : string) (policy : EvictionPolicy) (caller : string)
  | CallPartitionQuota (space partition : string) (bytes count : option Z) (sweep : option bool)
      (caller : string)
  | CallBucketQuota (space : string) (bytes : option Z) (warn hard : spec_float)
  | CallRecordRead (asset_id : string)
  | CallLifecycle (asset : Asset) (state : AssetState) (now : Z) (reason : string) (purge : bool)
  | CallSetTtl (asset_id : string) (ttl : Z) (caller : string)
  | CallCapabilityIssue (caller operation scope : string) (ttl : Z) (outcome : string)
      (id : option string)
  | CallRecentAudit (asset_id : option string) (limit : Z).

Definition ignore {S A} (m : M S A) : M S unit := m ;; mret tt.

Definition exec (c : call) : M Registry unit :=
  match c with
  | CallReserve space partition aliases owner mime annotations policy ttl bytes =>
      ignore (reserve_asset space partition aliases owner mime annotations policy ttl bytes)
  | CallCommit i size checksum caller mime expected =>
      ignore (commit_asset i size checksum caller mime expected)
  | CallAnnotate i patch caller overwrite => ignore (update_annotations i patch caller overwrite)
  | CallAttach i alias mutable caller => ignore (attach_alias i alias mutable caller)
  | CallResolve space alias => ignore (resolve_alias space alias)
  | CallDetach space alias caller => detach_alias space alias caller
  | CallDetachMutable space alias caller => ignore (detach_mutable_alias space alias caller)
  | CallRebind space alias i caller => ignore (rebind_alias space alias i caller)
  | CallExpire i caller => ignore (expire_asset i caller)
  | CallDelete i caller => ignore (delete_asset i caller)
  | CallEvictionPolicy i policy caller => ignore (set_eviction_policy i policy caller)
  | CallPartitionQuota space partition bytes count sweep caller =>
      ignore (set_partition_quota space partition bytes count sweep caller)
  | CallBucketQuota space bytes warn hard => ignore (set_bucket_quota space bytes warn hard)
  | CallRecordRead i => record_read i
  | CallLifecycle asset state now reason purge =>
      ignore (lifecycle_update asset state now reason purge)
  | CallSetTtl i ttl caller => ignore (set_asset_ttl i ttl caller)
  | CallCapabilityIssue caller operation scope ttl outcome id =>
      record_capability_issue caller operation scope ttl outcome id
  | CallRecentAudit i limit => ignore (recent_audit i limit)
  end.

Lemma ignore_sound {A} (m : M Registry A) : sound_upto late m → sound_upto late (ignore m).
Proof.
  intros Hm n r Hwf. apply wp_bind. eapply wp_mono; [by apply Hm|]. intros [a|e] n' r' H; done.
Qed.

End Sound.

Definition is_detach (c : call) : Prop :=
  match c with CallDetach _ _ _ => True | _ => False end.

Section Calls.
Context {E : Env}.

Theorem exec_sound `{!FreshIds E} c : sound_upto (is_detach c) (exec c).
Proof.
  destruct c; cbn; try apply ignore_sound;
    eauto using reserve_asset_sound, commit_asset_sound, update_annotations_sound,
      attach_alias_sound, resolve_alias_sound, detach_alias_sound, detach_mutable_alias_sound,
      rebind_alias_sound, expire_asset_sound, delete_asset_sound, set_eviction_policy_sound,
      set_partition_quota_sound, set_bucket_quota_sound, record_read_sound, lifecycle_update_sound,
      set_asset_ttl_sound, record_capability_issue_sound, recent_audit_sound.
Qed.

(** [step n r c n' r']: call [c] takes the registry from [r] to [r'], returning or
    raising. *)
Inductive step (n : nat) (r : Registry) (c : call) (res : res unit) (n' : nat) (r' : Registry) : Prop :=
  | step_exec : exec c n r = (res, n', r') → step n r c res n' r'.

(** The registries that sequences of calls lead to from [r]. *)
Inductive reachable_from (n : nat) (r : Registry) : nat → Registry → Prop :=
  | reach_refl : reachable_from n r n r
  | reach_step n1 r1 c res n2 r2 :
      reachable_from n r n1 r1 → step n1 r1 c res n2 r2 → reachable_from n r n2 r2.

(** The registries of a process: those a fresh instance leads to. *)
Definition reachable (n : nat) (r : Registry) : Prop :=
  ∃ n0 grace r0, new_registry grace = Ok r0 ∧ reachable_from n0 r0 n r.

Lemma new_registry_wf n grace r : new_registry grace = Ok r → registry_wf n r.
Proof.
  assert (H : ∀ g, registry_wf n (mk_registry ∅ ∅ [] ∅ ∅ ∅ g)).
  { intros g. split; cbn; [split|split| |split|split]; cbn; try done;
      try (intros *; by rewrite lookup_empty). }
  unfold new_registry. destruct grace as [g|]; [destruct (g <? 0)|]; intros [= <-]; apply H.
Qed.

Lemma step_sound `{!FreshIds E} n r c res n' r' :
  registry_wf n r → step n r c res n' r' → registry_wf n' r' ∧ step_ok (is_detach c) r res r'.
Proof. intros Hwf [Hrun]. by apply (proj1 (wp_run _ _ _ _) (exec_sound c n r Hwf)). Qed.

Lemma reachable_from_sound `{!FreshIds E} n r n' r' :
  registry_wf n r → reachable_from n r n' r' → registry_wf n' r' ∧ evolves r r'.
Proof.
  intros Hwf. induction 1 as [|n1 r1 c res n2 r2 _ [Hwf1 Hev1] Hstep]; [done|].
  destruct (step_sound _ _ _ _ _ _ Hwf1 Hstep) as [Hwf2 Hok]. split; [done|]. etrans; [done|].
  by eapply step_ok_evolves.
Qed.

Lemma reachable_wf `{!FreshIds E} n r : reachable n r → registry_wf n r.
Proof.
  intros (n0 & grace & r0 & Hnew & Hr). eapply reachable_from_sound; [|done].
  by eapply new_registry_wf.
Qed.
End Calls.
