(* ===== verification/RegistryNames.v ===== *)
(** * Released names

    The grace period of alias names: a name released by [detach_alias] is held
    by a tombstone, and no call gives it to another asset before the tombstone's
    time.  [held] is the state of such a name; every method keeps it as long as
    the clock readings it makes lie before that time. *)

From S2P Require Import Prelude Errors Python Effects Paths Models Retention Sha256 Registry RegistryInv RegistrySound.

(** [key] is unbound and kept by a tombstone until [until]. *)
Definition held (key : string) (until : Z) (r : Registry) : Prop :=
  r_aliases r !! key = None ∧ r_tombstones r !! key = Some until.

(** Two registries with the same bindings and tombstones. *)
Definition same_names (r r' : Registry) : Prop :=
  r_aliases r' = r_aliases r ∧ r_tombstones r' = r_tombstones r.

(** ** Calls advance the clock *)

Section Draws.
Context {E : Env}.

Lemma advances_reads {A} (f : Registry → res A) : advances (reads f).
Proof. intros n r. unfold wp. cbn. lia. Qed.
#[local] Hint Resolve advances_reads : effects.

Lemma exec_advances c : advances (exec c).
Proof.
  destruct c; unfold exec, ignore, reserve_asset, commit_asset, update_annotations, attach_alias,
    resolve_alias, detach_alias, detach_mutable_alias, rebind_alias, expire_asset, delete_asset,
    set_eviction_policy, set_partition_quota, set_bucket_quota, record_read, lifecycle_update,
    set_asset_ttl, record_capability_issue, recent_audit, bind_alias, _require_alias_name_available,
    _alias_name_is_blocked, _mark_for_gc_if_orphaned, _add_alias_to_asset, _remove_alias_from_asset,
    _acquire_quota, _release_quota, _enforce_quota, raise_about_if, raise_about, _get_asset,
    _get_binding, _partition_quota, _bucket_quota, put_asset, put_alias, put_partition_quota,
    put_bucket_quota, _audit; solve_advances.
Qed.

Lemma step_advances n r c res n' r' : step n r c res n' r' → (n <= n')%nat.
Proof. intros [H]. pose proof (exec_advances c n r) as Ha. unfold wp in Ha. by rewrite H in Ha. Qed.

Lemma reachable_from_advances n r n' r' : reachable_from n r n' r' → (n <= n')%nat.
Proof. induction 1 as [|? ? ? ? ? ? ? ? ?%step_advances]; lia. Qed.
End Draws.

Section Frames.
Context {E : Env}.

(** ** Helpers that leave the names alone *)

Lemma wp_acquire_names space partition nbytes (Q : res unit → nat → Registry → Prop) n r :
  (∀ res r', same_names r r' → Q res n r') → wp (_acquire_quota space partition nbytes) Q n r.
Proof.
  intros HQ. unfold _acquire_quota, _partition_quota, _bucket_quota, put_partition_quota, put_bucket_quota.
  reg_steps; by apply HQ.
Qed.

Lemma wp_release_names a (Q : res unit → nat → Registry → Prop) n r :
  (∀ res r', same_names r r' → Q res n r') → wp (_release_quota a) Q n r.
Proof.
  intros HQ. unfold _release_quota, _partition_quota, _bucket_quota, put_partition_quota, put_bucket_quota.
  reg_steps; by apply HQ.
Qed.
End Frames.

Ltac names_step :=
  lazymatch goal with
  | |- wp (_acquire_quota _ _ _) _ _ _ => apply wp_acquire_names; intros ? ? [? ?]
  | |- wp (_release_quota _) _ _ _ => apply wp_release_names; intros ? ? [? ?]
  | _ => reg_step
  end.

Section Collector.
Context {E : Env}.

Lemma wp_gc_names i caller (Q : res unit → nat → Registry → Prop) n r :
  (∀ res n' r', same_names r r' → Q res n' r') → wp (_mark_for_gc_if_orphaned i caller) Q n r.
Proof.
  intros HQ. unfold _mark_for_gc_if_orphaned. repeat names_step; apply HQ; split; cbn in *; congruence.
Qed.

End Collector.

Section Names.
#[local] Set Default Proof Using "All".
Context {E : Env} (key : string) (until : Z) (N0 N : nat).
Hypothesis before : ∀ m, (N0 <= m < N)%nat → clock m < until.

(** The postcondition of a call that leaves the name held, provided it draws no
    clock reading beyond the [N]-th. *)
Definition still_held {A} (_ : res A) (n' : nat) (r' : Registry) : Prop :=
  (n' <= N)%nat → held key until r'.

Definition keeps {A} (m : M Registry A) : Prop := ∀ n r,
  registry_wf n r → (N0 <= n)%nat → held key until r → wp m still_held n r.

Lemma held_same r r' : same_names r r' → held key until r → held key until r'.
Proof. intros [H1 H2]. unfold held. by rewrite H1, H2. Qed.

(** The name is held in the state the symbolic execution ends in. *)
Ltac names_done :=
  match goal with
  | |- still_held _ _ _ => intros _
  end;
  match goal with
  | H : held key until ?r |- _ => apply (held_same r); [split; cbn in *; congruence|exact H]
  end.

Ltac names := repeat names_step; try names_done.

(** A held name is refused: the name the caller goes on with is another one. *)
Lemma wp_require_held space name (Q : res unit → nat → Registry → Prop) n r :
  (N0 <= n)%nat → held key until r →
  (∀ e n', Q (Err e) n' r) →
  (∀ key' n' r', qualified_alias space name = Ok key' → (n <= n')%nat → r_assets r' = r_assets r →
     ((n' <= N)%nat → key' ≠ key ∧ held key until r') → Q (Ok tt) n' r') →
  wp (_require_alias_name_available space name) Q n r.
Proof.
  intros Hn0 [Ha Ht] Herr Hok. unfold _require_alias_name_available, _alias_name_is_blocked.
  destruct (qualified_alias space name) as [key'|e] eqn:Hq;
    [|by apply wp_bind, wp_bind, wp_of_res, Herr].
  reg_steps; try apply Herr; (eapply (Hok key'); [done|lia|done|intros Hn]).
  - assert (key' ≠ key) as Hne. { intros ->. specialize (before n ltac:(lia)). simplify_eq. lia. }
    split; [done|]. split; [done|]. cbn. by rewrite lookup_delete_ne.
  - split; [congruence|done].
Qed.

(** ** The methods *)

Lemma expire_asset_keeps i caller : keeps (expire_asset i caller).
Proof. intros n r _ Hn0 Hh. unfold expire_asset. names. Qed.

Lemma delete_asset_keeps i caller : keeps (delete_asset i caller).
Proof. intros n r _ Hn0 Hh. unfold delete_asset. names. Qed.

Lemma update_annotations_keeps i patch caller overwrite :
  keeps (update_annotations i patch caller overwrite).
Proof. intros n r _ Hn0 Hh. unfold update_annotations. names. Qed.

Lemma set_eviction_policy_keeps i policy caller : keeps (set_eviction_policy i policy caller).
Proof. intros n r _ Hn0 Hh. unfold set_eviction_policy. names. Qed.

Lemma record_read_keeps i : keeps (record_read i).
Proof. intros n r _ Hn0 Hh. unfold record_read. names. Qed.

Lemma record_capability_issue_keeps caller op scope ttl outcome id :
  keeps (record_capability_issue caller op scope ttl outcome id).
Proof. intros n r _ Hn0 Hh. unfold record_capability_issue. names. Qed.

Lemma recent_audit_keeps asset_id limit : keeps (recent_audit asset_id limit).
Proof. intros n r _ Hn0 Hh. unfold recent_audit. names. Qed.

Lemma resolve_alias_keeps space alias : keeps (resolve_alias space alias).
Proof. intros n r _ Hn0 Hh. unfold resolve_alias, _get_binding, raise_about. names. Qed.

Lemma set_partition_quota_keeps space partition qb qc sweep caller :
  keeps (set_partition_quota space partition qb qc sweep caller).
Proof.
  intros n r _ Hn0 Hh. unfold set_partition_quota, _partition_quota, put_partition_quota. names.
Qed.

Lemma set_bucket_quota_keeps space qb warn hard : keeps (set_bucket_quota space qb warn hard).
Proof. intros n r _ Hn0 Hh. unfold set_bucket_quota, _bucket_quota, put_bucket_quota. names. Qed.

Lemma lifecycle_update_keeps asset state now reason purge :
  keeps (lifecycle_update asset state now reason purge).
Proof. intros n r _ Hn0 Hh. unfold lifecycle_update. names. Qed.

Lemma commit_asset_keeps i size checksum caller mime expected :
  keeps (commit_asset i size checksum caller mime expected).
Proof. intros n r _ Hn0 Hh. unfold commit_asset. names. Qed.

Lemma set_asset_ttl_keeps i ttl caller : keeps (set_asset_ttl i ttl caller).
Proof. intros n r _ Hn0 Hh. unfold set_asset_ttl. names. Qed.

Lemma attach_alias_keeps i alias mutable caller : keeps (attach_alias i alias mutable caller).
Proof.
  intros n r _ Hn0 Hh. unfold attach_alias, _add_alias_to_asset. reg_reads; try names_done.
  apply wp_require_held; [lia|done|intros; names_done|]. intros key' n' r' Hk Hn Has Hh'. rewrite Hk.
  reg_steps; intros Hle; destruct Hh' as [Hne [? ?]]; try lia; split; cbn;
    rewrite ?lookup_insert_ne by done; done.
Qed.

Lemma rebind_alias_keeps space alias i caller : keeps (rebind_alias space alias i caller).
Proof.
  intros n r Hwf Hn0 Hh. unfold rebind_alias, raise_about_if, raise_about, _get_binding, _add_alias_to_asset.
  reg_reads; try names_done.
  destruct (find_binding_key _ _ _ _ _ Hwf Heqr0) as (k & Hk & Hb). simplify_eq.
  reg_steps; intros _; destruct Hh as [? ?]; split; cbn; try done;
    rewrite lookup_insert_ne by congruence; done.
Qed.

Lemma detach_mutable_alias_keeps space alias caller : keeps (detach_mutable_alias space alias caller).
Proof.
  intros n r Hwf Hn0 Hh.
  unfold detach_mutable_alias, raise_about_if, raise_about, _get_binding, _remove_alias_from_asset.
  reg_reads; try names_done; try (by intros _).
  destruct (find_binding_key _ _ _ _ _ Hwf Heqr0) as (k & Hk & Hb).
  assert (a0 ≠ key) as Hne by (destruct Hh; congruence).
  reg_steps. apply wp_gc_names. intros res n' r' [Hs1 Hs2].
  destruct res; intros _; (eapply held_same; [done|]; destruct Hh as [? ?]; split; cbn;
    rewrite ?Hs1, ?Hs2; cbn; rewrite ?lookup_insert_ne by done; done).
Qed.

Lemma detach_alias_keeps space alias caller : keeps (detach_alias space alias caller).
Proof.
  intros n r Hwf Hn0 Hh. unfold detach_alias, raise_about_if, raise_about, _get_binding, _remove_alias_from_asset.
  reg_reads; try names_done;
    destruct (find_binding_key _ _ _ _ _ Hwf Heqr0) as (k & Hk & Hb);
    assert (a0 ≠ key) as Hne by (destruct Hh; congruence).
  all: reg_steps; try (apply wp_gc_names; intros res n' r' Hs);
    try destruct (datetime_add _ _); reg_steps; try (apply wp_gc_names; intros res n' r' Hs);
    intros _; try (eapply held_same; [eassumption|]); destruct Hh; split; cbn;
    rewrite ?lookup_delete_ne, ?lookup_insert_ne by done; done.
Qed.

Lemma reserve_names_held space partition specs (Q : res unit → nat → Registry → Prop) n r :
  (N0 <= n)%nat → held key until r →
  (∀ e n' r', ((n' <= N)%nat → held key until r') → Q (Err e) n' r') →
  (∀ n' r', ((n' <= N)%nat → held key until r' ∧
       ∀ spec, spec ∈ specs → spec_key space partition spec ≠ Ok key) → Q (Ok tt) n' r') →
  wp (for_each specs (λ spec,
        scoped ← of_res (_alias_under_partition partition spec.1);
        _require_alias_name_available space scoped)) Q n r.
Proof.
  intros Hn0 Hh Herr Hok.
  cut (∀ done rest n r, done ++ rest = specs → (N0 <= n)%nat →
    ((n <= N)%nat → held key until r ∧
       ∀ spec, spec ∈ done → spec_key space partition spec ≠ Ok key) →
    wp (for_each rest (λ spec,
        scoped ← of_res (_alias_under_partition partition spec.1);
        _require_alias_name_available space scoped)) Q n r).
  { intros H. apply (H []); [done|done|]. intros _. split; [done|]. by intros spec ?%not_elem_of_nil. }
  clear n r Hn0 Hh. intros finished rest. revert finished. induction rest as [|spec rest IH];
    intros finished n r Hspecs Hn0 HI; cbn.
  { rewrite app_nil_r in Hspecs. subst. by apply wp_ret, Hok. }
  apply wp_bind, wp_bind, wp_of_res.
  destruct (_alias_under_partition partition spec.1) as [scoped|e] eqn:Hsc;
    [|apply Herr; intros Hn; by apply HI].
  destruct (decide (n <= N)%nat) as [Hn|Hn].
  - destruct (HI Hn) as [Hh Hf]. apply wp_require_held; [done|done|intros e n'; by apply Herr|].
    intros key' n' r' Hk Hn' _ Hh'. apply (IH (finished ++ [spec])); [by rewrite <- app_assoc|lia|].
    intros Hle. destruct (Hh' Hle) as [Hne ?]. split; [done|].
    intros spec' [?| ->%list_elem_of_singleton]%elem_of_app; [by apply Hf|].
    unfold spec_key. rewrite Hsc. cbn. congruence.
  - apply wp_require_alias_name_available; [intros; apply Herr; lia|].
    intros key' n' r' _ Hn' _ _. apply (IH (finished ++ [spec])); [by rewrite <- app_assoc|lia..].
Qed.

Lemma wp_bind_alias_held space partition i owner now spec (Q : res unit → nat → Registry → Prop) n r :
  ((n <= N)%nat → held key until r ∧ spec_key space partition spec ≠ Ok key) →
  (∀ res n' r', ((n' <= N)%nat → (n <= N)%nat ∧ held key until r') → Q res n' r') →
  wp (bind_alias space partition i owner now spec) Q n r.
Proof.
  intros Hh HQ. unfold bind_alias. unfold spec_key in Hh. apply wp_bind, wp_of_res.
  destruct (_alias_under_partition partition spec.1) as [scoped|];
    [|apply HQ; intros Hn; split; [done|by apply Hh]]. cbn in Hh.
  unfold b_qualified_alias. cbn. apply wp_bind, wp_of_res.
  destruct (qualified_alias space scoped) as [k|]; [|apply HQ; intros Hn; split; [done|by apply Hh]].
  reg_steps. apply HQ. intros Hn. split; [lia|]. destruct (Hh ltac:(lia)) as [[? ?] Hne].
  split; cbn; [|done]. by rewrite lookup_insert_ne by congruence.
Qed.

Lemma reserve_asset_keeps space partition aliases owner mime annotations policy ttl bytes :
  keeps (reserve_asset space partition aliases owner mime annotations policy ttl bytes).
Proof.
  intros n r _ Hn0 Hh. unfold reserve_asset. reg_reads; try names_done.
  apply wp_bind, reserve_names_held; [lia|done|intros; exact H|]. intros n0 r0 H0.
  apply wp_bind. apply (wp_mono _ (λ res n' r', n' = n0 ∧ r' = r0)).
  { destruct bytes; reg_steps; done. }
  intros [[]|e] n1 r1 [-> ->]; [|by intros Hn; apply H0].
  reg_reads; try (intros Hn; apply H0; lia).
  reg_step. reg_step. reg_step.
  apply (wp_for_each _ _ (λ rest n' r', (n' <= N)%nat → held key until r' ∧
    ∀ spec, spec ∈ rest → spec_key a a0 spec ≠ Ok key)).
  - intros spec rest n' r' HI. apply wp_bind_alias_held.
    { intros Hn. split; [by apply HI|]. apply HI; [done|left]. }
    intros [[]|e] n'' r'' Hn''; intros Hn; destruct (Hn'' Hn) as [Hn' Hh'];
      [split; [done|]; intros; apply HI; [done|by right]|done].
  - intros n' r' HI. reg_steps; intros Hn; by destruct (HI ltac:(lia)) as [[? ?] _].
  - intros Hn. by destruct (H0 ltac:(lia)) as [[? ?] ?].
Qed.

Lemma exec_keeps c : keeps (exec c).
Proof.
  assert (Hi : ∀ A (m : M Registry A), keeps m → keeps (ignore m)).
  { intros A m Hm n r Hwf Hn0 Hh. apply wp_bind. eapply wp_mono; [by apply Hm|].
    intros [a|e] n' r' H; exact H. }
  destruct c; cbn; try apply Hi;
    eauto using reserve_asset_keeps, commit_asset_keeps, update_annotations_keeps,
      attach_alias_keeps, resolve_alias_keeps, detach_alias_keeps, detach_mutable_alias_keeps,
      rebind_alias_keeps, expire_asset_keeps, delete_asset_keeps, set_eviction_policy_keeps,
      set_partition_quota_keeps, set_bucket_quota_keeps, record_read_keeps, lifecycle_update_keeps,
      set_asset_ttl_keeps, record_capability_issue_keeps, recent_audit_keeps.
Qed.

Lemma reachable_from_held `{!FreshIds E} n r n' r' :
  registry_wf n r → (N0 <= n)%nat → held key until r → reachable_from n r n' r' → (n' <= N)%nat → held key until r'.
Proof.
  intros Hwf Hn0 Hh. induction 1 as [|n1 r1 c res n2 r2 Hr IH Hs]; intros Hn; [done|].
  destruct (reachable_from_sound _ _ _ _ Hwf Hr) as [Hwf1 _].
  pose proof (reachable_from_advances _ _ _ _ Hr). pose proof (step_advances _ _ _ _ _ _ Hs). destruct Hs as [Hrun].
  refine (proj1 (wp_run _ _ _ _) (exec_keeps c n1 r1 Hwf1 _ (IH _)) _ _ _ Hrun Hn); lia.
Qed.
End Names.

(** ** What a refused call may forget *)

Section Expired.
Context {E : Env}.

(** Between the readings [n] and [n'] of the clock one was at [until] or later. *)
Definition time_over (n n' : nat) (until : Z) : Prop := ∃ m, (n <= m < n')%nat ∧ until <= clock m.

#[export] Instance time_over_dec n n' until : Decision (time_over n n' until).
Proof.
  destruct (decide (Exists (λ m, until <= clock m) (seq n (n' - n)))) as [H|H].
  - left. apply Exists_exists in H as (m & Hm%elem_of_seq & ?). exists m. split; [lia|done].
  - right. intros (m & Hm & ?). apply H, Exists_exists. exists m. split; [apply elem_of_seq; lia|done].
Defined.

(** Nothing changed but that some tombstones went, whose time was over at a
    reading of the clock in between. *)
Definition only_expired (n n' : nat) (r r' : Registry) : Prop :=
  ∃ tombstones, r' = r <| r_tombstones := tombstones |> ∧ tombstones ⊆ r_tombstones r ∧
    ∀ k until, r_tombstones r !! k = Some until → tombstones !! k = None → time_over n n' until.

Lemma only_pruned_expired c n r res n' r' :
  registry_wf n r → exec c n r = (res, n', r') → only_pruned r r' → only_expired n n' r r'.
Proof.
  intros Hwf Hrun (t & -> & Ht). exists t. split; [done|]. split; [done|]. intros k until Hk Hgone.
  destruct (decide (time_over n n' until)) as [|Hno]; [done|].
  assert (Hheld : held k until r) by (split; [by apply (rw_tombstones _ _ Hwf)|done]).
  assert (Hb : ∀ m, (n <= m < n')%nat → clock m < until).
  { intros m Hm. apply Z.nle_gt. intros ?. by apply Hno; exists m. }
  pose proof (proj1 (wp_run _ _ _ _) (exec_keeps k until n n' Hb c n r Hwf ltac:(lia) Hheld) _ _ _ Hrun ltac:(lia)) as [_ H'].
  cbn in H'. congruence.
Qed.
End Expired.
