(* ===== verification/Scenario.v ===== *)
(** * A concrete environment

    A clock that ticks one microsecond per reading, numbered identifiers and no
    operator configuration: the environment in which the properties are
    exercised on concrete executions. *)

From S2P Require Import Prelude Errors Python Effects Paths Models Retention Sha256 Registry AdminQuery RegistryInv RegistrySound.

#[export] Instance demo_env : Env := {|
  clock := λ n, 1700000000000000 + Z.of_nat n;
  new_uuid := λ n, "id-" +:+ pretty n;
  results_max_ttl_env := None;
  capacity_env := Some (JObj []);
  hard_ratio_env := Some (S754_finite false 8556839292003942 (-53))
|}.

#[export] Instance demo_fresh : FreshIds demo_env.
Proof. intros n m H. unfold new_uuid in H. cbn in H. by injection H as H%(inj pretty). Qed.

#[export] Instance demo_clock : ClockMono demo_env.
Proof. intros n m Hle. cbn. lia. Qed.

#[export] Instance demo_dump : DumpFilters := λ space partition state _ _ prefix,
  default "" space +:+ "|" +:+ default "" partition +:+ "|" +:+ from_option state_value "" state +:+ "|" +:+ default "" prefix.

(** Running a list of calls, whatever each of them returns. *)
Fixpoint run_calls `{Env} (cs : list call) (n : nat) (r : Registry) : nat * Registry :=
  match cs with
  | [] => (n, r)
  | c :: cs' => let '(_, n', r') := exec c n r in run_calls cs' n' r'
  end.

Lemma run_calls_reachable `{Env} cs n0 r0 n r :
  reachable_from n0 r0 n r → reachable_from n0 r0 (run_calls cs n r).1 (run_calls cs n r).2.
Proof.
  revert n r. induction cs as [|c cs IH]; intros n r Hr; cbn; [done|].
  destruct (exec c n r) as [[res n'] r'] eqn:Hc. apply IH. by eapply reach_step; [|constructor].
Qed.

Definition empty_registry : Registry := mk_registry ∅ ∅ [] ∅ ∅ ∅ seven_days.

(** The state after a list of calls on a new registry. *)
Definition after (cs : list call) : nat * Registry := run_calls cs 0 empty_registry.

Lemma after_reachable cs : reachable (after cs).1 (after cs).2.
Proof. exists 0%nat, None, empty_registry. split; [done|]. by apply run_calls_reachable, reach_refl. Qed.

Definition reserve_x : call :=
  CallReserve "cache" "p" (AliasMap [("x", false); ("y", true)]) "svc" None None INHERIT None (Some 10).
Definition reserve_z : call :=
  CallReserve "cache" "p" (AliasNames ["z"]) "svc" None None INHERIT None (Some 5).
Definition commit_x : call := CallCommit "id-0" 10 "abc" "svc" None (Some "abc").

Definition demo_calls : list call :=
  [reserve_x; commit_x; reserve_z; CallPartitionQuota "cache" "p" (Some 1000) (Some 5) None "admin"].

Lemma run_result {S A} (m : M S A) n s res : (m n s).1.1 = res → m n s = (res, (m n s).1.2, (m n s).2).
Proof. intros <-. by destruct (m n s) as [[? ?] ?]. Qed.

Lemma run_step `{Env} c n r res : (exec c n r).1.1 = res → step n r c res (exec c n r).1.2 (exec c n r).2.
Proof. intros Hr. constructor. by apply run_result. Qed.

Lemma Ok_of {A} (x : res A) : is_Ok x = true → ∃ a, x = Ok a.
Proof. destruct x as [a|e]; [by exists a|done]. Qed.

(** A value that exists and passes a test. *)
Lemma Some_of {A} (test : A → bool) (x : option A) :
  match x with Some a => test a | None => false end = true → ∃ a, x = Some a ∧ test a = true.
Proof. destruct x as [a|]; [by exists a|done]. Qed.

Lemma Ok_test {A} (test : A → bool) (x : res A) :
  match x with Ok a => test a | Err _ => false end = true → ∃ a, x = Ok a ∧ test a = true.
Proof. destruct x as [a|e]; [by exists a|done]. Qed.

(** ** The demonstration identifiers are slash-free words *)

Definition word_char (c : ascii) : bool := negb (is_space c) && negb (Ascii.eqb c "/"%char).

Lemma pretty_N_go_word x s : all_chars word_char s = true → all_chars word_char (pretty_N_go x s) = true.
Proof.
  revert s. induction (N.lt_wf_0 x) as [x _ IH]; intros s Hs.
  destruct (decide (x = 0%N)) as [->|Hx]; [by rewrite pretty_N_go_0|].
  rewrite pretty_N_go_step by lia. apply IH; [apply N.div_lt; lia|].
  cbn. rewrite Hs, andb_true_r. generalize (x `mod` 10)%N. intros m.
  unfold pretty_N_char. repeat case_match; reflexivity.
Qed.

Lemma pretty_nat_word (n : nat) : all_chars word_char (pretty n) = true.
Proof.
  unfold pretty, pretty_nat, pretty, pretty_N. case_decide; [done|]. by apply pretty_N_go_word.
Qed.

Lemma demo_uuid_word n : all_chars word_char (new_uuid n) = true.
Proof. cbn. apply pretty_nat_word. Qed.
