(* ===== verification/RegistryProps.v ===== *)
(** * What the in-memory registry guarantees

    The properties of [InMemoryAssetRegistry] over every sequence of calls
    ([reachable], [reachable_from]) and, method by method, what a call returns
    and leaves behind. *)

From S2P Require Import Prelude Errors Python Effects Paths Models Retention Sha256 Registry RegistryInv RegistrySound RegistryNames Scenario.

(** The key under which [space]/[alias] is looked up. *)
Definition lookup_key (space alias : string) : res string :=
  sp ← normalize_space space;
  al ← normalize_relative_alias alias;
  qualified_alias sp al.

(** The lifecycle state of an asset once the collector has looked at it. *)
Definition gc_state (a : Asset) : AssetState :=
  if decide (a_aliases a = ∅ ∧ (a_state a = PENDING ∨ a_state a = AVAILABLE))
  then EXPIRED else a_state a.

Section Helpers.
Context {E : Env}.

Lemma find_binding_lookup r space alias :
  find_binding r space alias =
  (key ← lookup_key space alias;
   match r_aliases r !! key with Some b => Ok b | None => Err AliasNotFoundError end).
Proof.
  unfold find_binding, lookup_key, mbind, res_bind. by repeat case_match; simplify_eq.
Qed.

Lemma find_binding_bound n r space alias b :
  registry_wf n r → find_binding r space alias = Ok b →
  ∃ key, lookup_key space alias = Ok key ∧ b_qualified_alias b = Ok key ∧ r_aliases r !! key = Some b.
Proof.
  intros Hwf Hb. rewrite find_binding_lookup in Hb. unfold mbind, res_bind in Hb.
  destruct (lookup_key space alias) as [key|]; [|done]. exists key.
  destruct (r_aliases r !! key) as [b'|] eqn:Hk; simplify_eq.
  split_and!; [done| |done]. by apply (lw_key _ _ _ _ (rw_links _ _ Hwf)).
Qed.

Lemma wp_gc_run i a p caller (Q : res unit → nat → Registry → Prop) n r :
  quota_keys_wf (r_partition_quotas r) (r_bucket_quotas r) → a_space a ∈ STORAGE_BUCKETS →
  normalize_partition_id (a_partition_id a) = Ok p → r_assets r !! i = Some a →
  (∀ n' r' a', same_names r r' → r_assets r' = <[i := a']> (r_assets r) →
     a_aliases a' = a_aliases a → a_state a' = gc_state a → Q (Ok tt) n' r') →
  wp (_mark_for_gc_if_orphaned i caller) Q n r.
Proof.
  intros Hk Hsp Hp Hi HQ. unfold _mark_for_gc_if_orphaned, gc_state in *.
  reg_reads; simplify_eq.
  - eapply (HQ _ _ a); [done|by rewrite insert_id|done|]. rewrite decide_False; [done|]. by intros [].
  - eapply (HQ _ _ a); [done|by rewrite insert_id|done|]. rewrite decide_False; [done|].
    intros [_ H]. destruct o as [Hs|Hs]; rewrite Hs in H; naive_solver.
  - reg_steps. eapply wp_release_quota; [exact Hk|done|done|]. reg_steps.
    destruct (release_state_fields a p r) as (F1 & F2 & _ & F4 & _).
    eapply HQ; [by rewrite release_state_put|by rewrite release_state_put|done|]. cbn.
    rewrite decide_True; [done|]. split; [by apply dec_stable|]. destruct (a_state a); auto; destruct n1; auto.
Qed.

Lemma wp_gc_effect i a caller (Q : res unit → nat → Registry → Prop) n r :
  registry_wf n r → r_assets r !! i = Some a →
  (∀ n' r' a', same_names r r' → r_assets r' = <[i := a']> (r_assets r) →
     a_aliases a' = a_aliases a → a_state a' = gc_state a → Q (Ok tt) n' r') →
  wp (_mark_for_gc_if_orphaned i caller) Q n r.
Proof.
  intros Hwf Hi. pose proof (get_wf _ _ _ _ Hwf Hi) as Ha. destruct (asset_wf_partition _ _ Ha) as [p Hp].
  eapply wp_gc_run; [by apply Hwf|by apply (aw_space _ _ Ha)|done..].
Qed.
(** Excluding an asset from a sum over reservations is putting a record that is
    not a reservation in its place. *)
Lemma pending_sum_exclude n (r : Registry) i a a' (f : Asset → Z) (q : option string → Asset → bool) :
  registry_wf n r → r_assets r !! i = Some a →
  q (Some i) a = false → q None a' = false →
  (∀ b, a_asset_id b ≠ i → q None b = q (Some i) b) →
  sum_where (q None) f (<[i := a']> (r_assets r)) = sum_where (q (Some i)) f (r_assets r).
Proof.
  intros Hwf Hi Ha Ha' Hb. unfold sum_where.
  rewrite <- (insert_delete_id (r_assets r) i a Hi) at 2.
  rewrite <- insert_delete_eq, !sum_map_insert by apply lookup_delete_eq.
  rewrite Ha, Ha'. f_equal. apply sum_map_ext. intros j b [Hne Hj]%lookup_delete_Some.
  rewrite (Hb b); [done|]. by rewrite (aw_id _ _ (get_wf _ _ _ _ Hwf Hj)).
Qed.

(** The quota rows a client reads after a commit. *)
Lemma adjusted_rows (r r' : Registry) space partition p size pq bq :
  quota_keys_wf (r_partition_quotas r) (r_bucket_quotas r) → space ∈ STORAGE_BUCKETS →
  normalize_partition_id partition = Ok p →
  r_partition_quotas r' = r_partition_quotas (adjust_quota (λ u, u + size) (λ c, c + 1) space p r) →
  r_bucket_quotas r' = r_bucket_quotas (adjust_quota (λ u, u + size) (λ c, c + 1) space p r) →
  find_partition_quota r space partition = Ok pq → find_bucket_quota r space = Ok bq →
  find_partition_quota r' space partition =
    Ok (pq <| pq_used_bytes := pq_used_bytes pq + size |>
           <| pq_used_asset_count := pq_used_asset_count pq + 1 |>) ∧
  find_bucket_quota r' space = Ok (bq <| bq_used_bytes := bq_used_bytes bq + size |>).
Proof.
  intros Hkeys Hsp Hp H1 H2 Hpq Hbq.
  destruct (find_partition_quota_run r _ _ p Hkeys Hsp Hp) as (pq0 & E1 & _ & D1).
  destruct (find_bucket_quota_run r _ Hkeys Hsp) as (bq0 & E2 & _ & D2).
  rewrite E1 in Hpq. rewrite E2 in Hbq. injection Hpq as ->. injection Hbq as ->.
  assert (Hkeys' : quota_keys_wf (r_partition_quotas r') (r_bucket_quotas r'))
    by (rewrite H1, H2; by apply adjust_quota_keys).
  destruct (find_partition_quota_run r' _ _ p Hkeys' Hsp Hp) as (pq' & -> & _ & D1').
  destruct (find_bucket_quota_run r' _ Hkeys' Hsp) as (bq' & -> & _ & D2').
  rewrite H1 in D1'. rewrite H2 in D2'. cbn in D1', D2'.
  rewrite lookup_insert_eq in D1'. rewrite lookup_insert_eq in D2'. cbn in D1', D2'.
  rewrite D1', D2', <- D1, <- D2. done.
Qed.

Lemma commit_asset_inv i size checksum caller mime expected n r a' n' r' :
  registry_wf n r → commit_asset i size checksum caller mime expected n r = (Ok a', n', r') →
  ∃ a p events, commit_admitted r i size checksum expected a ∧
    normalize_partition_id (a_partition_id a) = Ok p ∧ a' = committed a size checksum mime (clock n) ∧
    n' = S (S n) ∧
    r' = (adjust_quota (λ u, u + size) (λ c, c + 1) (a_space a) p r)
           <| r_assets := <[i := a']> (r_assets r) |>
           <| r_audit_events := r_audit_events r ++ events |>.
Proof.
  intros Hwf Hrun. revert Hrun. generalize (eq_refl (Ok a')). intros Ha Hrun.
  refine (wp_inv _ (λ res n' r', res = Ok a' → ∃ a p events, commit_admitted r i size checksum expected a ∧
    normalize_partition_id (a_partition_id a) = Ok p ∧ a' = committed a size checksum mime (clock n) ∧
    n' = S (S n) ∧ r' = _) _ _ _ _ _ _ Hrun Ha).
  apply wp_commit_asset; [done|done|]. intros a p events Hadm Hp b [= <-]. by exists a, p, events.
Qed.

Lemma detach_mutable_inv space alias caller n r b n' r' :
  registry_wf n r → detach_mutable_alias space alias caller n r = (Ok b, n', r') →
  ∃ key b0 old, lookup_key space alias = Ok key ∧ r_aliases r !! key = Some b0 ∧
    b_mutable b0 = true ∧ b_asset_id b0 = Some old ∧
    b_asset_id b = None ∧ b_previous_asset_id b = Some old ∧ b_mutable b = true ∧
    r_aliases r' = <[key := b]> (r_aliases r).
Proof.
  intros Hwf Hrun. refine (wp_inv _ (λ res n' r', ∀ b, res = Ok b → _) _ _ _ _ _ _ Hrun _ eq_refl).
  clear b n' r' Hrun.
  unfold detach_mutable_alias, raise_about_if, raise_about, _get_binding, _remove_alias_from_asset.
  reg_reads; try done.
  destruct (find_binding_bound _ _ _ _ _ Hwf Heqr0) as (key & Hkey & Hq & Hk).
  rewrite Heqr1 in Hq. injection Hq as ->. apply negb_false_iff in Heqb.
  reg_steps. apply wp_gc_names. intros res n' r' [Hs _].
  destruct res as [[]|]; [|done]. intros b [= <-].
  exists key, a, s. split_and!; try done.
Qed.

Lemma rebind_inv space alias i caller n r b' n' r' :
  registry_wf n r → rebind_alias space alias i caller n r = (Ok b', n', r') →
  ∃ key a, lookup_key space alias = Ok key ∧ b_asset_id b' = Some i ∧
    r_assets r !! i = Some a ∧ a_state a = AVAILABLE ∧
    r_aliases r' = <[key := b']> (r_aliases r) ∧
    ∃ now, r_assets r' = <[i := a <| a_aliases := {[key]} ∪ a_aliases a |> <| a_updated_at := now |>]>
                           (r_assets r).
Proof.
  intros Hwf Hrun. refine (wp_inv _ (λ res n' r', ∀ b', res = Ok b' → _) _ _ _ _ _ _ Hrun _ eq_refl).
  clear b' n' r' Hrun.
  unfold rebind_alias, raise_about_if, raise_about, _get_binding, _add_alias_to_asset.
  reg_reads; try done.
  destruct (find_binding_bound _ _ _ _ _ Hwf Heqr0) as (key & Hkey & Hq & Hk).
  rewrite Heqr2 in Hq. injection Hq as ->. guards. apply dec_stable in H2.
  reg_steps; [|done]. cbn in H3. simplify_eq. intros b' [= <-].
  exists key, a0. split_and!; try done. by eexists.
Qed.

(** What the quota check establishes about partition and bucket. *)
Lemma enforce_quota_Ok (r : Registry) space partition bytes exclude u :
  enforce_quota r space partition bytes exclude = Ok u →
  ∃ pq bq, find_partition_quota r space partition = Ok pq ∧ find_bucket_quota r space = Ok bq ∧
    check_ceiling "partition" (pq_quota_bytes pq) PARTITION_HARD_RATIO
      (pq_used_bytes pq + sum_where (is_partition_reservation space partition exclude) reserved_of
         (r_assets r) + bytes) = Ok tt ∧
    (∀ limit, pq_quota_asset_count pq = Some limit →
       pq_used_asset_count pq + count_map (is_partition_reservation space partition exclude) (r_assets r)
         + 1 <= limit) ∧
    check_ceiling "bucket" (bq_quota_bytes bq) (bq_hard_ceiling bq)
      (bq_used_bytes bq + sum_where (is_pending_reservation space exclude) reserved_of (r_assets r)
         + bytes) = Ok tt.
Proof.
  unfold enforce_quota, mbind, res_bind. intros H.
  destruct (find_partition_quota r space partition) as [pq|]; [|done].
  destruct (check_ceiling "partition" _ _ _) as [[]|] eqn:H1; [|done].
  destruct (match pq_quota_asset_count pq with Some _ => _ | None => _ end) as [[]|] eqn:H2; [|done].
  destruct capacity_limits as [limits|]; [|done].
  destruct (match limits !! space with Some _ => _ | None => _ end) as [[]|]; [|done].
  destruct (find_bucket_quota r space) as [bq|]; [|done]. destruct u.
  exists pq, bq. split_and!; try done. intros limit Hl. rewrite Hl in H2.
  destruct (limit <? _) eqn:Hlt in H2; [done|]. by apply Z.ltb_ge in Hlt.
Qed.
End Helpers.

Section Props.
Context {E : Env}.

(** ** Over every execution *)

(** C1.  In every registry a process can reach, whatever calls were made and
    whichever of them raised, the class invariant holds: records well formed,
    bindings and the assets' alias sets describe each other, no tombstone of a
    bound name, each quota row under its own key with counters equal to what
    the available assets add up to. *)
Theorem registry_invariant (n : nat) (r : Registry) :
  FreshIds E → reachable n r → registry_wf n r.
Proof. intros ?. apply reachable_wf. Qed.

(** C3.  Quota accounting is exact: the usage a client reads for a partition is
    the total size and the number of the available assets stored there, and for
    a bucket the total size of its available assets. *)
Theorem reported_usage_exact (n : nat) (r : Registry) (space partition : string) :
  FreshIds E → reachable n r →
  (∀ q n' r', get_partition_quota space partition n r = (Ok q, n', r') →
     pq_used_bytes q = sum_where (in_partition (pq_space q) (pq_partition_id q)) size_of (r_assets r) ∧
     pq_used_asset_count q = count_map (in_partition (pq_space q) (pq_partition_id q)) (r_assets r)) ∧
  (∀ q n' r', get_bucket_quota space n r = (Ok q, n', r') →
     bq_used_bytes q = sum_where (in_bucket (bq_space q)) size_of (r_assets r)).
Proof.
  intros ? Hr%reachable_wf. destruct (rw_accounts _ _ Hr) as [A1 A2 A3]. split; intros q n' r' Hq.
  - injection Hq as Hq _ _. rewrite <- A1, <- A2.
    apply (find_partition_quota_Ok r) in Hq; [|apply Hr].
    unfold partition_used, partition_count.
    rewrite Hq at 1 4. by destruct (r_partition_quotas r !! _).
  - injection Hq as Hq _ _. rewrite <- A3. apply (find_bucket_quota_Ok r) in Hq; [|apply Hr].
    unfold bucket_used. rewrite Hq at 1. by destruct (r_bucket_quotas r !! _).
Qed.

(** A detach whose grace period would end after the last date that exists: the
    name is gone, and neither held nor recorded as released. *)
Definition detach_overflowed (n : nat) (r : Registry) (c : call) (r' : Registry) : Prop :=
  ∃ space alias caller key i a, c = CallDetach space alias caller ∧ lookup_key space alias = Ok key ∧
    r_assets r !! i = Some a ∧ key ∈ a_aliases a ∧ 0 < r_alias_grace r ∧
    datetime_max < clock (S n) + r_alias_grace r ∧ r' = half_detached key i a (clock n) r.

(** C28.  A call that raises changes nothing but tombstones whose time was over at a
    reading of the clock made by the call: no asset, alias, quota counter or audit
    event is left half written.  There is one exception: when the grace period of
    a detached immutable name would end after the last date a [datetime] can hold,
    the call raises [OverflowError] after the name was taken off its asset, and
    then it changed exactly that. *)
Theorem failed_call_atomic (n : nat) (r : Registry) (c : call) (e : error) (n' : nat) (r' : Registry) :
  FreshIds E → reachable n r → step n r c (Err e) n' r' →
  only_expired n n' r r' ∨ e = PyOverflowError ∧ detach_overflowed n r c r'.
Proof.
  intros ? Hr%reachable_wf Hs. pose proof (step_sound _ _ _ _ _ _ Hr Hs) as [_ Hok]. destruct Hs as [Hrun].
  destruct Hok as [?|(Hd & _)]; [left; by eapply only_pruned_expired|].
  destruct c as [| | | | |space alias caller| | | | | | | | | | | |]; try done. clear Hd.
  cut (wp (detach_alias space alias caller) (λ res n' r', ∀ e, res = Err e →
    r' = r ∨ e = PyOverflowError ∧ detach_overflowed n r (CallDetach space alias caller) r') n r).
  { intros Hw. destruct (proj1 (wp_run _ _ _ _) Hw _ _ _ Hrun e eq_refl) as [->|?]; [left|by right].
    eapply only_pruned_expired; [done..|apply only_pruned_refl]. }
  apply wp_detach_alias; [done|by left| |].
  - intros key b i a Hb _ Hq _ _ Hi Hin Hg Hlast r1 _ _ ? [= <-]. right. split; [done|].
    destruct (find_binding_bound _ _ _ _ _ Hr Hb) as (key' & Hkey & Hq' & _).
    exists space, alias, caller, key, i, a. split_and!; try done. congruence.
  - intros key b i a n1 r1 _ _ _ _ _ Hi _ _ Hwf1 _ Has _ _ _.
    eapply wp_mark_for_gc; [done|by rewrite Has, lookup_insert_eq|]. intros *. done.
Qed.

(** The audit log is append-only and assets are never forgotten: along any
    execution old events keep their place, every asset keeps its identifier,
    bucket, partition, storage key, owner and, once committed, its size and
    checksum; its read count never decreases, it never returns to [pending] and
    never leaves [deleted]. *)
Theorem history_preserved (n : nat) (r : Registry) (n' : nat) (r' : Registry) :
  FreshIds E → reachable n r → reachable_from n r n' r' →
  r_audit_events r `prefix_of` r_audit_events r' ∧
  ∀ i a, r_assets r !! i = Some a → ∃ a', r_assets r' !! i = Some a' ∧ asset_step a a'.
Proof.
  intros ? Hr%reachable_wf Hrr. destruct (reachable_from_sound _ _ _ _ Hr Hrr) as [_ []]. done.
Qed.

(** A name belongs to one asset: two assets of a reachable registry share no
    alias, and a name is recorded on an asset exactly when its binding targets it. *)
Theorem alias_owner_unique (n : nat) (r : Registry) (k : string) :
  FreshIds E → reachable n r →
  (∀ i j a b, r_assets r !! i = Some a → r_assets r !! j = Some b →
     k ∈ a_aliases a → k ∈ a_aliases b → i = j) ∧
  (∀ i a, r_assets r !! i = Some a →
     k ∈ a_aliases a ↔ ∃ b, r_aliases r !! k = Some b ∧ b_asset_id b = Some i).
Proof.
  intros ? Hr%reachable_wf. destruct (rw_links _ _ Hr) as [L1 L2 L3 L4].
  assert (Hal : ∀ i a, r_assets r !! i = Some a → k ∈ a_aliases a →
            ∃ b, r_aliases r !! k = Some b ∧ b_asset_id b = Some i).
  { intros i a Hi Hk. by destruct (L4 i a k Hi Hk) as [?|[_ ?%not_elem_of_nil]]. }
  split; [|intros i a Hi; split; [by apply Hal|]].
  - intros i j a b Hi Hj Hka Hkb. destruct (Hal i a Hi Hka) as (x & Hx & Hxi).
    destruct (Hal j b Hj Hkb) as (y & Hy & Hyj). congruence.
  - intros (b & Hb & Hbi). destruct (L2 k b i Hb Hbi) as (a' & Ha' & Hk & _). congruence.
Qed.
(** ** Names *)

(** Looking a name up is total and read-only: it returns the asset the name is
    bound to exactly when that asset is available and its deadline has not come,
    and otherwise says which obstacle it met. *)
Theorem resolve_alias_spec (n : nat) (r : Registry) (space alias : string) :
  FreshIds E → reachable n r →
  match find_binding r space alias with
  | Err e => resolve_alias space alias n r = (Err e, n, r)
  | Ok b =>
      match b_asset_id b with
      | None => resolve_alias space alias n r = (Err InvalidStateTransitionError, n, r)
      | Some i => ∃ a key, r_assets r !! i = Some a ∧ lookup_key space alias = Ok key ∧
          key ∈ a_aliases a ∧
          resolve_alias space alias n r =
            (match a_state a with
             | DELETED => Err AssetDeletedError
             | EXPIRED => Err AssetExpiredError
             | PENDING => Err InvalidStateTransitionError
             | AVAILABLE => if past_deadline a (clock n) then Err AssetExpiredError else Ok a
             end, S n, r)
      end
  end.
Proof.
  intros ? Hr%reachable_wf. unfold resolve_alias, _get_binding, raise_about, mbind, M_bind, reads.
  destruct (find_binding r space alias) as [b|e] eqn:Hb; [|done].
  destruct (find_binding_bound _ _ _ _ _ Hr Hb) as (key & Hkey & Hq & Hk).
  destruct (b_asset_id b) as [i|] eqn:Hi; [|by unfold of_res; rewrite Hq].
  destruct (lw_target _ _ _ _ (rw_links _ _ Hr) _ _ _ Hk Hi) as (a & Ha & Hin & _).
  exists a, key. split_and!; [done..|].
  unfold _get_asset, reads, find_asset. rewrite Ha. unfold utcnow, of_res, require_live, is_resolvable, past_deadline.
  destruct (a_state a) eqn:Hs; cbn; rewrite ?Hs; try done. by destruct (match a_expires_at a with Some _ => _ | None => _ end).
Qed.

(** C30.  Detaching an immutable name frees it, takes it off its asset and, when it
    was the last one of a pending or available asset, collects the asset; the
    name is then held for the whole grace period: as long as the clock has not
    reached its end, no sequence of calls binds it again. *)
Theorem detach_alias_spec (n : nat) (r : Registry) (space alias caller : string) (n1 : nat) (r1 : Registry) :
  FreshIds E → ClockMono E → reachable n r →
  step n r (CallDetach space alias caller) (Ok tt) n1 r1 →
  ∃ key i a a', lookup_key space alias = Ok key ∧ r_assets r !! i = Some a ∧ key ∈ a_aliases a ∧
    r_assets r1 = <[i := a']> (r_assets r) ∧ a_aliases a' = a_aliases a ∖ {[key]} ∧
    a_state a' = gc_state (a <| a_aliases := a_aliases a ∖ {[key]} |>) ∧
    r_aliases r1 = delete key (r_aliases r) ∧
    (0 < r_alias_grace r → ∃ until, clock n + r_alias_grace r <= until ∧
       ∀ n2 r2, reachable_from n1 r1 n2 r2 → clock n2 < until → held key until r2).
Proof.
  intros ?? Hr%reachable_wf Hstep. destruct (step_sound _ _ _ _ _ _ Hr Hstep) as [Hr1 _].
  destruct Hstep as [Hrun].
  cut (wp (detach_alias space alias caller) (λ res n1 r1, res = Ok tt → registry_wf n1 r1 →
    ∃ key i a a', lookup_key space alias = Ok key ∧ r_assets r !! i = Some a ∧ key ∈ a_aliases a ∧
    r_assets r1 = <[i := a']> (r_assets r) ∧ a_aliases a' = a_aliases a ∖ {[key]} ∧
    a_state a' = gc_state (a <| a_aliases := a_aliases a ∖ {[key]} |>) ∧
    r_aliases r1 = delete key (r_aliases r) ∧
    (0 < r_alias_grace r → ∃ until, clock n + r_alias_grace r <= until ∧ held key until r1)) n r).
  { intros Hw. destruct (proj1 (wp_run _ _ _ _) Hw _ _ _ Hrun eq_refl Hr1)
      as (key & i & a & a' & ? & ? & ? & ? & ? & ? & ? & Hheld).
    exists key, i, a, a'. split_and!; try done. intros (until & Hu & Hh)%Hheld. exists until.
    split; [done|]. intros n2 r2 Hr2 Hc. eapply (reachable_from_held key until 0 n2); try done; [|lia].
    intros m Hm. pose proof (clock_mono m n2 ltac:(lia)). lia. }
  clear Hrun Hr1 n1 r1. apply wp_detach_alias; [done..|].
  intros key b i a n1 r1 Hb _ Hq Hk Hbi Hi Hin Hn Hwf1 _ Has Hal _ Htomb.
  destruct (find_binding_bound _ _ _ _ _ Hr Hb) as (key' & Hkey & Hq' & _). simplify_eq.
  eapply wp_gc_effect; [done|by rewrite Has, lookup_insert_eq|].
  intros n2 r2 a2 [S1 S2] Has2 Hal2 Hst2 _ _. exists key, i, a, a2. split_and!; try done.
  - congruence.
  - by rewrite Has2, Has, insert_insert_eq.
  - by rewrite S1.
  - intros Hg. exists (clock (S n) + r_alias_grace r).
    split; [pose proof (clock_mono n (S n) ltac:(lia)); lia|]. split; [by rewrite S1, Hal, lookup_delete_eq|].
    rewrite S2, Htomb. apply Z.ltb_lt in Hg. by rewrite Hg, lookup_insert_eq.
Qed.
(** ** Committing *)

(** C27.  Committing turns a pending reservation into an available asset, with the
    declared size and the server's checksum, only if the size is the reserved
    one and the checksum the expected one; the usage counters then include it
    and, together with the reservations still pending, stay below the hard
    ceilings of the partition and of the bucket and within the asset count. *)
Theorem commit_asset_spec (n : nat) (r : Registry) (i : string) (size : Z) (checksum caller : string)
    (mime expected : option string) (a' : Asset) (n' : nat) (r' : Registry) :
  FreshIds E → reachable n r →
  commit_asset i size checksum caller mime expected n r = (Ok a', n', r') →
  ∃ a pq bq, commit_admitted r i size checksum expected a ∧
    a' = committed a size checksum mime (clock n) ∧
    r_assets r' = <[i := a']> (r_assets r) ∧ r_aliases r' = r_aliases r ∧
    find_partition_quota r' (a_space a) (a_partition_id a) = Ok pq ∧
    find_bucket_quota r' (a_space a) = Ok bq ∧
    check_ceiling "partition" (pq_quota_bytes pq) PARTITION_HARD_RATIO
      (pq_used_bytes pq + sum_where (is_partition_reservation (a_space a) (a_partition_id a) None)
                            reserved_of (r_assets r')) = Ok tt ∧
    (∀ limit, pq_quota_asset_count pq = Some limit →
       pq_used_asset_count pq +
       count_map (is_partition_reservation (a_space a) (a_partition_id a) None) (r_assets r') <= limit) ∧
    check_ceiling "bucket" (bq_quota_bytes bq) (bq_hard_ceiling bq)
      (bq_used_bytes bq + sum_where (is_pending_reservation (a_space a) None) reserved_of (r_assets r'))
      = Ok tt.
Proof.
  intros ? Hr%reachable_wf Hrun.
  destruct (commit_asset_inv _ _ _ _ _ _ _ _ _ _ _ Hr Hrun) as (a & p & events & Hadm & Hp & Ha' & _ & Hr').
  clear Hrun.
  pose proof Hadm as [_ _ _ Hi Hs _ Hq]. pose proof (get_wf _ _ _ _ Hr Hi) as Ha.
  destruct (enforce_quota_Ok _ _ _ _ _ _ Hq) as (pq & bq & Hpq & Hbq & Q1 & Q2 & Q3).
  pose proof (aw_space _ _ Ha) as Hsp. pose proof (rw_keys _ _ Hr) as Hkeys.
  destruct (adjusted_rows r r' (a_space a) (a_partition_id a) p size pq bq) as [Hpq' Hbq']; try done; [by rewrite Hr'..|].
  assert (Hsum : ∀ f (q : option string → Asset → bool), q (Some i) a = false → q None a' = false →
    (∀ b, a_asset_id b ≠ i → q None b = q (Some i) b) →
    sum_where (q None) f (r_assets r') = sum_where (q (Some i)) f (r_assets r)).
  { intros f q ???. rewrite Hr'. cbn. by eapply pending_sum_exclude. }
  assert (Hout : a_state a' ≠ PENDING) by (by rewrite Ha').
  assert (Hid : a_asset_id a = i) by apply (aw_id _ _ Ha).
  assert (P1 : ∀ s p : string, is_partition_reservation s p (Some i) a = false ∧
                      is_pending_reservation s (Some i) a = false).
  { intros. unfold is_partition_reservation, is_pending_reservation.
    by rewrite Hid, (bool_decide_eq_false_2 (Some i ≠ Some i)), !andb_false_r by auto. }
  assert (P2 : ∀ s p : string, is_partition_reservation s p None a' = false ∧
                      is_pending_reservation s None a' = false).
  { intros. unfold is_partition_reservation, is_pending_reservation.
    by rewrite (bool_decide_eq_false_2 _ Hout), !andb_false_r. }
  assert (P3 : ∀ (s p : string) b, a_asset_id b ≠ i →
     is_partition_reservation s p None b = is_partition_reservation s p (Some i) b ∧
     is_pending_reservation s None b = is_pending_reservation s (Some i) b).
  { intros s q b Hb. unfold is_partition_reservation, is_pending_reservation.
    by rewrite !(bool_decide_eq_true_2 (Some (a_asset_id b) ≠ _)) by congruence. }
  do 3 eexists. rewrite Hr' at 1 2. split_and!; try done.
  - rewrite (Hsum _ (is_partition_reservation _ _)); [|apply P1; exact p|apply P2; exact p|apply P3].
    cbn. rewrite <- Q1. f_equal. lia.
  - intros limit Hl. unfold count_map. cbn in *. specialize (Q2 limit Hl).
    fold (sum_where (is_partition_reservation (a_space a) (a_partition_id a) None) (λ _, 1) (r_assets r')).
    rewrite (Hsum _ (is_partition_reservation _ _)); [|apply P1; exact p|apply P2; exact p|apply P3].
    unfold count_map in Q2. unfold sum_where. lia.
  - rewrite (Hsum _ (is_pending_reservation _)); [|apply P1; exact p|apply P2; exact p|].
    + cbn. rewrite <- Q3. f_equal. lia.
    + intros b Hb. by apply (P3 _ p).
Qed.
(** C31.  Reserve, commit, resolve: once a reservation is committed, every name it
    was reserved under resolves to the committed asset, with the size and
    checksum of the commit, until its deadline. *)
Theorem reserve_commit_resolve (n : nat) (r : Registry) (space partition : string)
    (aliases : alias_specs) (owner : string) (mime : option string)
    (annotations : option (gmap string string)) (policy : EvictionPolicy) (ttl bytes : option Z)
    (a : Asset) (n1 : nat) (r1 : Registry) (size : Z) (checksum caller : string)
    (mime' expected : option string) (a' : Asset) (n2 : nat) (r2 : Registry) :
  FreshIds E → reachable n r →
  reserve_asset space partition aliases owner mime annotations policy ttl bytes n r = (Ok a, n1, r1) →
  commit_asset (a_asset_id a) size checksum caller mime' expected n1 r1 = (Ok a', n2, r2) →
  a_size_bytes a' = Some size ∧ a_checksum a' = Some (strip checksum) ∧
  ∃ specs, _normalize_alias_specs aliases = Ok specs ∧
    ∀ spec, spec ∈ specs → ∃ key, spec_key (a_space a) (a_partition_id a) spec = Ok key ∧
      ∀ space' alias', lookup_key space' alias' = Ok key → past_deadline a' (clock n2) = false →
        resolve_alias space' alias' n2 r2 = (Ok a', S n2, r2).
Proof.
  intros ? Hr%reachable_wf Hres Hcom.
  assert (Hpost : registry_wf n1 r1 ∧ reserved space partition aliases owner bytes r a r1).
  { refine (wp_inv _ (λ res n' r', ∀ a, res = Ok a → registry_wf n' r' ∧
      reserved space partition aliases owner bytes r a r') _ _ _ _ _ _ Hres _ eq_refl).
    apply wp_reserve_asset; [done|done|]. by intros b n' r' ? _ ? ? [= <-]. }
  destruct Hpost as [Hwf1 []].
  destruct (commit_asset_inv _ _ _ _ _ _ _ _ _ _ _ Hwf1 Hcom) as (b & p & events & Hadm & _ & Ha' & -> & Hr2).
  destruct Hadm as [_ _ _ Hb _ _ _]. rewrite rs_assets, lookup_insert_eq in Hb. injection Hb as <-.
  split_and!; [by rewrite Ha'..|]. destruct rs_specs as (specs & Hspecs & Hkeys & _).
  exists specs. split; [done|]. intros spec Hin. destruct (Hkeys spec Hin) as (key & Hkey & Hal).
  exists key. split; [done|]. intros space' alias' Hlook Hlive.
  destruct (rs_names key Hal) as (_ & bnd & Hbnd & Hid).
  unfold resolve_alias, _get_binding, mbind, M_bind, reads. rewrite find_binding_lookup, Hlook.
  unfold mbind, res_bind. rewrite Hr2 at 1. cbn. rewrite Hbnd, Hid.
  unfold _get_asset, reads, find_asset. rewrite Hr2 at 1. cbn. rewrite lookup_insert_eq.
  unfold past_deadline in Hlive. rewrite Ha' in Hlive. cbn in Hlive.
  unfold utcnow, of_res, require_live, is_resolvable. rewrite Ha'. cbn. by rewrite Hlive.
Qed.

(** A reservation is committed at most once: after one commit has returned,
    whatever happens in between, another commit of the same asset raises. *)
Theorem commit_at_most_once (n : nat) (r : Registry) (i : string) (size size' : Z)
    (checksum checksum' caller caller' : string) (mime mime' expected expected' : option string)
    (a a' : Asset) (n1 n2 n' : nat) (r1 r2 r' : Registry) :
  FreshIds E → reachable n r →
  commit_asset i size checksum caller mime expected n r = (Ok a, n1, r1) →
  reachable_from n1 r1 n2 r2 →
  commit_asset i size' checksum' caller' mime' expected' n2 r2 ≠ (Ok a', n', r').
Proof.
  intros ? Hr%reachable_wf Hc Hrr Hc'.
  pose proof (wp_inv _ _ _ _ _ _ _ (commit_asset_sound (late := True) i size checksum caller mime expected n r Hr) Hc)
    as [Hwf1 _].
  destruct (commit_asset_inv _ _ _ _ _ _ _ _ _ _ _ Hr Hc) as (b & p & ev & _ & _ & Ha & _ & Hr1).
  destruct (reachable_from_sound _ _ _ _ Hwf1 Hrr) as [Hwf2 [Has _ _]].
  destruct (Has i a) as (b2 & Hb2 & Hstep); [by rewrite Hr1; apply lookup_insert_eq|].
  destruct (commit_asset_inv _ _ _ _ _ _ _ _ _ _ _ Hwf2 Hc') as (b3 & _ & _ & [_ _ _ Hb3 Hp _ _] & _).
  pose proof (as_state _ _ Hstep) as Hmay. rewrite Ha in Hmay. cbn in Hmay.
  simplify_eq. by rewrite Hp in Hmay.
Qed.

(** The lifecycle worker acts on the asset it planned for or not at all: when
    the stored record differs in any field from the one the plan was made with,
    the update raises and changes nothing. *)
Theorem stale_lifecycle_update_refused (n : nat) (r : Registry) (asset stored : Asset)
    (state : AssetState) (now : Z) (reason : string) (purge : bool) :
  r_assets r !! a_asset_id asset = Some stored → stored ≠ asset →
  lifecycle_update asset state now reason purge n r = (Err InvalidStateTransitionError, n, r).
Proof.
  intros Hs Hne. unfold lifecycle_update, _get_asset, mbind, M_bind, reads, find_asset. rewrite Hs.
  unfold raise_if. by rewrite bool_decide_eq_true_2.
Qed.

(** Moving a mutable name: detaching it from its asset and binding it to another
    available asset of the same bucket and partition makes the name resolve to
    the new asset, and takes it off the old one. *)
Theorem detach_rebind_resolve (n : nat) (r : Registry) (space alias caller i : string)
    (b b' : AliasBinding) (n1 n2 : nat) (r1 r2 : Registry) :
  FreshIds E → reachable n r →
  detach_mutable_alias space alias caller n r = (Ok b, n1, r1) →
  rebind_alias space alias i caller n1 r1 = (Ok b', n2, r2) →
  b_asset_id b = None ∧ b_asset_id b' = Some i ∧
  ∃ key old a, lookup_key space alias = Ok key ∧ b_previous_asset_id b = Some old ∧
    r_assets r2 !! i = Some a ∧ key ∈ a_aliases a ∧ a_state a = AVAILABLE ∧
    (∀ a', old ≠ i → r_assets r2 !! old = Some a' → key ∉ a_aliases a') ∧
    (past_deadline a (clock n2) = false → resolve_alias space alias n2 r2 = (Ok a, S n2, r2)).
Proof.
  intros ? Hr%reachable_wf Hd Hrb.
  pose proof (wp_inv _ _ _ _ _ _ _ (detach_mutable_alias_sound (late := True) space alias caller n r Hr) Hd) as [Hwf1 _].
  pose proof (wp_inv _ _ _ _ _ _ _ (rebind_alias_sound (late := True) space alias i caller n1 r1 Hwf1) Hrb) as [Hwf2 _].
  destruct (detach_mutable_inv _ _ _ _ _ _ _ _ Hr Hd) as (key & b0 & old & Hk & _ & _ & _ & Hb & Hp & _ & _).
  destruct (rebind_inv _ _ _ _ _ _ _ _ _ Hwf1 Hrb) as (key' & a & Hk' & Hb' & Hi & Hs & Hal & now & Has).
  rewrite Hk in Hk'. injection Hk' as <-. split_and!; [done..|].
  set (a2 := a <| a_aliases := {[key]} ∪ a_aliases a |> <| a_updated_at := now |>) in *.
  assert (Hi2 : r_assets r2 !! i = Some a2) by by rewrite Has, lookup_insert_eq.
  assert (Hbnd : r_aliases r2 !! key = Some b') by by rewrite Hal, lookup_insert_eq.
  exists key, old, a2. split_and!; try done; [by apply elem_of_union_l, elem_of_singleton| |].
  - intros a' Hne Ha' Hin.
    destruct (lw_alias _ _ _ _ (rw_links _ _ Hwf2) old a' key Ha' Hin) as [(b2 & Hb2 & Hid)|[_ ?%not_elem_of_nil]];
      [congruence|done].
  - intros Hlive. unfold resolve_alias, _get_binding, mbind, M_bind, reads. rewrite find_binding_lookup, Hk.
    unfold mbind, res_bind. rewrite Hbnd, Hb'. unfold _get_asset, reads, find_asset. rewrite Hi2.
    unfold past_deadline in Hlive. unfold utcnow, of_res, require_live, is_resolvable. cbn in *.
    rewrite Hs. cbn. by rewrite Hlive.
Qed.
End Props.

(** * Concrete executions *)

Definition bound_to (i : string) (b : AliasBinding) : bool := bool_decide (b_asset_id b = Some i).
Definition has_id (i : string) (a : Asset) : bool := bool_decide (a_asset_id a = i).

Abbreviation demo := (after demo_calls).

Lemma registry_wf_demo cs : registry_wf (after cs).1 (after cs).2.
Proof. apply reachable_wf, after_reachable. Qed.

Lemma registry_invariant_witness : reachable demo.1 demo.2 ∧ registry_wf demo.1 demo.2.
Proof. split; [apply after_reachable|apply registry_invariant; [apply demo_fresh|apply after_reachable]]. Defined.

Lemma reported_usage_exact_witness :
  ∃ q, (get_partition_quota "cache" "p" demo.1 demo.2).1.1 = Ok q ∧ pq_used_bytes q = 10 ∧
  pq_used_bytes q = sum_where (in_partition (pq_space q) (pq_partition_id q)) size_of (r_assets demo.2).
Proof.
  eexists. split; [vm_compute; reflexivity|]. split; [reflexivity|].
  eapply (proj1 (reported_usage_exact demo.1 demo.2 "cache" "p" demo_fresh (after_reachable demo_calls))).
  vm_compute. reflexivity.
Defined.

(** Committing with another checksum than the expected one fails and changes nothing. *)
Definition bad_commit : call := CallCommit "id-7" 5 "abc" "svc" None (Some "xyz").

Lemma failed_call_atomic_witness :
  (exec bad_commit demo.1 demo.2).1.1 = Err ChecksumMismatchError ∧
  only_expired demo.1 (exec bad_commit demo.1 demo.2).1.2 demo.2 (exec bad_commit demo.1 demo.2).2.
Proof.
  assert (H : (exec bad_commit demo.1 demo.2).1.1 = Err ChecksumMismatchError) by (vm_compute; reflexivity).
  split; [exact H|].
  destruct (failed_call_atomic demo.1 demo.2 bad_commit _ _ _ demo_fresh (after_reachable demo_calls)
    (run_step _ _ _ _ H)) as [Hx|[? _]]; [exact Hx|done].
Defined.

Lemma history_preserved_witness :
  length (r_audit_events demo.2) = 7%nat ∧
  r_audit_events (after [reserve_x; commit_x]).2 `prefix_of` r_audit_events demo.2.
Proof.
  split; [vm_compute; reflexivity|].
  apply (history_preserved (after [reserve_x; commit_x]).1 (after [reserve_x; commit_x]).2 demo.1);
    [apply demo_fresh|apply after_reachable|].
  exact (run_calls_reachable (drop 2 demo_calls) _ _ _ _ (reach_refl _ _)).
Defined.

Lemma alias_owner_unique_witness :
  is_Some (r_aliases demo.2 !! "cache/p/x") ∧
  ∀ i j a b, r_assets demo.2 !! i = Some a → r_assets demo.2 !! j = Some b →
     "cache/p/x" ∈ a_aliases a → "cache/p/x" ∈ a_aliases b → i = j.
Proof.
  split; [vm_compute; by eexists|].
  exact (proj1 (alias_owner_unique demo.1 demo.2 "cache/p/x" demo_fresh (after_reachable demo_calls))).
Defined.

Lemma resolve_alias_spec_witness :
  ∃ a key, r_assets demo.2 !! "id-0" = Some a ∧ lookup_key "cache" "/p/x" = Ok key ∧ key ∈ a_aliases a ∧
    (resolve_alias "cache" "/p/x" demo.1 demo.2).1.1 =
      match a_state a with
      | DELETED => Err AssetDeletedError
      | EXPIRED => Err AssetExpiredError
      | PENDING => Err InvalidStateTransitionError
      | AVAILABLE => if past_deadline a (clock demo.1) then Err AssetExpiredError else Ok a
      end.
Proof.
  pose proof (resolve_alias_spec demo.1 demo.2 "cache" "/p/x" demo_fresh (after_reachable demo_calls)) as H.
  destruct (Ok_test (bound_to "id-0") (find_binding demo.2 "cache" "/p/x")
    ltac:(vm_compute; reflexivity)) as (b & Hb & Hi).
  apply bool_decide_eq_true in Hi. rewrite Hb in H.
  rewrite Hi in H. destruct H as (a & key & Ha & Hk & Hin & Hres). exists a, key. rewrite Hres. auto.
Defined.

Definition detach_x : call := CallDetach "cache" "p/x" "svc".

Lemma detach_alias_spec_witness :
  (exec detach_x demo.1 demo.2).1.1 = Ok tt ∧
  ∃ key, lookup_key "cache" "p/x" = Ok key ∧
    r_aliases (exec detach_x demo.1 demo.2).2 = delete key (r_aliases demo.2).
Proof.
  assert (H : (exec detach_x demo.1 demo.2).1.1 = Ok tt) by (vm_compute; reflexivity).
  split; [exact H|].
  destruct (detach_alias_spec demo.1 demo.2 "cache" "p/x" "svc" _ _ demo_fresh demo_clock
    (after_reachable demo_calls) (run_step _ _ _ _ H)) as (key & i & a & a' & Hk & _ & _ & _ & _ & _ & Hal & _).
  exists key. split; [exact Hk|exact Hal].
Defined.

Abbreviation before_commit := (after [reserve_x]).
Definition do_commit : res Asset * nat * Registry :=
  (commit_asset "id-0" 10 "abc" "svc" None (Some "abc") before_commit.1 before_commit.2).

Lemma commit_asset_spec_witness :
  ∃ a, do_commit.1.1 = Ok a ∧ r_assets do_commit.2 = <["id-0" := a]> (r_assets before_commit.2).
Proof.
  assert (Run1 : is_Ok do_commit.1.1 = true) by (vm_compute; reflexivity).
  destruct (Ok_of _ Run1) as [a H]. exists a. split; [exact H|].
  destruct (commit_asset_spec before_commit.1 before_commit.2 "id-0" 10 "abc" "svc" None (Some "abc") a _ _
    demo_fresh (after_reachable [reserve_x]) (run_result _ _ _ _ H)) as (b & pq & bq & _ & _ & Has & _).
  exact Has.
Defined.

Definition do_reserve : res Asset * nat * Registry := (reserve_asset "cache" "p" (AliasMap [("x", false); ("y", true)]) "svc" None None
  INHERIT None (Some 10) 0%nat empty_registry).

Definition commit_after (m : res Asset * nat * Registry) : res Asset * nat * Registry :=
  (commit_asset "id-0" 10 "abc" "svc" None (Some "abc") m.1.2 m.2).

Lemma reserve_commit_resolve_witness :
  ∃ a a', do_reserve.1.1 = Ok a ∧ (commit_after do_reserve).1.1 = Ok a' ∧ a_size_bytes a' = Some 10.
Proof.
  assert (Run0 : match do_reserve.1.1 with Ok a => has_id "id-0" a | Err _ => false end = true)
    by (vm_compute; reflexivity).
  destruct (Ok_test (has_id "id-0") do_reserve.1.1 Run0) as (a & H & Hid). apply bool_decide_eq_true in Hid.
  assert (Run2 : is_Ok (commit_after do_reserve).1.1 = true) by (vm_compute; reflexivity).
  destruct (Ok_of _ Run2) as [a' H'].
  exists a, a'. split; [exact H|]. split; [exact H'|].
  apply run_result in H'. rewrite <- Hid in H'.
  exact (proj1 (reserve_commit_resolve 0%nat empty_registry _ _ _ _ _ _ _ _ _ _ _ _ _ _ _ _ _ _ _ _
    demo_fresh (after_reachable []) (run_result _ _ _ _ H) H')).
Defined.

Lemma commit_at_most_once_witness :
  (commit_asset "id-0" 10 "abc" "svc" None None demo.1 demo.2).1.1 = Err InvalidStateTransitionError ∧
  ∀ a' n' r', commit_asset "id-0" 10 "abc" "svc" None None demo.1 demo.2 ≠ (Ok a', n', r').
Proof.
  split; [vm_compute; reflexivity|]. intros a' n' r'.
  assert (Run3 : is_Ok do_commit.1.1 = true) by (vm_compute; reflexivity).
  destruct (Ok_of _ Run3) as [a H].
  apply (commit_at_most_once before_commit.1 before_commit.2 "id-0" 10 10 "abc" "abc" "svc" "svc"
    None None (Some "abc") None a a' do_commit.1.2 demo.1 n' do_commit.2 demo.2 r' demo_fresh
    (after_reachable [reserve_x]) (run_result _ _ _ _ H)).
  refine (eq_rect _ (λ x, reachable_from do_commit.1.2 do_commit.2 x.1 x.2)
    (run_calls_reachable (drop 2 demo_calls) _ _ _ _ (reach_refl _ _)) demo _).
  vm_compute. reflexivity.
Defined.

Lemma stale_lifecycle_update_refused_witness :
  ∃ a, r_assets demo.2 !! "id-0" = Some a ∧
    lifecycle_update (a <| a_read_count := 9 |>) EXPIRED 0 "expired" false demo.1 demo.2
      = (Err InvalidStateTransitionError, demo.1, demo.2).
Proof.
  assert (H : match r_assets demo.2 !! "id-0" with Some a => a_read_count a =? 0 | None => false end = true)
    by (vm_compute; reflexivity).
  apply (Some_of (λ a, a_read_count a =? 0)) in H as (a & Ha & Hrc). apply Z.eqb_eq in Hrc.
  exists a. split; [exact Ha|].
  apply (stale_lifecycle_update_refused demo.1 demo.2 (a <| a_read_count := 9 |>) a).
  - change (r_assets demo.2 !! a_asset_id a = Some a).
    rewrite (aw_id _ _ (get_wf _ _ _ _ (registry_wf_demo demo_calls) Ha)). exact Ha.
  - intros Heq. rewrite Heq in Hrc. discriminate.
Defined.

Definition moved : list call :=
  demo_calls ++ [CallCommit "id-7" 5 "def" "svc" None None; CallDetachMutable "cache" "p/y" "svc";
                 CallRebind "cache" "p/y" "id-7" "svc"].

Abbreviation before_move := (after (take 5 moved)).
Definition do_detach : res AliasBinding * nat * Registry := (detach_mutable_alias "cache" "p/y" "svc" before_move.1 before_move.2).
Definition do_rebind : res AliasBinding * nat * Registry := (rebind_alias "cache" "p/y" "id-7" "svc" do_detach.1.2 do_detach.2).

Lemma detach_rebind_resolve_witness : ∃ b b', do_detach.1.1 = Ok b ∧ do_rebind.1.1 = Ok b' ∧
  b_asset_id b = None ∧ b_asset_id b' = Some "id-7".
Proof.
  assert (Run4 : is_Ok do_detach.1.1 = true) by (vm_compute; reflexivity).
  destruct (Ok_of _ Run4) as [b H].
  assert (Run5 : is_Ok do_rebind.1.1 = true) by (vm_compute; reflexivity).
  destruct (Ok_of _ Run5) as [b' H'].
  exists b, b'. split; [exact H|]. split; [exact H'|].
  destruct (detach_rebind_resolve before_move.1 before_move.2 "cache" "p/y" "svc" "id-7" b b' _ _ _ _
    demo_fresh (after_reachable (take 5 moved)) (run_result _ _ _ _ H) (run_result _ _ _ _ H')) as (Hb & Hb' & _).
  split; [exact Hb|exact Hb'].
Defined.
