(* ===== verification/Capabilities.v ===== *)
(** * Capabilities and the service policy

    [asset_store_core/capabilities.py] and [asset_store_core/service_policy.py]:
    prefix-scoped, time-bounded grants, the ledger of consumed single-use grants,
    the bounded bearer store and the allowlist of buckets per service.  The locks
    serialise the methods of the ledger and of the store, so each method is one
    step of its state. *)

From S2P Require Import Prelude Errors Python Effects Paths.

(** ** Grants *)

Inductive Operation := READ | WRITE.

#[export] Instance Operation_eq_dec : EqDecision Operation.
Proof. solve_decision. Defined.

Definition operation_value (o : Operation) : string :=
  match o with READ => "read" | WRITE => "write" end.

Record Capability := mk_capability {
  cap_id : string;
  cap_operation : Operation;
  cap_scope_prefix : string;
  cap_expires_at : Z;
  cap_caller_service_id : string;
  cap_single_use : bool
}.

#[export] Instance Capability_eq_dec : EqDecision Capability.
Proof. solve_decision. Defined.

(** [Capability.__post_init__]; every timestamp of the model is timezone-aware. *)
Definition validate_scope (scope_prefix : string) : res unit :=
  match split_on "/" (strip_slashes (strip scope_prefix)) with
  | first :: ((_ :: _) as rest) =>
      _ ← normalize_space first;
      _ ← normalize_relative_alias (join_with "/" rest);
      mret tt
  | _ => Err ValidationError
  end.

Definition new_capability (id : string) (operation : Operation) (scope_prefix : string)
    (expires_at : Z) (caller : string) (single_use : bool) : res Capability :=
  _ ← validate_scope scope_prefix;
  mret (mk_capability id operation scope_prefix expires_at caller single_use).

(** [_is_same_path_or_child] *)
Definition is_same_path_or_child (candidate prefix : string) : bool :=
  let c := strip_slashes candidate in
  let p := strip_slashes prefix in
  bool_decide (c = p) || startswith (p +:+ "/") c.

Definition allows (cap : Capability) (operation : Operation) (qualified_alias : string) (now : Z)
    : bool :=
  bool_decide (operation = cap_operation cap) && (now <? cap_expires_at cap) &&
  is_same_path_or_child qualified_alias (cap_scope_prefix cap).

Section Require.
Context {E : Env} {S : Type}.

(** [cap.require(...)], which reads the clock. *)
Definition require (cap : Capability) (operation : Operation) (qualified_alias : string) : M S unit :=
  now ← utcnow;
  raise_if (negb (allows cap operation qualified_alias now)) CapabilityDeniedError.
End Require.

(** ** The single-use ledger: consumed identifiers and when they expire *)

Abbreviation Ledger := (gmap string Z).

(** Dropping what has expired. *)
Definition unexpired {V} (deadline : V → Z) (now : Z) (m : gmap string V) : gmap string V :=
  filter (λ kv, now < deadline kv.2) m.

Definition ledger_pruned (now : Z) (l : Ledger) : Ledger := unexpired id now l.

Section Ledger.
Context {E : Env}.

Definition prune_expired : M Ledger unit :=
  now ← utcnow;
  modify (ledger_pruned now).

Definition record_successful_use (cap : Capability) : M Ledger unit :=
  prune_expired ;;
  if cap_single_use cap then
    consumed ← get_state;
    raise_if (bool_decide (is_Some (consumed !! cap_id cap))) CapabilityAlreadyConsumedError ;;
    modify (λ l, <[cap_id cap := cap_expires_at cap]> l)
  else mret tt.

Definition assert_unused (cap : Capability) : M Ledger unit :=
  prune_expired ;;
  consumed ← get_state;
  raise_if (cap_single_use cap && bool_decide (is_Some (consumed !! cap_id cap)))
    CapabilityAlreadyConsumedError.

Inductive ledger_call :=
  | LedgerPrune
  | LedgerRecord (cap : Capability)
  | LedgerAssert (cap : Capability).

Definition ledger_exec (c : ledger_call) : M Ledger unit :=
  match c with
  | LedgerPrune => prune_expired
  | LedgerRecord cap => record_successful_use cap
  | LedgerAssert cap => assert_unused cap
  end.

(** The state after a list of calls, whatever each of them returns. *)
Fixpoint ledger_run (cs : list ledger_call) (n : nat) (l : Ledger) : nat * Ledger :=
  match cs with
  | [] => (n, l)
  | c :: cs' => let '(_, n', l') := ledger_exec c n l in ledger_run cs' n' l'
  end.
End Ledger.

(** ** The bearer store *)

Record CapabilityStore := mk_capability_store {
  cs_max : Z;
  cs_capabilities : gmap string Capability
}.

#[export] Instance replace_cs_capabilities : Replace cs_capabilities := λ v s,
  mk_capability_store (cs_max s) v.

Definition new_capability_store (max_capabilities : Z) : res CapabilityStore :=
  if max_capabilities <=? 0 then Err ValidationError else mret (mk_capability_store max_capabilities ∅).

Section Store.
Context {E : Env}.

Definition store_pruned (now : Z) (s : CapabilityStore) : CapabilityStore :=
  s <| cs_capabilities := unexpired cap_expires_at now (cs_capabilities s) |>.

(** [issue(cap, on_grant=...)]: the callback runs over the rest of the state. *)
Definition issue {W} (cap : Capability) (on_grant : M W unit) : M (CapabilityStore * W) unit :=
  now ← utcnow;
  modify (λ sw, (store_pruned now sw.1, sw.2)) ;;
  raise_if (cap_expires_at cap <=? now) ValidationError ;;
  sw ← get_state;
  raise_if (cs_max sw.1 <=? Z.of_nat (size (cs_capabilities sw.1))) CapabilityCapacityError ;;
  zoom snd (λ w sw, (sw.1, w)) on_grant ;;
  modify (λ sw, (sw.1 <| cs_capabilities := <[cap_id cap := cap]> (cs_capabilities sw.1) |>, sw.2)).

(** [get(capability_id)] *)
Definition get_capability (capability_id : string) : M CapabilityStore (option Capability) :=
  now ← utcnow;
  modify (store_pruned now) ;;
  s ← get_state;
  mret (cs_capabilities s !! capability_id).

(** [len(store)] *)
Definition capability_count : M CapabilityStore Z :=
  now ← utcnow;
  modify (store_pruned now) ;;
  s ← get_state;
  mret (Z.of_nat (size (cs_capabilities s))).
End Store.

(** ** The service policy *)

Definition SERVICE_READ_BUCKETS : list (string * list string) :=
  [("fetcher", ["cache"; "tmp"]); ("upload-api", ["users"; "tmp"]); ("bulk-loader", ["cache"]);
   ("worker", ["cache"; "users"; "tmp"; "results"]); ("task-api", ["cache"; "users"; "tmp"]);
   ("admin", STORAGE_BUCKETS); ("iiif-server", ["cache"; "users"])].

Definition SERVICE_WRITE_BUCKETS : list (string * list string) :=
  [("fetcher", ["cache"; "tmp"]); ("upload-api", ["users"; "tmp"]); ("bulk-loader", ["cache"]);
   ("worker", ["results"]); ("task-api", ["tmp"]); ("admin", STORAGE_BUCKETS); ("iiif-server", [])].

Fixpoint lookup_service (service : string) (table : list (string * list string))
    : option (list string) :=
  match table with
  | [] => None
  | (name, buckets) :: table' => if decide (name = service) then Some buckets else lookup_service service table'
  end.

Definition buckets_for_service (service_id : string) (operation : Operation) : res (list string) :=
  let table := if decide (operation = READ) then SERVICE_READ_BUCKETS else SERVICE_WRITE_BUCKETS in
  match lookup_service (strip service_id) table with
  | Some buckets => mret buckets
  | None => Err CapabilityDeniedError
  end.

Definition assert_service_bucket_allowed (service_id bucket : string) (operation : Operation) : res unit :=
  allowed ← buckets_for_service service_id operation;
  norm ← normalize_bucket bucket;
  if mem norm allowed then mret tt else Err CapabilityDeniedError.

(** * Lemmas *)

Lemma unexpired_lookup {V} (deadline : V → Z) now (m : gmap string V) k v :
  unexpired deadline now m !! k = Some v ↔ m !! k = Some v ∧ now < deadline v.
Proof. unfold unexpired. by rewrite map_lookup_filter_Some. Qed.

Lemma unexpired_subseteq {V} (deadline : V → Z) now (m : gmap string V) :
  unexpired deadline now m ⊆ m.
Proof. apply map_filter_subseteq. Qed.

Lemma split_prefix (p c : string) :
  split_on "/" p `prefix_of` split_on "/" c ↔ c = p ∨ ∃ t, c = p +:+ String "/" t.
Proof.
  split.
  - intros [l Hl]. destruct l as [|x l].
    + left. rewrite app_nil_r in Hl. by apply (split_on_inj "/").
    + right. exists (join_with "/" (x :: l)).
      by rewrite <- (join_split "/" c), Hl, join_with_app, join_split by (done || apply split_on_nonnil).
  - intros [->|[t ->]]; [done|]. rewrite split_on_app. by apply prefix_app_r.
Qed.

(** * Properties *)

(** A grant authorises an operation exactly when it is a grant for it, its
    deadline has not come and, segment by segment, the alias is the scope or
    lies below it: a sibling that merely shares a textual prefix is refused. *)
Theorem allows_iff (cap : Capability) (operation : Operation) (alias : string) (now : Z) :
  allows cap operation alias now = true ↔
  operation = cap_operation cap ∧ now < cap_expires_at cap ∧
  split_on "/" (strip_slashes (cap_scope_prefix cap)) `prefix_of` split_on "/" (strip_slashes alias).
Proof.
  unfold allows, is_same_path_or_child.
  rewrite !andb_true_iff, orb_true_iff, !bool_decide_eq_true, Z.ltb_lt, startswith_iff, split_prefix.
  assert (Hs : ∀ t, strip_slashes alias = (strip_slashes (cap_scope_prefix cap) +:+ "/") +:+ t ↔
                    strip_slashes alias = strip_slashes (cap_scope_prefix cap) +:+ String "/" t).
  { intros t. by rewrite <- app_str_assoc. }
  setoid_rewrite Hs. tauto.
Qed.

Section LedgerProps.
Context {E : Env}.

Lemma ledger_exec_draws c n (l : Ledger) : (ledger_exec c n l).1.2 = S n.
Proof.
  destruct c as [|cap|cap]; [done|..]; cbn;
    unfold record_successful_use, assert_unused, prune_expired, utcnow, modify, get_state, mbind, M_bind,
      mret, M_ret, raise_if.
  - destruct (cap_single_use cap); [|done]. by destruct (bool_decide _).
  - by destruct (_ && _).
Qed.

Lemma ledger_run_draws cs n (l : Ledger) : (n <= (ledger_run cs n l).1)%nat.
Proof.
  revert n l. induction cs as [|c cs IH]; intros n l; [done|]. cbn.
  pose proof (ledger_exec_draws c n l) as Hd. destruct (ledger_exec c n l) as [[res n'] l'].
  cbn in Hd. subst. etrans; [|apply IH]. lia.
Qed.

(** Every ledger call prunes at one reading of the clock, then may add one entry. *)
Lemma ledger_exec_keeps c n (l : Ledger) k until :
  clock n < until → l !! k = Some until →
  (ledger_exec c n l).1.2 = S n ∧ (ledger_exec c n l).2 !! k = Some until.
Proof.
  intros Hc Hk. assert (Hp : ledger_pruned (clock n) l !! k = Some until)
    by by apply unexpired_lookup.
  destruct c as [|cap|cap]; cbn.
  - done.
  - unfold record_successful_use, prune_expired, utcnow, modify, get_state, mbind, M_bind, mret, M_ret.
    destruct (cap_single_use cap); [|done].
    destruct (decide (is_Some (ledger_pruned (clock n) l !! cap_id cap))) as [Hs|Hs].
    + unfold raise_if. by rewrite bool_decide_eq_true_2.
    + unfold raise_if. rewrite bool_decide_eq_false_2 by done. cbn. split; [done|].
      rewrite lookup_insert_ne; [done|]. intros Heq. apply Hs. rewrite Heq. by eexists.
  - unfold assert_unused, prune_expired, utcnow, modify, get_state, mbind, M_bind, mret, M_ret, raise_if.
    by destruct (_ && _).
Qed.

Lemma ledger_run_keeps cs n (l : Ledger) k until :
  ClockMono E → clock (ledger_run cs n l).1 < until → l !! k = Some until →
  (n <= (ledger_run cs n l).1)%nat ∧ (ledger_run cs n l).2 !! k = Some until.
Proof.
  intros Hmono. revert n l. induction cs as [|c cs IH]; intros n l Hc Hk; [done|].
  cbn in *. pose proof (ledger_exec_draws c n l) as Hd.
  destruct (ledger_exec c n l) as [[res n'] l'] eqn:Hx. cbn in Hd. subst n'.
  pose proof (ledger_run_draws cs (S n) l') as Hle.
  destruct (ledger_exec_keeps c n l k until) as [_ Hk']; [|done|].
  { pose proof (clock_mono n (ledger_run cs (S n) l').1 ltac:(lia)). lia. }
  rewrite Hx in Hk'. destruct (IH (S n) l' Hc Hk'). split; [lia|done].
Qed.

(** C39.  A single-use grant is used once: after one successful use, whatever the
    ledger is asked in between, every later use and every later check of that
    identifier is refused as long as the grant has not expired. *)
Theorem single_use_enforced (cap cap' : Capability) (n : nat) (l : Ledger) (n1 : nat) (l1 : Ledger)
    (cs : list ledger_call) :
  ClockMono E → cap_single_use cap = true → record_successful_use cap n l = (Ok tt, n1, l1) →
  cap_id cap' = cap_id cap → cap_single_use cap' = true →
  let '(n2, l2) := ledger_run cs n1 l1 in
  clock n2 < cap_expires_at cap →
  (assert_unused cap' n2 l2).1.1 = Err CapabilityAlreadyConsumedError ∧
  (record_successful_use cap' n2 l2).1.1 = Err CapabilityAlreadyConsumedError.
Proof.
  intros Hmono Hsu Hrun Hid Hsu'.
  assert (Hl1 : l1 !! cap_id cap = Some (cap_expires_at cap)).
  { revert Hrun. unfold record_successful_use, prune_expired, utcnow, modify, get_state, mbind, M_bind,
      raise_if. rewrite Hsu. destruct (bool_decide _); [done|]. intros [= _ <-].
    by rewrite lookup_insert_eq. }
  destruct (ledger_run cs n1 l1) as [n2 l2] eqn:Hr. intros Hc.
  destruct (ledger_run_keeps cs n1 l1 (cap_id cap) (cap_expires_at cap)) as [_ Hk]; [done|by rewrite Hr|done|].
  rewrite Hr in Hk. cbn in Hk.
  assert (Hp : is_Some (ledger_pruned (clock n2) l2 !! cap_id cap'))
    by (exists (cap_expires_at cap); rewrite Hid; by apply unexpired_lookup).
  unfold assert_unused, record_successful_use, prune_expired, utcnow, modify, get_state, mbind, M_bind,
    raise_if, mret, M_ret. rewrite Hsu'. cbn. by rewrite !bool_decide_eq_true_2.
Qed.
End LedgerProps.

Section StoreProps.
Context {E : Env} {W : Type}.

(** The bearer store audits before it publishes: a grant is published only
    when it is still live, the store has room and the audit callback returned;
    when any of the three fails the store holds nothing new, and it never holds
    more grants than its bound. *)
Theorem issue_spec (cap : Capability) (on_grant : M W unit) (n : nat) (s : CapabilityStore) (w : W) :
  Z.of_nat (size (cs_capabilities s)) <= cs_max s →
  let '(res, n', (s', w')) := issue cap on_grant n (s, w) in
  Z.of_nat (size (cs_capabilities s')) <= cs_max s' ∧ cs_max s' = cs_max s ∧
  match res with
  | Ok _ => clock n < cap_expires_at cap ∧ on_grant (S n) w = (Ok tt, n', w') ∧
      cs_capabilities s' = <[cap_id cap := cap]> (unexpired cap_expires_at (clock n) (cs_capabilities s))
  | Err e => cs_capabilities s' = unexpired cap_expires_at (clock n) (cs_capabilities s) ∧
      (w' = w ∨ on_grant (S n) w = (Err e, n', w'))
  end.
Proof.
  intros Hsize. pose proof (map_subseteq_size _ _
    (unexpired_subseteq cap_expires_at (clock n) (cs_capabilities s))) as Hle.
  unfold issue, utcnow, modify, get_state, mbind, M_bind, raise_if, zoom. cbn.
  destruct (cap_expires_at cap <=? clock n) eqn:He; cbn; [by split_and!; [lia|done..|auto]|].
  destruct (cs_max s <=? _) eqn:Hm; cbn; [by split_and!; [lia|done..|auto]|].
  destruct (on_grant (S n) w) as [[[[]|e] n'] w']; cbn; [|by split_and!; [lia|done..|auto]].
  apply Z.leb_gt in Hm, He. split_and!; [|done|done|done|done].
  cbn. rewrite map_size_insert. case_match; unfold id; lia.
Qed.
End StoreProps.

(** ** Concrete grants *)

#[local] Instance ledger_env : Env := {|
  clock := λ n, Z.of_nat n;
  new_uuid := λ n, pretty n;
  results_max_ttl_env := None;
  capacity_env := Some (JObj []);
  hard_ratio_env := None
|}.

#[local] Instance ledger_clock : ClockMono ledger_env.
Proof. intros n m H. cbn. lia. Qed.

Definition demo_cap : Capability := mk_capability "cap-1" WRITE "cache/p" 100 "fetcher" true.

Definition used_ledger : res unit * nat * Ledger := record_successful_use demo_cap 0%nat ∅.
Definition later_calls : list ledger_call := [LedgerPrune; LedgerRecord demo_cap].

Lemma single_use_enforced_witness :
  used_ledger = (Ok tt, 1%nat, {["cap-1" := 100]}) ∧
  ∃ n l, ledger_run later_calls 1%nat {["cap-1" := 100]} = (n, l) ∧
    (assert_unused demo_cap n l).1.1 = Err CapabilityAlreadyConsumedError.
Proof.
  assert (Hu : used_ledger = (Ok tt, 1%nat, {["cap-1" := 100]})) by (vm_compute; reflexivity).
  assert (Hc : (ledger_run later_calls 1%nat {["cap-1" := 100]}).1 = 3%nat) by (vm_compute; reflexivity).
  pose proof (single_use_enforced demo_cap demo_cap _ _ _ _ later_calls ledger_clock eq_refl Hu
    eq_refl eq_refl) as H.
  destruct (ledger_run later_calls 1%nat {["cap-1" := 100]}) as [n l]. split; [exact Hu|].
  exists n, l. split; [reflexivity|]. apply H. cbn in Hc. rewrite Hc. reflexivity.
Defined.

Lemma issue_spec_witness :
  let '(res, _, (s, _)) := issue demo_cap (mret tt : M unit unit) 0%nat (mk_capability_store 1 ∅, tt) in
  res = Ok tt ∧ Z.of_nat (size (cs_capabilities s)) <= 1.
Proof.
  assert (Hs : Z.of_nat (size (cs_capabilities (mk_capability_store 1 ∅)))
               <= cs_max (mk_capability_store 1 ∅)) by done.
  pose proof (issue_spec demo_cap (mret tt : M unit unit) 0%nat (mk_capability_store 1 ∅) tt Hs) as H.
  destruct (issue demo_cap (mret tt : M unit unit) 0%nat (mk_capability_store 1 ∅, tt)) as [[res n'] [s w]] eqn:Hr.
  destruct H as (H1 & H2 & _). split; [|rewrite H2 in H1; exact H1].
  change res with (res, n', (s, w)).1.1. rewrite <- Hr. reflexivity.
Defined.
