(* ===== verification/ObjectStore.v ===== *)
(** * The object-store seam

    [asset_store_core/object_store.py]: the byte-level operations the data plane
    relies on ([ObjectStoreBackend], what a backend offers, and
    [ObjectStoreLaws], what it promises), and [LocalObjectStore], the in-memory
    implementation, which keeps the promises. *)

From S2P Require Import Prelude Errors Python Effects Paths Models Sha256.

Abbreviation bytes := (list Z).

Definition CHECKSUM_ALGO : string := "sha256".

(** [compute_checksum(data)] *)
Definition compute_checksum (data : bytes) : string :=
  CHECKSUM_ALGO +:+ ":" +:+ sha256_hexdigest data.

Record StoredObjectStat := mk_stat {
  st_size_bytes : Z;
  st_checksum : string;
  st_checksum_algo : string
}.

(** The metadata of stored bytes. *)
Definition stat_of (data : bytes) : StoredObjectStat :=
  mk_stat (Z.of_nat (length data)) (compute_checksum data) CHECKSUM_ALGO.

(** ** The interface *)

Class ObjectStoreBackend (O : Type) := {
  put_object : ObjectStoreLocation → bytes → M O StoredObjectStat;
  get_object : ObjectStoreLocation → M O bytes;
  stat_object : ObjectStoreLocation → M O (option StoredObjectStat);
  delete_object : ObjectStoreLocation → M O unit;
  presign_get_url : ObjectStoreLocation → Z → M O string
}.

(** A backend may fail at any operation; a failed write or deletion may have
    touched its own location and no other. *)
Class ObjectStoreLaws (O : Type) `{ObjectStoreBackend O} := {
  contents : O → ObjectStoreLocation → option bytes;
  law_put loc data n o : wp (put_object loc data) (λ res n' o', (n <= n')%nat ∧
    (∀ l, l ≠ loc → contents o' l = contents o l) ∧
    ∀ st, res = Ok st → st = stat_of data ∧ contents o' loc = Some data) n o;
  law_get loc n o : wp (get_object loc) (λ res n' o', (n <= n')%nat ∧
    (∀ l, contents o' l = contents o l) ∧ ∀ data, res = Ok data → contents o loc = Some data) n o;
  law_stat loc n o : wp (stat_object loc) (λ res n' o', (n <= n')%nat ∧
    (∀ l, contents o' l = contents o l) ∧ ∀ st, res = Ok st → st = stat_of <$> contents o loc) n o;
  law_delete loc n o : wp (delete_object loc) (λ res n' o', (n <= n')%nat ∧
    (∀ l, l ≠ loc → contents o' l = contents o l) ∧ (res = Ok tt → contents o' loc = None)) n o;
  law_presign loc ttl n o : wp (presign_get_url loc ttl) (λ _ n' o', (n <= n')%nat ∧
    ∀ l, contents o' l = contents o l) n o
}.

(** ** The in-memory implementation *)

#[export] Instance location_countable : Countable ObjectStoreLocation.
Proof.
  refine (inj_countable' (λ l, (loc_bucket l, loc_key l)) (λ p, mk_location p.1 p.2) _).
  by intros [].
Defined.

Abbreviation LocalObjectStore := (gmap ObjectStoreLocation bytes).

Definition local_put (loc : ObjectStoreLocation) (data : bytes) : M LocalObjectStore StoredObjectStat :=
  modify (λ objects, <[loc := data]> objects) ;;
  mret (stat_of data).

Definition local_get (loc : ObjectStoreLocation) : M LocalObjectStore bytes :=
  objects ← get_state;
  match objects !! loc with
  | Some data => mret data
  | None => raise ObjectNotFoundError
  end.

Definition local_stat (loc : ObjectStoreLocation) : M LocalObjectStore (option StoredObjectStat) :=
  objects ← get_state;
  mret (stat_of <$> objects !! loc).

Definition local_delete (loc : ObjectStoreLocation) : M LocalObjectStore unit :=
  modify (λ objects, delete loc objects).

Definition local_presign (_ : ObjectStoreLocation) (_ : Z) : M LocalObjectStore string :=
  raise PresignNotSupportedError.

#[export] Instance local_object_store : ObjectStoreBackend LocalObjectStore := {|
  put_object := local_put;
  get_object := local_get;
  stat_object := local_stat;
  delete_object := local_delete;
  presign_get_url := local_presign
|}.

#[export] Instance local_object_store_laws : ObjectStoreLaws LocalObjectStore.
Proof.
  refine {| contents := λ (o : LocalObjectStore) l, o !! l |}.
  - intros loc data n o. cbn. unfold local_put. wp_steps. split_and!; [done| |].
    + intros l Hl. by rewrite lookup_insert_ne.
    + intros st [= <-]. split; [done|]. apply lookup_insert_eq.
  - intros loc n o. cbn. unfold local_get. wp_steps; split_and!; try done. by intros data [= <-].
  - intros loc n o. cbn. unfold local_stat. wp_steps. split_and!; [done|done|]. by intros st [= <-].
  - intros loc n o. cbn. unfold local_delete. wp_steps.
    split_and!; [done|intros l Hl; by rewrite lookup_delete_ne|].
    intros _. apply lookup_delete_eq.
  - intros loc ttl n o. by cbn.
Defined.

(** The in-memory store behaves as a map from locations to bytes: after a
    write, reading and describing the location give the bytes written and their
    checksum, other locations are untouched, and after a deletion the location
    is empty. *)
Theorem local_store_map (loc other : ObjectStoreLocation) (data : bytes) (n : nat) (o : LocalObjectStore) :
  let o1 := (put_object loc data n o).2 in
  get_object loc n o1 = (Ok data, n, o1) ∧
  stat_object loc n o1 = (Ok (Some (stat_of data)), n, o1) ∧
  (other ≠ loc → get_object other n o1 = ((get_object other n o).1.1, n, o1)) ∧
  get_object loc n (delete_object loc n o1).2 =
    (Err ObjectNotFoundError, n, (delete_object loc n o1).2).
Proof.
  cbn. unfold local_put, local_get, local_stat, local_delete, mbind, M_bind, get_state, modify, mret, M_ret.
  cbn.
  rewrite lookup_insert_eq, lookup_delete_eq. split_and!; try done.
  intros Hne. rewrite lookup_insert_ne by done. by destruct (o !! other).
Qed.

Lemma local_store_map_witness :
  let loc := mk_location "cache" "p/assets/a" in
  let other := mk_location "cache" "p/assets/b" in
  get_object other 0%nat (put_object loc [1; 2] 0%nat ∅).2 =
    ((get_object other 0%nat (∅ : LocalObjectStore)).1.1, 0%nat, (put_object loc [1; 2] 0%nat ∅).2).
Proof.
  intros loc other.
  exact (proj1 (proj2 (proj2 (local_store_map loc other [1; 2] 0%nat ∅))) ltac:(discriminate)).
Defined.
