(* ===== verification/Admin.v ===== *)
(** * The operator console

    [asset_store_core/api/admin.py]: the JSON routes behind the operator's
    credential, over the in-memory registry.  Static files and the JSON text of an
    answer are not modelled: a route returns the record that is serialised. *)

From S2P Require Import Prelude Errors Python Effects Paths Models Retention Sha256 Registry Codec AdminQuery.

(** ** Answers *)

(** [AssetOut.from_asset(asset).model_dump(exclude={"storage_key"})] *)
Record PublicAsset := mk_public {
  pa_asset_id : string;
  pa_space : string;
  pa_partition_id : string;
  pa_state : string;
  pa_aliases : list string;
  pa_mime : option string;
  pa_size_bytes : option Z;
  pa_checksum : option string;
  pa_annotations : gmap string string;
  pa_created_at : Z;
  pa_updated_at : Z;
  pa_expires_at : option Z;
  pa_expired_at : option Z;
  pa_last_read_at : option Z;
  pa_read_count : Z;
  pa_payload_deleted_at : option Z;
  pa_owner_service_id : string;
  pa_eviction_policy : string
}.

Definition public_asset (a : Asset) : PublicAsset :=
  mk_public (a_asset_id a) (a_space a) (a_partition_id a) (state_value (a_state a))
    (sorted_by str_ltb (elements (a_aliases a))) (a_mime a) (a_size_bytes a) (a_checksum a) (a_annotations a)
    (a_created_at a) (a_updated_at a) (a_expires_at a) (a_expired_at a) (a_last_read_at a) (a_read_count a)
    (a_payload_deleted_at a) (a_owner_service_id a) (eviction_value (a_eviction_policy a)).

Record Listing := mk_listing {
  li_items : list PublicAsset;
  li_next_cursor : option string;
  li_quota : option PartitionQuota
}.

Record Preview := mk_preview { pv_prefix : option string; pv_candidates : list (string * Z) }.

(** ** Requests *)

Inductive AdminAction := AdminExpire | AdminDelete | AdminTtl | AdminAttach | AdminDetach | AdminAnnotations | AdminEviction.

#[export] Instance AdminAction_eq_dec : EqDecision AdminAction.
Proof. solve_decision. Defined.

Definition admin_action_name (action : AdminAction) : string :=
  match action with
  | AdminExpire => "expire"
  | AdminDelete => "delete"
  | AdminTtl => "ttl"
  | AdminAttach => "attach"
  | AdminDetach => "detach"
  | AdminAnnotations => "annotations"
  | AdminEviction => "eviction"
  end.

Record Mutation := mk_mutation {
  mu_expected_updated_at : Z;
  mu_action : AdminAction;
  mu_ttl_seconds : option Z;
  mu_alias : option string;
  mu_mutable : bool;
  mu_annotations : option (gmap string string);
  mu_eviction_policy : option EvictionPolicy
}.

Record Candidate := mk_candidate { ca_asset_id : string; ca_expected_updated_at : Z }.

(** The registry and the counter of admin actions by name and outcome. *)
Record Console := mk_console { co_registry : Registry; co_actions : gmap (string * string) Z }.

#[export] Instance replace_co_registry : Replace co_registry := λ v c, mk_console v (co_actions c).
#[export] Instance replace_co_actions : Replace co_actions := λ v c, mk_console (co_registry c) v.

Definition set_registry (r : Registry) (c : Console) : Console := c <| co_registry := r |>.
Definition on_registry {A} (m : M Registry A) : M Console A := zoom co_registry set_registry m.

(** [with observe(action): body] *)
Definition observe {A} (action : string) (body : M Console A) : M Console A := λ n c,
  let '(r, n', c') := body n c in
  let key := (action, if is_Ok r then "success" else "error") in
  (r, n', c' <| co_actions := <[key := default 0 (co_actions c' !! key) + 1]> (co_actions c') |>).

Section Routes.
Context {E : Env} {D : DumpFilters}.

(** [GET /assets] *)
Definition listing (query : AssetQuery) : M Registry Listing :=
  rows ← query_assets query;
  let more := q_limit query <? Z.of_nat (length rows) in
  let rows := take (Z.to_nat (q_limit query)) rows in
  quota ← match given (q_space query), given (q_partition_id query) with
          | Some space, Some partition => q ← get_partition_quota space partition; mret (Some q)
          | _, _ => mret None
          end;
  mret (mk_listing (public_asset <$> rows) (if more then cursor_for query <$> last rows else None) quota).

(** [GET /assets/{asset_id}]: the asset and its last events. *)
Definition inspect (asset_id : string) : M Registry (PublicAsset * list AuditEvent) :=
  asset ← get_asset asset_id;
  events ← recent_audit (Some asset_id) 100;
  mret (public_asset asset, drop (length events - 100) events).

(** [GET /audit] *)
Definition audit (limit : Z) : M Registry (list AuditEvent) :=
  raise_if (negb ((1 <=? limit) && (limit <=? 500))) RequestValidationError ;;
  recent_audit None limit.

(** [POST /assets/{asset_id}/actions], under the asset's lock. *)
Definition apply_mutation (asset_id : string) (body : Mutation) (asset : Asset) : M Registry unit :=
  match mu_action body with
  | AdminExpire => expire_asset asset_id "admin" ;; mret tt
  | AdminDelete => delete_asset asset_id "admin" ;; mret tt
  | AdminTtl =>
      match mu_ttl_seconds body with
      | None => raise ValidationError
      | Some ttl => set_asset_ttl asset_id ttl "admin" ;; mret tt
      end
  | AdminAttach =>
      match given (mu_alias body) with
      | None => raise ValidationError
      | Some alias => attach_alias asset_id alias (mu_mutable body) "admin" ;; mret tt
      end
  | AdminDetach =>
      match given (mu_alias body) with
      | None => raise ValidationError
      | Some alias =>
          let name := strip_slashes (strip alias) in
          raise_if (bool_decide (a_space asset +:+ "/" +:+ name ∉ a_aliases asset)) ValidationError ;;
          catch (detach_alias (a_space asset) name "admin") (λ e,
            if decide (e = AliasImmutableError)
            then detach_mutable_alias (a_space asset) name "admin" ;; mret tt
            else raise e)
      end
  | AdminAnnotations =>
      match mu_annotations body with
      | None => raise ValidationError
      | Some annotations => update_annotations asset_id annotations "admin" true ;; mret tt
      end
  | AdminEviction =>
      match mu_eviction_policy body with
      | None => raise ValidationError
      | Some policy => set_eviction_policy asset_id policy "admin" ;; mret tt
      end
  end.

Definition mutate (asset_id : string) (body : Mutation) : M Console PublicAsset :=
  observe (admin_action_name (mu_action body)) (asset_lock co_registry set_registry asset_id (λ asset,
    raise_if (bool_decide (mu_expected_updated_at body ≠ a_updated_at asset)) InvalidStateTransitionError ;;
    on_registry (apply_mutation asset_id body asset) ;;
    a ← on_registry (get_asset asset_id);
    mret (public_asset a))).

(** [PUT /quotas/partition] *)
Definition quota (space partition_id : string) (quota_bytes quota_asset_count : option Z)
    (eviction_sweep_enabled : option bool) : M Console PartitionQuota :=
  observe "quota" (on_registry (set_partition_quota space partition_id quota_bytes quota_asset_count
    eviction_sweep_enabled "admin")).

Definition bulk_query (prefix : string) : res AssetQuery :=
  query ← validate_filters (mk_query None None (Some AVAILABLE) None None (Some prefix) 500 None);
  match q_prefix query with
  | Some p => if (length (split_on "/" p) <? 2)%nat then Err ValidationError else mret query
  | None => Err ValidationError
  end.

(** [GET /aliases/expire] *)
Definition preview (prefix : string) : M Registry Preview :=
  query ← of_res (bulk_query prefix);
  rows ← query_assets query;
  raise_if (q_limit query <? Z.of_nat (length rows)) ValidationError ;;
  mret (mk_preview (q_prefix query) ((λ a, (a_asset_id a, a_updated_at a)) <$> rows)).

(** One candidate of [POST /aliases/expire]: whether it was expired. *)
Definition bulk_one (query : AssetQuery) (candidate : Candidate) : M Console bool :=
  asset_lock co_registry set_registry (ca_asset_id candidate) (λ asset,
    if bool_decide (a_updated_at asset ≠ ca_expected_updated_at candidate) ||
       bool_decide (a_state asset ≠ AVAILABLE) ||
       negb (existsb (λ a, prefix_matches a (default "" (q_prefix query))) (elements (a_aliases asset)))
    then mret false
    else on_registry (expire_asset (a_asset_id asset) "admin") ;; mret true).

Fixpoint bulk_loop (query : AssetQuery) (candidates : list Candidate) (applied skipped : Z) : M Console (Z * Z) :=
  match candidates with
  | [] => mret (applied, skipped)
  | candidate :: rest =>
      done ← bulk_one query candidate;
      if (done : bool) then bulk_loop query rest (applied + 1) skipped else bulk_loop query rest applied (skipped + 1)
  end.

Definition bulk (prefix : string) (candidates : list Candidate) : M Console (Z * Z) :=
  raise_if (500 <? Z.of_nat (length candidates)) RequestValidationError ;;
  query ← of_res (bulk_query prefix);
  raise_if (bool_decide (¬ NoDup (ca_asset_id <$> candidates))) ValidationError ;;
  observe "bulk_expire" (bulk_loop query candidates 0 0).
End Routes.
