(* ===== verification/AdminActions.v ===== *)
(** * What an operator's action does

    A mutation of the console checks the version it was shown, carries out one
    action on the asset and touches no other asset and no binding of another one;
    a refused one leaves the registry as it was. *)

From S2P Require Import Prelude Errors Python Effects Paths Models Retention Sha256 Registry RegistryInv RegistrySound RegistryNames Scenario RegistryProps Codec AdminQuery Admin.

(** ** Frames *)

(** The other assets, and the bindings that do not lead to asset [i], are as they were. *)
Definition untouched (i : string) (r r' : Registry) : Prop :=
  (∀ j, j ≠ i → r_assets r' !! j = r_assets r !! j) ∧
  (∀ k b, r_aliases r !! k = Some b → b_asset_id b ≠ Some i → r_aliases r' !! k = Some b).

Lemma untouched_put i a' (r r' : Registry) :
  r_assets r' = <[i := a']> (r_assets r) → r_aliases r' = r_aliases r → untouched i r r'.
Proof. intros Ha Hal. split; [intros j Hj; by rewrite Ha, lookup_insert_ne|by rewrite Hal]. Qed.

Lemma untouched_name i a' k (ob : option AliasBinding) (r r' : Registry) :
  r_assets r' = <[i := a']> (r_assets r) →
  (∀ b, r_aliases r !! k = Some b → b_asset_id b = Some i) →
  r_aliases r' = partial_alter (λ _, ob) k (r_aliases r) → untouched i r r'.
Proof.
  intros Ha Hk Hal. split; [intros j Hj; by rewrite Ha, lookup_insert_ne|].
  intros k' b Hb Hne. rewrite Hal, lookup_partial_alter_ne; [done|]. intros ->. by apply Hne, Hk.
Qed.

Section Frames.
Context {E : Env}.

Lemma wp_acquire_frame space partition nbytes (Q : res unit → nat → Registry → Prop) n r :
  (∀ res r', r_assets r' = r_assets r → r_aliases r' = r_aliases r → Q res n r') →
  wp (_acquire_quota space partition nbytes) Q n r.
Proof.
  intros HQ. unfold _acquire_quota, _partition_quota, _bucket_quota, put_partition_quota, put_bucket_quota.
  reg_steps; by apply HQ.
Qed.

Lemma wp_release_frame a (Q : res unit → nat → Registry → Prop) n r :
  (∀ res r', r_assets r' = r_assets r → r_aliases r' = r_aliases r → Q res n r') →
  wp (_release_quota a) Q n r.
Proof.
  intros HQ. unfold _release_quota, _partition_quota, _bucket_quota, put_partition_quota, put_bucket_quota.
  reg_steps; by apply HQ.
Qed.
End Frames.

Ltac frame_step :=
  lazymatch goal with
  | |- wp (_acquire_quota _ _ _) _ _ _ => apply wp_acquire_frame; intros ? ? ? ?
  | |- wp (_release_quota _) _ _ _ => apply wp_release_frame; intros ? ? ? ?
  | _ => reg_step
  end.

(** ** What each action does to its asset *)

(** The name a detach looks up. *)
Definition detach_name (body : Mutation) : string := strip_slashes (strip (default "" (mu_alias body))).

Section Actions.
Context {E : Env}.

Definition performed (body : Mutation) (a a' : Asset) : Prop :=
  match mu_action body with
  | AdminExpire => a_state a = AVAILABLE ∧ a_state a' = EXPIRED
  | AdminDelete => (a_state a = AVAILABLE ∨ a_state a = EXPIRED) ∧ a_state a' = DELETED
  | AdminTtl => ∃ ttl, mu_ttl_seconds body = Some ttl ∧ a_state a' = AVAILABLE ∧
      expiry_for (a_space a) (Some ttl) (a_updated_at a') = Ok (a_expires_at a')
  | AdminAttach => ∃ alias name key, given (mu_alias body) = Some alias ∧
      _alias_under_partition (a_partition_id a) alias = Ok name ∧ qualified_alias (a_space a) name = Ok key ∧
      a_aliases a' = {[key]} ∪ a_aliases a
  | AdminDetach => let key := a_space a +:+ "/" +:+ detach_name body in
      let names := a_aliases a ∖ {[key]} in
      key ∈ a_aliases a ∧ a_aliases a' = names ∧ a_state a' = gc_state (a <| a_aliases := names |>)
  | AdminAnnotations => mu_annotations body = Some (a_annotations a')
  | AdminEviction => mu_eviction_policy body = Some (a_eviction_policy a')
  end.

Definition carried_out {A} (i : string) (body : Mutation) (a : Asset) (r : Registry) (res : res A) (r' : Registry) : Prop :=
  match res with
  | Ok _ => ∃ a', r_assets r' !! i = Some a' ∧ performed body a a' ∧ untouched i r r'
  | Err _ => True
  end.

Lemma carried_put {A} i body a a' (r r' : Registry) (x : A) :
  r_assets r' = <[i := a']> (r_assets r) → r_aliases r' = r_aliases r → performed body a a' →
  carried_out i body a r (Ok x) r'.
Proof.
  intros Ha Hal Hp. exists a'. split; [by rewrite Ha, lookup_insert_eq|]. split; [done|by eapply untouched_put].
Qed.

(** Run an action that writes the record of [i] and nothing else but counters and
    the audit log. *)
Ltac run_action :=
  repeat frame_step; try exact I; guards; simplify_eq;
  match goal with
  | |- carried_out _ _ _ _ _ _ =>
      eapply carried_put; [cbn in *; try match goal with H : r_assets _ = _ |- _ => rewrite H end; reflexivity|cbn in *; congruence|]
  end.

Lemma wp_expire i body a n r :
  mu_action body = AdminExpire → r_assets r !! i = Some a →
  wp (expire_asset i "admin" ;; mret tt) (λ res _ r', carried_out i body a r res r') n r.
Proof.
  intros Hact Hi. unfold expire_asset. run_action. unfold performed. rewrite Hact.
  split; [|done]. by apply dec_stable.
Qed.

Lemma wp_delete i body a n r :
  mu_action body = AdminDelete → r_assets r !! i = Some a →
  wp (delete_asset i "admin" ;; mret tt) (λ res _ r', carried_out i body a r res r') n r.
Proof.
  intros Hact Hi. unfold delete_asset. run_action. unfold performed. rewrite Hact.
  split; [|done]. destruct (a_state a); naive_solver.
Qed.

Lemma wp_annotate i body a annotations n r :
  mu_action body = AdminAnnotations → mu_annotations body = Some annotations → r_assets r !! i = Some a →
  wp (update_annotations i annotations "admin" true ;; mret tt) (λ res _ r', carried_out i body a r res r') n r.
Proof.
  intros Hact Hval Hi. unfold update_annotations. run_action. unfold performed. by rewrite Hact.
Qed.

Lemma wp_evict_policy i body a policy n r :
  mu_action body = AdminEviction → mu_eviction_policy body = Some policy → r_assets r !! i = Some a →
  wp (set_eviction_policy i policy "admin" ;; mret tt) (λ res _ r', carried_out i body a r res r') n r.
Proof.
  intros Hact Hval Hi. unfold set_eviction_policy. run_action. unfold performed. by rewrite Hact.
Qed.

Lemma wp_ttl i body a ttl n r :
  mu_action body = AdminTtl → mu_ttl_seconds body = Some ttl → r_assets r !! i = Some a →
  wp (set_asset_ttl i ttl "admin" ;; mret tt) (λ res _ r', carried_out i body a r res r') n r.
Proof.
  intros Hact Hval Hi. unfold set_asset_ttl. run_action; unfold performed; rewrite Hact; by exists ttl.
Qed.

(** A name that passes the check was free, whatever the check pruned. *)
Lemma wp_require_free space name (Q : res unit → nat → Registry → Prop) n r :
  (∀ e n' r', Q (Err e) n' r') →
  (∀ key n' r', qualified_alias space name = Ok key → r_aliases r !! key = None →
     r_assets r' = r_assets r → r_aliases r' = r_aliases r → Q (Ok tt) n' r') →
  wp (_require_alias_name_available space name) Q n r.
Proof.
  intros Herr Hok. unfold _require_alias_name_available, _alias_name_is_blocked.
  destruct (qualified_alias space name) as [key|e] eqn:Hq; [|by apply wp_bind, wp_bind, wp_of_res, Herr].
  reg_steps; try apply Herr; (eapply (Hok key); [done|by apply eq_None_not_Some|done..]).
Qed.

Lemma wp_attach i body a alias n r :
  registry_wf n r → mu_action body = AdminAttach → given (mu_alias body) = Some alias → r_assets r !! i = Some a →
  wp (attach_alias i alias (mu_mutable body) "admin" ;; mret tt) (λ res _ r', carried_out i body a r res r') n r.
Proof.
  intros Hwf Hact Hval Hi. pose proof (aw_space _ _ (get_wf _ _ _ _ Hwf Hi)) as Hsp.
  assert (normalize_space (a_space a) = Ok (a_space a)) as Hn by by apply normalize_bucket_fix.
  unfold attach_alias, _add_alias_to_asset. reg_reads; try exact I. simplify_eq. rewrite Hn in Heqr0. simplify_eq.
  apply wp_require_free; [intros; exact I|].
  intros key n' r' Hkey Hfree Has Hal. reg_step. rewrite Hkey. reg_steps; [|exact I].
  cbn in *. assert (a0 = a) as -> by congruence.
  eexists. split; [by rewrite lookup_insert_eq|]. split.
  - unfold performed. rewrite Hact. by exists alias, a2, key.
  - eapply untouched_name with (k := key); cbn; [by rewrite Has|by rewrite Hfree|by rewrite Hal].
Qed.

(** The asset has lost a name, and the name its binding to the asset. *)
Lemma detached {A} i body a key a' ob r r' now (x : A) :
  mu_action body = AdminDetach → key = a_space a +:+ "/" +:+ detach_name body → key ∈ a_aliases a →
  (∀ b, r_aliases r !! key = Some b → b_asset_id b = Some i) →
  a_aliases a' = a_aliases a ∖ {[key]} →
  a_state a' = gc_state ((a <| a_aliases := a_aliases a ∖ {[key]} |>) <| a_updated_at := now |>) →
  r_assets r' = <[i := a']> (r_assets r) → r_aliases r' = partial_alter (λ _, ob) key (r_aliases r) →
  carried_out i body a r (Ok x) r'.
Proof.
  intros Hact -> Hin Hb Hal Hst Has Hnames. exists a'. split; [by rewrite Has, lookup_insert_eq|]. split.
  - unfold performed. by rewrite Hact.
  - by eapply untouched_name.
Qed.

(** A detach whose name normalises to itself reaches the binding of its own asset. *)
Lemma wp_detach i body a n r :
  registry_wf n r → mu_action body = AdminDetach → r_assets r !! i = Some a →
  let name := detach_name body in let key := a_space a +:+ "/" +:+ name in
  key ∈ a_aliases a → lookup_key (a_space a) name = Ok key →
  wp (catch (detach_alias (a_space a) name "admin") (λ e,
        if decide (e = AliasImmutableError) then detach_mutable_alias (a_space a) name "admin" ;; mret tt else raise e))
     (λ res _ r', carried_out i body a r res r') n r.
Proof.
  intros Hwf Hact Hi name key Hin Hkey. pose proof (get_wf _ _ _ _ Hwf Hi) as Hawf.
  destruct (lw_alias _ _ _ _ (rw_links _ _ Hwf) _ _ _ Hi Hin) as [(b & Hb & Hbi)|[_ []%not_elem_of_nil]].
  assert (Hfind : find_binding r (a_space a) name = Ok b).
  { rewrite find_binding_lookup, Hkey. cbn. by rewrite Hb. }
  pose proof (lw_key _ _ _ _ (rw_links _ _ Hwf) _ _ Hb) as Hq.
  assert (Hown : ∀ b', r_aliases r !! key = Some b' → b_asset_id b' = Some i) by congruence.
  apply wp_catch, wp_detach_alias; [done| |intros; exact I|].
  - intros e. destruct (decide _) as [->|]; [|exact I].
    unfold detach_mutable_alias, raise_about_if, raise_about, _get_binding, _remove_alias_from_asset.
    do 3 reg_step. rewrite Hfind. reg_reads; try exact I; simplify_eq. reg_steps.
    destruct (asset_wf_partition _ _ Hawf) as [p Hp].
    eapply wp_gc_run; [by apply (rw_keys _ _ Hwf)| | |apply lookup_insert_eq|]; [by apply (aw_space _ _ Hawf)|exact Hp|].
    intros n' r' a' [S1 _] Has Hal Hst. eapply (detached i body a key a' (Some _)); [done..|exact Hst| |exact S1].
    rewrite Has. apply insert_insert_eq.
  - intros key' b' i' a' n' r' Hfind' _ Hq' Hb' Hbi' Hi' _ _ Hwf' _ Has Hal _ _.
    rewrite Hfind in Hfind'. injection Hfind' as <-. rewrite Hq in Hq'. injection Hq' as <-.
    rewrite Hbi in Hbi'. injection Hbi' as <-. rewrite Hi in Hi'. injection Hi' as <-.
    eapply wp_gc_effect; [done|by rewrite Has, lookup_insert_eq|].
    intros n2 r2 a2 [S1 _] Has2 Hal2 Hst. eapply (detached i body a key a2 None); [done..|exact Hst| |by rewrite S1].
    by rewrite Has2, Has, insert_insert_eq.
Qed.

(** The name of a detach, when it is one of the asset's, is its own normal form. *)
Definition stable_detach (body : Mutation) (a : Asset) : Prop :=
  let key := a_space a +:+ "/" +:+ detach_name body in
  mu_action body = AdminDetach → key ∈ a_aliases a → lookup_key (a_space a) (detach_name body) = Ok key.

Lemma wp_apply_mutation i body a n r :
  registry_wf n r → r_assets r !! i = Some a → stable_detach body a →
  wp (apply_mutation i body a) (λ res _ r', carried_out i body a r res r') n r.
Proof.
  intros Hwf Hi Hstable. unfold apply_mutation. destruct (mu_action body) eqn:Hact.
  - by apply wp_expire.
  - by apply wp_delete.
  - destruct (mu_ttl_seconds body) eqn:?; [by apply wp_ttl|exact I].
  - destruct (given (mu_alias body)) eqn:?; [by apply wp_attach|exact I].
  - destruct (given (mu_alias body)) as [alias|] eqn:Halias; [|exact I].
    assert (strip_slashes (strip alias) = detach_name body) as ->.
    { unfold detach_name, given in *. destruct (mu_alias body) as [[]|]; by simplify_eq. }
    apply wp_bind, wp_raise_if; intros Hin; [exact I|]. apply bool_decide_eq_false, dec_stable in Hin.
    apply wp_detach; try done. by apply Hstable.
  - destruct (mu_annotations body) eqn:?; [by apply wp_annotate|exact I].
  - destruct (mu_eviction_policy body) eqn:?; [by apply wp_evict_policy|exact I].
Qed.

(** What a refused action leaves: the registry but for tombstones whose time was
    over, unless the end of a detached name's grace period is beyond the last date. *)
Definition refused (n n' : nat) (body : Mutation) (e : error) (r r' : Registry) : Prop :=
  only_expired n n' r r' ∨
  e = PyOverflowError ∧ mu_action body = AdminDetach ∧ ∃ space name, detach_overflowed n r (CallDetach space name "admin") r'.

(** The call an action makes. *)
Lemma wp_exec_refused c body n r :
  sound_upto False (exec c) → registry_wf n r →
  wp (exec c) (λ res n' r', ∀ e, res = Err e → refused n n' body e r r') n r.
Proof.
  intros Hs Hwf. apply wp_run. intros res n' r' Hrun e ->. left.
  destruct (wp_inv _ _ _ _ _ _ _ (Hs n r Hwf) Hrun) as [_ [?|[[] _]]]. by eapply only_pruned_expired.
Qed.

Lemma only_expired_refl n r : only_expired n n r r.
Proof. exists (r_tombstones r). split; [by destruct r|]. split; [done|]. intros k until ? ?. congruence. Qed.

Lemma wp_refused_action {A} body e (m : M Registry A) n r :
  m = raise e → wp m (λ res n' r', ∀ e, res = Err e → refused n n' body e r r') n r.
Proof. intros ->. apply wp_raise. intros e' _. left. apply only_expired_refl. Qed.

Lemma apply_mutation_refused i body a n r :
  registry_wf n r → wp (apply_mutation i body a) (λ res n' r', ∀ e, res = Err e → refused n n' body e r r') n r.
Proof.
  intros Hwf. unfold apply_mutation.
  destruct (mu_action body) eqn:Hact; repeat case_match; try (by eapply wp_refused_action).
  - by apply (wp_exec_refused (CallExpire _ _)); [apply ignore_sound, expire_asset_sound|].
  - by apply (wp_exec_refused (CallDelete _ _)); [apply ignore_sound, delete_asset_sound|].
  - by apply (wp_exec_refused (CallSetTtl _ _ _)); [apply ignore_sound, set_asset_ttl_sound|].
  - by apply (wp_exec_refused (CallAttach _ _ _ _)); [apply ignore_sound, attach_alias_sound|].
  - apply wp_bind, wp_raise_if; intros _; [intros e _; left; apply only_expired_refl|].
    apply wp_catch, wp_detach_alias; [done| | |].
    + intros e. destruct (decide _); [|intros e' _; left; apply only_expired_refl].
      by apply (wp_exec_refused (CallDetachMutable _ _ _)); [apply ignore_sound, detach_mutable_alias_sound|].
    + intros key b j a' Hb _ Hq _ _ Hi Hin Hg Hlast r1 _ _ e. cbn. intros [= <-]. right. do 2 (split; [done|]).
      destruct (find_binding_bound _ _ _ _ _ Hwf Hb) as (key' & Hkey & Hq' & _).
      assert (key' = key) as -> by congruence.
      by exists (a_space a), (strip_slashes (strip s)), (a_space a), (strip_slashes (strip s)), "admin", key, j, a'.
    + intros key b j a' n1 r1 _ _ _ _ _ Hi _ _ Hwf1 _ Has _ _ _.
      eapply wp_mark_for_gc; [done|by rewrite Has, lookup_insert_eq|]. intros *. done.
  - by apply (wp_exec_refused (CallAnnotate _ _ _ _)); [apply ignore_sound, update_annotations_sound|].
  - by apply (wp_exec_refused (CallEvictionPolicy _ _ _)); [apply ignore_sound, set_eviction_policy_sound|].
Qed.

Lemma apply_mutation_sound i body a : sound (apply_mutation i body a).
Proof.
  unfold apply_mutation.
  destruct (mu_action body); repeat case_match; try (intros n r Hwf; apply wp_raise; by raised).
  - apply ignore_sound, expire_asset_sound.
  - apply ignore_sound, delete_asset_sound.
  - apply ignore_sound, set_asset_ttl_sound.
  - apply ignore_sound, attach_alias_sound.
  - intros n r Hwf. apply wp_bind, wp_raise_if; intros _; [by raised|].
    apply wp_catch. eapply wp_mono; [by apply detach_alias_sound|].
    intros [[]|e] n' r' [Hwf' Hstep]; [done|]. destruct (decide _); [|done].
    eapply wp_mono; [by eapply (ignore_sound (late := True) (detach_mutable_alias _ _ _)); [apply detach_mutable_alias_sound|]|].
    intros res n2 r2 [Hwf2 Hstep2]. split; [done|].
    destruct Hstep as [Hpr|(_ & -> & _)]; [|done]. destruct res; cbn in *.
    + etrans; [by apply only_pruned_evolves|done].
    + destruct Hstep2 as [?|(_ & ? & ?)]; [left; by eapply only_pruned_trans|right].
      split_and!; try done. etrans; [by apply only_pruned_evolves|done].
  - apply ignore_sound, update_annotations_sound.
  - apply ignore_sound, set_eviction_policy_sound.
Qed.

(** Expiring an available asset goes through. *)
Lemma wp_expire_ok i a (Q : res Asset → nat → Registry → Prop) n r :
  registry_wf n r → r_assets r !! i = Some a → a_state a = AVAILABLE →
  (∀ n' r' a', registry_wf n' r' → a_state a' = EXPIRED → r_assets r' = <[i := a']> (r_assets r) →
     r_aliases r' = r_aliases r → Q (Ok a') n' r') →
  wp (expire_asset i "admin") Q n r.
Proof.
  intros Hwf Hi Hst HQ. pose proof (get_wf _ _ _ _ Hwf Hi) as Ha.
  destruct (asset_wf_partition _ _ Ha) as [p Hp].
  apply (wp_sound (late := False)); [apply expire_asset_sound|done|]. unfold expire_asset. reg_reads; [| |congruence].
  - simplify_eq. by guards.
  - simplify_eq. reg_step. reg_step. reg_step.
    eapply wp_release_quota; [by apply (rw_keys _ _ Hwf)|by apply (aw_space _ _ Ha)|done|]. reg_steps.
    destruct (release_state_fields a p r) as (F1 & F2 & _ & F4 & _). intros Hwf' _. eapply HQ; [done|done|by rewrite release_state_put|by rewrite release_state_put].
Qed.
End Actions.
