(* ===== verification/AdminProps.v ===== *)
(** * What the operator console guarantees

    Following the cursors lists every matching asset once; an action touches the
    inspected asset and no other; a bulk expiry expires exactly the candidates that
    are still as the preview showed them. *)

From S2P Require Import Prelude Errors Python Effects Paths Models Retention Sha256 Registry RegistryInv RegistrySound RegistryNames Scenario RegistryProps Codec AdminQuery Admin AdminActions.

(** ** Pages *)

Section Pages.
Context {E : Env} {D : DumpFilters}.
Implicit Types (q : AssetQuery) (r : Registry) (n : nat).

(** The client: the next page is asked for with the cursor of the last one. *)
Fixpoint walk (fuel : nat) (q : AssetQuery) : M Registry (list (list PublicAsset)) :=
  match fuel with
  | O => mret []
  | S fuel =>
      page ← listing q;
      match li_next_cursor page with
      | None => mret [li_items page]
      | Some cursor => rest ← walk fuel (q <| q_cursor := Some cursor |>); mret (li_items page :: rest)
      end
  end.

(** The quota of the listed partition can be looked up. *)
Definition quota_known q r : bool :=
  match given (q_space q), given (q_partition_id q) with
  | Some space, Some partition => is_Ok (find_partition_quota r space partition)
  | _, _ => true
  end.

(** The assets that remain behind the cursor. *)
Definition remaining q r (l1 l2 : list Asset) : Prop :=
  found q r = l1 ++ l2 ∧ AdminQuery.after q = Ok (asset_key <$> last l1).

Lemma query_remaining q n r l1 l2 :
  (∀ i a, r_assets r !! i = Some a → a_asset_id a = i) → remaining q r l1 l2 →
  query_assets q n r = (Ok (take (Z.to_nat (q_limit q + 1)) l2), n, r).
Proof.
  intros Hid [Hl Hafter]. unfold query_assets, mbind, M_bind, of_res, get_state, mret, M_ret. rewrite Hafter.
  pose proof (found_sorted q r Hid) as Hs. do 4 f_equal.
  transitivity (filter (λ a, Is_true (beyond (asset_key <$> last l1) (asset_key a))) (found q r)).
  { unfold found. rewrite list_filter_filter. apply list_filter_iff. intros a. rewrite !Is_true_true, andb_true_iff. tauto. }
  rewrite Hl in Hs |- *. destruct l1 as [|x l1 _] using rev_ind.
  - cbn. clear. induction l2 as [|x l2 IH]; [done|]. by rewrite filter_cons_True, IH.
  - rewrite last_snoc. cbn [fmap option_fmap option_map beyond]. rewrite <- app_assoc in *. by apply filter_beyond.
Qed.

(** One page, and what remains after it. *)
Lemma listing_page q n r l1 l2 :
  (∀ i a, r_assets r !! i = Some a → a_asset_id a = i ∧ datetime_min <= a_created_at a <= datetime_max) →
  1 <= q_limit q → quota_known q r = true → remaining q r l1 l2 →
  ∃ page, listing q n r = (Ok page, n, r) ∧ li_items page = public_asset <$> take (Z.to_nat (q_limit q)) l2 ∧
    match li_next_cursor page with
    | None => drop (Z.to_nat (q_limit q)) l2 = []
    | Some cursor => remaining (q <| q_cursor := Some cursor |>) r (l1 ++ take (Z.to_nat (q_limit q)) l2)
                       (drop (Z.to_nat (q_limit q)) l2) ∧ l2 ≠ []
    end.
Proof.
  intros Hid Hlimit Hquota Hrem. set (k := Z.to_nat (q_limit q)).
  unfold listing, mbind, M_bind. rewrite (query_remaining _ _ _ l1 l2) by (done || by apply Hid).
  replace (Z.to_nat (q_limit q + 1)) with (S k) by lia. fold k. rewrite take_take, Nat.min_l by lia.
  rewrite length_take. set (more := q_limit q <? _).
  assert (Hpage : ∀ quota, let page := mk_listing (public_asset <$> take k l2)
      (if more then cursor_for q <$> last (take k l2) else None) quota in
    li_items page = public_asset <$> take k l2 ∧
    match li_next_cursor page with
    | None => drop k l2 = []
    | Some cursor => remaining (q <| q_cursor := Some cursor |>) r (l1 ++ take k l2) (drop k l2) ∧ l2 ≠ []
    end).
  { intros quota. cbn. split; [done|].
    assert (Hk : Z.of_nat k = q_limit q) by (unfold k; lia).
    destruct more eqn:Hmore; unfold more in Hmore; [apply Z.ltb_lt in Hmore|apply Z.ltb_ge in Hmore; apply drop_ge; lia].
    assert (Hlen : (k < length l2)%nat) by lia.
    destruct (last (take k l2)) as [x|] eqn:Hx; cycle 1.
    { apply last_None in Hx. apply (f_equal length) in Hx. rewrite length_take in Hx. cbn in Hx. unfold k in *. lia. }
    cbn. split; [|by intros ->; cbn in Hlen; lia]. destruct Hrem as [Hl _]. split.
    - change (found _ r) with (found q r). by rewrite <- app_assoc, take_drop.
    - assert (Hin : x ∈ found q r).
      { rewrite Hl. apply elem_of_app. right. rewrite <- (take_drop k l2). apply elem_of_app. left. by apply last_Some_elem_of. }
      apply elem_of_found in Hin as [[i Hi] _]. rewrite last_app, Hx.
      apply cursor_roundtrip. by apply (Hid i). }
  unfold quota_known in Hquota. destruct (given (q_space q)) as [sp|]; [destruct (given (q_partition_id q)) as [p|]|].
  - unfold get_partition_quota, _partition_quota, reads. destruct (find_partition_quota r sp p) as [pq|]; [|done].
    eexists. split; [reflexivity|]. apply (Hpage (Some pq)).
  - eexists. split; [reflexivity|]. apply (Hpage None).
  - eexists. split; [reflexivity|]. apply (Hpage None).
Qed.

Lemma walk_remaining fuel q n r l1 l2 :
  (∀ i a, r_assets r !! i = Some a → a_asset_id a = i ∧ datetime_min <= a_created_at a <= datetime_max) →
  1 <= q_limit q → quota_known q r = true → remaining q r l1 l2 → (length l2 < fuel)%nat →
  ∃ pages, walk fuel q n r = (Ok pages, n, r) ∧ concat pages = public_asset <$> l2 ∧
    Forall (λ page, Z.of_nat (length page) <= q_limit q) pages.
Proof.
  intros Hid Hlimit. revert q l1 l2 Hlimit. induction fuel as [|fuel IH]; [lia|]. intros q l1 l2 Hlimit Hquota Hrem Hfuel.
  destruct (listing_page q n r l1 l2 Hid Hlimit Hquota Hrem) as (page & Hrun & Hitems & Hnext).
  cbn [walk]. unfold mbind at 1, M_bind at 1. rewrite Hrun.
  assert (Hlen : Z.of_nat (length (li_items page)) <= q_limit q) by (rewrite Hitems, length_fmap, length_take; lia).
  destruct (li_next_cursor page) as [cursor|].
  - destruct Hnext as [Hrem' Hne].
    edestruct IH with (3 := Hrem') as (pages & Hpages & Hjoin & Hall); [done|done| |].
    { rewrite length_drop. destruct l2; [done|]. cbn in *. lia. }
    unfold mbind, M_bind. rewrite Hpages. eexists. split; [reflexivity|]. cbn [concat].
    rewrite Hjoin, Hitems, <- fmap_app, take_drop.
    split; [reflexivity|constructor; [by rewrite <- Hitems|exact Hall]].
  - eexists. split; [reflexivity|]. cbn [concat]. rewrite Hitems, app_nil_r.
    rewrite <- (take_drop (Z.to_nat (q_limit q)) l2) at 2. rewrite Hnext, app_nil_r.
    split; [reflexivity|constructor; [by rewrite <- Hitems|constructor]].
Qed.

(** C37.  Following the cursors from the first page ends, and lists every asset
    that matches the filters exactly once, in the order of creation time and
    identifier; no page is longer than the limit. *)
Theorem pages_enumerate (fuel : nat) q n r :
  registry_wf n r → (∀ i a, r_assets r !! i = Some a → datetime_min <= a_created_at a <= datetime_max) →
  1 <= q_limit q → q_cursor q = None → quota_known q r = true → (size (r_assets r) < fuel)%nat →
  ∃ pages l, walk fuel q n r = (Ok pages, n, r) ∧ concat pages = public_asset <$> l ∧
    StronglySorted (λ a b, key_ltb (asset_key a) (asset_key b) = true) l ∧
    (∀ a, a ∈ l ↔ (∃ i, r_assets r !! i = Some a) ∧ matches q a = true) ∧
    Forall (λ page, Z.of_nat (length page) <= q_limit q) pages.
Proof.
  intros Hwf Hdates Hlimit Hcursor Hquota Hfuel.
  assert (Hid : ∀ i a, r_assets r !! i = Some a → a_asset_id a = i) by (intros i a Hi; apply (get_wf _ _ _ _ Hwf Hi)).
  destruct (walk_remaining fuel q n r [] (found q r)) as (pages & Hrun & Hjoin & Hall); [by eauto|done..| | |].
  - split; [done|]. unfold AdminQuery.after. by rewrite Hcursor.
  - pose proof (found_length q r). lia.
  - exists pages, (found q r). split_and!; [done..|by apply found_sorted|intros a; apply elem_of_found|done].
Qed.
End Pages.

(** ** Actions *)

Section Console.
Context {E : Env} {D : DumpFilters}.

Definition bump (key : string * string) (counts : gmap (string * string) Z) : gmap (string * string) Z :=
  <[key := default 0 (counts !! key) + 1]> counts.

Lemma wp_observe {A} action (body : M Console A) (Q : res A → nat → Console → Prop) n c :
  wp body (λ res n' c', Q res n' (c' <| co_actions := bump (action, if is_Ok res then "success" else "error") (co_actions c') |>)) n c →
  wp (observe action body) Q n c.
Proof. unfold wp, observe. by destruct (body n c) as [[r n'] c']. Qed.

(** C35.  An operator's action is carried out only on the version of the asset the
    operator was shown; it then does to that asset what it says, answers with the
    record as stored, and leaves every other asset and the bindings of other
    assets alone.  This is stated for every action but a detach of a name that is
    listed on the asset and is not its own normal form: such a detach may take the
    name of another asset.  A refused action changes nothing but tombstones whose
    time was over at a reading of the clock made meanwhile, unless a detach raises
    [OverflowError] because the name's grace period would end after the last date:
    then the name is released.  Each action is counted once, by its outcome. *)
Theorem mutate_spec (n : nat) (c : Console) (i : string) (body : Mutation) :
  let r := co_registry c in
  registry_wf n r → (∀ a, r_assets r !! i = Some a → stable_detach body a) →
  let '(res, n', c') := mutate i body n c in
  let r' := co_registry c' in
  registry_wf n' r' ∧
  co_actions c' = bump (admin_action_name (mu_action body), if is_Ok res then "success" else "error") (co_actions c) ∧
  match res with
  | Ok view => ∃ a a', r_assets r !! i = Some a ∧ a_updated_at a = mu_expected_updated_at body ∧
      r_assets r' !! i = Some a' ∧ view = public_asset a' ∧ performed body a a' ∧ asset_step a a' ∧ untouched i r r'
  | Err e => refused n n' body e r r' ∧ (r_assets r !! i = None → e = AssetNotFoundError) ∧
      (∀ a, r_assets r !! i = Some a → a_updated_at a ≠ mu_expected_updated_at body → e = InvalidStateTransitionError)
  end.
Proof.
  intros r Hwf Hstable. set (action := admin_action_name (mu_action body)).
  change (wp (mutate i body) (λ res n' c', registry_wf n' (co_registry c') ∧
    co_actions c' = bump (action, if is_Ok res then "success" else "error") (co_actions c) ∧ match res with
    | Ok view => ∃ a a', r_assets r !! i = Some a ∧ a_updated_at a = mu_expected_updated_at body ∧
        r_assets (co_registry c') !! i = Some a' ∧ view = public_asset a' ∧ performed body a a' ∧ asset_step a a' ∧
        untouched i r (co_registry c')
    | Err e => refused n n' body e r (co_registry c') ∧ (r_assets r !! i = None → e = AssetNotFoundError) ∧
        (∀ a, r_assets r !! i = Some a → a_updated_at a ≠ mu_expected_updated_at body → e = InvalidStateTransitionError)
    end) n c).
  apply wp_observe. unfold asset_lock. apply wp_bind, wp_zoom, wp_get_asset; [intros a H|intros H]; fold r in H |- *.
  2: { split_and!; [done..|left; apply only_expired_refl|done|congruence]. }
  apply wp_bind, wp_raise_if; intros Hv; guards.
  { split_and!; [done..|left; apply only_expired_refl|congruence|done]. }
  apply dec_stable in Hv. apply wp_bind, wp_zoom. change (co_registry (set_registry r c)) with r.
  eapply wp_mono; [apply wp_and; [by apply apply_mutation_sound|apply wp_and;
    [by apply apply_mutation_refused|by apply wp_apply_mutation, Hstable]]|].
  intros [[]|e] n1 r1 ([Hwf1 Hstep] & Href & Hdone); cycle 1.
  { split_and!; [done..|by apply Href|congruence|]. intros a' Ha' Hne. congruence. }
  destruct Hdone as (a' & Ha' & Hperf & Hframe). apply wp_bind, wp_zoom. apply wp_get_asset; [|cbn; congruence].
  intros a2 Ha2. cbn in Ha2. apply wp_ret. split_and!; [done..|].
  destruct (ev_assets _ _ Hstep _ _ H) as (a3 & Ha3 & Hast).
  exists a, a'. assert (a2 = a') as -> by congruence. assert (a3 = a') as -> by congruence. by split_and!.
Qed.

(** ** Bulk expiry *)

(** The candidate's asset is still as the preview showed it. *)
Definition expirable (query : AssetQuery) (r : Registry) (candidate : Candidate) : bool :=
  match r_assets r !! ca_asset_id candidate with
  | Some a => bool_decide (a_updated_at a = ca_expected_updated_at candidate) && bool_decide (a_state a = AVAILABLE) &&
      existsb (λ alias, prefix_matches alias (default "" (q_prefix query))) (elements (a_aliases a))
  | None => false
  end.

Definition chosen (query : AssetQuery) (r : Registry) (candidates : list Candidate) : list Candidate :=
  filter (λ candidate, Is_true (expirable query r candidate)) candidates.

(** Only the assets of [candidates] changed, into expired ones. *)
Definition expired_only (query : AssetQuery) (candidates : list Candidate) (r r' : Registry) : Prop :=
  r_aliases r' = r_aliases r ∧
  ∀ i, r_assets r' !! i = r_assets r !! i ∨
    ∃ candidate a', candidate ∈ chosen query r candidates ∧ ca_asset_id candidate = i ∧
      r_assets r' !! i = Some a' ∧ a_state a' = EXPIRED.

Definition all_expired (query : AssetQuery) (candidates : list Candidate) (r r' : Registry) : Prop :=
  ∀ candidate, candidate ∈ chosen query r candidates →
    ∃ a', r_assets r' !! ca_asset_id candidate = Some a' ∧ a_state a' = EXPIRED.

Lemma wp_bulk_one query candidate (Q : res bool → nat → Console → Prop) n c :
  let r := co_registry c in let i := ca_asset_id candidate in
  registry_wf n r →
  (r_assets r !! i = None → Q (Err AssetNotFoundError) n c) →
  (is_Some (r_assets r !! i) → expirable query r candidate = false → Q (Ok false) n c) →
  (∀ n' r' a', expirable query r candidate = true → registry_wf n' r' → a_state a' = EXPIRED →
     r_assets r' = <[i := a']> (r_assets r) → r_aliases r' = r_aliases r →
     Q (Ok true) n' (c <| co_registry := r' |>)) →
  wp (bulk_one query candidate) Q n c.
Proof.
  intros r i Hwf Hnone Hskip Hdone. unfold bulk_one, asset_lock. fold i.
  assert (set_registry r c = c) as Hc by by destruct c.
  apply wp_bind, wp_zoom, wp_get_asset; intros; fold r; rewrite Hc; [|by apply Hnone].
  unfold expirable in *. fold i in Hskip, Hdone. fold r in H. rewrite H in *. pose proof (get_wf _ _ _ _ Hwf H) as Ha.
  destruct (decide (a_updated_at a = ca_expected_updated_at candidate)) as [Hv|Hv];
    [rewrite (bool_decide_eq_true_2 _ Hv) in *; rewrite (bool_decide_eq_false_2 (_ ≠ _)) by auto
    |rewrite (bool_decide_eq_false_2 _ Hv) in *; rewrite (bool_decide_eq_true_2 (_ ≠ _)) by auto; by apply wp_ret, Hskip].
  destruct (decide (a_state a = AVAILABLE)) as [Hs|Hs];
    [rewrite (bool_decide_eq_true_2 _ Hs) in *; rewrite (bool_decide_eq_false_2 (_ ≠ _)) by auto
    |rewrite (bool_decide_eq_false_2 _ Hs) in *; rewrite (bool_decide_eq_true_2 (_ ≠ _)) by auto; by apply wp_ret, Hskip].
  cbn [orb andb] in *. destruct (existsb _ _) eqn:He; cbn [negb]; [|by apply wp_ret, Hskip].
  apply wp_bind, wp_zoom. fold r. rewrite (aw_id _ _ Ha).
  eapply wp_expire_ok; [done|exact H|done|]. intros n' r' a' Hwf' Hst Has Hal. apply wp_ret. by eapply Hdone.
Qed.

(** Records that did not change stay as expirable as they were. *)
Lemma chosen_ext query r r' candidates :
  (∀ candidate, candidate ∈ candidates → r_assets r' !! ca_asset_id candidate = r_assets r !! ca_asset_id candidate) →
  chosen query r' candidates = chosen query r candidates.
Proof.
  intros Hsame. unfold chosen. induction candidates as [|x l IH]; [done|].
  assert (Hx : expirable query r' x = expirable query r x).
  { unfold expirable. by rewrite (Hsame x) by apply list_elem_of_here. }
  rewrite !filter_cons, IH by (intros y Hy; apply Hsame; by apply list_elem_of_further).
  destruct (decide _) as [H1|H1], (decide _) as [H2|H2]; congruence.
Qed.

Lemma elem_of_chosen query r candidates x :
  x ∈ chosen query r candidates ↔ x ∈ candidates ∧ expirable query r x = true.
Proof. unfold chosen. rewrite list_elem_of_filter, Is_true_true. tauto. Qed.

(** The loop over the candidates still to come. *)
Lemma wp_bulk_loop query candidates applied skipped n c :
  let r := co_registry c in
  registry_wf n r → NoDup (ca_asset_id <$> candidates) →
  wp (bulk_loop query candidates applied skipped) (λ res n' c', let r' := co_registry c' in
    registry_wf n' r' ∧ co_actions c' = co_actions c ∧ expired_only query candidates r r' ∧
    match res with
    | Ok (applied', skipped') => all_expired query candidates r r' ∧
        applied' = applied + Z.of_nat (length (chosen query r candidates)) ∧
        applied' + skipped' = applied + skipped + Z.of_nat (length candidates)
    | Err e => e = AssetNotFoundError ∧ ∃ x, x ∈ candidates ∧ r_assets r !! ca_asset_id x = None
    end) n c.
Proof.
  revert applied skipped n c. induction candidates as [|x l IH]; intros applied skipped n c r Hwf Hnd; cbn [bulk_loop].
  { apply wp_ret. do 2 (split; [done|]). split; [split; [done|by left]|].
    split; [by intros ? []%elem_of_nil|cbn; lia]. }
  cbn in Hnd. apply NoDup_cons in Hnd as [Hx Hnd].
  apply wp_bind, wp_bulk_one; fold r; [done|intros Hnone|intros Hsome Hskip|intros n1 r1 a1 Hexp Hwf1 Hst Has Hal].
  - do 2 (split; [done|]). split; [split; [done|by left]|]. split; [done|].
    exists x. split; [by apply list_elem_of_here|done].
  - assert (Hch : chosen query r (x :: l) = chosen query r l).
    { unfold chosen. rewrite filter_cons_False; [done|by rewrite Hskip; intros []]. }
    eapply wp_mono; [by apply IH|]. cbv beta zeta. intros res n' c' (? & ? & Honly & Hres). fold r in Honly, Hres |- *. do 2 (split; [done|]). split.
    + unfold expired_only. rewrite Hch. exact Honly.
    + destruct res as [[ap sk]|e]; [unfold all_expired; rewrite Hch; cbn [length]; destruct Hres as (? & ? & ?); split_and!; [done|lia|lia]|].
      destruct Hres as (-> & y & Hy & Hnone). split; [done|]. exists y. split; [by apply list_elem_of_further|done].
  - assert (Hsame : ∀ y, y ∈ l → r_assets r1 !! ca_asset_id y = r_assets r !! ca_asset_id y).
    { intros y Hy. rewrite Has. apply lookup_insert_ne. intros Heq. apply Hx. rewrite Heq. by apply list_elem_of_fmap_2. }
    assert (Hch : chosen query r (x :: l) = x :: chosen query r1 l).
    { rewrite (chosen_ext _ _ _ _ Hsame). unfold chosen. by rewrite filter_cons_True by (by rewrite Hexp). }
    eapply wp_mono; [by apply IH|]. cbv beta zeta. intros res n' c' (? & ? & [Hal' Honly] & Hres).
    change (co_registry (c <| co_registry := r1 |>)) with r1 in *. fold r. do 2 (split; [done|]).
    assert (Hxr : r_assets (co_registry c') !! ca_asset_id x = Some a1).
    { destruct (Honly (ca_asset_id x)) as [Hx'|(y & ? & Hy & Heq & _)]; [by rewrite Hx', Has, lookup_insert_eq|].
      apply elem_of_chosen in Hy as [Hy _]. destruct Hx. rewrite <- Heq. by apply list_elem_of_fmap_2. }
    split; [split; [congruence|]|].
    + intros i. destruct (decide (i = ca_asset_id x)) as [->|Hi].
      * right. exists x, a1. rewrite Hch. split_and!; [apply list_elem_of_here|done..].
      * destruct (Honly i) as [Hsm|(y & a' & Hy & ? & ? & ?)].
        -- left. by rewrite Hsm, Has, lookup_insert_ne.
        -- right. exists y, a'. rewrite Hch. split_and!; [by apply list_elem_of_further|done..].
    + destruct res as [[ap sk]|e]; cbn in Hres.
      * destruct Hres as (Hall & -> & Hsum). unfold all_expired. rewrite Hch. split_and!; [|cbn [length]; lia..].
        intros y [->|Hy]%elem_of_cons; [by exists a1|by apply Hall].
      * destruct Hres as (-> & y & Hy & Hnone). split; [done|]. exists y.
        split; [by apply list_elem_of_further|by rewrite <- Hsame].
Qed.

(** What the routes of the bulk expiry ask the registry for. *)
Lemma bulk_query_fields prefix query :
  bulk_query prefix = Ok query →
  q_state query = Some AVAILABLE ∧ q_cursor query = None ∧ q_limit query = 500 ∧ is_Some (q_prefix query).
Proof.
  unfold bulk_query, validate_filters, mbind, res_bind.
  destruct prefix as [|ch p]; cbn -[normalize_relative_alias normalize_space partition_on split_on]; [done|].
  destruct (normalize_relative_alias _) as [p'|]; [|done].
  destruct (normalize_space _); [|done]. cbn -[split_on]. case_match; [done|]. intros [= <-]. cbn. by eauto.
Qed.

(** The whole of a short answer. *)
Lemma query_short q n r :
  (∀ i a, r_assets r !! i = Some a → a_asset_id a = i) → q_cursor q = None →
  query_assets q n r = (Ok (take (Z.to_nat (q_limit q + 1)) (found q r)), n, r).
Proof. intros Hid Hc. apply (query_remaining q n r []); [done|]. split; [done|]. unfold AdminQuery.after. by rewrite Hc. Qed.

Lemma preview_run prefix query n r :
  (∀ i a, r_assets r !! i = Some a → a_asset_id a = i) → bulk_query prefix = Ok query →
  preview prefix n r =
    if Z.of_nat (length (found query r)) <=? 500
    then (Ok (mk_preview (q_prefix query) ((λ a, (a_asset_id a, a_updated_at a)) <$> found query r)), n, r)
    else (Err ValidationError, n, r).
Proof.
  intros Hid Hq. destruct (bulk_query_fields _ _ Hq) as (_ & Hc & Hl & _).
  unfold preview, mbind, M_bind, of_res. rewrite Hq, (query_short _ _ _ Hid Hc), Hl, length_take.
  change (Z.to_nat (500 + 1)) with 501%nat.
  destruct (Z.leb_spec (Z.of_nat (length (found query r))) 500), (Z.ltb_spec 500 (Z.of_nat (501 `min` length (found query r))));
    [lia| |done|lia]. cbn [raise_if]. by rewrite take_ge by lia.
Qed.

(** The request is well formed. *)
Definition bulk_admissible (prefix : string) (candidates : list Candidate) : Prop :=
  (length candidates <= 500)%nat ∧ is_Ok (bulk_query prefix) = true ∧ NoDup (ca_asset_id <$> candidates).

Definition bulk_post (prefix : string) (candidates : list Candidate) (c : Console) (res : res (Z * Z)) (c' : Console) : Prop :=
  let r := co_registry c in let r' := co_registry c' in
  match res with
  | Ok (applied, skipped) => ∃ query, bulk_query prefix = Ok query ∧
      expired_only query candidates r r' ∧ all_expired query candidates r r' ∧
      applied = Z.of_nat (length (chosen query r candidates)) ∧ applied + skipped = Z.of_nat (length candidates) ∧
      co_actions c' = bump ("bulk_expire", "success") (co_actions c)
  | Err e => (c' = c ∧ ¬ bulk_admissible prefix candidates) ∨ ∃ query, bulk_query prefix = Ok query ∧ e = AssetNotFoundError ∧
      expired_only query candidates r r' ∧ (∃ x, x ∈ candidates ∧ r_assets r !! ca_asset_id x = None) ∧
      co_actions c' = bump ("bulk_expire", "error") (co_actions c)
  end.

Lemma wp_bulk_run prefix candidates n c :
  registry_wf n (co_registry c) →
  wp (bulk prefix candidates) (λ res n' c', registry_wf n' (co_registry c') ∧ bulk_post prefix candidates c res c') n c.
Proof.
  intros Hwf. unfold bulk, bulk_post, bulk_admissible.
  apply wp_bind, wp_raise_if; intros Hlen; [split; [done|left; split; [done|intros [? _]; lia]]|].
  apply wp_bind, wp_of_res. destruct (bulk_query prefix) as [query|e] eqn:Hq; [|split; [done|left; naive_solver]].
  apply wp_bind, wp_raise_if; intros Hnd; guards; [split; [done|left; naive_solver]|]. apply dec_stable in Hnd.
  apply wp_observe. eapply wp_mono; [by apply wp_bulk_loop|]. cbv beta zeta.
  intros res n' c' (Hwf' & Hact & Honly & Hres). split; [done|].
  destruct res as [[ap sk]|e]; [|right]; exists query; cbn [co_registry co_actions replace_field replace_co_actions is_Ok].
  - destruct Hres as (Hall & -> & Hsum). rewrite Hact. split_and!; try done; lia.
  - destruct Hres as [-> Hx]. rewrite Hact. by split_and!.
Qed.

(** C36.  A bulk expiry expires exactly the candidates that are still available, under
    the prefix and at the version the preview showed, counts the others as
    skipped, and changes no binding and no other asset.  A refused one changes
    nothing, unless a candidate is unknown: those before it may be expired. *)
Theorem bulk_expire_spec (n : nat) (c : Console) (prefix : string) (candidates : list Candidate) :
  registry_wf n (co_registry c) →
  let '(res, n', c') := bulk prefix candidates n c in
  registry_wf n' (co_registry c') ∧ bulk_post prefix candidates c res c'.
Proof. apply wp_bulk_run. Qed.

Lemma found_expirable query r a :
  (∀ i a, r_assets r !! i = Some a → a_asset_id a = i) → q_state query = Some AVAILABLE → is_Some (q_prefix query) →
  a ∈ found query r → expirable query r (mk_candidate (a_asset_id a) (a_updated_at a)) = true.
Proof.
  intros Hid Hst [p Hp] [[i Hi] Hm]%elem_of_found. unfold expirable. cbn [ca_asset_id ca_expected_updated_at].
  pose proof (Hid _ _ Hi) as ->. rewrite Hi, bool_decide_eq_true_2 by done. unfold matches in Hm. rewrite Hst, Hp in *.
  cbn [default from_option id]. destruct (bool_decide (a_state a = AVAILABLE)); [|by rewrite !andb_false_r in Hm].
  destruct (existsb _ _); [done|by rewrite !andb_false_r in Hm].
Qed.

(** Applying a preview to the registry it was made from expires every
    previewed asset, skips none, and leaves nothing for the next preview. *)
Theorem preview_then_expire (n : nat) (c : Console) (prefix : string) (pv : Preview) (n1 : nat) (r1 : Registry) :
  registry_wf n (co_registry c) → preview prefix n (co_registry c) = (Ok pv, n1, r1) →
  let candidates := (λ p, mk_candidate p.1 p.2) <$> pv_candidates pv in
  let '(res, n', c') := bulk prefix candidates n c in
  res = Ok (Z.of_nat (length candidates), 0) ∧
  preview prefix n' (co_registry c') = (Ok (mk_preview (pv_prefix pv) []), n', co_registry c').
Proof.
  intros Hwf Hpv. set (r := co_registry c) in *.
  assert (Hid : ∀ n r i a, registry_wf n r → r_assets r !! i = Some a → a_asset_id a = i)
    by (intros ? ? ? ? Hw Hi; apply (get_wf _ _ _ _ Hw Hi)).
  destruct (bulk_query prefix) as [query|e] eqn:Hq; cycle 1.
  { unfold preview, mbind, M_bind, of_res in Hpv. by rewrite Hq in Hpv. }
  destruct (bulk_query_fields _ _ Hq) as (Hst & Hc & _ & Hpre).
  rewrite (preview_run _ _ _ _ (λ i a, Hid n r i a Hwf) Hq) in Hpv.
  destruct (Z.leb_spec (Z.of_nat (length (found query r))) 500) as [Hlen|]; [|done]. injection Hpv as <- <- <-.
  cbn [pv_candidates pv_prefix]. rewrite <- list_fmap_compose. unfold compose. cbn [fst snd].
  set (candidates := _ <$> found query r).
  assert (Hnd : NoDup (ca_asset_id <$> candidates)).
  { unfold candidates. rewrite <- list_fmap_compose. apply found_ids_NoDup. by eauto. }
  assert (Hchosen : chosen query r candidates = candidates).
  { unfold chosen. apply filter_all. intros x (a & -> & Ha)%list_elem_of_fmap. rewrite found_expirable; by eauto. }
  assert (Hadm : bulk_admissible prefix candidates).
  { split; [unfold candidates; rewrite length_fmap; lia|]. by rewrite Hq. }
  pose proof (wp_bulk_run prefix candidates n c Hwf) as Hrun. unfold wp in Hrun.
  destruct (bulk prefix candidates n c) as [[res n'] c']. destruct Hrun as [Hwf' Hres]. unfold bulk_post in Hres.
  rewrite Hq in Hres. fold r in Hres. destruct res as [[ap sk]|e]; cycle 1.
  { destruct Hres as [[_ []]|(query' & [= <-] & _ & _ & (x & Hx & Hnone) & _)]; [done|]. exfalso.
    apply list_elem_of_fmap in Hx as (a & -> & [[i Hi] _]%elem_of_found). cbn in Hnone.
    rewrite (Hid _ _ _ _ Hwf Hi) in Hnone. congruence. }
  destruct Hres as (query' & [= <-] & [Hal Honly] & Hall & Hap & Hsum & _). rewrite Hchosen in Hap.
  split; [do 2 f_equal; lia|]. rewrite (preview_run _ _ _ _ (λ i a, Hid _ _ i a Hwf') Hq).
  assert (found query (co_registry c') = []) as ->; [|done].
  apply elem_of_nil_inv. intros a [[i Hi] Hm]%elem_of_found.
  assert (Hexpired : a_state a = EXPIRED).
  { destruct (Honly i) as [Hsame|(_ & a' & _ & _ & Ha' & He)]; [|congruence].
    assert (a ∈ found query r) as Ha by (apply elem_of_found; split; [exists i; congruence|done]).
    destruct (Hall (mk_candidate (a_asset_id a) (a_updated_at a))) as (a' & Ha' & He).
    - rewrite Hchosen. apply list_elem_of_fmap. by exists a.
    - cbn in Ha'. rewrite (Hid _ _ _ _ Hwf' Hi) in Ha'. congruence. }
  unfold matches in Hm. rewrite Hst, Hexpired in Hm. by rewrite !andb_false_r in Hm.
Qed.
End Console.

(** ** Examples *)

Definition demo_query : AssetQuery := mk_query (Some "cache") (Some "p") None None None None 1 None.
Definition demo_console : Console := mk_console demo.2 ∅.

(** A test of every record. *)
Lemma assets_test (test : Asset → bool) (r : Registry) :
  forallb (λ p, test p.2) (map_to_list (r_assets r)) = true → ∀ i a, r_assets r !! i = Some a → test a = true.
Proof. intros Hall i a Hi. rewrite forallb_forall in Hall. by apply (Hall (i, a)), list_elem_of_In, elem_of_map_to_list. Qed.

Lemma pages_enumerate_witness :
  ∃ pages l, walk 5 demo_query demo.1 demo.2 = (Ok pages, demo.1, demo.2) ∧ concat pages = public_asset <$> l ∧
    StronglySorted (λ a b, key_ltb (asset_key a) (asset_key b) = true) l ∧
    (∀ a, a ∈ l ↔ (∃ i, r_assets demo.2 !! i = Some a) ∧ matches demo_query a = true) ∧
    Forall (λ page, Z.of_nat (length page) <= 1) pages.
Proof.
  apply (pages_enumerate 5 demo_query demo.1 demo.2); [apply registry_wf_demo| |by vm_compute..|].
  - intros i a Hi. pose proof (assets_test (λ a, (datetime_min <=? a_created_at a) && (a_created_at a <=? datetime_max))
      demo.2 ltac:(by vm_compute) i a Hi) as [?%Z.leb_le ?%Z.leb_le]%andb_prop. lia.
  - apply Nat.ltb_lt. by vm_compute.
Defined.

(** Detaching one of the two names of the first asset. *)
Definition version_of (i : string) (r : Registry) : Z := from_option a_updated_at 0 (r_assets r !! i).

Definition demo_detach : Mutation :=
  mk_mutation (version_of "id-0" demo.2) AdminDetach None (Some "/p/x") false None None.

Lemma mutate_spec_witness :
  let '(res, n', c') := mutate "id-0" demo_detach demo.1 demo_console in
  is_Ok res = true ∧ registry_wf n' (co_registry c') ∧ untouched "id-0" demo.2 (co_registry c') ∧
  a_aliases <$> r_assets (co_registry c') !! "id-0" = Some {["cache/p/y"]}.
Proof.
  assert (Hwf : registry_wf demo.1 (co_registry demo_console)) by apply registry_wf_demo.
  assert (Hstable : ∀ a, r_assets (co_registry demo_console) !! "id-0" = Some a → stable_detach demo_detach a).
  { intros a Ha _ _. assert (Hs : a_space <$> r_assets demo.2 !! "id-0" = Some "cache") by by vm_compute.
    change (co_registry demo_console) with demo.2 in Ha. rewrite Ha in Hs. injection Hs as ->. by vm_compute. }
  pose proof (mutate_spec demo.1 demo_console "id-0" demo_detach Hwf Hstable) as Hspec.
  assert (Hok : is_Ok (mutate "id-0" demo_detach demo.1 demo_console).1.1 = true) by by vm_compute.
  assert (Hnames : a_aliases <$> r_assets (co_registry (mutate "id-0" demo_detach demo.1 demo_console).2) !! "id-0" =
    Some {["cache/p/y"]}) by by vm_compute.
  destruct (mutate "id-0" demo_detach demo.1 demo_console) as [[res n'] c'].
  destruct Hspec as (Hwf' & _ & Hres). destruct res as [view|e]; [|done].
  destruct Hres as (a & a' & _ & _ & _ & _ & _ & _ & Hun). by split_and!.
Defined.

Definition demo_candidates : list Candidate :=
  [mk_candidate "id-0" (version_of "id-0" demo.2); mk_candidate "id-7" (version_of "id-7" demo.2)].

Lemma bulk_expire_spec_witness :
  let '(res, n', c') := bulk "cache/p" demo_candidates demo.1 demo_console in
  res = Ok (1, 1) ∧ registry_wf n' (co_registry c') ∧ bulk_post "cache/p" demo_candidates demo_console res c'.
Proof.
  pose proof (bulk_expire_spec demo.1 demo_console "cache/p" demo_candidates (registry_wf_demo _)) as Hspec.
  assert (Hrun : (bulk "cache/p" demo_candidates demo.1 demo_console).1.1 = Ok (1, 1)) by by vm_compute.
  destruct (bulk "cache/p" demo_candidates demo.1 demo_console) as [[res n'] c']. by split.
Defined.

Definition demo_preview : res Preview * nat * Registry := preview "cache/p" demo.1 demo.2.

Lemma preview_then_expire_witness :
  ∃ pv, demo_preview.1.1 = Ok pv ∧ length (pv_candidates pv) = 1%nat ∧
  let '(res, n', c') := bulk "cache/p" ((λ p, mk_candidate p.1 p.2) <$> pv_candidates pv) demo.1 demo_console in
  res = Ok (1, 0) ∧ preview "cache/p" n' (co_registry c') = (Ok (mk_preview (pv_prefix pv) []), n', co_registry c').
Proof.
  destruct (Ok_test (λ pv, (length (pv_candidates pv) =? 1)%nat) demo_preview.1.1) as (pv & Hpv & Hlen); [by vm_compute|].
  apply Nat.eqb_eq in Hlen. exists pv. split; [done|]. split; [done|].
  assert (Hrun : preview "cache/p" demo.1 (co_registry demo_console) = (Ok pv, demo_preview.1.2, demo_preview.2))
    by by apply run_result.
  pose proof (preview_then_expire demo.1 demo_console "cache/p" pv _ _ (registry_wf_demo _) Hrun) as Hspec.
  cbv zeta in Hspec. rewrite length_fmap, Hlen in Hspec. exact Hspec.
Defined.

(** ** A name that is not its own normal form *)

(** The names [x / / /] and [x] of two assets: the console shows the first one as
    [cache/p/x ], which [detach_alias] normalises to the second. *)
Definition shadowed : list call :=
  [CallReserve "cache" "p" (AliasMap [("x / / /", false)]) "svc" None None INHERIT None None;
   CallReserve "cache" "p" (AliasMap [("x", false)]) "svc" None None INHERIT None None].

Definition shadowed_detach : Mutation :=
  mk_mutation (version_of "id-0" (Scenario.after shadowed).2) AdminDetach None (Some "p/x /") false None None.

(** Detaching an asset's own name through the console can release the name of
    another asset instead, and expire that asset: the name is checked as it is
    stored but looked up normalised. *)
Theorem admin_detach_hits_other :
  let r := (Scenario.after shadowed).2 in
  let '(res, n', c') := mutate "id-0" shadowed_detach (Scenario.after shadowed).1 (mk_console r ∅) in
  is_Ok res = true ∧ a_aliases <$> r_assets r !! "id-3" = Some {["cache/p/x"]} ∧
  (a_state <$> r_assets (co_registry c') !! "id-3") = Some EXPIRED ∧
  (a_aliases <$> r_assets (co_registry c') !! "id-3") = Some ∅ ∧
  r_assets (co_registry c') !! "id-0" = r_assets r !! "id-0".
Proof. vm_compute. repeat split. Qed.
