(* ===== verification/RegistryPayload.v ===== *)
(** * Who gives an asset its bytes

    A committed asset has a size on record, and only [commit_asset] records one.
    Every other method of the registry is [tame]: it preserves the invariant, changes
    assets by steps and records the size of no asset.  The guard's promise that
    committed bytes are in the store therefore survives every such call. *)

From S2P Require Import Prelude Errors Python Effects Paths Models Retention Sha256 Registry RegistryInv RegistrySound RegistryNames Codec AdminQuery Admin AdminActions.

(** No asset acquired a size. *)
Definition payload_kept (r r' : Registry) : Prop := ∀ i a', r_assets r' !! i = Some a' →
  is_Some (a_size_bytes a') → ∃ a, r_assets r !! i = Some a ∧ is_Some (a_size_bytes a).

#[export] Instance payload_kept_preorder : PreOrder payload_kept.
Proof.
  split; [by intros r i a' Hi Hs; eexists|]. intros r1 r2 r3 H1 H2 i a3 Hi Hs.
  destruct (H2 i a3 Hi Hs) as (a2 & Hi2 & Hs2). by apply (H1 i a2).
Qed.

Lemma payload_same (r r' : Registry) : r_assets r' = r_assets r → payload_kept r r'.
Proof. intros Ha i a Hi Hs. rewrite Ha in Hi. by eexists. Qed.

Lemma payload_put i a a' (r r' : Registry) :
  r_assets r !! i = Some a → a_size_bytes a' = a_size_bytes a → r_assets r' = <[i := a']> (r_assets r) → payload_kept r r'.
Proof.
  intros Hi Hsz Ha j b Hj Hs. rewrite Ha, lookup_insert in Hj. case_decide; [|by exists b].
  simplify_eq. exists a. by rewrite <- Hsz.
Qed.

Lemma payload_new i a' (r r' : Registry) :
  a_size_bytes a' = None → r_assets r' = <[i := a']> (r_assets r) → payload_kept r r'.
Proof.
  intros Hsz Ha j b Hj Hs. rewrite Ha, lookup_insert in Hj. case_decide; [|by exists b].
  simplify_eq. rewrite Hsz in Hs. by destruct Hs.
Qed.

(** What a call other than a commit does. *)
Definition tame_step (r r' : Registry) : Prop := evolves r r' ∧ payload_kept r r'.

#[export] Instance tame_step_preorder : PreOrder tame_step.
Proof.
  split; [split; reflexivity|]. intros r1 r2 r3 [? ?] [? ?]. split; etrans; eassumption.
Qed.

Abbreviation tame m := (preserves registry_wf tame_step m).

Section Payload.
#[local] Set Default Proof Using "Type*".
Context {E : Env} `{!FreshIds E}.

(** ** Tame computations *)

Lemma tame_frame : PreOrder tame_step ∧ ∀ n n' r, (n <= n')%nat → registry_wf n r → registry_wf n' r.
Proof. split; [exact _|exact registry_wf_mono]. Qed.

Lemma tame_intro {A} late (m : M Registry A) :
  sound_upto late m → advances m → (∀ n r, registry_wf n r → wp m (λ _ _ r', payload_kept r r') n r) → tame m.
Proof.
  intros Hs Ha Hp n r Hwf. eapply wp_mono; [apply wp_and; [by apply Hs|apply wp_and; [by apply Ha|by apply Hp]]|].
  intros res n' r' ([Hwf' Hstep] & Hn & Hk). split_and!; try done. split; [|done].
  by eapply step_ok_evolves.
Qed.

Lemma tame_reads {A} (f : Registry → res A) : tame (reads f).
Proof. apply preserves_same; [exact tame_frame|]. intros n r. by apply wp_reads. Qed.

Lemma tame_ignore {A} (m : M Registry A) : tame (ignore m) → tame m.
Proof.
  intros H n r Hwf. specialize (H n r Hwf). revert H. unfold ignore, wp, mbind, M_bind.
  by destruct (m n r) as [[[a|e] n'] r'].
Qed.

(** ** The methods *)

Definition gives_bytes (c : call) : bool := match c with CallCommit _ _ _ _ _ _ => true | _ => false end.

Ltac kept := cbn in *; first
  [ apply payload_same; reflexivity || eassumption
  | eapply payload_put; [eassumption| |reflexivity || eassumption]; reflexivity ].

Lemma wp_require_frame space name (Q : res unit → nat → Registry → Prop) n r :
  (∀ res n' r', r_assets r' = r_assets r → Q res n' r') → wp (_require_alias_name_available space name) Q n r.
Proof.
  intros HQ. unfold _require_alias_name_available, _alias_name_is_blocked. repeat frame_step; by apply HQ.
Qed.

Lemma wp_gc_payload i caller (Q : res unit → nat → Registry → Prop) n r :
  (∀ res n' r', payload_kept r r' → Q res n' r') → wp (_mark_for_gc_if_orphaned i caller) Q n r.
Proof.
  intros HQ. unfold _mark_for_gc_if_orphaned. repeat frame_step; apply HQ; kept.
Qed.

(** A method whose runs write known assets. *)
Ltac run_payload :=
  unfold expire_asset, delete_asset, update_annotations, set_eviction_policy, set_asset_ttl, set_partition_quota,
    set_bucket_quota, record_read, record_capability_issue, recent_audit, resolve_alias, rebind_alias,
    raise_about_if, raise_about, _get_binding, _add_alias_to_asset, _remove_alias_from_asset, put_partition_quota,
    put_bucket_quota, _partition_quota, _bucket_quota;
  repeat frame_step; kept.

Lemma exec_payload c n r : gives_bytes c = false → registry_wf n r → wp (exec c) (λ _ _ r', payload_kept r r') n r.
Proof.
  intros Hc Hwf. destruct c; try done; cbn -[detach_alias]; unfold ignore.
  all: try solve [run_payload].
  - apply wp_bind. apply wp_reserve_asset; [done|intros e n' r' _ (? & -> & _); by apply payload_same|].
    intros a n' r' Hwf' _ Hres. apply wp_ret. eapply payload_new; [|apply Hres].
    apply (aw_pending (a_asset_id a) a); [|apply Hres]. eapply get_wf; [done|]. by rewrite (rs_assets _ _ _ _ _ _ _ _ Hres), lookup_insert_eq.
  - unfold attach_alias, _add_alias_to_asset. repeat frame_step; try kept.
    all: apply wp_require_frame; intros res n1 r1 H1; repeat frame_step; transitivity r1; kept.
  - apply wp_detach_alias; [done|intros; reflexivity| |].
    { intros key b j a _ _ _ _ _ Hj _ _ _ r' _ _. eapply (payload_put j a); [exact Hj| |reflexivity]; reflexivity. }
    intros key b j a n' r' _ _ _ _ _ Hj _ _ _ _ Ha _ _ _.
    apply wp_gc_payload. intros _ _ r2 Hr2. etrans; [|exact Hr2].
    eapply payload_put; [exact Hj| |exact Ha]; reflexivity.
  - unfold detach_mutable_alias, raise_about_if, raise_about, _get_binding, _remove_alias_from_asset.
    repeat frame_step; try kept.
    all: apply wp_gc_payload; intros res n2 r2 Hr2; repeat frame_step; (etrans; [|exact Hr2]); kept.
  - apply wp_bind, wp_lifecycle_update; [done|intros; reflexivity|]. intros p events Hi _ _ a'. apply wp_ret.
    kept.
  - unfold set_asset_ttl. repeat frame_step; try kept.
    eapply payload_put; [exact H| |cbn; by rewrite H2]; reflexivity.
Qed.

(** Every call but a commit is tame. *)
Lemma exec_tame c : gives_bytes c = false → tame (exec c).
Proof. intros Hc. eapply tame_intro; [apply exec_sound|apply exec_advances|]. intros n r. by apply exec_payload. Qed.

Lemma reserve_tame space partition aliases owner mime annotations policy ttl bytes :
  tame (reserve_asset space partition aliases owner mime annotations policy ttl bytes).
Proof. apply tame_ignore. by apply (exec_tame (CallReserve _ _ _ _ _ _ _ _ _)). Qed.
Lemma annotate_tame i patch caller overwrite : tame (update_annotations i patch caller overwrite).
Proof. apply tame_ignore. by apply (exec_tame (CallAnnotate _ _ _ _)). Qed.
Lemma attach_tame i alias mutable caller : tame (attach_alias i alias mutable caller).
Proof. apply tame_ignore. by apply (exec_tame (CallAttach _ _ _ _)). Qed.
Lemma resolve_tame space alias : tame (resolve_alias space alias).
Proof. apply tame_ignore. by apply (exec_tame (CallResolve _ _)). Qed.
Lemma detach_tame space alias caller : tame (detach_alias space alias caller).
Proof. by apply (exec_tame (CallDetach _ _ _)). Qed.
Lemma detach_mutable_tame space alias caller : tame (detach_mutable_alias space alias caller).
Proof. apply tame_ignore. by apply (exec_tame (CallDetachMutable _ _ _)). Qed.
Lemma rebind_tame space alias i caller : tame (rebind_alias space alias i caller).
Proof. apply tame_ignore. by apply (exec_tame (CallRebind _ _ _ _)). Qed.
Lemma expire_tame i caller : tame (expire_asset i caller).
Proof. apply tame_ignore. by apply (exec_tame (CallExpire _ _)). Qed.
Lemma delete_tame i caller : tame (delete_asset i caller).
Proof. apply tame_ignore. by apply (exec_tame (CallDelete _ _)). Qed.
Lemma eviction_policy_tame i policy caller : tame (set_eviction_policy i policy caller).
Proof. apply tame_ignore. by apply (exec_tame (CallEvictionPolicy _ _ _)). Qed.
Lemma partition_quota_tame space partition bytes count sweep caller :
  tame (set_partition_quota space partition bytes count sweep caller).
Proof. apply tame_ignore. by apply (exec_tame (CallPartitionQuota _ _ _ _ _ _)). Qed.
Lemma bucket_quota_tame space bytes warn hard : tame (set_bucket_quota space bytes warn hard).
Proof. apply tame_ignore. by apply (exec_tame (CallBucketQuota _ _ _ _)). Qed.
Lemma record_read_tame i : tame (record_read i).
Proof. by apply (exec_tame (CallRecordRead _)). Qed.
Lemma set_ttl_tame i ttl caller : tame (set_asset_ttl i ttl caller).
Proof. apply tame_ignore. by apply (exec_tame (CallSetTtl _ _ _)). Qed.
Lemma capability_issue_tame caller op scope ttl outcome id : tame (record_capability_issue caller op scope ttl outcome id).
Proof. by apply (exec_tame (CallCapabilityIssue _ _ _ _ _ _)). Qed.
Lemma recent_audit_tame i limit : tame (recent_audit i limit).
Proof. apply tame_ignore. by apply (exec_tame (CallRecentAudit _ _)). Qed.
Lemma get_asset_tame i : tame (_get_asset i).
Proof. apply tame_reads. Qed.
End Payload.

#[export] Hint Resolve tame_reads reserve_tame annotate_tame attach_tame
  resolve_tame detach_tame detach_mutable_tame rebind_tame expire_tame delete_tame eviction_policy_tame
  partition_quota_tame bucket_quota_tame record_read_tame set_ttl_tame capability_issue_tame recent_audit_tame
  get_asset_tame : preserves.

Ltac solve_tame := solve_preserves ltac:(exact tame_frame).

(** ** The console's computations over the registry *)

Section Console.
#[local] Set Default Proof Using "Type*".
Context {E : Env} `{!FreshIds E} {D : DumpFilters}.

Lemma get_quota_tame space partition : tame (get_partition_quota space partition).
Proof. apply tame_reads. Qed.
Lemma get_bucket_tame space : tame (get_bucket_quota space).
Proof. apply tame_reads. Qed.
#[local] Hint Resolve get_quota_tame : preserves.

Lemma query_tame q : tame (query_assets q).
Proof. unfold query_assets. solve_tame. Qed.
#[local] Hint Resolve query_tame : preserves.

Lemma listing_tame q : tame (listing q).
Proof. unfold listing. solve_tame. Qed.
Lemma inspect_tame i : tame (inspect i).
Proof. unfold inspect, get_asset. solve_tame. Qed.
Lemma audit_tame limit : tame (audit limit).
Proof. unfold audit. solve_tame. Qed.
Lemma preview_tame prefix : tame (preview prefix).
Proof. unfold preview. solve_tame. Qed.
Lemma apply_mutation_tame i body a : tame (apply_mutation i body a).
Proof. unfold apply_mutation. solve_tame. Qed.
End Console.

#[export] Hint Resolve get_quota_tame get_bucket_tame listing_tame inspect_tame audit_tame preview_tame
  apply_mutation_tame : preserves.
