(* ===== verification/Guard.v ===== *)
(** * The storage guard

    [asset_store_core/guard.py]: the facade that authorises every read and write,
    over any registry and any object-store backend.  [Guard] is the object's
    state; a method is a computation over it. *)

From S2P Require Import Prelude Errors Python Effects Paths Models Retention Sha256 Registry Capabilities ObjectStore.

Definition DEFAULT_PRESIGN_TTL_SECONDS : Z := 300.
Definition MAX_PRESIGN_TTL_SECONDS : Z := 3600.

(** ** Parsing a qualified alias *)

Record ParsedAlias := mk_parsed {
  pa_space : string;
  pa_relative : string;
  pa_partition_id : string;
  pa_alias_in_partition : string;
  pa_qualified : string
}.

Definition _parse_alias (alias : string) : res ParsedAlias :=
  let cleaned := strip_slashes (strip alias) in
  let '(space_raw, sep, remainder) := partition_on "/" cleaned in
  if negb sep || bool_decide (remainder = "") then Err ValidationError
  else
    space ← normalize_space space_raw;
    relative ← normalize_relative_alias remainder;
    let '(partition_raw, psep, in_partition) := partition_on "/" relative in
    if negb psep || bool_decide (in_partition = "") then Err ValidationError
    else
      partition_id ← normalize_partition_id partition_raw;
      alias_in_partition ← normalize_relative_alias in_partition;
      qualified ← qualified_alias space relative;
      mret (mk_parsed space relative partition_id alias_in_partition qualified).

Record GuardedRead := mk_guarded_read {
  gr_asset : Asset;
  gr_location : ObjectStoreLocation
}.

Record PresignedRead := mk_presigned_read {
  pr_asset : Asset;
  pr_url : string;
  pr_expires_in : Z;
  pr_expires_at : Z
}.

(** [int(delta.total_seconds())] truncates towards zero.  The double nearest to a
    seconds truncates like the exact quotient for a difference below 2^53
    microseconds; a longer one exceeds every bound it is compared with. *)
Definition whole_seconds (delta : Z) : Z := Z.quot delta usec_per_sec.

(** ** State *)

Record Guard (R O : Type) := mk_guard {
  g_registry : R;
  g_store : O;
  g_ledger : Ledger;
  g_cleanup_total : gmap (string * string) Z;
  g_reservation_total : gmap (string * string) Z
}.
Arguments mk_guard {R O}.
Arguments g_registry {R O}.
Arguments g_store {R O}.
Arguments g_ledger {R O}.
Arguments g_cleanup_total {R O}.
Arguments g_reservation_total {R O}.

Section Guard.
Context {E : Env} {R O : Type} `{!AssetRegistry R} `{!ObjectStoreBackend O}.

Abbreviation GM := (M (Guard R O)).

Definition set_registry (r : R) (g : Guard R O) : Guard R O :=
  mk_guard r (g_store g) (g_ledger g) (g_cleanup_total g) (g_reservation_total g).
Definition set_store (o : O) (g : Guard R O) : Guard R O :=
  mk_guard (g_registry g) o (g_ledger g) (g_cleanup_total g) (g_reservation_total g).
Definition set_ledger (l : Ledger) (g : Guard R O) : Guard R O :=
  mk_guard (g_registry g) (g_store g) l (g_cleanup_total g) (g_reservation_total g).

Definition on_registry {A} (m : M R A) : GM A := zoom g_registry set_registry m.
Definition on_store {A} (m : M O A) : GM A := zoom g_store set_store m.
Definition on_ledger {A} (m : M Ledger A) : GM A := zoom g_ledger set_ledger m.
Definition locking {A} (asset_id : string) (body : Asset → GM A) : GM A :=
  ar_asset_lock g_registry set_registry asset_id body.

Definition bump (k : string * string) (m : gmap (string * string) Z) : gmap (string * string) Z :=
  <[k := default 0 (m !! k) + 1]> m.

Definition count_reservation (space outcome : string) : GM unit :=
  modify (λ g, mk_guard (g_registry g) (g_store g) (g_ledger g) (g_cleanup_total g)
                 (bump (space, outcome) (g_reservation_total g))).
Definition count_cleanup (space outcome : string) : GM unit :=
  modify (λ g, mk_guard (g_registry g) (g_store g) (g_ledger g)
                 (bump (space, outcome) (g_cleanup_total g)) (g_reservation_total g)).

(** ** Methods *)

Definition prune_consumed_capabilities : GM unit := on_ledger prune_expired.

(** The checks every method starts with. *)
Definition authorize (capability : Capability) (operation : Operation) (parsed : ParsedAlias) : GM unit :=
  require capability operation (pa_qualified parsed) ;;
  on_ledger (assert_unused capability) ;;
  of_res (assert_service_bucket_allowed (cap_caller_service_id capability) (pa_space parsed) operation).

Definition resolve_for_read (capability : Capability) (alias : string) : GM GuardedRead :=
  parsed ← of_res (_parse_alias alias);
  authorize capability READ parsed ;;
  asset ← on_registry (ar_resolve_alias (pa_space parsed) (pa_relative parsed));
  location ← of_res (for_asset (a_space asset) (a_partition_id asset) (a_asset_id asset));
  mret (mk_guarded_read asset location).

Definition read_bytes (capability : Capability) (alias : string) : GM bytes :=
  guarded ← resolve_for_read capability alias;
  data ← on_store (get_object (gr_location guarded));
  on_registry (ar_record_read (a_asset_id (gr_asset guarded))) ;;
  on_ledger (record_successful_use capability) ;;
  mret data.

Definition presign_read (capability : Capability) (alias : string) (expires_in : Z) : GM PresignedRead :=
  raise_if (cap_single_use capability) CapabilityDeniedError ;;
  raise_if (expires_in <=? 0) ValidationError ;;
  guarded ← resolve_for_read capability alias;
  now ← utcnow;
  let remaining := whole_seconds (cap_expires_at capability - now) in
  raise_if (remaining <=? 0) CapabilityDeniedError ;;
  let ttl := Z.min (Z.min expires_in MAX_PRESIGN_TTL_SECONDS) remaining in
  ttl ← match a_expires_at (gr_asset guarded) with
        | Some deadline =>
            now ← utcnow;
            let ttl := Z.min ttl (whole_seconds (deadline - now)) in
            raise_if (ttl <=? 0) AssetExpiredError ;;
            mret ttl
        | None => mret ttl
        end;
  url ← on_store (presign_get_url (gr_location guarded) ttl);
  on_registry (ar_record_read (a_asset_id (gr_asset guarded))) ;;
  now ← utcnow;
  mret (mk_presigned_read (gr_asset guarded) url ttl (now + ttl * usec_per_sec)).

Definition authorize_write (capability : Capability) (alias : string) : GM unit :=
  parsed ← of_res (_parse_alias alias);
  authorize capability WRITE parsed.

(** The body of the [try] of [_cleanup_failed_upload]: the outcome it ends with. *)
Definition cleanup_steps (asset_id : string) (location : ObjectStoreLocation) : GM string :=
  first ← locking asset_id (λ current,
    if decide (a_state current = PENDING) then
      now ← utcnow;
      on_registry (ar_lifecycle_update current DELETED now "upload_failed" false) ;;
      mret None
    else if decide (a_state current ≠ DELETED) then mret (Some "preserved")
    else mret None);
  match first with
  | Some outcome => mret outcome
  | None =>
      second ← locking asset_id (λ fenced,
        if decide (is_Some (a_payload_deleted_at fenced)) then mret (Some "reclaimed")
        else if decide (a_state fenced ≠ DELETED) then mret (Some "preserved")
        else
          on_store (delete_object location) ;;
          now ← utcnow;
          on_registry (ar_lifecycle_update fenced DELETED now "upload_failed" true) ;;
          mret None);
      mret (default "reclaimed" second)
  end.

Definition _cleanup_failed_upload (asset_id : string) (location : ObjectStoreLocation) : GM unit :=
  outcome ← catch (cleanup_steps asset_id location) (λ _, mret "deferred");
  count_cleanup (loc_bucket location) outcome.

(** The [with] block of [write_object]: PUT and commit under the asset's lock. *)
Definition put_and_commit (capability : Capability) (asset_id : string) (location : ObjectStoreLocation)
    (data : bytes) (mime expected_checksum : option string) : GM Asset :=
  locking asset_id (λ locked,
    raise_if (bool_decide (a_state locked ≠ PENDING)) ValidationError ;;
    stat ← on_store (put_object location data);
    on_registry (ar_commit_asset asset_id (st_size_bytes stat) (st_checksum stat)
      (cap_caller_service_id capability) mime expected_checksum)).

Definition write_object (capability : Capability) (alias : string) (data : bytes) (mutable : bool)
    (mime expected_checksum : option string) (ttl_seconds : option Z) : GM Asset :=
  parsed ← of_res (_parse_alias alias);
  authorize capability WRITE parsed ;;
  pending ← catch
    (on_registry (ar_reserve_asset (pa_space parsed) (pa_partition_id parsed)
       (AliasMap [(pa_alias_in_partition parsed, mutable)]) (cap_caller_service_id capability)
       mime None INHERIT ttl_seconds (Some (Z.of_nat (length data)))))
    (λ e, count_reservation (pa_space parsed) "denied" ;; raise e);
  count_reservation (pa_space parsed) "granted" ;;
  location ← of_res (for_asset (a_space pending) (a_partition_id pending) (a_asset_id pending));
  asset ← catch
    (put_and_commit capability (a_asset_id pending) location data mime expected_checksum)
    (λ e, _cleanup_failed_upload (a_asset_id pending) location ;; raise e);
  on_ledger (record_successful_use capability) ;;
  mret asset.
End Guard.
