(* ===== verification/GuardProps.v ===== *)
(** * What the guard guarantees

    Over the in-memory registry and any object store that keeps [ObjectStoreLaws]:
    nothing happens without authorisation, every committed asset has its bytes
    ([guard_wf]), a failed upload leaves no available asset, what is read is what
    was committed, and a presigned URL never outlives its grant or its asset. *)

From S2P Require Import Prelude Errors Python Effects Paths Models Retention Sha256 Registry RegistryInv RegistrySound RegistryNames Scenario Capabilities ObjectStore Guard.

(** ** The invariant *)

(** Where the bytes of a well-formed asset live. *)
Definition location_of (a : Asset) : ObjectStoreLocation := mk_location (a_space a) (a_storage_key a).

Section GuardProps.
#[local] Set Default Proof Using "Type*".
Context {E : Env} `{!FreshIds E} `{!UuidFormat E}.
Context {O : Type} `{!ObjectStoreBackend O} `{!ObjectStoreLaws O}.

Abbreviation G := (Guard Registry O).

(** Every committed asset that is not deleted has its bytes in the store, with the
    size and the checksum on record. *)
Definition stored (assets : gmap string Asset) (o : O) : Prop := ∀ i a,
  assets !! i = Some a → a_state a ≠ DELETED → is_Some (a_size_bytes a) →
  ∃ data, contents o (location_of a) = Some data ∧
    a_size_bytes a = Some (Z.of_nat (length data)) ∧ a_checksum a = Some (compute_checksum data).

Record guard_wf (n : nat) (g : G) : Prop := {
  gw_registry : registry_wf n (g_registry g);
  gw_stored : stored (r_assets (g_registry g)) (g_store g)
}.

(** The checks a request passes at the state and time it is made. *)
Definition authorized (capability : Capability) (operation : Operation) (alias : string) (n : nat) (g : G)
    : bool :=
  match _parse_alias alias with
  | Err _ => false
  | Ok parsed =>
      allows capability operation (pa_qualified parsed) (clock n) &&
      negb (cap_single_use capability &&
            bool_decide (is_Some (ledger_pruned (clock (S n)) (g_ledger g) !! cap_id capability))) &&
      is_Ok (assert_service_bucket_allowed (cap_caller_service_id capability) (pa_space parsed) operation)
  end.

(** The asset a qualified alias is bound to. *)
Definition names_asset (alias : string) (r : Registry) (i : string) : Prop :=
  ∃ parsed, _parse_alias alias = Ok parsed ∧
    find_binding r (pa_space parsed) (pa_relative parsed) ≫= (λ b, mret (b_asset_id b)) = Ok (Some i).

(** ** Locations *)

Lemma asset_location i a :
  asset_wf i a → for_asset (a_space a) (a_partition_id a) (a_asset_id a) = Ok (location_of a).
Proof.
  intros Ha. unfold for_asset. rewrite normalize_bucket_fix by apply (aw_space _ _ Ha).
  unfold mbind, res_bind. by rewrite (aw_id _ _ Ha), (aw_key _ _ Ha).
Qed.

Lemma location_inj n assets i j a b :
  assets_wf n assets → assets !! i = Some a → assets !! j = Some b → location_of a = location_of b → i = j.
Proof.
  intros [Hf Hw] Hi Hj [= _ Hkey]. pose proof (aw_key _ _ (Hw _ _ Hi)) as Ka.
  pose proof (aw_key _ _ (Hw _ _ Hj)) as Kb. rewrite <- Hkey in Kb.
  destruct (Hf i ltac:(eauto)) as (m & _ & ->). destruct (Hf j ltac:(eauto)) as (m' & _ & ->).
  destruct (build_storage_key_inj _ _ _ _ _ ltac:(by rewrite uuid_strip; apply uuid_no_slash)
    ltac:(by rewrite uuid_strip; apply uuid_no_slash) Ka Kb) as [_ H]. by rewrite !uuid_strip in H.
Qed.

(** ** Checksums survive the commit *)

Lemma strip_by_clean (p : ascii → bool) (s : string) :
  all_chars (λ c, negb (p c)) s = true → strip_by p s = s.
Proof.
  intros H. unfold strip_by.
  assert (Hl : lstrip_by p s = s).
  { destruct s as [|c s]; [done|]. cbn in H |- *. by destruct (p c). }
  rewrite Hl. clear Hl. induction s as [|c s IH]; [done|]. cbn in H |- *.
  apply andb_prop in H as [Hc Hs]. rewrite (IH Hs). destruct s; [by destruct (p c)|done].
Qed.

Lemma hex_digit_not_space c : is_hex_digit c = true → is_space c = false.
Proof.
  unfold is_hex_digit, is_space. destruct c as [[] [] [] [] [] [] [] []]; vm_compute; done.
Qed.

Lemma strip_checksum data : strip (compute_checksum data) = compute_checksum data.
Proof.
  apply strip_by_clean. unfold compute_checksum, CHECKSUM_ALGO.
  destruct (sha256_hexdigest_shape data) as [H _]. revert H. generalize (sha256_hexdigest data).
  intros s H. change ("sha256" +:+ ":" +:+ s) with ("sha256:" +:+ s).
  change (all_chars (λ c, negb (is_space c)) s = true).
  induction s as [|c s IH]; [done|]. cbn in *. apply andb_prop in H as [Hc Hs].
  by rewrite (hex_digit_not_space c Hc), (IH Hs).
Qed.

(** ** Authorisation *)

Lemma wp_authorize capability operation alias parsed (Q : res unit → nat → G → Prop) n g :
  _parse_alias alias = Ok parsed →
  (∀ e n' l, (n <= n')%nat → Q (Err e) n' (set_ledger l g)) →
  (authorized capability operation alias n g = true →
   Q (Ok tt) (S (S n)) (set_ledger (ledger_pruned (clock (S n)) (g_ledger g)) g)) →
  wp (authorize capability operation parsed) Q n g.
Proof.
  intros Hp Herr Hok. unfold authorized in Hok. rewrite Hp in Hok.
  unfold authorize, require, on_ledger, assert_unused, prune_expired. wp_steps.
  { replace g with (set_ledger (g_ledger g) g) by by destruct g. apply Herr. lia. }
  apply wp_zoom. wp_steps; [apply Herr; lia|].
  apply negb_false_iff in H. cbn in *. rewrite H in Hok.
  destruct (assert_service_bucket_allowed _ _ _) as [[]|e]; [|apply Herr; lia].
  apply Hok. by rewrite H0.
Qed.

(** ** Keeping the bytes *)

Lemma stored_put assets o i a a' :
  stored assets o → assets !! i = Some a → location_of a' = location_of a →
  a_size_bytes a' = a_size_bytes a → a_checksum a' = a_checksum a →
  (a_state a = DELETED → a_state a' = DELETED) → stored (<[i := a']> assets) o.
Proof.
  intros Hst Hi Hl Hsz Hck Hdel j b. rewrite lookup_insert. case_decide; [|by apply Hst].
  intros [= <-] Hs Hz. rewrite Hl, Hck. rewrite Hsz in Hz |- *. apply (Hst i a); auto.
Qed.

Lemma stored_none assets o i a :
  stored assets o → a_size_bytes a = None ∨ a_state a = DELETED → stored (<[i := a]> assets) o.
Proof.
  intros Hst Ha j b. rewrite lookup_insert. case_decide; [|by apply Hst].
  intros [= <-] Hs Hz. destruct Ha as [Ha|Ha]; [rewrite Ha in Hz; by destruct Hz|done].
Qed.

(** Touching the location of an asset that has no committed bytes. *)
Lemma stored_touch n assets o o' i a :
  assets_wf n assets → stored assets o → assets !! i = Some a →
  a_size_bytes a = None ∨ a_state a = DELETED →
  (∀ l, l ≠ location_of a → contents o' l = contents o l) → stored assets o'.
Proof.
  intros Hwf Hst Hi Ha Ho j b Hj Hs Hz. destruct (decide (location_of b = location_of a)) as [Hl|Hl].
  - rewrite (location_inj _ _ _ _ _ _ Hwf Hj Hi Hl) in Hj. rewrite Hi in Hj. injection Hj as <-.
    destruct Ha as [Ha|Ha]; [rewrite Ha in Hz; by destruct Hz|done].
  - rewrite (Ho _ Hl). by eapply Hst.
Qed.

Lemma stored_same assets o o' :
  stored assets o → (∀ l, contents o' l = contents o l) → stored assets o'.
Proof. intros Hst Ho i a Hi Hs Hz. rewrite Ho. by eapply Hst. Qed.

Lemma guard_wf_set_ledger n g l : guard_wf n g → guard_wf n (set_ledger l g).
Proof. by intros []; split. Qed.

Lemma guard_wf_mono n n' g : (n <= n')%nat → guard_wf n g → guard_wf n' g.
Proof. intros Hn []; split; [by eapply registry_wf_mono|done]. Qed.

(** ** Reads *)

Lemma wp_resolve space alias (Q : res Asset → nat → Registry → Prop) n r :
  registry_wf n r → (∀ e n', (n <= n')%nat → Q (Err e) n' r) →
  (∀ a i, r_assets r !! i = Some a → a_state a = AVAILABLE → past_deadline a (clock n) = false →
     find_binding r space alias ≫= (λ b, mret (b_asset_id b)) = Ok (Some i) →
     Q (Ok a) (S n) r) →
  wp (resolve_alias space alias) Q n r.
Proof.
  intros Hwf Herr Hok. unfold resolve_alias, _get_binding, raise_about. reg_step. reg_step.
  destruct (find_binding r space alias) as [b|e] eqn:Hb; [|by apply Herr].
  destruct (b_asset_id b) as [i|] eqn:Hi; [|reg_steps; by apply Herr].
  reg_steps; try (apply Herr; lia).
  unfold is_resolvable in H0. apply negb_false_iff, bool_decide_eq_true in H0.
  apply (Hok a i); [done|done| |by cbn; rewrite Hi].
  unfold require_live in Heqr0. rewrite H0 in Heqr0. cbn in Heqr0. unfold past_deadline.
  by destruct (match a_expires_at a with Some _ => _ | None => _ end).
Qed.

Lemma wp_resolve_for_read capability alias (Q : res GuardedRead → nat → G → Prop) n g :
  guard_wf n g →
  (∀ e n' l, (n <= n')%nat → Q (Err e) n' (set_ledger l g)) →
  (∀ a i, authorized capability READ alias n g = true →
     r_assets (g_registry g) !! i = Some a → a_state a = AVAILABLE →
     past_deadline a (clock (S (S n))) = false → names_asset alias (g_registry g) i →
     Q (Ok (mk_guarded_read a (location_of a))) (S (S (S n)))
       (set_ledger (ledger_pruned (clock (S n)) (g_ledger g)) g)) →
  wp (resolve_for_read capability alias) Q n g.
Proof.
  intros Hwf Herr Hok. unfold resolve_for_read.
  assert (Herr0 : ∀ e, Q (Err e) n g).
  { intros e. replace g with (set_ledger (g_ledger g) g) by by destruct g. by apply Herr. }
  wp_step. wp_step. destruct (_parse_alias alias) as [parsed|e] eqn:Hp; [|apply Herr0].
  wp_step. eapply wp_authorize; [done|done|]. intros Hauth. wp_step. apply wp_zoom.
  apply wp_resolve; [apply (registry_wf_mono n); [lia|apply Hwf]|intros; apply Herr; lia|].
  intros a i Hi Hs Hd Hb. wp_step. wp_step.
  rewrite (asset_location i a) by by eapply get_wf; [apply Hwf|].
  wp_step. eapply Hok; try done. by exists parsed.
Qed.

(** ** Writes *)

Lemma set_registry_id (g : G) : set_registry (g_registry g) g = g.
Proof. by destruct g. Qed.

Lemma set_store_id (g : G) : set_store (g_store g) g = g.
Proof. by destruct g. Qed.

(** PUT and commit: a failure has touched nothing but the bytes at the asset's
    own location. *)
Lemma wp_put_and_commit capability i a data mime expected (Q : res Asset → nat → G → Prop) n g :
  guard_wf n g → r_assets (g_registry g) !! i = Some a → a_state a = PENDING →
  (∀ e n' o', (n <= n')%nat → (∀ l, l ≠ location_of a → contents o' l = contents (g_store g) l) →
     Q (Err e) n' (set_store o' g)) →
  (∀ n' r' o' m now, let a' := committed a (Z.of_nat (length data)) (compute_checksum data) m now in
     registry_wf n' r' → r_assets r' = <[i := a']> (r_assets (g_registry g)) → r_aliases r' = r_aliases (g_registry g) →
     (∀ l, l ≠ location_of a → contents o' l = contents (g_store g) l) →
     contents o' (location_of a) = Some data →
     Q (Ok a') n' (set_registry r' (set_store o' g))) →
  wp (put_and_commit capability i (location_of a) data mime expected) Q n g.
Proof.
  intros [Hwf Hst] Hi Hs Herr Hok.
  assert (Herr0 : ∀ e n', (n <= n')%nat → Q (Err e) n' g).
  { intros e n' Hn. replace g with (set_store (g_store g) g) by by destruct g. by apply Herr. }
  unfold put_and_commit, locking. cbn [ar_asset_lock memory_registry]. unfold asset_lock.
  wp_step. apply wp_zoom, wp_get_asset; rewrite set_registry_id; [intros b Hb|intros _; apply Herr0; lia].
  rewrite Hi in Hb. injection Hb as <-. wp_step. apply wp_raise_if; intros H; [apply Herr0; lia|].
  wp_step. apply wp_zoom. eapply wp_mono; [apply law_put|]. intros res n' o' (Hn & Hoth & Hput).
  destruct res as [st|e]; [|by apply Herr]. destruct (Hput st eq_refl) as [-> Hc]. cbn.
  assert (Hwf' : registry_wf n' (g_registry g)) by by eapply registry_wf_mono.
  apply wp_zoom. cbn. apply (wp_sound (late := False)); [apply commit_asset_sound|done|].
  apply wp_commit_asset; [done| |].
  - intros e _ _. change (g_registry g) with (g_registry (set_store o' g)). rewrite set_registry_id.
    by apply Herr.
  - intros b p events [_ _ _ Hb _ _ _] _ a' Hwf2 _. rewrite Hi in Hb. injection Hb as <-.
    by eapply Hok.
Qed.

(** The record of asset [i] while its upload is cleaned up: still pending, or fenced
    as deleted; once its bytes are marked as gone they are. *)
Record cleaning (i : string) (a : Asset) (g g' : G) (a' : Asset) : Prop := {
  cl_assets : r_assets (g_registry g') = <[i := a']> (r_assets (g_registry g));
  cl_location : location_of a' = location_of a;
  cl_owner : a_owner_service_id a' = a_owner_service_id a;
  cl_named : a_space a' = a_space a ∧ a_partition_id a' = a_partition_id a ∧ a_aliases a' = a_aliases a;
  cl_size : a_size_bytes a' = None;
  cl_state : a_state a' = PENDING ∨ a_state a' = DELETED;
  cl_contents : ∀ l, l ≠ location_of a → contents (g_store g') l = contents (g_store g) l;
  cl_gone : is_Some (a_payload_deleted_at a') → contents (g_store g') (location_of a) = None;
  cl_ledger : g_ledger g' = g_ledger g;
  cl_aliases : r_aliases (g_registry g') = r_aliases (g_registry g)
}.

Lemma cleaning_wf i a n n' g g' a' :
  guard_wf n g → r_assets (g_registry g) !! i = Some a → registry_wf n' (g_registry g') →
  a_size_bytes a = None → cleaning i a g g' a' → guard_wf n' g'.
Proof.
  intros [Hwf Hst] Hi Hwf' Hsz []. split; [done|]. rewrite cl_assets0.
  apply stored_none; [|by left]. eapply stored_touch; [apply Hwf|exact Hst|exact Hi|by left|done].
Qed.

Lemma wp_cleanup_steps i a (Q : res string → nat → G → Prop) n g :
  registry_wf n (g_registry g) → r_assets (g_registry g) !! i = Some a → a_state a = PENDING →
  (∀ res n' g' a', registry_wf n' (g_registry g') → cleaning i a g g' a' → Q res n' g') →
  wp (cleanup_steps i (location_of a)) Q n g.
Proof.
  intros Hwf Hi Hs HQ. pose proof (get_wf _ _ _ _ Hwf Hi) as Ha.
  destruct (aw_pending _ _ Ha Hs) as [Hsz _]. pose proof (aw_id _ _ Ha) as Hid.
  assert (Hpay : a_payload_deleted_at a = None).
  { apply eq_None_not_Some. intros Hp. rewrite (aw_purged _ _ Ha Hp) in Hs. done. }
  assert (Hsame : ∀ n' o', (n <= n')%nat →
    (∀ l, l ≠ location_of a → contents o' l = contents (g_store g) l) →
    ∀ res, Q res n' (set_store o' g)).
  { intros n' o' Hn Ho res. apply (HQ res n' _ a); [by eapply registry_wf_mono|].
    split; cbn; auto; [by rewrite insert_id|]. rewrite Hpay. by intros []. }
  assert (Hsame0 : ∀ n' res, (n <= n')%nat → Q res n' g).
  { intros n' res Hn. rewrite <- (set_store_id g). by apply Hsame. }
  unfold cleanup_steps, locking. cbn [ar_asset_lock memory_registry]. unfold asset_lock.
  wp_step. wp_step. apply wp_zoom, wp_get_asset; rewrite set_registry_id; [intros b Hb|intros _; by apply Hsame0].
  rewrite Hi in Hb. injection Hb as <-. rewrite decide_True by done.
  wp_step. wp_step. wp_step. apply wp_zoom. cbn [ar_lifecycle_update memory_registry].
  apply (wp_sound (late := False)); [apply lifecycle_update_sound|by apply (registry_wf_mono n); [lia|]|].
  apply wp_lifecycle_update; [by apply (registry_wf_mono n); [lia|]| |].
  { intros e _ _ _. rewrite set_registry_id. apply Hsame0. lia. }
  intros p events _ Hval _ a1 Hwf1 _. wp_step.
  set (r1 := _ <| r_audit_events := _ |>) in *.
  assert (H1 : r_assets r1 = <[i := a1]> (r_assets (g_registry g))) by (by rewrite <- Hid).
  assert (Hal1 : r_aliases r1 = r_aliases (g_registry g)) by apply release_state_fields.
  clearbody r1. clear Hval.
  assert (Hfence : ∀ n' o', (S (S n) <= n')%nat →
    (∀ l, l ≠ location_of a → contents o' l = contents (g_store g) l) →
    ∀ res, Q res n' (set_store o' (set_registry r1 g))).
  { intros n' o' Hn Ho res. apply (HQ res n' _ a1); [by eapply registry_wf_mono|].
    split; cbn; auto. rewrite Hpay. by intros []. }
  assert (Hfence0 : ∀ n' res, (S (S n) <= n')%nat → Q res n' (set_registry r1 g)).
  { intros n' res Hn. rewrite <- (set_store_id (set_registry r1 g)). by apply Hfence. }
  wp_step. wp_step. apply wp_zoom, wp_get_asset; rewrite set_registry_id; [intros b Hb|intros _; by apply Hfence0].
  cbn in Hb. rewrite H1, lookup_insert_eq in Hb. injection Hb as <-. cbn.
  rewrite Hpay, decide_False, decide_False by (by intros [] || auto).
  wp_step. apply wp_zoom. eapply wp_mono; [apply law_delete|].
  intros res n' o' (Hn & Ho & Hgone). destruct res as [[]|e]; [|by apply Hfence].
  specialize (Hgone eq_refl). wp_step. wp_step. wp_step. apply wp_zoom. cbn.
  apply (wp_sound (late := False)); [apply lifecycle_update_sound|by apply (registry_wf_mono (S (S n))); [lia|]|].
  apply wp_lifecycle_update; [by apply (registry_wf_mono (S (S n))); [lia|]| |].
  { intros e _ _ _. apply Hfence; [lia|done]. }
  intros p2 events2 _ _ _ a2 Hwf2 _. wp_steps. apply (HQ _ _ _ a2); [done|].
  split; cbn; auto; (by rewrite Hid, H1, insert_insert_eq) || by rewrite (proj1 (proj2 (release_state_fields _ _ _))).
Qed.

Lemma wp_cleanup i a (Q : res unit → nat → G → Prop) n g :
  registry_wf n (g_registry g) → r_assets (g_registry g) !! i = Some a → a_state a = PENDING →
  (∀ n' g' a', registry_wf n' (g_registry g') → cleaning i a g g' a' → Q (Ok tt) n' g') →
  wp (_cleanup_failed_upload i (location_of a)) Q n g.
Proof.
  intros Hwf Hi Hs HQ. unfold _cleanup_failed_upload, count_cleanup. wp_step. apply wp_catch.
  eapply wp_cleanup_steps; [done..|]. intros res n' g' a' Hwf' Hcl.
  destruct res as [outcome|e]; wp_steps; (eapply (HQ _ _ a'); [exact Hwf'|by destruct Hcl; split]).
Qed.

Lemma wp_record_use capability (Q : res unit → nat → G → Prop) n g :
  (cap_single_use capability = true → g_ledger g !! cap_id capability = None) →
  (∀ l, Q (Ok tt) (S n) (set_ledger l g)) →
  wp (on_ledger (record_successful_use capability)) Q n g.
Proof.
  intros Hunused HQ. unfold on_ledger, record_successful_use, prune_expired. apply wp_zoom. wp_steps; try apply HQ.
  exfalso. apply bool_decide_eq_true in H as [v Hv]. apply unexpired_lookup in Hv as [Hv _].
  by rewrite Hunused in Hv.
Qed.

Lemma authorized_unused capability operation alias n g :
  authorized capability operation alias n g = true → cap_single_use capability = true →
  ledger_pruned (clock (S n)) (g_ledger g) !! cap_id capability = None.
Proof.
  unfold authorized. destruct (_parse_alias alias); [|done]. intros [[_ H]%andb_prop _]%andb_prop Hsu.
  rewrite Hsu in H. cbn in H. apply negb_true_iff, bool_decide_eq_false in H. by apply eq_None_not_Some.
Qed.

(** The name an upload binds: the alias in its partition, brought under it once
    more. *)
Definition bound_name (alias : string) (space partition_id : string) (k : string) : Prop := ∃ parsed name m,
  _parse_alias alias = Ok parsed ∧ normalize_space (pa_space parsed) = Ok space ∧
  normalize_partition_id (pa_partition_id parsed) = Ok partition_id ∧
  normalize_relative_alias (pa_alias_in_partition parsed) = Ok name ∧ spec_key space partition_id (name, m) = Ok k.

(** The asset lies in the bucket and the partition of [alias] and has one name,
    the one an upload to [alias] binds. *)
Definition bound_to (alias : string) (a : Asset) : Prop := ∃ k,
  bound_name alias (a_space a) (a_partition_id a) k ∧ a_aliases a = {[k]}.

Lemma reserved_name alias parsed mutable owner bytes r a r' :
  _parse_alias alias = Ok parsed →
  reserved (pa_space parsed) (pa_partition_id parsed) (AliasMap [(pa_alias_in_partition parsed, mutable)]) owner bytes r a r' →
  bound_to alias a ∧
  ∃ k b, bound_name alias (a_space a) (a_partition_id a) k ∧ r_aliases r' !! k = Some b ∧ b_asset_id b = Some (a_asset_id a).
Proof.
  intros Hp []. destruct rs_specs as (specs & Hs & Hall & Hfrom). cbn in Hs.
  destruct (normalize_relative_alias (pa_alias_in_partition parsed)) as [name|] eqn:Hn; [|done]. injection Hs as <-.
  destruct (Hall (name, mutable)) as (k & Hk & Hka); [by left|]. destruct (rs_names k Hka) as (_ & b & Hb & Hid).
  assert (Hbound : bound_name alias (a_space a) (a_partition_id a) k) by by exists parsed, name, mutable.
  split; [|by exists k, b]. exists k. split; [done|]. apply set_eq. intros k'. rewrite elem_of_singleton.
  split; [|by intros ->]. intros (spec & Hspec%list_elem_of_singleton & Hk')%Hfrom. subst spec. congruence.
Qed.

(** What [write_object] may leave behind, besides the ledger and the counters. *)
Record written (capability : Capability) (alias : string) (data : bytes) (n : nat) (g : G)
    (res : res Asset) (n' : nat) (g' : G) : Prop := {
  wr_wf : guard_wf n' g';
  wr_kept : ∀ i a, r_assets (g_registry g) !! i = Some a → r_assets (g_registry g') !! i = Some a;
  wr_others : ∀ i a, r_assets (g_registry g) !! i = Some a →
    contents (g_store g') (location_of a) = contents (g_store g) (location_of a);
  wr_names : ∀ k b, r_aliases (g_registry g) !! k = Some b → r_aliases (g_registry g') !! k = Some b;
  wr_owner : ∀ i a, r_assets (g_registry g') !! i = Some a → r_assets (g_registry g) !! i = None →
    a_owner_service_id a = cap_caller_service_id capability ∧ bound_to alias a;
  wr_result : match res with
    | Ok a => authorized capability WRITE alias n g = true ∧
        r_assets (g_registry g) !! a_asset_id a = None ∧
        r_assets (g_registry g') !! a_asset_id a = Some a ∧ a_state a = AVAILABLE ∧
        a_owner_service_id a = cap_caller_service_id capability ∧
        contents (g_store g') (location_of a) = Some data ∧
        a_size_bytes a = Some (Z.of_nat (length data)) ∧ a_checksum a = Some (compute_checksum data) ∧
        ∃ k b, bound_name alias (a_space a) (a_partition_id a) k ∧ r_aliases (g_registry g') !! k = Some b ∧
          b_asset_id b = Some (a_asset_id a)
    | Err _ => ∀ i a, r_assets (g_registry g') !! i = Some a → a_state a = AVAILABLE →
        r_assets (g_registry g) !! i = Some a
    end
}.

Lemma written_error capability alias data n g e n' g' :
  guard_wf n g → registry_wf n' (g_registry g') → r_assets (g_registry g') = r_assets (g_registry g) →
  r_aliases (g_registry g') = r_aliases (g_registry g) → g_store g' = g_store g → written capability alias data n g (Err e) n' g'.
Proof.
  intros [Hwf Hst] Hwf' Ha Hal Ho. split; rewrite ?Ha, ?Hal, ?Ho; try done; [split; [done|]; by rewrite Ha, Ho|congruence].
Qed.

Lemma wp_reserve_for_upload space partition aliases owner mime ttl data (Q : res Asset → nat → G → Prop) n g :
  guard_wf n g →
  (∀ e n' r', registry_wf n' r' → r_assets r' = r_assets (g_registry g) → r_aliases r' = r_aliases (g_registry g) →
     Q (Err e) n' (set_registry r' g)) →
  (∀ a n' r', guard_wf n' (set_registry r' g) →
     reserved space partition aliases owner (Some (Z.of_nat (length data))) (g_registry g) a r' →
     a_size_bytes a = None → Q (Ok a) n' (set_registry r' g)) →
  wp (on_registry (ar_reserve_asset space partition aliases owner mime None INHERIT ttl
        (Some (Z.of_nat (length (data : bytes)))))) Q n g.
Proof.
  intros [Hwf Hst] Herr Hok. apply wp_zoom. cbn [ar_reserve_asset memory_registry].
  apply wp_reserve_asset; [done| |].
  - intros e n' r' Hn Hpr. apply Herr; [by eapply only_pruned_wf|..]; by destruct Hpr as (? & -> & _).
  - intros a n' r' Hwf' _ Hres.
    assert (Ha : r_assets r' !! a_asset_id a = Some a) by by rewrite (rs_assets _ _ _ _ _ _ _ _ Hres), lookup_insert_eq.
    assert (Hsz : a_size_bytes a = None)
      by apply (aw_pending _ _ (get_wf _ _ _ _ Hwf' Ha) (rs_state _ _ _ _ _ _ _ _ Hres)).
    apply Hok; try done. split; [done|]. cbn. rewrite (rs_assets _ _ _ _ _ _ _ _ Hres).
    apply stored_none; auto.
Qed.

Lemma wp_write_object capability alias data mutable mime expected ttl n g :
  guard_wf n g →
  wp (write_object capability alias data mutable mime expected ttl)
     (λ res n' g', written capability alias data n g res n' g') n g.
Proof.
  intros Hwf. pose proof Hwf as [Hreg Hst]. unfold write_object. wp_step. wp_step.
  destruct (_parse_alias alias) as [parsed|e] eqn:Hp; [|by apply written_error].
  wp_step. eapply wp_authorize; [done| |].
  { intros e n' l Hn. apply written_error; try done. by eapply registry_wf_mono. }
  intros Hauth. set (g1 := set_ledger _ g).
  assert (Hwf1 : guard_wf (S (S n)) g1) by (apply guard_wf_set_ledger, (guard_wf_mono n); [lia|done]).
  assert (Hunused := authorized_unused _ _ _ _ _ Hauth).
  wp_step. apply wp_catch. apply wp_reserve_for_upload; [done| |].
  { intros e n' r' Hwf' Has Hal. unfold count_reservation. wp_steps. by apply written_error. }
  intros a n' r' Hwf2 Hres Hsz. destruct (reserved_name _ _ _ _ _ _ _ _ Hp Hres) as (Hto & key & bound & Hname & Hbk & Hbid).
  destruct Hres. unfold count_reservation. wp_step. wp_step.
  set (g2 := mk_guard _ _ _ _ _).
  assert (Ha : r_assets (g_registry g2) !! a_asset_id a = Some a) by (cbn; by rewrite rs_assets, lookup_insert_eq).
  assert (Hwf2' : guard_wf n' g2) by (by destruct Hwf2; split). clear Hwf2.
  wp_step. wp_step.
  rewrite (asset_location (a_asset_id a) a) by by eapply get_wf; [apply Hwf2'|].
  assert (Hnew : ∀ i b, r_assets (g_registry g) !! i = Some b → i ≠ a_asset_id a ∧ location_of b ≠ location_of a).
  { intros i b Hi. assert (i ≠ a_asset_id a) as Hne by (intros ->; cbn in rs_fresh; congruence). split; [done|].
    intros Hl. apply Hne. eapply (location_inj n' (r_assets (g_registry g2)));
      [apply Hwf2'| |exact Ha|exact Hl]. cbn. rewrite rs_assets. by rewrite lookup_insert_ne. }
  assert (Hold : ∀ k b, r_aliases (g_registry g) !! k = Some b → r_aliases (g_registry g2) !! k = Some b).
  { intros k b Hk. cbn. rewrite rs_frame; [done|]. intros [Hnone _]%rs_names. cbn in Hnone. congruence. }
  wp_step. apply wp_catch. apply wp_put_and_commit with (a := a); [done|done|done| |].
  - intros e n3 o3 Hn3 Ho3. wp_step. apply wp_cleanup with (a := a);
      [by eapply registry_wf_mono, Hwf2'|done|done|].
    intros n4 g4 a4 Hwf4 Hcl. wp_step.
    assert (Hwf3 : guard_wf n3 (set_store o3 g2)).
    { split; [by eapply registry_wf_mono, Hwf2'|].
      eapply stored_touch; [apply Hwf2'|apply Hwf2'|exact Ha|by left|exact Ho3]. }
    split; [by eapply cleaning_wf; [exact Hwf3|exact Ha|exact Hwf4|exact Hsz|exact Hcl]|..];
      destruct Hcl as [Cas _ Cow (Cn1 & Cn2 & Cn3) _ Cst Cct _ _ Cal]; cbn in Cas, Cct, Cal; rewrite rs_assets, insert_insert_eq in Cas.
    + intros i b Hi. destruct (Hnew i b Hi) as [Hne _]. by rewrite Cas, lookup_insert_ne.
    + intros i b Hi. destruct (Hnew i b Hi) as [_ Hl]. by rewrite Cct, Ho3.
    + intros k b Hk. rewrite Cal. by apply Hold.
    + intros i b. rewrite Cas, lookup_insert. case_decide; [|intros H1 H2; cbn in H1; congruence]. intros [= <-] _. split; [by rewrite Cow|]. unfold bound_to in *. by rewrite Cn1, Cn2, Cn3.
    + intros i b. rewrite Cas, lookup_insert. case_decide; [|done].
      intros [= <-] Hs. rewrite Hs in Cst. by destruct Cst.
  - intros n3 r3 o3 m now a' Hwf3 Has3 Hal3 Ho3 Hdata.
    assert (Hck : a_checksum a' = Some (compute_checksum data)) by (rewrite <- (strip_checksum data); done).
    wp_step. apply wp_record_use; [exact Hunused|]. intros l. wp_step. cbn in Has3.
    rewrite rs_assets, insert_insert_eq in Has3.
    assert (Hi3 : r_assets r3 !! a_asset_id a = Some a') by by rewrite Has3, lookup_insert_eq.
    split; cbn [g_registry g_store set_ledger set_registry set_store].
    + split; [by eapply registry_wf_mono; [|exact Hwf3]; lia|]. cbn. intros i b.
      rewrite Has3, lookup_insert. case_decide.
      * intros [= <-] _ _. by exists data.
      * intros Hi Hs Hz. destruct (Hnew i b Hi) as [_ Hl]. rewrite Ho3 by done. by eapply Hst.
    + intros i b Hi. destruct (Hnew i b Hi) as [Hne _]. by rewrite Has3, lookup_insert_ne.
    + intros i b Hi. destruct (Hnew i b Hi) as [_ Hl]. by rewrite Ho3.
    + intros k b Hk. rewrite Hal3. by apply Hold.
    + intros i b. rewrite Has3, lookup_insert. case_decide; [|intros H1 H2; cbn in H1; congruence]. by intros [= <-] _.
    + split_and!; [done..|exists key, bound; by rewrite Hal3].
Qed.

(** ** Reading *)

Lemma wp_record_read i (Q : res unit → nat → Registry → Prop) n r :
  registry_wf n r →
  (∀ e, Q (Err e) n r) →
  (∀ n' r', registry_wf n' r' → (∀ o, stored (r_assets r) o → stored (r_assets r') o) → Q (Ok tt) n' r') →
  wp (record_read i) Q n r.
Proof.
  intros Hwf Herr Hok. apply (wp_sound (late := False)); [apply record_read_sound|done|]. unfold record_read.
  reg_steps; intros Hwf' _; [..|by apply Herr]; apply Hok; try done.
  intros o Hst. by eapply stored_put.
Qed.

Lemma wp_read_bytes capability alias (Q : res bytes → nat → G → Prop) n g :
  guard_wf n g →
  (∀ e n' g', guard_wf n' g' → Q (Err e) n' g') →
  (∀ data i a n' g', guard_wf n' g' → authorized capability READ alias n g = true →
     names_asset alias (g_registry g) i → r_assets (g_registry g) !! i = Some a → a_state a = AVAILABLE →
     past_deadline a (clock (S (S n))) = false →
     contents (g_store g) (location_of a) = Some data → Q (Ok data) n' g') →
  wp (read_bytes capability alias) Q n g.
Proof.
  intros Hwf Herr Hok. unfold read_bytes. wp_step. apply wp_resolve_for_read; [done| |].
  { intros e n' l Hn. apply Herr, guard_wf_set_ledger. by eapply guard_wf_mono. }
  intros a i Hauth Hi Hs Hd Hname. wp_step. apply wp_zoom. eapply wp_mono; [apply law_get|].
  intros res n1 o1 (Hn1 & Ho1 & Hget). cbn in Ho1, Hget.
  assert (Hwf1 : ∀ l, guard_wf n1 (set_store o1 (set_ledger l g))).
  { intros l. destruct Hwf as [Hreg Hst]. split; [eapply registry_wf_mono; [|exact Hreg]; lia|].
    by eapply stored_same. }
  destruct res as [data|e]; [|by apply Herr]. specialize (Hget data eq_refl).
  wp_step. apply wp_zoom. cbn [ar_record_read memory_registry].
  apply wp_record_read; [apply Hwf1|intros e; rewrite set_registry_id; by apply Herr|].
  intros n2 r2 Hwf2 Hst2. wp_step. apply wp_record_use; [by eapply authorized_unused|].
  intros l. wp_step. apply (Hok _ i a); try done.
  split; [by eapply registry_wf_mono; [|exact Hwf2]; lia|]. apply Hst2, (Hwf1 ∅).
Qed.

(** ** Refusals *)

(** A request that is refused before anything is done. *)
Definition refused {A} (g : G) (res : res A) (_ : nat) (g' : G) : Prop :=
  (∃ e, res = Err e) ∧ ∃ l, g' = set_ledger l g.

Lemma refused_now {A} (g : G) e n : refused (A := A) g (Err e) n g.
Proof. split; [by eexists|]. exists (g_ledger g). by destruct g. Qed.

Lemma wp_refused_authorize {A} capability operation alias parsed (k : unit → M G A) n g :
  _parse_alias alias = Ok parsed → authorized capability operation alias n g = false →
  wp (authorize capability operation parsed ≫= k) (refused g) n g.
Proof.
  intros Hp Hauth. wp_step. eapply wp_authorize; [done| |congruence].
  intros e n' l _. split; by eexists.
Qed.

Lemma wp_refused_read {A} capability alias (k : GuardedRead → M G A) n g :
  authorized capability READ alias n g = false →
  wp (resolve_for_read capability alias ≫= k) (refused g) n g.
Proof.
  intros Hauth. unfold resolve_for_read. wp_step. wp_step. wp_step.
  destruct (_parse_alias alias) as [parsed|e] eqn:Hp; [|apply refused_now].
  eapply wp_mono; [by eapply wp_refused_authorize|]. intros res n' g' [[e ->] ?]. split; [by eexists|done].
Qed.

(** * Properties *)

(** Nothing happens without authorisation: when the alias does not parse, the
    grant does not cover it, is expired or already consumed, or the service may
    not use the bucket, reading, presigning and writing raise, and registry,
    store and counters are as before. *)
Theorem unauthorized_refused (capability : Capability) (alias : string) (n : nat) (g : G) :
  (authorized capability READ alias n g = false → ∀ res n' g',
     read_bytes capability alias n g = (res, n', g') → refused g res n' g') ∧
  (authorized capability READ alias n g = false → ∀ ttl res n' g',
     presign_read capability alias ttl n g = (res, n', g') → refused g res n' g') ∧
  (authorized capability WRITE alias n g = false → ∀ data mutable mime expected ttl res n' g',
     write_object capability alias data mutable mime expected ttl n g = (res, n', g') →
     refused g res n' g').
Proof.
  split_and!; intros Hauth.
  - intros res n' g' Hrun. eapply wp_inv; [|exact Hrun]. by apply wp_refused_read.
  - intros ttl res n' g' Hrun. eapply wp_inv; [|exact Hrun]. unfold presign_read.
    do 2 (wp_step; apply wp_raise_if; intros _; [apply refused_now|]). by apply wp_refused_read.
  - intros data mutable mime expected ttl res n' g' Hrun. eapply wp_inv; [|exact Hrun].
    unfold write_object. wp_step. wp_step.
    destruct (_parse_alias alias) as [parsed|e] eqn:Hp; [|apply refused_now].
    by eapply wp_refused_authorize.
Qed.

(** C2.  Writing is all or nothing: a write that returns was authorised and made a
    new available asset whose bytes, size and checksum are those of the data; a
    write that raises, at whatever step, leaves no new available asset.  Either
    way the assets that existed keep their names, records and bytes, what is new
    belongs to the grant's holder, and every committed asset still has its bytes
    in the store. *)
Theorem write_object_spec (capability : Capability) (alias : string) (data : bytes) (mutable : bool)
    (mime expected : option string) (ttl : option Z) (n : nat) (g : G) (res : res Asset) (n' : nat) (g' : G) :
  guard_wf n g → write_object capability alias data mutable mime expected ttl n g = (res, n', g') →
  written capability alias data n g res n' g'.
Proof. intros Hwf Hrun. eapply wp_inv; [|exact Hrun]. by apply wp_write_object. Qed.

(** C38.  What is read is what was committed: bytes returned by a read belong to the
    live asset the alias names, have the size and checksum on its record, and
    the read was authorised; reading keeps the guard's invariant. *)
Theorem read_bytes_spec (capability : Capability) (alias : string) (n : nat) (g : G)
    (res : res bytes) (n' : nat) (g' : G) :
  guard_wf n g → read_bytes capability alias n g = (res, n', g') →
  guard_wf n' g' ∧ ∀ data, res = Ok data →
    authorized capability READ alias n g = true ∧
    ∃ i a, names_asset alias (g_registry g) i ∧ r_assets (g_registry g) !! i = Some a ∧
      a_state a = AVAILABLE ∧ past_deadline a (clock (S (S n))) = false ∧
      a_size_bytes a = Some (Z.of_nat (length data)) ∧ a_checksum a = Some (compute_checksum data).
Proof.
  intros Hwf Hrun. eapply (wp_inv _ (λ res n' g', guard_wf n' g' ∧ ∀ data, res = Ok data → _)); [|exact Hrun].
  apply wp_read_bytes; [done|by split|].
  intros data i a n1 g1 Hwf1 Hauth Hname Hi Hs Hd Hc. split; [done|]. intros data' [= <-].
  split; [done|]. exists i, a.
  pose proof (aw_available _ _ (get_wf _ _ _ _ (gw_registry _ _ Hwf) Hi) Hs) as Hsz.
  destruct (gw_stored _ _ Hwf i a Hi) as (data' & Hc' & Hl & Hk); [by rewrite Hs|done|].
  rewrite Hc in Hc'. by injection Hc' as <-.
Qed.

(** A presigned URL is short-lived: its lifetime is positive, at most an hour
    and at most what was asked for, it ends within the grant's lifetime counted
    from a reading of the clock made during the call and within the asset's,
    and no single-use grant gets one. *)
Theorem presign_read_bounds (capability : Capability) (alias : string) (expires_in : Z) (n : nat) (g : G)
    (p : PresignedRead) (n' : nat) (g' : G) :
  guard_wf n g → presign_read capability alias expires_in n g = (Ok p, n', g') →
  authorized capability READ alias n g = true ∧ cap_single_use capability = false ∧
  0 < pr_expires_in p ∧ pr_expires_in p <= expires_in ∧ pr_expires_in p <= MAX_PRESIGN_TTL_SECONDS ∧
  clock (S (S (S n))) + pr_expires_in p * usec_per_sec <= cap_expires_at capability ∧
  (∀ deadline, a_expires_at (pr_asset p) = Some deadline →
     clock (S (S (S (S n)))) + pr_expires_in p * usec_per_sec <= deadline).
Proof.
  intros Hwf Hrun.
  refine (wp_inv _ (λ res _ _, ∀ p, res = Ok p → _) _ _ _ _ _ _ Hrun _ eq_refl). clear p n' g' Hrun.
  unfold presign_read. wp_step. apply wp_raise_if; intros Hsu; [done|].
  wp_step. apply wp_raise_if; intros Hexp; [done|]. apply Z.leb_gt in Hexp.
  wp_step. apply wp_resolve_for_read; [done|done|]. intros a i Hauth Hi Hs Hd _.
  wp_step. wp_step. wp_step. apply wp_raise_if; intros Hrem; [done|]. apply Z.leb_gt in Hrem.
  assert (Hq : ∀ d, 0 < whole_seconds d → whole_seconds d * usec_per_sec <= d).
  { intros d Hd0. unfold whole_seconds, usec_per_sec in *. pose proof (Z.quot_rem' d 1000000).
    destruct (Z.le_gt_cases 0 d) as [H0|H0].
    - pose proof (Z.rem_bound_pos d 1000000 H0 ltac:(lia)). lia.
    - pose proof (Z.quot_opp_l d 1000000 ltac:(lia)). pose proof (Z.quot_pos (- d) 1000000 ltac:(lia) ltac:(lia)). lia. }
  pose proof (Hq _ Hrem) as Hrem'.
  apply wp_bind. apply (wp_mono _ (λ res _ _, ∀ ttl, res = Ok ttl → 0 < ttl ∧
    ttl <= Z.min (Z.min expires_in MAX_PRESIGN_TTL_SECONDS)
                 (whole_seconds (cap_expires_at capability - clock (S (S (S n))))) ∧
    (∀ deadline, a_expires_at a = Some deadline → clock (S (S (S (S n)))) + ttl * usec_per_sec <= deadline))).
  { cbn. destruct (a_expires_at a) as [d|]; wp_steps; [done| |].
    - intros ttl [= <-]. apply Z.leb_gt in H.
      pose proof (Hq (d - clock (S (S (S (S n)))))). split_and!; [lia|lia|].
      intros d' [= <-]. unfold usec_per_sec in *. lia.
    - intros ttl [= <-]. split_and!; [unfold MAX_PRESIGN_TTL_SECONDS; lia|lia|done]. }
  intros [ttl|e] n1 g1 Httl; [|done]. destruct (Httl ttl eq_refl) as (T1 & T2 & T3). clear Httl.
  wp_step. apply wp_zoom. eapply wp_mono; [apply law_presign|]. intros [url|e] n2 o2 _; [|done].
  wp_step. apply wp_zoom. unfold ar_record_read, memory_registry, record_read. reg_steps; try done.
  all: intros p [= <-]; cbn; split_and!; try done; unfold usec_per_sec in *; nia.
Qed.
End GuardProps.

(** * Concrete requests *)

#[export] Instance demo_uuid_format : UuidFormat demo_env.
Proof.
  split; intros n; try discriminate;
    pose proof (demo_uuid_word n) as H; revert H; generalize (new_uuid n); intros s H.
  - apply strip_by_clean. induction s as [|c s IH]; [done|]. cbn in *.
    apply andb_prop in H as [[Hc _]%andb_prop Hs]. by rewrite Hc, IH.
  - induction s as [|c s IH]; [done|]. cbn in *.
    apply andb_prop in H as [[_ Hc%negb_true_iff]%andb_prop Hs]. by rewrite Hc, IH.
Qed.

Definition demo_guard : Guard Registry LocalObjectStore := mk_guard empty_registry ∅ ∅ ∅ ∅.

Lemma demo_guard_wf : guard_wf 0 demo_guard.
Proof. split; [by apply (new_registry_wf _ None)|]. intros i a. cbn. by rewrite lookup_empty. Qed.

Definition write_cap (scope : string) : Capability :=
  mk_capability "cap-w" WRITE scope 1700000900000000 "fetcher" true.
Definition read_cap : Capability := mk_capability "cap-r" READ "cache/p" 1700000900000000 "iiif-server" false.

Definition do_write : res Asset * nat * Guard Registry LocalObjectStore :=
  write_object (write_cap "cache/p") "cache/p/x" [104; 105] false (Some "text/plain") None None 0%nat demo_guard.

Lemma do_write_ok : is_Ok do_write.1.1 = true.
Proof. vm_compute. reflexivity. Qed.

Lemma write_object_spec_witness :
  ∃ a, do_write.1.1 = Ok a ∧ a_state a = AVAILABLE ∧
    g_store do_write.2 !! location_of a = Some [104; 105].
Proof.
  destruct (Ok_of _ do_write_ok) as [a H]. exists a. split; [exact H|].
  destruct (write_object_spec _ _ _ _ _ _ _ _ _ _ _ _ demo_guard_wf (run_result _ _ _ _ H)) as [_ _ _ _ _ Hw].
  split; apply Hw.
Defined.

Lemma do_write_wf : guard_wf do_write.1.2 do_write.2.
Proof.
  destruct (Ok_of _ do_write_ok) as [a H].
  eapply wr_wf, wp_inv; [apply wp_write_object, demo_guard_wf|exact (run_result _ _ _ _ H)].
Qed.

Definition do_read : res bytes * nat * Guard Registry LocalObjectStore :=
  read_bytes read_cap "cache/p/x" do_write.1.2 do_write.2.

Lemma do_read_ok : do_read.1.1 = Ok [104; 105].
Proof. vm_compute. reflexivity. Qed.

Lemma read_bytes_spec_witness :
  do_read.1.1 = Ok [104; 105] ∧ guard_wf do_read.1.2 do_read.2.
Proof.
  split; [exact do_read_ok|].
  exact (proj1 (read_bytes_spec read_cap "cache/p/x" _ _ _ _ _ do_write_wf (run_result _ _ _ _ do_read_ok))).
Defined.

(** A grant for a sibling partition is refused. *)
Lemma unauthorized_refused_witness :
  authorized (write_cap "cache/p2") WRITE "cache/p/x" 0%nat demo_guard = false ∧
  (write_object (write_cap "cache/p2") "cache/p/x" [1] false None None None 0%nat demo_guard).1.1
    = Err CapabilityDeniedError ∧
  refused demo_guard (Err CapabilityDeniedError : res Asset) 1%nat
    (write_object (write_cap "cache/p2") "cache/p/x" [1] false None None None 0%nat demo_guard).2.
Proof.
  assert (H : authorized (write_cap "cache/p2") WRITE "cache/p/x" 0%nat demo_guard = false)
    by (vm_compute; reflexivity).
  assert (Hr : (write_object (write_cap "cache/p2") "cache/p/x" [1] false None None None 0%nat demo_guard).1
               = (Err CapabilityDeniedError, 1%nat)) by (vm_compute; reflexivity).
  split; [exact H|]. split; [by rewrite Hr|].
  eapply (proj2 (proj2 (unauthorized_refused (write_cap "cache/p2") "cache/p/x" 0%nat demo_guard)) H).
  rewrite <- Hr. apply surjective_pairing.
Defined.

(** A store that presigns: the local one with a fixed base address. *)
Definition url_presign (loc : ObjectStoreLocation) (ttl : Z) : M LocalObjectStore string :=
  mret ("https://store/" +:+ loc_key loc +:+ "?ttl=" +:+ pretty ttl).

#[local] Instance url_store : ObjectStoreBackend LocalObjectStore := {|
  put_object := local_put; get_object := local_get; stat_object := local_stat;
  delete_object := local_delete; presign_get_url := url_presign
|}.

#[local] Instance url_store_laws : ObjectStoreLaws LocalObjectStore.
Proof.
  refine (Build_ObjectStoreLaws _ url_store (λ (o : LocalObjectStore) l, o !! l)
    (law_put (O := LocalObjectStore) (ObjectStoreLaws := local_object_store_laws))
    (law_get (O := LocalObjectStore) (ObjectStoreLaws := local_object_store_laws))
    (law_stat (O := LocalObjectStore) (ObjectStoreLaws := local_object_store_laws))
    (law_delete (O := LocalObjectStore) (ObjectStoreLaws := local_object_store_laws)) _).
  intros loc ttl n o. by cbn.
Defined.

Lemma url_write_wf : guard_wf do_write.1.2 do_write.2.
Proof. split; [exact (gw_registry _ _ do_write_wf)|exact (gw_stored _ _ do_write_wf)]. Qed.

Definition do_presign : res PresignedRead * nat * Guard Registry LocalObjectStore :=
  presign_read read_cap "cache/p/x" 7200 do_write.1.2 do_write.2.

Lemma do_presign_ok : is_Ok do_presign.1.1 = true.
Proof. vm_compute. reflexivity. Qed.

Lemma presign_read_bounds_witness : ∃ p, do_presign.1.1 = Ok p ∧ 0 < pr_expires_in p <= 3600.
Proof.
  destruct (Ok_of _ do_presign_ok) as [p H]. exists p. split; [exact H|].
  destruct (presign_read_bounds read_cap "cache/p/x" 7200 _ _ p _ _
    url_write_wf (run_result _ _ _ _ H))
    as (_ & _ & H1 & _ & H2 & _). split; [exact H1|exact H2].
Defined.

(** ** A name the guard authorises is not always the name it writes *)

Definition escape : res Asset * nat * Guard Registry LocalObjectStore :=
  write_object (write_cap "cache/p/p") "cache/p/p/x" [1] false None None None 0%nat demo_guard.

(** A grant for [cache/p/p] lets its holder create [cache/p/x], outside the
    granted scope: the registry leaves an alias alone that already starts with
    its partition, so the authorised name [cache/p/p/x] stays unbound and the
    write lands on another name. *)
Lemma write_escapes_scope :
  is_same_path_or_child "cache/p/x" "cache/p/p" = false ∧
  is_Ok escape.1.1 = true ∧
  is_Some (r_aliases (g_registry escape.2) !! "cache/p/x") ∧
  (resolve_alias "cache" "p/p/x" escape.1.2 (g_registry escape.2)).1.1 = Err AliasNotFoundError.
Proof. split_and!; try (vm_compute; reflexivity). vm_compute. by eexists. Qed.
