(* ===== verification/GuardFlow.v ===== *)
(** * The guard's methods preserve its invariant

    Whatever a method of the guard ends with, the registry has evolved by its own
    rules and every committed asset still has its bytes. *)

From S2P Require Import Prelude Errors Python Effects Paths Models Retention Sha256 Registry RegistryInv RegistrySound RegistryNames RegistryPayload Capabilities ObjectStore Guard GuardProps.

Section Flow.
#[local] Set Default Proof Using "Type*".
Context {E : Env} `{!FreshIds E} `{!UuidFormat E}.
Context {O : Type} `{!ObjectStoreBackend O} `{!ObjectStoreLaws O}.
Abbreviation G := (Guard Registry O).

Definition guard_registry_wf (n : nat) (g : G) : Prop := registry_wf n (g_registry g).
Definition guard_step (g g' : G) : Prop := evolves (g_registry g) (g_registry g').

#[export] Instance guard_step_preorder : PreOrder guard_step.
Proof.
  split; [intros g; unfold guard_step; reflexivity|]. intros g1 g2 g3 H1 H2. unfold guard_step in *. by etrans.
Qed.

Lemma flow_frame : PreOrder guard_step ∧ ∀ n n' g, (n <= n')%nat → guard_registry_wf n g → guard_registry_wf n' g.
Proof. split; [exact _|]. intros n n' g. apply registry_wf_mono. Qed.

Lemma guarded_frame : PreOrder guard_step ∧ ∀ n n' g, (n <= n')%nat → guard_wf n g → guard_wf n' g.
Proof. split; [exact _|exact guard_wf_mono]. Qed.

(** Committed bytes survive a tame call. *)
Lemma stored_tame (r r' : Registry) (o : O) : tame_step r r' → stored (r_assets r) o → stored (r_assets r') o.
Proof.
  intros [Hev Hp] Hst i a' Hi' Hs' Hz'. destruct (Hp i a' Hi' Hz') as (a & Hi & Hz).
  destruct (ev_assets _ _ Hev i a Hi) as (a'' & Hi'' & Hstep). rewrite Hi' in Hi''. injection Hi'' as <-.
  assert (Hs : a_state a ≠ DELETED).
  { intros Hd. pose proof (as_state _ _ Hstep) as Hm. rewrite Hd in Hm. by destruct (a_state a'). }
  destruct (Hst i a Hi Hs Hz) as (data & Hc & Hsz & Hck). exists data.
  rewrite (as_size _ _ Hstep), (as_checksum _ _ Hstep) by (done || by eexists).
  unfold location_of. by rewrite (as_space _ _ Hstep), (as_key _ _ Hstep).
Qed.

(** ** The registry evolves *)

Lemma flow_registry {A} late (m : M Registry A) : sound_upto late m → advances m → preserves guard_registry_wf guard_step (on_registry m).
Proof.
  intros Hs Ha. apply preserves_zoom; [exact flow_frame|]. intros n g Hwf.
  eapply wp_mono; [apply wp_and; [by apply Hs|by apply Ha]|]. intros res n' r' [[Hwf' Hstep] Hn].
  split_and!; [done|done|]. unfold guard_step. cbn. by eapply step_ok_evolves.
Qed.

Lemma flow_call (c : call) {A} (m : M Registry A) : exec c = ignore m → preserves guard_registry_wf guard_step (on_registry m).
Proof.
  intros Hc. pose proof (exec_sound c) as Hs. pose proof (exec_advances c) as Ha. rewrite Hc in Hs, Ha.
  apply (flow_registry (is_detach c)).
  - intros n r Hwf. specialize (Hs n r Hwf). revert Hs. unfold ignore, wp, mbind, M_bind. by destruct (m n r) as [[[a|e] n'] r'].
  - intros n r. specialize (Ha n r). revert Ha. unfold ignore, wp, mbind, M_bind. by destruct (m n r) as [[[a|e] n'] r'].
Qed.

Lemma flow_store {A} (m : M O A) : advances m → preserves guard_registry_wf guard_step (on_store m).
Proof.
  intros Ha. apply preserves_zoom; [exact flow_frame|]. intros n g Hwf. eapply wp_mono; [by apply Ha|].
  intros res n' o' Hn. split_and!; [done|apply (registry_wf_mono n); [exact Hn|exact Hwf]|unfold guard_step; cbn; reflexivity].
Qed.

Lemma flow_ledger (m : M Ledger unit) : advances m → preserves guard_registry_wf guard_step (on_ledger (R:=Registry) (O:=O) m).
Proof.
  intros Ha. apply preserves_zoom; [exact flow_frame|]. intros n g Hwf. eapply wp_mono; [by apply Ha|].
  intros res n' l' Hn. split_and!; [done|apply (registry_wf_mono n); [exact Hn|exact Hwf]|unfold guard_step; cbn; reflexivity].
Qed.

Lemma advances_prune : advances prune_expired.
Proof. unfold prune_expired. solve_advances. Qed.
Lemma advances_record capability : advances (record_successful_use capability).
Proof. unfold record_successful_use, prune_expired. solve_advances. Qed.
Lemma advances_unused capability : advances (assert_unused capability).
Proof. unfold assert_unused, prune_expired. solve_advances. Qed.
#[local] Hint Resolve advances_prune advances_record advances_unused : effects.

Lemma advances_put loc data : advances (put_object (O:=O) loc data).
Proof. intros n o. eapply wp_mono; [apply law_put|]. by intros ? ? ? [? _]. Qed.
Lemma advances_delete loc : advances (delete_object (O:=O) loc).
Proof. intros n o. eapply wp_mono; [apply law_delete|]. by intros ? ? ? [? _]. Qed.
#[local] Hint Resolve advances_put advances_delete : effects.

Lemma flow_count f : (∀ g, g_registry (f g) = g_registry g) → preserves guard_registry_wf guard_step (modify (S:=G) f).
Proof.
  intros Hf. apply preserves_modify; [exact flow_frame|]. intros n g Hwf. unfold guard_registry_wf, guard_step. rewrite Hf.
  split; [done|reflexivity].
Qed.

Lemma flow_locking {A} i (body : Asset → M G A) :
  (∀ a, preserves guard_registry_wf guard_step (body a)) → preserves guard_registry_wf guard_step (locking i body).
Proof.
  intros Hb. unfold locking. cbn [ar_asset_lock memory_registry]. unfold asset_lock.
  apply preserves_bind; [exact flow_frame| |done]. apply (flow_registry False); [apply reads_sound|apply advances_reads].
Qed.

Ltac flow :=
  repeat first
    [ progress solve_preserves ltac:(exact flow_frame)
    | apply flow_locking; intros ?
    | apply flow_ledger; solve [auto with effects]
    | apply flow_store; solve [auto with effects]
    | apply flow_count; done ].

Lemma authorize_flow capability operation parsed :
  preserves guard_registry_wf guard_step (authorize (R:=Registry) (O:=O) capability operation parsed).
Proof. unfold authorize, require. flow. Qed.

Lemma cleanup_flow i location :
  preserves guard_registry_wf guard_step (_cleanup_failed_upload (R:=Registry) (O:=O) i location).
Proof.
  unfold _cleanup_failed_upload, cleanup_steps, count_cleanup.
  pose proof (λ asset state now reason purge, flow_call (CallLifecycle asset state now reason purge) _ eq_refl) as Hl.
  cbn [ar_lifecycle_update memory_registry]. flow; apply Hl.
Qed.

Lemma put_and_commit_flow capability i location data mime expected :
  preserves guard_registry_wf guard_step (put_and_commit (R:=Registry) (O:=O) capability i location data mime expected).
Proof.
  unfold put_and_commit. cbn [ar_commit_asset memory_registry]. flow.
  eapply (flow_call (CallCommit _ _ _ _ _ _)). reflexivity.
Qed.

Lemma write_object_flow capability alias data mutable mime expected ttl :
  preserves guard_registry_wf guard_step (write_object (R:=Registry) (O:=O) capability alias data mutable mime expected ttl).
Proof.
  unfold write_object, count_reservation. cbn [ar_reserve_asset memory_registry].
  pose proof authorize_flow. pose proof cleanup_flow. pose proof put_and_commit_flow. flow; auto.
  eapply (flow_call (CallReserve _ _ _ _ _ _ _ _ _)). reflexivity.
Qed.

(** ** Committed bytes stay *)

Lemma guarded_registry {A} (m : M Registry A) : tame m → preserves guard_wf guard_step (on_registry (O:=O) m).
Proof.
  intros Hm. apply preserves_zoom; [exact guarded_frame|]. intros n g [Hwf Hst].
  eapply wp_mono; [by apply Hm|]. intros res n' r' (Hn & Hwf' & Hstep). split_and!; [done| |apply Hstep].
  split; [done|]. by eapply stored_tame.
Qed.

(** An operation of the store that touches no bytes. *)
Lemma guarded_store {A} (m : M O A) :
  (∀ n o, wp m (λ _ n' o', (n <= n')%nat ∧ ∀ l, contents o' l = contents o l) n o) →
  preserves guard_wf guard_step (on_store (R:=Registry) m).
Proof.
  intros Hm. apply preserves_zoom; [exact guarded_frame|]. intros n g [Hwf Hst].
  eapply wp_mono; [apply Hm|]. intros res n' o' [Hn Hc]. split_and!; [done| |unfold guard_step; cbn; reflexivity].
  split; [by eapply registry_wf_mono|by eapply stored_same].
Qed.

Lemma guarded_get loc : preserves guard_wf guard_step (on_store (R:=Registry) (get_object (O:=O) loc)).
Proof. apply guarded_store. intros n o. eapply wp_mono; [apply law_get|]. by intros ? ? ? (? & ? & _). Qed.
Lemma guarded_stat loc : preserves guard_wf guard_step (on_store (R:=Registry) (stat_object (O:=O) loc)).
Proof. apply guarded_store. intros n o. eapply wp_mono; [apply law_stat|]. by intros ? ? ? (? & ? & _). Qed.
Lemma guarded_presign loc ttl : preserves guard_wf guard_step (on_store (R:=Registry) (presign_get_url (O:=O) loc ttl)).
Proof. apply guarded_store. intros n o. eapply wp_mono; [apply law_presign|]. by intros ? ? ? (? & ?). Qed.

Lemma guarded_ledger (m : M Ledger unit) : advances m → preserves guard_wf guard_step (on_ledger (R:=Registry) (O:=O) m).
Proof.
  intros Ha. apply preserves_zoom; [exact guarded_frame|]. intros n g Hwf. eapply wp_mono; [by apply Ha|].
  intros res n' l' Hn. split_and!; [done|by apply guard_wf_set_ledger, (guard_wf_mono n)|unfold guard_step; cbn; reflexivity].
Qed.
#[local] Hint Resolve guarded_get guarded_stat guarded_presign : preserves.

Ltac guarded :=
  repeat first
    [ progress solve_preserves ltac:(exact guarded_frame)
    | apply guarded_registry; solve [cbn; auto with preserves]
    | apply guarded_ledger; solve [auto with effects] ].

Lemma prune_guarded : preserves guard_wf guard_step (prune_consumed_capabilities (R:=Registry) (O:=O)).
Proof. unfold prune_consumed_capabilities. guarded. Qed.

Lemma authorize_guarded capability operation parsed :
  preserves guard_wf guard_step (authorize (R:=Registry) (O:=O) capability operation parsed).
Proof. unfold authorize, require. guarded. Qed.
#[local] Hint Resolve authorize_guarded : preserves.

Lemma authorize_write_guarded capability alias :
  preserves guard_wf guard_step (authorize_write (R:=Registry) (O:=O) capability alias).
Proof. unfold authorize_write. guarded. Qed.

Lemma resolve_for_read_guarded capability alias :
  preserves guard_wf guard_step (resolve_for_read (R:=Registry) (O:=O) capability alias).
Proof. unfold resolve_for_read. guarded. Qed.
#[local] Hint Resolve resolve_for_read_guarded : preserves.

Lemma read_bytes_guarded capability alias :
  preserves guard_wf guard_step (read_bytes (R:=Registry) (O:=O) capability alias).
Proof. unfold read_bytes. guarded. Qed.

Lemma presign_read_guarded capability alias expires_in :
  preserves guard_wf guard_step (presign_read (R:=Registry) (O:=O) capability alias expires_in).
Proof. unfold presign_read. cbv zeta. guarded. Qed.

Lemma write_object_guarded capability alias data mutable mime expected ttl :
  preserves guard_wf guard_step (write_object (R:=Registry) (O:=O) capability alias data mutable mime expected ttl).
Proof.
  intros n g Hwf. eapply wp_mono; [apply wp_and; [by apply wp_write_object|apply write_object_flow; apply Hwf]|].
  intros res n' g' (Hw & Hn & _ & Hstep). split_and!; [done|apply Hw|done].
Qed.
End Flow.

#[export] Hint Resolve guarded_get guarded_stat guarded_presign prune_guarded authorize_write_guarded read_bytes_guarded
  presign_read_guarded write_object_guarded : preserves.
