(* ===== verification/Lifecycle.v ===== *)
(** * The maintenance worker

    [asset_store_core/lifecycle.py]: planning a sweep (deadlines and orphans,
    then partition quotas, then bucket pressure) and applying it, action by
    action, each under the lock of its asset.  Both run over any registry and any
    object store.  Logging, the command line and the repetition of sweeps
    ([main]) are not modelled. *)

From S2P Require Import Prelude Errors Python Effects Paths Models Retention Sha256 Registry ObjectStore.
From Stdlib Require Import SpecFloat.

(** ** Policy *)

Record SweepPolicy := mk_policy {
  sp_pending_seconds : Z;
  sp_grace_seconds : gmap string Z;
  sp_capacity_bytes : gmap string Z;
  sp_pressure_trigger : spec_float;
  sp_pressure_target : spec_float;
  sp_quota_trigger : spec_float;
  sp_quota_target : spec_float
}.

(** The bounds declared on the fields. *)
Definition policy_fields_ok (p : SweepPolicy) : bool :=
  (0 <? sp_pending_seconds p) &&
  float_in_unit (sp_pressure_trigger p) && float_below_one (sp_pressure_target p) &&
  float_in_unit (sp_quota_trigger p) && float_below_one (sp_quota_target p).

Definition validate_policy (p : SweepPolicy) : res SweepPolicy :=
  if negb (bool_decide (dom (sp_grace_seconds p) = (list_to_set STORAGE_BUCKETS : gset string))) ||
     existsb (λ kv, kv.2 <? 0) (map_to_list (sp_grace_seconds p))
  then Err PyValueError
  else if existsb (λ kv, negb (mem kv.1 STORAGE_BUCKETS) || (kv.2 <=? 0))
            (map_to_list (sp_capacity_bytes p))
  then Err PyValueError
  else if SFleb (sp_pressure_trigger p) (sp_pressure_target p) ||
          SFleb (sp_quota_trigger p) (sp_quota_target p)
  then Err PyValueError
  else mret p.

Definition default_grace : gmap string Z :=
  {["cache" := 7 * 86400; "tmp" := 86400; "users" := 7 * 86400; "results" := 7 * 86400]}.

(** [SweepPolicy()]; 0.90, 0.70 and 0.75 are the nearest binary64 numbers. *)
Definition default_policy `{Env} : res SweepPolicy :=
  limits ← capacity_limits;
  validate_policy (mk_policy 86400 default_grace limits (float_quotient 9 10) (float_quotient 7 10)
    (float_quotient 9 10) (float_quotient 3 4)).

Record Action := mk_action {
  ac_asset : Asset;
  ac_state : AssetState;
  ac_reason : string;
  ac_purge : bool
}.

Record SweepReport := mk_report {
  sr_dry_run : bool;
  sr_candidates : Z;
  sr_applied : Z;
  sr_skipped : Z;
  sr_errors : Z;
  sr_exhausted : list string
}.

Record SweepMetrics := mk_metrics {
  sm_evicted : gmap (string * string) Z;
  sm_exhausted : gmap string Z;
  sm_errors : gmap string Z;
  sm_used_ratio : gmap string spec_float
}.

(** ** Scores *)


Definition _score (asset : Asset) (now : Z) : res (spec_float * string) :=
  let age := SFdiv prec emax
    (max_zero (total_seconds (now - default (a_created_at asset) (a_last_read_at asset))))
    (float_quotient 86400 1) in
  weighted ← float_mul_int age (default 0 (a_size_bytes asset));
  mret (weighted, a_asset_id asset).

(** Comparing two scores, as Python compares tuples. *)
Definition score_ltb (x y : spec_float * string) : bool :=
  if SFeqb x.1 y.1 then str_ltb x.2 y.2 else SFltb x.1 y.1.

(** ** Planning *)

(** The local variables of [plan_sweep]. *)
Record Plan := mk_plan {
  pl_actions : list Action;
  pl_selected : gset string;
  pl_purged : gset string;
  pl_exhausted : gset string;
  pl_ratios : gmap string spec_float
}.

Definition empty_plan : Plan := mk_plan [] ∅ ∅ ∅ ∅.

(** [actions.append(action)], and the sets kept along. *)
Definition plan_action (action : Action) (pl : Plan) : Plan :=
  let i := a_asset_id (ac_asset action) in
  mk_plan (pl_actions pl ++ [action]) ({[i]} ∪ pl_selected pl)
    (if ac_purge action then {[i]} ∪ pl_purged pl else pl_purged pl) (pl_exhausted pl) (pl_ratios pl).

Definition plan_exhausted (space : string) (pl : Plan) : Plan :=
  mk_plan (pl_actions pl) (pl_selected pl) (pl_purged pl) ({[space]} ∪ pl_exhausted pl) (pl_ratios pl).

Definition plan_ratio (space : string) (ratio : spec_float) (pl : Plan) : Plan :=
  mk_plan (pl_actions pl) (pl_selected pl) (pl_purged pl) (pl_exhausted pl) (<[space := ratio]> (pl_ratios pl)).

(** What is due for [asset] by the passage of time, if anything. *)
Definition due_action (policy : SweepPolicy) (now : Z) (asset : Asset) : res (option Action) :=
  let age := total_seconds (now - a_created_at asset) in
  if bool_decide (a_state asset = PENDING) && float_ge_int age (sp_pending_seconds policy) then
    mret (Some (mk_action asset DELETED "orphan" true))
  else if bool_decide (a_state asset = AVAILABLE) &&
          match a_expires_at asset with Some t => t <=? now | None => false end then
    mret (Some (mk_action asset EXPIRED "ttl_expired" false))
  else if decide (a_state asset = EXPIRED) then
    let expired_at := default (a_updated_at asset) (a_expired_at asset) in
    match sp_grace_seconds policy !! a_space asset with
    | None => Err PyKeyError
    | Some grace =>
        mret (if float_ge_int (total_seconds (now - expired_at)) grace
              then Some (mk_action asset DELETED "ttl_expired" true) else None)
    end
  else if bool_decide (a_state asset = DELETED) && bool_decide (a_payload_deleted_at asset = None) then
    mret (Some (mk_action asset DELETED "orphan" true))
  else mret None.

Definition plan_due (policy : SweepPolicy) (now : Z) (pl : res Plan) (asset : Asset) : res Plan :=
  pl ← pl;
  action ← due_action policy now asset;
  mret (match action with Some action => plan_action action pl | None => pl end).

(** [available(group)] *)
Definition is_available (selected : gset string) (a : Asset) : bool :=
  bool_decide (a_state a = AVAILABLE) && bool_decide (a_asset_id a ∉ selected).

Definition available (selected : gset string) (group : list Asset) : list Asset :=
  filter (λ a, is_available selected a = true) group.

Definition sum_list_with (f : Asset → Z) (l : list Asset) : Z := foldr (λ a acc, f a + acc) 0 l.

Definition total_size (l : list Asset) : Z := sum_list_with (λ a, default 0 (a_size_bytes a)) l.

(** The candidates of [evict], best first. *)
Definition evictable (selected : gset string) (now : Z) (group : list Asset) : res (list Asset) :=
  scored ← mapM (λ a, score ← _score a now; mret (score, a))
    (filter (λ a, a_eviction_policy a = INHERIT) (available selected group));
  mret ((sorted_by (λ x y, score_ltb y.1 x.1) scored).*2).

(** The loop of [evict]: what remains, and the plan. *)
Fixpoint evict_loop (reason : string) (target : spec_float) (remaining : Z) (candidates : list Asset)
    (pl : Plan) : Z * Plan :=
  match candidates with
  | [] => (remaining, pl)
  | asset :: rest =>
      if int_le_float remaining target then (remaining, pl)
      else evict_loop reason target (remaining - default 0 (a_size_bytes asset)) rest
             (plan_action (mk_action asset EXPIRED reason false) pl)
  end.

Definition evict (now : Z) (group : list Asset) (target : spec_float) (reason space : string) (pl : Plan)
    : res Plan :=
  let remaining := total_size (available (pl_selected pl) group) in
  candidates ← evictable (pl_selected pl) now group;
  let '(remaining, pl) := evict_loop reason target remaining candidates pl in
  mret (if int_gt_float remaining target then plan_exhausted space pl else pl).

(** [by_partition], its keys, and [by_space]. *)
Definition partition_key (a : Asset) : string * string := (a_space a, a_partition_id a).
Definition by_partition (assets : list Asset) (key : string * string) : list Asset :=
  filter (λ a, partition_key a = key) assets.
Definition by_space (assets : list Asset) (space : string) : list Asset :=
  filter (λ a, a_space a = space) assets.

Definition pair_ltb (x y : string * string) : bool :=
  if decide (x.1 = y.1) then str_ltb x.2 y.2 else str_ltb x.1 y.1.

Definition EVICTABLE_SPACES : list string := ["cache"; "tmp"].

Definition partition_keys (assets : list Asset) : list (string * string) :=
  sorted_by pair_ltb
    (filter (λ key, mem key.1 EVICTABLE_SPACES = true) (remove_dups (partition_key <$> assets))).

(** One round of the loop over the partitions, given the partition's quota. *)
Definition quota_round (policy : SweepPolicy) (now : Z) (assets : list Asset) (key : string * string)
    (quota : PartitionQuota) (pl : Plan) : res Plan :=
  if negb (pq_eviction_sweep_enabled quota) then mret pl
  else match pq_quota_bytes quota with
       | None => mret pl
       | Some quota_bytes =>
           let group := by_partition assets key in
           let used := total_size (available (pl_selected pl) group) in
           if negb (0 <? used) then mret pl
           else
             trigger ← int_mul_float quota_bytes (sp_quota_trigger policy);
             if int_ge_float used trigger then
               target ← int_mul_float quota_bytes (sp_quota_target policy);
               evict now group target "quota_lfu" key.1 pl
             else mret pl
       end.

(** One round of the loop over the buckets with a capacity. *)
Definition pressure_round (policy : SweepPolicy) (now : Z) (assets : list Asset) (pl : res Plan)
    (entry : string * Z) : res Plan :=
  pl ← pl;
  let '(space, capacity) := entry in
  let group := by_space assets space in
  let physical := sum_list_with physical_bytes (filter (λ a, a_payload_deleted_at a = None) group) in
  ratio ← int_true_div physical capacity;
  let pl := plan_ratio space ratio pl in
  let projected_physical :=
    sum_list_with physical_bytes (filter (λ a, a_asset_id a ∉ pl_purged pl) group) in
  if negb (mem space EVICTABLE_SPACES) then mret pl
  else
    trigger ← int_mul_float capacity (sp_pressure_trigger policy);
    if int_ge_float projected_physical trigger then
      target ← int_mul_float capacity (sp_pressure_target policy);
      evict now group target "pressure_lfu" space pl
    else mret pl.

Definition asset_id_ltb (a b : Asset) : bool := str_ltb (a_asset_id a) (a_asset_id b).

Definition sorted_capacities (policy : SweepPolicy) : list (string * Z) :=
  sorted_by (λ x y, str_ltb x.1 y.1) (map_to_list (sp_capacity_bytes policy)).

Section Planning.
Context {E : Env} {R : Type} `{!AssetRegistry R}.

Fixpoint plan_quotas (policy : SweepPolicy) (now : Z) (assets : list Asset)
    (keys : list (string * string)) (pl : Plan) : M R Plan :=
  match keys with
  | [] => mret pl
  | key :: keys' =>
      quota ← ar_get_partition_quota key.1 key.2;
      pl ← of_res (quota_round policy now assets key quota pl);
      plan_quotas policy now assets keys' pl
  end.

Definition plan_sweep (policy : SweepPolicy) (now : Z) : M R Plan :=
  assets ← ar_list_assets;
  pl ← of_res (foldl (plan_due policy now) (Ok empty_plan) (sorted_by asset_id_ltb assets));
  pl ← plan_quotas policy now assets (partition_keys assets) pl;
  of_res (foldl (pressure_round policy now assets) (Ok pl) (sorted_capacities policy)).
End Planning.

(** ** Applying a plan *)

Record Sweeper (R O : Type) := mk_sweeper {
  sw_registry : R;
  sw_store : O;
  sw_report : SweepReport;
  sw_metrics : SweepMetrics
}.
Arguments mk_sweeper {R O}.
Arguments sw_registry {R O}.
Arguments sw_store {R O}.
Arguments sw_report {R O}.
Arguments sw_metrics {R O}.

Definition count_in {K} `{Countable K} (k : K) (m : gmap K Z) : gmap K Z :=
  <[k := default 0 (m !! k) + 1]> m.

Section Sweeping.
Context {E : Env} {R O : Type} `{!AssetRegistry R} `{!ObjectStoreBackend O}.

Abbreviation SM := (M (Sweeper R O)).

Definition set_sw_registry (r : R) (s : Sweeper R O) : Sweeper R O :=
  mk_sweeper r (sw_store s) (sw_report s) (sw_metrics s).
Definition set_sw_store (o : O) (s : Sweeper R O) : Sweeper R O :=
  mk_sweeper (sw_registry s) o (sw_report s) (sw_metrics s).
Definition on_sw_registry {A} (m : M R A) : SM A := zoom sw_registry set_sw_registry m.
Definition on_sw_store {A} (m : M O A) : SM A := zoom sw_store set_sw_store m.
Definition sw_locking {A} (asset_id : string) (body : Asset → SM A) : SM A :=
  ar_asset_lock sw_registry set_sw_registry asset_id body.

(** The counters of the report, with the metric that goes along. *)
Definition set_report (f : SweepReport → SweepReport) (g : SweepMetrics → SweepMetrics) : SM unit :=
  modify (λ s, mk_sweeper (sw_registry s) (sw_store s) (f (sw_report s)) (g (sw_metrics s))).

Definition count_skipped : SM unit :=
  set_report (λ p, mk_report (sr_dry_run p) (sr_candidates p) (sr_applied p) (sr_skipped p + 1)
                     (sr_errors p) (sr_exhausted p)) (λ m, m).

Definition count_applied (space reason : string) : SM unit :=
  set_report (λ p, mk_report (sr_dry_run p) (sr_candidates p) (sr_applied p + 1) (sr_skipped p)
                     (sr_errors p) (sr_exhausted p))
    (λ m, mk_metrics (count_in (space, reason) (sm_evicted m)) (sm_exhausted m) (sm_errors m)
            (sm_used_ratio m)).

Definition count_error (space : string) : SM unit :=
  set_report (λ p, mk_report (sr_dry_run p) (sr_candidates p) (sr_applied p) (sr_skipped p)
                     (sr_errors p + 1) (sr_exhausted p))
    (λ m, mk_metrics (sm_evicted m) (sm_exhausted m) (count_in space (sm_errors m)) (sm_used_ratio m)).

(** Whether the eviction is still called for, under the lock. *)
Definition quota_pressure (policy : SweepPolicy) (asset : Asset) : SM bool :=
  quota ← on_sw_registry (ar_get_partition_quota (a_space asset) (a_partition_id asset));
  if negb (pq_eviction_sweep_enabled quota) then mret false
  else match pq_quota_bytes quota with
       | None => mret false
       | Some quota_bytes =>
           target ← of_res (int_mul_float quota_bytes (sp_quota_target policy));
           mret (negb (int_le_float (pq_used_bytes quota) target))
       end.

Definition bucket_pressure (policy : SweepPolicy) (asset : Asset) : SM bool :=
  usage ← on_sw_registry (ar_get_bucket_quota (a_space asset));
  match sp_capacity_bytes policy !! a_space asset with
  | None => raise PyKeyError
  | Some capacity =>
      target ← of_res (int_mul_float capacity (sp_pressure_target policy));
      mret (negb (int_le_float (bq_used_bytes usage) target))
  end.

(** The first [with] block: [false] when it ends in [continue]. *)
Definition transition_locked (policy : SweepPolicy) (now : Z) (action : Action) (current : Asset) : SM bool :=
  let asset := ac_asset action in
  if decide (current ≠ asset) then count_skipped ;; mret false
  else
    quota_ok ← (if decide (ac_reason action = "quota_lfu") then quota_pressure policy asset else mret true);
    if negb quota_ok then count_skipped ;; mret false
    else
      pressure_ok ← (if decide (ac_reason action = "pressure_lfu") then bucket_pressure policy asset
                     else mret true);
      if negb pressure_ok then count_skipped ;; mret false
      else if negb (ac_purge action) || bool_decide (a_state current ≠ DELETED) then
        on_sw_registry (ar_lifecycle_update current (ac_state action) now (ac_reason action) false) ;;
        mret true
      else mret true.

(** The second [with] block, on the asset fenced by the first. *)
Definition purge_locked (now : Z) (action : Action) (fenced : Asset) : SM bool :=
  if decide (is_Some (a_payload_deleted_at fenced)) then count_skipped ;; mret false
  else
    raise_if (bool_decide (a_state fenced ≠ DELETED)) PyRuntimeError ;;
    on_sw_store (delete_object (mk_location (a_space fenced) (a_storage_key fenced))) ;;
    on_sw_registry (ar_lifecycle_update fenced DELETED now (ac_reason action) true) ;;
    mret true.

(** The body of the [try]. *)
Definition attempt_action (policy : SweepPolicy) (now : Z) (action : Action) : SM unit :=
  let asset := ac_asset action in
  moved ← sw_locking (a_asset_id asset) (transition_locked policy now action);
  if negb moved then mret tt
  else
    purged ← (if ac_purge action then sw_locking (a_asset_id asset) (purge_locked now action) else mret true);
    if negb purged then mret tt
    else count_applied (a_space asset) (ac_reason action).

Definition apply_action (policy : SweepPolicy) (now : Z) (action : Action) : SM unit :=
  catch (attempt_action policy now action) (λ _, count_error (a_space (ac_asset action))).

Definition gauge_exhausted (exhausted : gset string) (space : string) : Z :=
  if decide (space ∈ exhausted) then 1 else 0.

(** The report and the gauges a plan starts with. *)
Definition start_report (dry_run : bool) (pl : Plan) : SM unit :=
  set_report
    (λ _, mk_report dry_run (Z.of_nat (length (pl_actions pl))) 0 0 0
            (sorted_by str_ltb (elements (pl_exhausted pl))))
    (λ m, mk_metrics (sm_evicted m)
            (foldr (λ space, <[space := gauge_exhausted (pl_exhausted pl) space]>) (sm_exhausted m)
               STORAGE_BUCKETS)
            (sm_errors m) (pl_ratios pl ∪ sm_used_ratio m)).

Definition run_sweep (policy : option SweepPolicy) (dry_run : bool) (now : option Z) : SM SweepReport :=
  policy ← match policy with Some p => mret p | None => of_res default_policy end;
  now ← match now with Some t => mret t | None => utcnow end;
  pl ← on_sw_registry (plan_sweep policy now);
  start_report dry_run pl ;;
  for_each (pl_actions pl) (λ action, if (dry_run : bool) then mret tt else apply_action policy now action) ;;
  s ← get_state;
  mret (sw_report s).
End Sweeping.
