(* ===== verification/LifecyclePlan.v ===== *)
(** * Sweeps as plans

    Lemmas on [plan_sweep] over the in-memory registry: scores are strictly
    ordered, the plan is sound ([plan_wf]) and does everything due ([due_done]),
    planning fails only when its arithmetic overflows. *)

From S2P Require Import Prelude Errors Python Effects Paths Models Retention Sha256 Registry RegistryInv RegistrySound ObjectStore Lifecycle.
From Stdlib Require Import SpecFloat.

(** ** Scores are strictly ordered *)

(** Exchanging the arguments of a comparison of floats. *)
Lemma SFcompare_swap f g :
  SFcompare g f = match SFcompare f g with Some c => Some (CompOpp c) | None => None end.
Proof.
  destruct f as [[]|[]| |[] m e], g as [[]|[]| |[] m' e']; try done; cbn;
    rewrite (Z.compare_antisym e e'); destruct (Z.compare e e'); cbn; try done;
    change (Pos.compare_cont Eq m' m) with (Pos.compare m' m);
    change (Pos.compare_cont Eq m m') with (Pos.compare m m');
    rewrite (Pos.compare_antisym m m'); by destruct (Pos.compare m m').
Qed.

Lemma SFltb_asym f g : SFltb f g = true → SFltb g f = false.
Proof. unfold SFltb. rewrite (SFcompare_swap f g). by destruct (SFcompare f g) as [[]|]. Qed.

Lemma SFeqb_sym f g : SFeqb f g = SFeqb g f.
Proof. unfold SFeqb. rewrite (SFcompare_swap f g). by destruct (SFcompare f g) as [[]|]. Qed.

Lemma score_ltb_asym x y : score_ltb x y = true → score_ltb y x = false.
Proof.
  unfold score_ltb. rewrite (SFeqb_sym y.1 x.1).
  destruct (SFeqb x.1 y.1); [apply str_ltb_asym|apply SFltb_asym].
Qed.

(** ** Eviction *)

#[local] Arguments total_size : simpl never.

Lemma total_size_nil : total_size [] = 0.
Proof. done. Qed.

Lemma total_size_cons a l : total_size (a :: l) = default 0 (a_size_bytes a) + total_size l.
Proof. done. Qed.

Definition expire_for (reason : string) (a : Asset) : Action := mk_action a EXPIRED reason false.

(** What the loop does: it takes candidates while more than the target remains. *)
Record evicted (reason : string) (target : spec_float) (remaining : Z) (candidates : list Asset)
    (pl : Plan) (remaining' : Z) (pl' : Plan) (victims spared : list Asset) : Prop := {
  ev_split : candidates = victims ++ spared;
  ev_plan : pl' = foldl (λ pl a, plan_action (expire_for reason a) pl) pl victims;
  ev_remaining : remaining' = remaining - total_size victims;
  ev_enough : spared = [] ∨ int_le_float remaining' target = true;
  ev_needed : ∀ k, (k < length victims)%nat →
    int_le_float (remaining - total_size (take k victims)) target = false
}.

Lemma evict_loop_spec reason target remaining candidates pl remaining' pl' :
  evict_loop reason target remaining candidates pl = (remaining', pl') →
  ∃ victims spared, evicted reason target remaining candidates pl remaining' pl' victims spared.
Proof.
  revert remaining pl. induction candidates as [|a rest IH]; cbn; intros remaining pl.
  - intros [= <- <-]. exists [], []. split; try done; [rewrite total_size_nil; lia|by left|intros k Hk; cbn in Hk; lia].
  - destruct (int_le_float remaining target) eqn:Hle.
    + intros [= <- <-]. exists [], (a :: rest). split; try done; [rewrite total_size_nil; lia|by right|intros k Hk; cbn in Hk; lia].
    + intros H. destruct (IH _ _ H) as (victims & spared & [-> -> -> H1 H2]).
      exists (a :: victims), spared. split; cbn; try done.
      * rewrite total_size_cons. lia.
      * intros [|k] Hk; cbn; [by rewrite total_size_nil, Z.sub_0_r|].
        rewrite total_size_cons, Z.sub_add_distr. apply H2. lia.
Qed.

Lemma mapM_res_fst {A B} (f : A → res B) (l : list A) k :
  mapM (λ a, b ← f a; mret (b, a)) l = Ok k →
  k.*2 = l ∧ Forall (λ ba, f ba.2 = Ok ba.1) k.
Proof.
  revert k. induction l as [|a l IH]; intros k; cbn; [by intros [= <-]|].
  unfold mbind, res_bind. destruct (f a) as [b|e] eqn:Hf; [|done]. cbn.
  destruct (mapM _ l) as [k'|e] eqn:Hk; [|done]. intros [= <-]. cbn.
  destruct (IH k' eq_refl) as [-> HF]. split; [done|]. by constructor.
Qed.

(** Asset [b] has the higher score. *)
Definition outscores (now : Z) (b a : Asset) : bool :=
  match _score a now, _score b now with
  | Ok x, Ok y => score_ltb x y
  | _, _ => false
  end.

(** The candidates: the available assets under the default policy, best first. *)
Lemma evictable_spec selected now group candidates :
  evictable selected now group = Ok candidates →
  candidates ≡ₚ filter (λ a, a_eviction_policy a = INHERIT) (available selected group) ∧
  Sorted (λ a b, outscores now b a = false) candidates.
Proof.
  unfold evictable, mbind, res_bind. cbn.
  destruct (mapM _ _) as [scored|e] eqn:Hm; [|done]. intros [= <-].
  apply mapM_res_fst in Hm as [<- HF]. split.
  - by rewrite sorted_by_Permutation.
  - assert (HF' : Forall (λ ba, _score ba.2 now = Ok ba.1) (sorted_by (λ x y, score_ltb y.1 x.1) scored))
      by by rewrite sorted_by_Permutation.
    pose proof (sorted_by_sorted (λ x y, score_ltb y.1 x.1) scored (λ a b, score_ltb_asym _ _)) as HS.
    induction HS as [|x l Hl IH Hhd]; cbn; [constructor|]. apply Forall_cons in HF' as [Hx HF'].
    constructor; [by apply IH|]. destruct l as [|y l]; cbn; [constructor|]. constructor.
    apply HdRel_inv in Hhd. apply Forall_cons in HF' as [Hy _]. unfold outscores. by rewrite Hx, Hy.
Qed.

(** The fields of a plan extended by evictions. *)
Lemma plan_victims reason victims pl :
  let pl' := foldl (λ pl a, plan_action (expire_for reason a) pl) pl victims in
  pl_actions pl' = pl_actions pl ++ (expire_for reason <$> victims) ∧
  pl_exhausted pl' = pl_exhausted pl ∧ pl_ratios pl' = pl_ratios pl.
Proof.
  revert pl. induction victims as [|a victims IH]; intros pl; cbn; [by rewrite app_nil_r|].
  destruct (IH (plan_action (expire_for reason a) pl)) as (-> & -> & ->). cbn. by rewrite <- app_assoc.
Qed.

Lemma int_le_not_gt z f : int_gt_float z f = true → int_le_float z f = false.
Proof. unfold int_le_float. intros H. rewrite H. by destruct f. Qed.

(** ** The plan *)

(** What an eviction of the plan is: of an available asset under the default
    policy, in a bucket whose assets may be evicted, with nothing else due. *)
Definition eviction (policy : SweepPolicy) (now : Z) (action : Action) : Prop :=
  let a := ac_asset action in
  (ac_reason action = "quota_lfu" ∨ ac_reason action = "pressure_lfu") ∧
  action = expire_for (ac_reason action) a ∧
  a_state a = AVAILABLE ∧ a_eviction_policy a = INHERIT ∧ a_space a ∈ EVICTABLE_SPACES ∧
  due_action policy now a = Ok None.

(** Every action is called for. *)
Definition justified (policy : SweepPolicy) (now : Z) (action : Action) : Prop :=
  due_action policy now (ac_asset action) = Ok (Some action) ∨ eviction policy now action.

Definition action_id (action : Action) : string := a_asset_id (ac_asset action).

Record plan_wf (policy : SweepPolicy) (now : Z) (assets : list Asset) (pl : Plan) : Prop := {
  pw_assets : ∀ action, action ∈ pl_actions pl → ac_asset action ∈ assets;
  pw_justified : ∀ action, action ∈ pl_actions pl → justified policy now action;
  pw_selected : ∀ i, i ∈ pl_selected pl ↔ i ∈ action_id <$> pl_actions pl;
  pw_purged : ∀ i, i ∈ pl_purged pl ↔ i ∈ action_id <$> filter (λ action, ac_purge action = true) (pl_actions pl);
  pw_nodup : NoDup (action_id <$> pl_actions pl);
  pw_exhausted : ∀ space, space ∈ pl_exhausted pl → space ∈ EVICTABLE_SPACES
}.

Lemma due_action_asset policy now a action : due_action policy now a = Ok (Some action) → ac_asset action = a.
Proof.
  unfold due_action, mret, res_ret. intros H. split_ifs; try done.
  all: repeat case_match; simplify_eq/=; done.
Qed.

Lemma plan_wf_empty policy now assets : plan_wf policy now assets empty_plan.
Proof. split; cbn; try set_solver. constructor. Qed.

Lemma plan_wf_action policy now assets pl action :
  plan_wf policy now assets pl → ac_asset action ∈ assets → justified policy now action →
  action_id action ∉ pl_selected pl → plan_wf policy now assets (plan_action action pl).
Proof.
  intros [H1 H2 H3 Hp H4 H5] Ha Hj Hn. split; cbn; try done.
  - intros a [?| ->%list_elem_of_singleton]%elem_of_app; auto.
  - intros a [?| ->%list_elem_of_singleton]%elem_of_app; auto.
  - intros i. rewrite fmap_app, elem_of_app, elem_of_union, H3. cbn.
    rewrite elem_of_singleton, list_elem_of_singleton. unfold action_id. tauto.
  - intros i. rewrite filter_app, fmap_app, elem_of_app, <- Hp. cbn. unfold action_id.
    destruct (ac_purge action); [rewrite decide_True by done|rewrite decide_False by done]; set_solver.
  - rewrite fmap_app. apply NoDup_app. split_and!; [done| |apply NoDup_singleton].
    intros i Hi ->%list_elem_of_singleton. by apply Hn, H3.
Qed.

(** Everything due is in the plan. *)
Definition due_done (policy : SweepPolicy) (now : Z) (assets : list Asset) (pl : Plan) : Prop :=
  ∀ a, a ∈ assets → ∃ o, due_action policy now a = Ok o ∧
    ∀ action, o = Some action → action ∈ pl_actions pl.

Lemma due_done_mono policy now assets pl pl' :
  pl_actions pl `prefix_of` pl_actions pl' → due_done policy now assets pl → due_done policy now assets pl'.
Proof.
  intros [l Hl] H a Ha. destruct (H a Ha) as (o & Ho & Hin). exists o. split; [done|].
  intros action Heq. rewrite Hl. apply elem_of_app. left. by apply Hin.
Qed.

Lemma plan_due_Err policy now e l : foldl (plan_due policy now) (Err e) l = Err e.
Proof. by induction l. Qed.

Lemma plan_due_spec policy now assets l pl pl' :
  foldl (plan_due policy now) (Ok pl) l = Ok pl' → plan_wf policy now assets pl →
  (∀ a, a ∈ l → a ∈ assets ∧ a_asset_id a ∉ pl_selected pl) → NoDup (a_asset_id <$> l) →
  plan_wf policy now assets pl' ∧ pl_actions pl `prefix_of` pl_actions pl' ∧ due_done policy now l pl'.
Proof.
  revert pl. induction l as [|a l IH]; cbn; intros pl Hrun Hwf Hl Hnd.
  { injection Hrun as <-. split_and!; [done|done|]. by intros a ?%not_elem_of_nil. }
  apply NoDup_cons in Hnd as [Ha Hnd].
  unfold mbind, res_bind in Hrun. destruct (due_action policy now a) as [o|e] eqn:Hdue;
    [|by rewrite plan_due_Err in Hrun].
  set (pl1 := match o with Some action => plan_action action pl | None => pl end).
  assert (H1 : plan_wf policy now assets pl1 ∧ pl_actions pl `prefix_of` pl_actions pl1 ∧
    (∀ action, o = Some action → action ∈ pl_actions pl1) ∧
    (∀ i, i ∈ pl_selected pl1 → i ∈ pl_selected pl ∨ i = a_asset_id a)).
  { subst pl1. destruct o as [action|]; [|by naive_solver].
    pose proof (due_action_asset _ _ _ _ Hdue) as Hac. split_and!.
    - apply plan_wf_action; [done|rewrite Hac; by apply Hl; left|left; by rewrite Hac|].
      unfold action_id. rewrite Hac. by apply Hl; left.
    - cbn. by apply prefix_app_r.
    - intros ? [= <-]. cbn. set_solver.
    - cbn. rewrite Hac. set_solver. }
  destruct H1 as (Hwf1 & Hpre1 & Hin1 & Hsel1).
  destruct (IH pl1) as (Hwf' & Hpre & Hdone); [exact Hrun|done| |done|].
  { intros b Hb. destruct (Hl b ltac:(by right)) as [? Hns]. split; [done|].
    intros [?|Heq]%Hsel1; [done|]. apply Ha. rewrite <- Heq. by apply list_elem_of_fmap_2. }
  split_and!; [done|by etrans|]. intros b [->|Hb]%elem_of_cons; [|by apply Hdone].
  exists o. split; [done|]. intros action Ho. destruct Hpre as [k ->]. apply elem_of_app. left. by apply Hin1.
Qed.

Lemma available_spec selected group a :
  a ∈ available selected group ↔ a ∈ group ∧ a_state a = AVAILABLE ∧ a_asset_id a ∉ selected.
Proof.
  unfold available, is_available. rewrite list_elem_of_filter, andb_true_iff, !bool_decide_eq_true. tauto.
Qed.

(** Adding victims that are not selected yet. *)
Lemma plan_wf_victims policy now assets reason victims pl :
  plan_wf policy now assets pl → due_done policy now assets pl →
  reason = "quota_lfu" ∨ reason = "pressure_lfu" → NoDup (a_asset_id <$> victims) →
  (∀ a, a ∈ victims → a ∈ assets ∧ (a_asset_id a ∉ pl_selected pl) ∧ a_state a = AVAILABLE ∧
     a_eviction_policy a = INHERIT ∧ a_space a ∈ EVICTABLE_SPACES) →
  plan_wf policy now assets (foldl (λ pl a, plan_action (expire_for reason a) pl) pl victims).
Proof.
  intros Hwf Hdone Hr. revert pl Hwf Hdone. induction victims as [|a victims IH]; [done|].
  intros pl Hwf Hdone [Ha Hnd]%NoDup_cons Hv. cbn.
  destruct (Hv a ltac:(by left)) as (Hin & Hns & Hs & Hp & Hsp).
  apply IH; [| |done|].
  - apply plan_wf_action; [done|done| |done]. right. split_and!; try done.
    destruct (Hdone a Hin) as ([action|] & Hdue & Hact); [|done]. exfalso. apply Hns.
    apply (pw_selected _ _ _ _ Hwf). apply list_elem_of_fmap. exists action.
    split; [|by apply Hact]. unfold action_id. by rewrite (due_action_asset _ _ _ _ Hdue).
  - eapply due_done_mono; [|done]. cbn. by apply prefix_app_r.
  - intros b Hb. destruct (Hv b ltac:(by right)) as (? & Hbs & ?). split_and!; try tauto.
    cbn. intros [Heq%elem_of_singleton|?]%elem_of_union; [|done].
    apply Ha. rewrite <- Heq. by apply list_elem_of_fmap_2.
Qed.

(** What one eviction does to the plan. *)
Lemma evict_plan now group target reason space pl pl' :
  evict now group target reason space pl = Ok pl' →
  ∃ victims spared remaining,
    victims ++ spared ≡ₚ filter (λ a, a_eviction_policy a = INHERIT) (available (pl_selected pl) group) ∧
    Sorted (λ a b, outscores now b a = false) (victims ++ spared) ∧
    let pl1 := foldl (λ pl a, plan_action (expire_for reason a) pl) pl victims in
    evicted reason target (total_size (available (pl_selected pl) group)) (victims ++ spared) pl
      remaining pl1 victims spared ∧
    pl' = if int_gt_float remaining target then plan_exhausted space pl1 else pl1.
Proof.
  unfold evict, mbind, res_bind. destruct (evictable _ _ _) as [candidates|e] eqn:Hc; [|done].
  destruct (evict_loop _ _ _ _ _) as [remaining pl1] eqn:Hl. intros [= <-].
  apply evictable_spec in Hc as [Hp Hs]. apply evict_loop_spec in Hl as (victims & spared & Hev).
  pose proof (ev_split _ _ _ _ _ _ _ _ _ Hev) as ->. pose proof (ev_plan _ _ _ _ _ _ _ _ _ Hev) as ->.
  by exists victims, spared, remaining.
Qed.

Lemma plan_wf_exhausted policy now assets space pl :
  space ∈ EVICTABLE_SPACES → plan_wf policy now assets pl →
  plan_wf policy now assets (plan_exhausted space pl).
Proof.
  intros Hs [H1 H2 H3 Hp H4 H5]. split; cbn; try done.
  intros s [->%elem_of_singleton|?]%elem_of_union; auto.
Qed.

Lemma plan_wf_ratio policy now assets space ratio pl :
  plan_wf policy now assets pl → plan_wf policy now assets (plan_ratio space ratio pl).
Proof. by intros []. Qed.

(** A sound plan that does everything due. *)
Definition plan_ok (policy : SweepPolicy) (now : Z) (assets : list Asset) (pl : Plan) : Prop :=
  plan_wf policy now assets pl ∧ due_done policy now assets pl.

Lemma evict_ok policy now assets group target reason space pl pl' :
  evict now group target reason space pl = Ok pl' → plan_ok policy now assets pl →
  reason = "quota_lfu" ∨ reason = "pressure_lfu" → NoDup (a_asset_id <$> assets) →
  group `sublist_of` assets → (∀ a, a ∈ group → a_space a = space) → space ∈ EVICTABLE_SPACES →
  plan_ok policy now assets pl'.
Proof.
  intros Hrun [Hwf Hdone] Hr Hnd Hsub Hg Hsp.
  destruct (evict_plan _ _ _ _ _ _ _ Hrun) as (victims & spared & remaining & Hp & _ & _ & ->).
  assert (Hin : ∀ a, a ∈ victims → a_eviction_policy a = INHERIT ∧ a ∈ available (pl_selected pl) group).
  { intros a Ha. apply (list_elem_of_filter (λ a, a_eviction_policy a = INHERIT)).
    rewrite <- Hp. apply elem_of_app. by left. }
  assert (Hnv : NoDup (a_asset_id <$> victims)).
  { assert (Hnp : NoDup (a_asset_id <$> victims ++ spared)).
    { rewrite Hp. eapply (sublist_NoDup _ (a_asset_id <$> assets)); [done|].
      apply fmap_sublist. unfold available. by do 2 (etrans; [apply sublist_filter|]). }
    rewrite fmap_app in Hnp. by apply NoDup_app in Hnp as [? _]. }
  set (pl1 := foldl _ pl victims).
  assert (H1 : plan_ok policy now assets pl1).
  { split.
    - apply plan_wf_victims; try done. intros a Ha. destruct (Hin a Ha) as [Hpol Hav].
      apply available_spec in Hav as (Hag & Hs & Hns). split_and!; try done; [|by rewrite Hg].
      by eapply elem_of_sublist.
    - eapply due_done_mono; [|done]. destruct (plan_victims reason victims pl) as (Hact & _).
      subst pl1. rewrite Hact. by apply prefix_app_r. }
  destruct (int_gt_float _ _); [|done]. destruct H1. split; [by apply plan_wf_exhausted|done].
Qed.

(** ** What is called for

    One round at a time, in terms of the actions planned before it. *)

(** The assets of [group] that are available, and not planned to go. *)
Definition live (pl : Plan) (group : list Asset) : list Asset :=
  filter (λ a, a_state a = AVAILABLE ∧ a_asset_id a ∉ action_id <$> pl_actions pl) group.

Lemma available_live policy now assets pl group : plan_wf policy now assets pl → available (pl_selected pl) group = live pl group.
Proof.
  intros Hwf. unfold available, live. apply list_filter_iff. intros a. unfold is_available.
  rewrite andb_true_iff, !bool_decide_eq_true, (pw_selected _ _ _ _ Hwf). done.
Qed.

(** The plan goes from [pl] to [pl'] by evicting from [group] down to [target]: the
    evictions are of assets under the default policy, go by score, highest first, are
    each made while more than the target is left, and stop as soon as no more is; if
    there are not enough candidates the bucket is reported as exhausted. *)
Definition evicts (now : Z) (group : list Asset) (target : spec_float) (reason space : string) (pl pl' : Plan) : Prop :=
  ∃ victims spared,
    let left_after k := total_size (live pl group) - total_size (take k victims) in
    victims ++ spared ≡ₚ filter (λ a, a_eviction_policy a = INHERIT) (live pl group) ∧
    Sorted (λ a b, outscores now b a = false) (victims ++ spared) ∧
    pl_actions pl' = pl_actions pl ++ (expire_for reason <$> victims) ∧
    (∀ k, (k < length victims)%nat → int_le_float (left_after k) target = false) ∧
    (spared = [] ∨ int_le_float (left_after (length victims)) target = true) ∧
    pl_exhausted pl' = (if int_gt_float (left_after (length victims)) target then {[space]} else ∅) ∪ pl_exhausted pl ∧
    pl_ratios pl' = pl_ratios pl.

(** A partition holds something, sweeps may evict from it, and what is left of it has
    reached the trigger of its quota. *)
Definition over_quota (policy : SweepPolicy) (quota : PartitionQuota) (used : Z) : Prop :=
  pq_eviction_sweep_enabled quota = true ∧ 0 < used ∧ ∃ bytes trigger, pq_quota_bytes quota = Some bytes ∧
    int_mul_float bytes (sp_quota_trigger policy) = Ok trigger ∧ int_ge_float used trigger = true.

(** The round of a partition. *)
Definition quota_called (policy : SweepPolicy) (now : Z) (r : Registry) (assets : list Asset) (key : string * string)
    (pl pl' : Plan) : Prop := ∃ quota,
  let group := filter (λ a, (a_space a, a_partition_id a) = key) assets in
  find_partition_quota r key.1 key.2 = Ok quota ∧
  (¬ over_quota policy quota (total_size (live pl group)) ∧ pl' = pl ∨
   over_quota policy quota (total_size (live pl group)) ∧ ∃ bytes target, pq_quota_bytes quota = Some bytes ∧
     int_mul_float bytes (sp_quota_target policy) = Ok target ∧ evicts now group target "quota_lfu" key.1 pl pl').

(** Evictions are made in the bucket, and what it will still hold once the plan has
    purged has reached the trigger of its capacity. *)
Definition under_pressure (policy : SweepPolicy) (space : string) (capacity projected : Z) : Prop :=
  (space = "cache" ∨ space = "tmp") ∧ ∃ trigger,
    int_mul_float capacity (sp_pressure_trigger policy) = Ok trigger ∧ int_ge_float projected trigger = true.

(** The round of a bucket with a capacity; the ratio of its use is recorded. *)
Definition pressure_called (policy : SweepPolicy) (now : Z) (assets : list Asset) (entry : string * Z) (pl pl' : Plan) : Prop :=
  let '(space, capacity) := entry in
  let group := filter (λ a, a_space a = space) assets in
  let projected := sum_list_with physical_bytes
    (filter (λ a, a_asset_id a ∉ action_id <$> filter (λ action, ac_purge action = true) (pl_actions pl)) group) in
  ∃ ratio, int_true_div (sum_list_with physical_bytes (filter (λ a, a_payload_deleted_at a = None) group)) capacity = Ok ratio ∧
  (¬ under_pressure policy space capacity projected ∧ pl' = plan_ratio space ratio pl ∨
   under_pressure policy space capacity projected ∧ ∃ target, int_mul_float capacity (sp_pressure_target policy) = Ok target ∧
     evicts now group target "pressure_lfu" space (plan_ratio space ratio pl) pl').

(** The rounds in turn. *)
Inductive rounds {K} (called : K → Plan → Plan → Prop) : list K → Plan → Plan → Prop :=
  | rounds_done pl : rounds called [] pl pl
  | rounds_next key keys pl pl1 pl2 : called key pl pl1 → rounds called keys pl1 pl2 → rounds called (key :: keys) pl pl2.

(** The plan for the assets: what is due, by asset; then the partitions of [cache] and
    [tmp] there are assets of, and the buckets with a capacity, each once and by name. *)
Definition called_for (policy : SweepPolicy) (now : Z) (r : Registry) (assets : list Asset) (pl : Plan) : Prop :=
  ∃ by_id keys entries pl1 pl2,
    by_id ≡ₚ assets ∧ Sorted (λ a b, str_ltb (a_asset_id b) (a_asset_id a) = false) by_id ∧
    pl_actions pl1 = omap (λ a, match due_action policy now a with Ok o => o | Err _ => None end) by_id ∧
    pl_exhausted pl1 = ∅ ∧ pl_ratios pl1 = ∅ ∧
    NoDup keys ∧ Sorted (λ x y, pair_ltb y x = false) keys ∧
    (∀ key, key ∈ keys ↔ (key.1 = "cache" ∨ key.1 = "tmp") ∧ ∃ a, a ∈ assets ∧ (a_space a, a_partition_id a) = key) ∧
    rounds (quota_called policy now r assets) keys pl1 pl2 ∧
    entries ≡ₚ map_to_list (sp_capacity_bytes policy) ∧ Sorted (λ x y, str_ltb y.1 x.1 = false) entries ∧
    rounds (pressure_called policy now assets) entries pl2 pl.

Lemma evict_called policy now assets group target reason space pl pl' :
  evict now group target reason space pl = Ok pl' → plan_wf policy now assets pl → evicts now group target reason space pl pl'.
Proof.
  intros (victims & spared & remaining & Hp & Hs & [_ _ Hrem Henough Hneed] & ->)%evict_plan Hwf.
  rewrite (available_live _ _ _ _ _ Hwf) in *. exists victims, spared. cbn zeta.
  destruct (plan_victims reason victims pl) as (Hact & Hex & Hra). rewrite firstn_all, <- Hrem.
  split_and!; [done|done| |done|done| |]; destruct (int_gt_float _ _); cbn; rewrite ?Hex; try done. set_solver.
Qed.

Lemma evictable_space space : space ∈ EVICTABLE_SPACES ↔ space = "cache" ∨ space = "tmp".
Proof. unfold EVICTABLE_SPACES. set_solver. Qed.

Lemma quota_round_called policy now r assets key quota pl pl' :
  find_partition_quota r key.1 key.2 = Ok quota → plan_wf policy now assets pl →
  quota_round policy now assets key quota pl = Ok pl' → quota_called policy now r assets key pl pl'.
Proof.
  intros Hq Hwf Hrun. exists quota. split; [exact Hq|]. unfold quota_round in Hrun.
  change (by_partition assets key) with (filter (λ a, (a_space a, a_partition_id a) = key) assets) in Hrun.
  set (group := filter _ assets) in *. rewrite (available_live _ _ _ _ _ Hwf) in Hrun. unfold over_quota.
  destruct (pq_eviction_sweep_enabled quota) eqn:He; cbn [negb] in Hrun; [|left; injection Hrun as <-; split; [by intros [? _]|done]].
  destruct (pq_quota_bytes quota) as [bytes|] eqn:Hb; [|left; injection Hrun as <-; split; [by intros (_ & _ & b & t & ? & _)|done]].
  destruct (Z.ltb_spec 0 (total_size (live pl group))) as [Hpos|Hpos]; cbn [negb] in Hrun;
    [|left; injection Hrun as <-; split; [intros (_ & ? & _); lia|done]].
  apply res_bind_Ok in Hrun as (trigger & Ht & Hrun). destruct (int_ge_float _ trigger) eqn:Hge.
  - right. split; [by split_and!; [..|exists bytes, trigger]|]. apply res_bind_Ok in Hrun as (target & Htarget & Hrun).
    exists bytes, target. split_and!; [done|done|]. by eapply evict_called.
  - left. injection Hrun as <-. split; [|done]. intros (_ & _ & b & t & [= <-] & Ht' & Hge'). rewrite Ht in Ht'. injection Ht' as <-. congruence.
Qed.

Lemma pressure_round_called policy now assets entry pl pl' :
  plan_wf policy now assets pl → pressure_round policy now assets (Ok pl) entry = Ok pl' → pressure_called policy now assets entry pl pl'.
Proof.
  intros Hwf Hrun. unfold pressure_round in Hrun. cbn [mbind res_bind] in Hrun. destruct entry as [space capacity].
  apply res_bind_Ok in Hrun as (ratio & Hratio & Hrun). exists ratio. split; [exact Hratio|].
  change (by_space assets space) with (filter (λ a, a_space a = space) assets) in Hrun.
  cbn [pl_purged plan_ratio] in Hrun. set (group := filter (λ a, a_space a = space) assets) in *.
  rewrite (list_filter_iff (λ a, a_asset_id a ∉ pl_purged pl)
    (λ a, a_asset_id a ∉ action_id <$> filter (λ action, ac_purge action = true) (pl_actions pl))) in Hrun
    by (intros a; by rewrite (pw_purged _ _ _ _ Hwf)).
  destruct (mem space EVICTABLE_SPACES) eqn:Hm; cbn [negb] in Hrun.
  - apply mem_true, evictable_space in Hm. apply res_bind_Ok in Hrun as (trigger & Ht & Hrun). destruct (int_ge_float _ trigger) eqn:Hge.
    + right. split; [by split; [|exists trigger]|]. apply res_bind_Ok in Hrun as (target & Htarget & Hrun). exists target. split; [done|].
      eapply evict_called; [done|]. by apply plan_wf_ratio.
    + left. injection Hrun as <-. split; [|done]. intros (_ & t & Ht' & Hge'). rewrite Ht in Ht'. injection Ht' as <-. congruence.
  - left. injection Hrun as <-. split; [|done]. intros [Hs _]. apply evictable_space, mem_true in Hs. congruence.
Qed.

Lemma plan_due_actions policy now l pl pl' : foldl (plan_due policy now) (Ok pl) l = Ok pl' →
  pl_actions pl' = pl_actions pl ++ omap (λ a, match due_action policy now a with Ok o => o | Err _ => None end) l ∧
  pl_exhausted pl' = pl_exhausted pl ∧ pl_ratios pl' = pl_ratios pl.
Proof.
  revert pl. induction l as [|a l IH]; intros pl; cbn [foldl].
  - intros [= <-]. cbn. by rewrite app_nil_r.
  - unfold plan_due at 2. destruct (due_action policy now a) as [o|e] eqn:Hdue; cbn [mbind res_bind]; [|by rewrite plan_due_Err].
    intros (H1 & H2 & H3)%IH. cbn. rewrite Hdue, H1, H2, H3. destruct o as [action|]; [|done]. cbn. by rewrite <- app_assoc.
Qed.

Lemma pair_ltb_asym x y : pair_ltb x y = true → pair_ltb y x = false.
Proof.
  unfold pair_ltb. destruct (decide (x.1 = y.1)) as [Heq|Hne]; [rewrite decide_True by done|rewrite decide_False by (by intros ?)];
    apply str_ltb_asym.
Qed.

Lemma elem_of_partition_keys assets key : key ∈ partition_keys assets ↔
  (key.1 = "cache" ∨ key.1 = "tmp") ∧ ∃ a, a ∈ assets ∧ (a_space a, a_partition_id a) = key.
Proof.
  unfold partition_keys. rewrite elem_of_sorted_by, list_elem_of_filter, elem_of_remove_dups, list_elem_of_fmap, mem_true, evictable_space.
  unfold partition_key. naive_solver.
Qed.

(** ** Planning fails only when arithmetic overflows *)

Definition overflows {A} (r : res A) : Prop := ∀ e, r = Err e → e = PyOverflowError.

Lemma overflows_Ok {A} (a : A) : overflows (Ok a).
Proof. done. Qed.

Lemma overflows_bind {A B} (r : res A) (k : A → res B) :
  overflows r → (∀ a, r = Ok a → overflows (k a)) → overflows (r ≫= k).
Proof.
  intros Hr Hk e. unfold mbind, res_bind. destruct r as [a|e']; [by apply Hk|]. intros [= ->]. by apply Hr.
Qed.

Lemma overflows_float z : overflows (float_of_int z).
Proof. unfold overflows, float_of_int. intros e. case_match; by intros [= <-]. Qed.

Lemma overflows_mul z f : overflows (int_mul_float z f).
Proof. apply overflows_bind; [apply overflows_float|done]. Qed.

Lemma overflows_div a b : overflows (int_true_div a b).
Proof. unfold overflows, int_true_div. intros e. case_match; by intros [= <-]. Qed.

Lemma overflows_score a now : overflows (_score a now).
Proof.
  apply overflows_bind; [|done]. apply overflows_bind; [apply overflows_float|done].
Qed.

Lemma overflows_mapM {A B} (f : A → res B) l : (∀ a, overflows (f a)) → overflows (mapM f l).
Proof.
  intros Hf. induction l as [|a l IH]; cbn; [done|].
  apply overflows_bind; [done|]. intros b _. by apply overflows_bind.
Qed.

#[local] Hint Resolve overflows_Ok overflows_mul overflows_div : core.

Lemma overflows_evict now group target reason space pl : overflows (evict now group target reason space pl).
Proof.
  apply overflows_bind; [|intros c _; by destruct (evict_loop _ _ _ _ _)].
  apply overflows_bind; [|done]. apply overflows_mapM. intros a.
  apply overflows_bind; [apply overflows_score|done].
Qed.

Lemma overflows_quota_round policy now assets key quota pl :
  overflows (quota_round policy now assets key quota pl).
Proof.
  unfold quota_round. repeat (case_match; try done). apply overflows_bind; [done|]. intros trigger _.
  case_match; [|done]. apply overflows_bind; [done|]. intros target _. apply overflows_evict.
Qed.

Lemma overflows_pressure_rounds policy now assets pl entries :
  overflows pl → overflows (foldl (pressure_round policy now assets) pl entries).
Proof.
  revert pl. induction entries as [|[space capacity] entries IH]; intros pl Hpl; cbn [foldl]; [done|].
  apply IH, overflows_bind; [done|]. intros pl1 _. apply overflows_bind; [done|]. intros ratio _.
  case_match; [done|]. apply overflows_bind; [done|]. intros trigger _.
  case_match; [|done]. apply overflows_bind; [done|]. intros target _. apply overflows_evict.
Qed.

(** A validated policy has a grace period for every bucket. *)
Lemma validated_grace policy space :
  validate_policy policy = Ok policy → space ∈ STORAGE_BUCKETS → is_Some (sp_grace_seconds policy !! space).
Proof.
  unfold validate_policy. intros Hv Hs. apply elem_of_dom.
  destruct (bool_decide (dom _ = _)) eqn:Hd; [|done]. guards. rewrite Hd. by apply elem_of_list_to_set.
Qed.

Lemma overflows_due policy now l pl :
  validate_policy policy = Ok policy → (∀ a, a ∈ l → a_space a ∈ STORAGE_BUCKETS) →
  overflows pl → overflows (foldl (plan_due policy now) pl l).
Proof.
  intros Hv. revert pl. induction l as [|a l IH]; intros pl Hl Hpl; cbn [foldl]; [done|].
  apply IH; [intros b Hb; apply Hl; by right|]. apply overflows_bind; [done|]. intros pl1 _.
  apply overflows_bind; [|done]. unfold due_action.
  destruct (validated_grace policy (a_space a)) as [grace Hg]; [done|apply Hl; by left|].
  rewrite Hg. by repeat case_match.
Qed.

Section PlanProps.
#[local] Set Default Proof Using "Type*".
Variables (policy : SweepPolicy) (now : Z) (assets : list Asset).
Hypothesis distinct : NoDup (a_asset_id <$> assets).

Lemma quota_round_ok key quota pl pl' :
  quota_round policy now assets key quota pl = Ok pl' → key.1 ∈ EVICTABLE_SPACES →
  plan_ok policy now assets pl → plan_ok policy now assets pl'.
Proof.
  unfold quota_round, mret, res_ret, mbind, res_bind. intros Hrun Hk Hok.
  repeat case_match; simplify_eq/=; try done.
  eapply evict_ok; [exact Hrun|done|by left|done|apply sublist_filter| |done].
  by intros b [<- _]%list_elem_of_filter.
Qed.

Lemma pressure_round_ok entry pl pl' :
  pressure_round policy now assets (Ok pl) entry = Ok pl' →
  plan_ok policy now assets pl → plan_ok policy now assets pl'.
Proof.
  unfold pressure_round, mret, res_ret, mbind, res_bind. intros Hrun [Hwf Hdone]. cbn in Hrun.
  destruct entry as [space capacity]. destruct (int_true_div _ _) as [ratio|]; [|done].
  assert (Hok : plan_ok policy now assets (plan_ratio space ratio pl))
    by (split; [by apply plan_wf_ratio|done]).
  destruct (mem space EVICTABLE_SPACES) eqn:Hm; cbn in Hrun; [|by injection Hrun as <-].
  apply mem_true in Hm. repeat case_match; simplify_eq/=; try done.
  eapply evict_ok; [exact Hrun|done|by right|done|apply sublist_filter| |done].
  by intros b [<- _]%list_elem_of_filter.
Qed.

Lemma pressure_rounds_ok entries pl pl' :
  foldl (pressure_round policy now assets) (Ok pl) entries = Ok pl' →
  plan_ok policy now assets pl → plan_ok policy now assets pl' ∧ rounds (pressure_called policy now assets) entries pl pl'.
Proof.
  revert pl. induction entries as [|entry entries IH]; intros pl; cbn [foldl]; [intros [= <-]; by split; [|constructor]|].
  intros Hrun Hok. destruct (pressure_round policy now assets (Ok pl) entry) as [pl1|e] eqn:H1.
  - destruct (IH _ Hrun) as [Hok' Hrounds]; [by eapply pressure_round_ok|]. split; [done|].
    econstructor; [|exact Hrounds]. eapply pressure_round_called; [apply Hok|done].
  - exfalso. clear -Hrun. induction entries; [done|auto].
Qed.
End PlanProps.

Section SweepProps.
#[local] Set Default Proof Using "Type*".
Context {E : Env}.

Lemma wp_plan_quotas policy now assets keys pl (Q : res Plan → nat → Registry → Prop) n r :
  NoDup (a_asset_id <$> assets) → (∀ key, key ∈ keys → key.1 ∈ EVICTABLE_SPACES) →
  (∀ key, key ∈ keys → is_Ok (find_partition_quota r key.1 key.2) = true) →
  plan_ok policy now assets pl →
  Q (Err PyOverflowError) n r →
  (∀ pl', plan_ok policy now assets pl' → rounds (quota_called policy now r assets) keys pl pl' → Q (Ok pl') n r) →
  wp (plan_quotas policy now assets keys pl) Q n r.
Proof.
  intros Hnd Hk Hq Hok Herr. revert pl Hok.
  induction keys as [|key keys IH]; intros pl Hok HQ; cbn; [by apply wp_ret, HQ; [|constructor]|].
  apply wp_bind, wp_reads. specialize (Hq key ltac:(by left)) as Hkey.
  destruct (find_partition_quota _ _ _) as [quota|e] eqn:Hquota; [|done].
  apply wp_bind, wp_of_res. destruct (quota_round _ _ _ _ _ _) as [pl1|e] eqn:Hr;
    [|by rewrite (overflows_quota_round _ _ _ _ _ _ _ Hr)].
  apply IH; [intros k Hin; apply Hk; by right|intros k Hin; apply Hq; by right| |].
  - eapply quota_round_ok; [done|exact Hr|apply Hk; by left|done].
  - intros pl' Hok' Hrounds. apply HQ; [done|]. econstructor; [|exact Hrounds]. eapply quota_round_called; [done|apply Hok|done].
Qed.

(** The assets a sweep looks at. *)
Definition listed (r : Registry) : list Asset :=
  filter (λ a, a_payload_deleted_at a = None) ((map_to_list (r_assets r)).*2).

Lemma elem_of_listed n r a :
  registry_wf n r → a ∈ listed r ↔ r_assets r !! a_asset_id a = Some a ∧ a_payload_deleted_at a = None.
Proof.
  intros Hwf. unfold listed. rewrite list_elem_of_filter, list_elem_of_fmap. split.
  - intros [Hp ([i b] & -> & Hb%elem_of_map_to_list)]. cbn in *. split; [|done].
    by rewrite (aw_id _ _ (get_wf _ _ _ _ Hwf Hb)).
  - intros [Ha Hp]. split; [done|]. exists (a_asset_id a, a). split; [done|]. by apply elem_of_map_to_list.
Qed.

Lemma listed_nodup n r : registry_wf n r → NoDup (a_asset_id <$> listed r).
Proof.
  intros Hwf. eapply (sublist_NoDup _ (a_asset_id <$> (map_to_list (r_assets r)).*2));
    [|apply fmap_sublist, sublist_filter].
  rewrite <- list_fmap_compose.
  rewrite (list_fmap_ext _ fst); [apply NoDup_fst_map_to_list|].
  intros k [i a] Hk%list_elem_of_lookup_2%elem_of_map_to_list. cbn.
  apply (aw_id _ _ (get_wf _ _ _ _ Hwf Hk)).
Qed.

Lemma wp_plan_sweep policy now (Q : res Plan → nat → Registry → Prop) n r :
  registry_wf n r → (∀ e, (validate_policy policy = Ok policy → e = PyOverflowError) → Q (Err e) n r) →
  (∀ pl, plan_ok policy now (listed r) pl → called_for policy now r (listed r) pl → Q (Ok pl) n r) →
  wp (plan_sweep policy now) Q n r.
Proof.
  intros Hwf Herr HQ. pose proof (listed_nodup _ _ Hwf) as Hnd. unfold plan_sweep.
  apply wp_bind, wp_reads. fold (listed r). cbn [mret res_ret].
  apply wp_bind, wp_of_res. destruct (foldl (plan_due policy now) _ _) as [pl|e] eqn:Hdue; cycle 1.
  { apply Herr. intros Hv. refine (overflows_due policy now _ _ Hv _ _ e Hdue); [|done].
    intros a (Ha & _)%elem_of_sorted_by%(elem_of_listed _ _ _ Hwf). apply (aw_space _ _ (get_wf _ _ _ _ Hwf Ha)). }
  pose proof (plan_due_actions _ _ _ _ _ Hdue) as (Hact & Hexh & Hrat).
  apply (plan_due_spec _ _ (listed r)) in Hdue as (Hwf1 & _ & Hdone).
  2: apply plan_wf_empty.
  2: { intros a Ha%elem_of_sorted_by. by split; [|apply not_elem_of_empty]. }
  2: by rewrite sorted_by_Permutation.
  apply wp_bind, wp_plan_quotas; [done| | | |by apply Herr|].
  - intros key [Hk _]%elem_of_sorted_by%list_elem_of_filter. by apply mem_true.
  - intros key [_ Hk]%elem_of_sorted_by%list_elem_of_filter.
    apply elem_of_remove_dups, list_elem_of_fmap in Hk as (a & -> & (Ha & _)%(elem_of_listed _ _ _ Hwf)).
    pose proof (get_wf _ _ _ _ Hwf Ha) as Hawf. destruct (asset_wf_partition _ _ Hawf) as [p Hp].
    unfold find_partition_quota, mbind, res_bind. cbn [partition_key fst snd].
    rewrite normalize_bucket_fix by apply (aw_space _ _ Hawf). rewrite Hp. by case_match.
  - split; [done|]. intros a Ha. apply Hdone. by apply elem_of_sorted_by.
  - intros pl1 Hok1 Hquotas. apply wp_of_res. destruct (foldl (pressure_round _ _ _) _ _) as [pl2|e] eqn:Hp.
    + apply pressure_rounds_ok in Hp as [Hok2 Hpressure]; [|done|done]. apply HQ; [done|].
      exists (sorted_by asset_id_ltb (listed r)), (partition_keys (listed r)), (sorted_capacities policy), pl, pl1.
      split_and!; [by rewrite sorted_by_Permutation|apply sorted_by_sorted; intros ? ?; apply str_ltb_asym|done|done|done|
        |apply sorted_by_sorted, pair_ltb_asym|intros key; apply elem_of_partition_keys|done|
        by unfold sorted_capacities; rewrite sorted_by_Permutation|apply sorted_by_sorted; intros ? ?; apply str_ltb_asym|done].
      unfold partition_keys. rewrite sorted_by_Permutation. apply NoDup_filter, NoDup_remove_dups.
    + apply Herr. intros _. by eapply overflows_pressure_rounds.
Qed.
End SweepProps.

