(* ===== verification/LifecycleProps.v ===== *)
(** * What a sweep guarantees

    Over the in-memory registry: planning reads and never writes, every planned
    action is called for and no asset is planned twice, evictions go by score and
    stop at the target.  Over any object store that keeps [ObjectStoreLaws]:
    applying a plan, even a stale one, keeps every invariant, and bytes disappear
    only for deleted assets; when deletions succeed everything due is done. *)

From S2P Require Import Prelude Errors Python Effects Paths Models Retention Sha256 Registry RegistryInv RegistrySound RegistryNames Scenario ObjectStore Capabilities Guard GuardProps Lifecycle LifecyclePlan.
From Stdlib Require Import SpecFloat.

(** ** Properties of plans *)


(** ** Applying actions *)

Section ApplyProps.
#[local] Set Default Proof Using "Type*".
Context {E : Env} `{!FreshIds E} `{!UuidFormat E}.
Context {O : Type} `{!ObjectStoreBackend O} `{!ObjectStoreLaws O}.

Abbreviation W := (Sweeper Registry O).

Record sweep_wf (n : nat) (s : W) : Prop := {
  sw_registry_wf : registry_wf n (sw_registry s);
  sw_stored : stored (r_assets (sw_registry s)) (sw_store s)
}.

Lemma set_sw_registry_id (s : W) : set_sw_registry (sw_registry s) s = s.
Proof. by destruct s. Qed.

Lemma set_sw_store_id (s : W) : set_sw_store (sw_store s) s = s.
Proof. by destruct s. Qed.

Definition skipped_one (s : W) : W := (count_skipped 0%nat s).2.

(** Reasons whose action is checked again under the lock. *)
Definition rechecked (action : Action) : Prop :=
  ac_reason action = "quota_lfu" ∨ ac_reason action = "pressure_lfu".

Lemma wp_quota_pressure policy asset (Q : res bool → nat → W → Prop) n s :
  (∀ res, Q res n s) → wp (quota_pressure policy asset) Q n s.
Proof.
  intros HQ. unfold quota_pressure, on_sw_registry. cbn [ar_get_partition_quota memory_registry].
  unfold get_partition_quota, _partition_quota.
  apply wp_bind, wp_zoom, wp_reads. rewrite set_sw_registry_id. destruct (find_partition_quota _ _ _); [|done].
  wp_steps; try done. destruct (int_mul_float _ _); [by apply wp_ret|done].
Qed.

Lemma wp_bucket_pressure policy asset (Q : res bool → nat → W → Prop) n s :
  (∀ res, Q res n s) → wp (bucket_pressure policy asset) Q n s.
Proof.
  intros HQ. unfold bucket_pressure, on_sw_registry. cbn [ar_get_bucket_quota memory_registry].
  unfold get_bucket_quota, _bucket_quota.
  apply wp_bind, wp_zoom, wp_reads. rewrite set_sw_registry_id. destruct (find_bucket_quota _ _); [|done].
  wp_steps; try done. destruct (int_mul_float _ _); [by apply wp_ret|done].
Qed.

(** A check under the lock that may give the action up. *)
Lemma wp_recheck (P : Prop) `{!Decision P} (m k : M W bool) (Q : res bool → nat → W → Prop) n s :
  (∀ Q' : res bool → nat → W → Prop, (∀ res, Q' res n s) → wp m Q' n s) →
  (P → ∀ e, Q (Err e) n s) → (P → Q (Ok false) n (skipped_one s)) → wp k Q n s →
  wp ((if decide P then m else mret true) ≫= λ ok : bool,
        if negb ok then count_skipped ;; mret false else k) Q n s.
Proof.
  intros Hm Herr Hskip Hk. apply wp_bind. destruct (decide P) as [HP|_]; [|by apply wp_ret].
  apply Hm. intros [[]|e]; cbn; [done|by apply Hskip|by apply Herr].
Qed.

(** The first critical section: skipped, refused, nothing to do, or one transition. *)
Lemma wp_transition_locked policy now action current (Q : res bool → nat → W → Prop) n s :
  registry_wf n (sw_registry s) →
  r_assets (sw_registry s) !! action_id action = Some current →
  (∀ e, rechecked action ∨ current ≠ ac_asset action ∨
        validate_cleanup_transition current (ac_state action) false ≠ Ok tt → Q (Err e) n s) →
  (rechecked action ∨ current ≠ ac_asset action → Q (Ok false) n (skipped_one s)) →
  (ac_purge action = true → a_state current = DELETED → current = ac_asset action → Q (Ok true) n s) →
  (∀ n' r', (n <= n')%nat → current = ac_asset action →
     validate_cleanup_transition current (ac_state action) false = Ok tt → registry_wf n' r' →
     r_assets r' = <[action_id action := cleaned current (ac_state action) now false]> (r_assets (sw_registry s)) →
     Q (Ok true) n' (set_sw_registry r' s)) →
  wp (transition_locked policy now action current) Q n s.
Proof.
  intros Hwf Hcur Herr Hskip Hdone Hok. unfold transition_locked.
  destruct (decide (current ≠ ac_asset action)) as [Hne|Heq%dec_stable]; [by apply Hskip; right|].
  apply wp_recheck; [intros ?; by apply wp_quota_pressure|intros ? e; apply Herr; by do 2 left|
    intros ?; apply Hskip; by do 2 left|].
  apply wp_recheck; [intros ?; by apply wp_bucket_pressure|intros ? e; apply Herr; left; by right|
    intros ?; apply Hskip; left; by right|].
  destruct (negb (ac_purge action) || bool_decide (a_state current ≠ DELETED)) eqn:Hp; cycle 1.
  { apply orb_false_iff in Hp as [Hp%negb_false_iff Hs%bool_decide_eq_false%dec_stable]. by apply wp_ret, Hdone. }
  clear Hdone Hp. apply wp_bind, wp_zoom. cbn [ar_lifecycle_update memory_registry].
  assert (Hid : a_asset_id current = action_id action) by by rewrite Heq.
  apply (wp_sound (late := False)); [apply lifecycle_update_sound|done|]. apply wp_lifecycle_update; [done| |].
  - intros e Hno _ _. rewrite set_sw_registry_id. apply Herr. right. destruct Hno as [Hno|?]; [|by right].
    rewrite Hid in Hno. congruence.
  - intros p events _ Hval _ a' Hwf' _. apply wp_ret, Hok; [lia|done|done|done|]. cbn. by rewrite Hid.
Qed.

Lemma validate_purge a :
  a_payload_deleted_at a = None → a_state a = DELETED → validate_cleanup_transition a DELETED true = Ok tt.
Proof. intros Hp Hs. unfold validate_cleanup_transition. by rewrite Hp, Hs. Qed.

(** The second one: nothing left to purge, not fenced, a failed deletion, or the
    bytes are gone and recorded as such. *)
Lemma wp_purge_locked now action fenced (Q : res bool → nat → W → Prop) n s :
  registry_wf n (sw_registry s) → r_assets (sw_registry s) !! action_id action = Some fenced →
  (is_Some (a_payload_deleted_at fenced) → Q (Ok false) n (skipped_one s)) →
  (∀ e, a_state fenced ≠ DELETED → Q (Err e) n s) →
  (∀ e n' o', (n <= n')%nat → a_state fenced = DELETED →
     (∀ l, l ≠ location_of fenced → contents o' l = contents (sw_store s) l) →
     (delete_object (location_of fenced) n (sw_store s)).1.1 = Err e →
     Q (Err e) n' (set_sw_store o' s)) →
  (∀ n' r' o', (n <= n')%nat → a_state fenced = DELETED → a_payload_deleted_at fenced = None →
     registry_wf n' r' →
     r_assets r' = <[action_id action := cleaned fenced DELETED now true]> (r_assets (sw_registry s)) →
     (∀ l, l ≠ location_of fenced → contents o' l = contents (sw_store s) l) →
     contents o' (location_of fenced) = None →
     Q (Ok true) n' (set_sw_registry r' (set_sw_store o' s))) →
  wp (purge_locked now action fenced) Q n s.
Proof.
  intros Hwf Hf Hgone Hlive Hfail Hok. unfold purge_locked.
  destruct (decide _) as [Hp|Hp]; [by apply Hgone|].
  apply wp_bind, wp_raise_if; intros Hs; guards; [by apply Hlive|apply dec_stable in Hs].
  apply wp_bind, wp_zoom. fold (location_of fenced).
  eapply wp_mono; [apply wp_and; [apply (law_delete (location_of fenced))|
    apply (proj2 (wp_run _ (λ res _ _, (delete_object (location_of fenced) n (sw_store s)).1.1 = res) _ _));
    intros ? ? ? Hrun; by rewrite Hrun]|].
  cbn. intros [[]|e] n' o' [(Hn & Ho & Hc) Hrun]; [|by apply Hfail].
  apply wp_bind, wp_zoom. cbn [ar_lifecycle_update memory_registry].
  assert (Hid : a_asset_id fenced = action_id action) by apply (aw_id _ _ (get_wf _ _ _ _ Hwf Hf)).
  assert (Hwf' : registry_wf n' (sw_registry s)) by by eapply registry_wf_mono.
  apply (wp_sound (late := False)); [apply lifecycle_update_sound|done|]. apply wp_lifecycle_update; [done| |].
  - intros e [Hno|Hno] _ _; [rewrite Hid in Hno; by destruct Hno|]. destruct Hno.
    apply validate_purge; [by apply eq_None_not_Some|done].
  - intros p events _ _ _ a' Hwf2 _.
    apply wp_ret, Hok; [lia|done|by apply eq_None_not_Some|done| |done|by apply Hc].
    cbn. by rewrite Hid.
Qed.

(** ** One action *)

(** A store whose deletions succeed. *)
Definition reliable : Prop := ∀ loc n (o : O), is_Ok (delete_object loc n o).1.1 = true.

Definition current (s : W) (action : Action) : option Asset := r_assets (sw_registry s) !! action_id action.

(** A due action has been carried out. *)
Definition fulfilled (now : Z) (action : Action) (s : W) : Prop :=
  ∃ a, current s action = Some a ∧ a_state a = ac_state action ∧
    (ac_purge action = true →
       a_payload_deleted_at a = Some now ∧ contents (sw_store s) (location_of a) = None).

(** How an action may move the record [a] of its asset to [a']. *)
Definition moved (action : Action) (a a' : Asset) : Prop :=
  asset_step a a' ∧
  (a' = a ∨ (a = ac_asset action ∧
    (a_state a' = ac_state action ∨ (a_state a' = DELETED ∧ a_state a = DELETED)))).

(** What an action may do: move its own asset, empty the location of a deleted one. *)
Record touched (policy : SweepPolicy) (now : Z) (action : Action) (s s' : W) : Prop := {
  to_others : ∀ j, j ≠ action_id action → r_assets (sw_registry s') !! j = r_assets (sw_registry s) !! j;
  to_record : ∀ a, current s action = Some a → ∃ a', current s' action = Some a' ∧ moved action a a';
  to_missing : current s action = None → current s' action = None;
  to_bytes : ∀ l, contents (sw_store s') l = contents (sw_store s) l ∨
    ∃ a', current s' action = Some a' ∧ location_of a' = l ∧ a_state a' = DELETED;
  to_done : reliable → current s action = Some (ac_asset action) →
    due_action policy now (ac_asset action) = Ok (Some action) → fulfilled now action s'
}.

(** A due action is a legal transition, not rechecked under the lock. *)
Lemma due_action_shape policy now i a action :
  asset_wf i a → due_action policy now a = Ok (Some action) →
  ¬ rechecked action ∧ a_payload_deleted_at a = None ∧
  ((ac_purge action = false ∧ ac_state action = EXPIRED ∧ a_state a = AVAILABLE) ∨
   (ac_purge action = true ∧ ac_state action = DELETED ∧ a_state a ≠ AVAILABLE)).
Proof.
  intros Ha Hdue.
  assert (Hp : a_state a ≠ DELETED → a_payload_deleted_at a = None).
  { intros Hs. apply eq_None_not_Some. intros Hp. by apply Hs, (aw_purged _ _ Ha). }
  unfold due_action, mret, res_ret, rechecked in *.
  destruct (a_state a) eqn:Hs; cbn in Hdue; repeat case_match; simplify_eq/=; guards;
    (split; [by intros []|split; [by auto|naive_solver]]).
Qed.

Lemma touched_same policy now action s s' :
  r_assets (sw_registry s') = r_assets (sw_registry s) → sw_store s' = sw_store s →
  (reliable → current s action = Some (ac_asset action) →
   due_action policy now (ac_asset action) = Ok (Some action) → False) →
  touched policy now action s s'.
Proof.
  intros Ha Ho Hno. unfold current in *. split; unfold current; rewrite ?Ha, ?Ho; try done.
  - intros a Hc. exists a. split; [done|]. split; [done|by left].
  - by left.
  - intros. exfalso. by apply Hno.
Qed.

Lemma validate_step a state now purge :
  validate_cleanup_transition a state purge = Ok tt → asset_step a (cleaned a state now purge).
Proof.
  intros (Hpay & Hmay & _)%validate_cleanup_Ok. split; cbn; try done. rewrite Hpay. by intros [].
Qed.

Lemma location_step a a' : asset_step a a' → location_of a' = location_of a.
Proof. intros []. unfold location_of. congruence. Qed.

(** The report after a critical section: one that gives up has counted it. *)
Definition reported (res : res bool) (s : W) : SweepReport :=
  match res with Ok false => sw_report (skipped_one s) | _ => sw_report s end.

(** From the fence on, whatever the deletion does. *)
Lemma wp_purge_touched policy now action f (Q : res bool → nat → W → Prop) n s s1 :
  sweep_wf n s1 → sw_store s1 = sw_store s → current s action = Some (ac_asset action) →
  r_assets (sw_registry s1) = <[action_id action := f]> (r_assets (sw_registry s)) →
  moved action (ac_asset action) f →
  (due_action policy now (ac_asset action) = Ok (Some action) →
   a_state f = DELETED ∧ a_payload_deleted_at f = None ∧ ac_state action = DELETED) →
  (∀ res n' s', sweep_wf n' s' → touched policy now action s s' →
     sw_report s' = reported res s1 → Q res n' s') →
  wp (sw_locking (action_id action) (purge_locked now action)) Q n s1.
Proof.
  intros [Hwf Hst] Hstore Hcur Has Hmov Hdue HQ. set (a := ac_asset action) in *.
  assert (Hf : r_assets (sw_registry s1) !! action_id action = Some f) by by rewrite Has, lookup_insert_eq.
  pose proof (proj1 Hmov) as Hstep. pose proof (location_step _ _ Hstep) as Hloc.
  assert (Htouch : ∀ s', (∃ f', moved action a f' ∧
      r_assets (sw_registry s') = <[action_id action := f']> (r_assets (sw_registry s)) ∧
      (∀ l, l ≠ location_of f → contents (sw_store s') l = contents (sw_store s) l) ∧
      (a_state f' = DELETED ∨ sw_store s' = sw_store s) ∧
      (reliable → due_action policy now a = Ok (Some action) → fulfilled now action s')) →
    touched policy now action s s').
  { intros s' (f' & Hm & Ha' & Hc & Hd & Hful). unfold current in Hcur. split; unfold current; rewrite ?Ha'.
    - intros j Hj. by rewrite lookup_insert_ne.
    - intros b Hb. exists f'. rewrite lookup_insert_eq. split; [done|]. congruence.
    - congruence.
    - intros l. destruct Hd as [Hd| ->]; [|by left]. destruct (decide (l = location_of f)) as [->|Hl]; [right|left; auto].
      exists f'. rewrite lookup_insert_eq. split_and!; [done| |done].
      by rewrite (location_step _ _ (proj1 Hm)), Hloc.
    - auto. }
  unfold sw_locking. cbn [ar_asset_lock memory_registry]. unfold asset_lock.
  apply wp_bind, wp_zoom, wp_get_asset; [|congruence]. intros b Hb. rewrite Hf in Hb. injection Hb as <-.
  rewrite set_sw_registry_id.
  apply wp_purge_locked; try done.
  - intros Hp. apply HQ; [by split| |done]. apply Htouch. exists f. split_and!; try done;
      [by intros; rewrite <- Hstore|by right|]. intros _ (_ & Hn & _)%Hdue. rewrite Hn in Hp. by destruct Hp.
  - intros e Hs. apply HQ; [by split| |done]. apply Htouch. exists f. split_and!; try done;
      [by intros; rewrite <- Hstore|by right|]. intros _ (? & _)%Hdue. done.
  - intros e n' o' Hn Hs Ho Hfail. apply HQ; [| |done].
    + split; cbn; [by eapply registry_wf_mono|]. eapply stored_touch; [apply Hwf|exact Hst|exact Hf|by right|done].
    + apply Htouch. exists f. split_and!; try done; cbn; [by rewrite <- Hstore|by left|].
      intros Hrel _. specialize (Hrel (location_of f) n (sw_store s1)). by rewrite Hfail in Hrel.
  - intros n' r' o' Hn Hs Hpay Hwf' Has' Ho Hgone. set (f' := cleaned f DELETED now true) in *.
    apply HQ; [| |done].
    + split; cbn; [done|]. rewrite Has'. apply stored_none; [|by right].
      eapply stored_touch; [apply Hwf|exact Hst|exact Hf|by right|done].
    + rewrite Has, insert_insert_eq in Has'. apply Htouch. exists f'. split_and!; try done; cbn.
      * split; [etrans; [exact Hstep|by apply validate_step, validate_purge]|]. right. split; [done|].
        destruct Hmov as [_ [<-|[_ [Heq|[_ Heq]]]]]; [by right|left; cbn; congruence|by right].
      * intros l Hl. rewrite <- Hstore. by apply Ho.
      * by left.
      * intros _ (_ & _ & Hst')%Hdue. exists f'. unfold current. cbn. rewrite Has', lookup_insert_eq.
        split_and!; [done|by rewrite Hst'|]. intros _. split; [done|]. exact Hgone.
Qed.

(** The report of a sweep under way: [k] more actions are accounted for. *)
Record tallied (k : Z) (p p' : SweepReport) : Prop := {
  ta_dry_run : sr_dry_run p' = sr_dry_run p;
  ta_candidates : sr_candidates p' = sr_candidates p;
  ta_exhausted : sr_exhausted p' = sr_exhausted p;
  ta_sum : sr_applied p' + sr_skipped p' + sr_errors p' = sr_applied p + sr_skipped p + sr_errors p + k
}.

Lemma touched_ext policy now action s s1 s2 :
  touched policy now action s s1 → sw_registry s2 = sw_registry s1 → sw_store s2 = sw_store s1 →
  touched policy now action s s2.
Proof.
  intros [H1 H2 H3 H4 H5] Hr Ho. unfold fulfilled, current in *. split; unfold fulfilled, current; by rewrite ?Hr, ?Ho.
Qed.

Lemma due_validated policy now i a action :
  asset_wf i a → due_action policy now a = Ok (Some action) →
  validate_cleanup_transition a (ac_state action) false = Ok tt.
Proof.
  intros Ha Hdue. destruct (due_action_shape _ _ _ _ _ Ha Hdue) as (_ & Hp & Hs).
  unfold validate_cleanup_transition. rewrite Hp.
  destruct Hs as [(_ & -> & ->)|(_ & -> & Hs)]; [done|]. by destruct (a_state a).
Qed.

Lemma stored_cleaned assets o i a state now :
  stored assets o → assets !! i = Some a → validate_cleanup_transition a state false = Ok tt →
  stored (<[i := cleaned a state now false]> assets) o.
Proof.
  intros Hst Hi (_ & Hmay & _)%validate_cleanup_Ok. eapply stored_put; [exact Hst|exact Hi|done..|].
  intros Hd. rewrite Hd in Hmay. by destruct state.
Qed.

(** What is left of an attempt after its transition: the purge and the count. *)
Lemma wp_finish policy now action f n s1 s (Q : res unit → nat → W → Prop) :
  ac_purge action = true → current s action = Some (ac_asset action) →
  sweep_wf n s1 → sw_store s1 = sw_store s → sw_report s1 = sw_report s →
  r_assets (sw_registry s1) = <[action_id action := f]> (r_assets (sw_registry s)) →
  moved action (ac_asset action) f →
  (due_action policy now (ac_asset action) = Ok (Some action) →
   a_state f = DELETED ∧ a_payload_deleted_at f = None ∧ ac_state action = DELETED) →
  (∀ res n' s', sweep_wf n' s' → touched policy now action s s' →
     tallied (if is_Ok res then 1 else 0) (sw_report s) (sw_report s') → Q res n' s') →
  wp (purged ← (if ac_purge action then sw_locking (action_id action) (purge_locked now action) else mret true);
      if negb purged then mret tt else count_applied (a_space (ac_asset action)) (ac_reason action)) Q n s1.
Proof.
  intros -> Hcur Hsw Ho Hrep Has Hm Hdue HQ. apply wp_bind.
  eapply wp_purge_touched; [done..|]. intros res n' s' Hsw' Ht Hrep'. unfold reported in Hrep'.
  destruct res as [[]|e]; cbn.
  - apply HQ; [by destruct Hsw'; split|by eapply touched_ext|].
    cbn. rewrite Hrep', Hrep. split; cbn; lia || done.
  - apply wp_ret, HQ; [done..|]. rewrite Hrep'. cbn. rewrite Hrep. split; cbn; lia || done.
  - apply HQ; [done..|]. rewrite Hrep', Hrep. split; cbn; lia || done.
Qed.

Lemma wp_attempt_action policy now action (Q : res unit → nat → W → Prop) n s :
  sweep_wf n s →
  (∀ res n' s', sweep_wf n' s' → touched policy now action s s' →
     tallied (if is_Ok res then 1 else 0) (sw_report s) (sw_report s') → Q res n' s') →
  wp (attempt_action policy now action) Q n s.
Proof.
  intros Hsw HQ. pose proof Hsw as [Hwf Hst]. unfold attempt_action. apply wp_bind. fold (action_id action).
  unfold sw_locking at 1. cbn [ar_asset_lock memory_registry]. unfold asset_lock.
  apply wp_bind, wp_zoom, wp_get_asset; [intros c Hc|intros Hc]; rewrite set_sw_registry_id; cycle 1.
  { apply HQ; [done| |by split; cbn; lia || done]. apply touched_same; [done..|]. unfold current. by rewrite Hc. }
  pose proof (get_wf _ _ _ _ Hwf Hc) as Hcwf.
  assert (Hidle : ∀ s', sw_registry s' = sw_registry s → sw_store s' = sw_store s →
    rechecked action ∨ c ≠ ac_asset action ∨ validate_cleanup_transition c (ac_state action) false ≠ Ok tt →
    sweep_wf n s' ∧ touched policy now action s s').
  { intros s' Hr Ho Hwhy. split; [by split; rewrite ?Hr, ?Ho|]. apply touched_same; [by rewrite Hr|done|].
    intros _ Hcur Hdue. unfold current in Hcur. rewrite Hc in Hcur. injection Hcur as ->.
    destruct (due_action_shape _ _ _ _ _ Hcwf Hdue) as (? & _).
    destruct Hwhy as [?|[?|Hv]]; [done..|]. by apply Hv, (due_validated _ _ _ _ _ Hcwf Hdue). }
  apply wp_transition_locked; [done|done| | | |].
  - intros e Hwhy. destruct (Hidle s) as [? ?]; [done..|]. apply HQ; [done..|]. split; cbn; lia || done.
  - intros Hwhy. destruct (Hidle (skipped_one s)) as [? ?]; [done..|by destruct Hwhy; auto|].
    apply wp_ret, HQ; [done..|]. split; cbn; lia || done.
  - intros Hp Hs ->. cbn [negb].
    apply (wp_finish policy now action (ac_asset action) n s s); try done; [by rewrite insert_id|by split; [|left]|].
    intros Hdue. destruct (due_action_shape _ _ _ _ _ Hcwf Hdue) as (_ & ? & [[? _]|(_ & ? & _)]); [congruence|done].
  - intros n' r' Hn -> Hv Hwf' Has. cbn [negb].
    assert (Hsw' : sweep_wf n' (set_sw_registry r' s)).
    { split; [done|]. cbn. rewrite Has. by apply stored_cleaned. }
    set (f := cleaned (ac_asset action) (ac_state action) now false) in *.
    assert (Hm : moved action (ac_asset action) f).
    { split; [by apply validate_step|]. right. split; [done|by left]. }
    destruct (Bool.bool_dec (ac_purge action) true) as [Hp|Hp%not_true_is_false].
    + apply (wp_finish policy now action f n' _ s); try done. intros Hdue.
      destruct (due_action_shape _ _ _ _ _ Hcwf Hdue) as (_ & ? & [[? _]|(_ & ? & _)]); [congruence|done].
    + rewrite Hp. apply wp_bind, wp_ret. apply HQ; [by destruct Hsw'; split| |by split; cbn; lia || done].
      split; unfold fulfilled, current; cbn; rewrite ?Has, ?lookup_insert_eq.
      * intros j Hj. by rewrite lookup_insert_ne.
      * intros a Ha. rewrite Hc in Ha. injection Ha as <-. by eexists.
      * congruence.
      * by left.
      * intros _ _ Hdue. eexists. split_and!; [done|done|congruence].
Qed.

Lemma wp_apply_action policy now action (Q : res unit → nat → W → Prop) n s :
  sweep_wf n s →
  (∀ n' s', sweep_wf n' s' → touched policy now action s s' → tallied 1 (sw_report s) (sw_report s') →
     Q (Ok tt) n' s') →
  wp (apply_action policy now action) Q n s.
Proof.
  intros Hsw HQ. unfold apply_action. apply wp_catch, wp_attempt_action; [done|].
  intros [[]|e] n' s' Hsw' Ht Htal; cbn [is_Ok] in Htal; [by apply HQ|].
  unfold count_error, set_report. apply wp_modify. apply HQ; [by destruct Hsw'; split|by eapply touched_ext|].
  destruct Htal. split; cbn; try done. lia.
Qed.

(** ** A sweep *)

(** The actions of [done] have been applied to [s0]. *)
Record swept (policy : SweepPolicy) (now : Z) (done : list Action) (s0 s : W) : Prop := {
  sw_others : ∀ i, i ∉ action_id <$> done → r_assets (sw_registry s) !! i = r_assets (sw_registry s0) !! i;
  sw_records : ∀ action, action ∈ done →
    match current s0 action with
    | Some a => ∃ a', current s action = Some a' ∧ moved action a a'
    | None => current s action = None
    end;
  sw_bytes : ∀ l, contents (sw_store s) l = contents (sw_store s0) l ∨
    ∃ i a', r_assets (sw_registry s) !! i = Some a' ∧ location_of a' = l ∧ a_state a' = DELETED;
  sw_done : reliable → ∀ action, action ∈ done → current s0 action = Some (ac_asset action) →
    due_action policy now (ac_asset action) = Ok (Some action) → fulfilled now action s
}.

Lemma swept_nil policy now s : swept policy now [] s s.
Proof.
  split; [done| |by left|]; [intros action Hin|intros _ action Hin]; by apply not_elem_of_nil in Hin.
Qed.

Lemma swept_snoc policy now done action n s0 s s' :
  swept policy now done s0 s → touched policy now action s s' → sweep_wf n s' →
  action_id action ∉ action_id <$> done → swept policy now (done ++ [action]) s0 s'.
Proof.
  intros [S1 S2 S3 S4] [T1 T2 T3 T4 T5] [Hwf' _] Hni.
  assert (Hcur : current s action = current s0 action) by by apply S1.
  assert (Hne : ∀ b, b ∈ done → action_id b ≠ action_id action).
  { intros b Hb Heq. apply Hni. rewrite <- Heq. by apply list_elem_of_fmap_2. }
  split.
  - intros i. rewrite fmap_app. intros [Hi Hi']%not_elem_of_app. rewrite T1; [by apply S1|].
    intros ->. apply Hi'. by left.
  - intros b [Hb| ->%list_elem_of_singleton]%elem_of_app.
    + unfold current in *. rewrite (T1 _ (Hne b Hb)). by apply S2.
    + rewrite <- Hcur. destruct (current s action) as [a|] eqn:Ha; auto.
  - intros l. destruct (T4 l) as [->|(a' & Ha' & Hl & Hd)]; [|right; by eexists _, _].
    destruct (S3 l) as [->|(i & a' & Ha' & Hl & Hd)]; [by left|right].
    destruct (decide (i = action_id action)) as [->|Hi]; [|exists i, a'; by rewrite T1].
    destruct (T2 a' Ha') as (a2 & Ha2 & [Hstep _]). exists (action_id action), a2. split_and!; [done| |].
    + by rewrite (location_step _ _ Hstep).
    + pose proof (as_state _ _ Hstep) as Hs. rewrite Hd in Hs. by destruct (a_state a2).
  - intros Hrel b [Hb| ->%list_elem_of_singleton]%elem_of_app Hb0 Hdue; [|apply T5; by rewrite ?Hcur].
    destruct (S4 Hrel b Hb Hb0 Hdue) as (a & Ha & Hs & Hgone). unfold current in Ha.
    assert (Ha' : r_assets (sw_registry s') !! action_id b = Some a) by by rewrite T1 by auto.
    exists a. split_and!; [done|done|]. intros Hp. destruct (Hgone Hp) as [Hpay Hc]. split; [done|].
    destruct (T4 (location_of a)) as [->|(a' & Ha2 & Hl & _)]; [done|]. exfalso. apply (Hne b Hb).
    symmetry. eapply location_inj; [apply Hwf'|exact Ha2|exact Ha'|done].
Qed.

Lemma wp_apply_all policy now actions (Q : res unit → nat → W → Prop) n s :
  sweep_wf n s → NoDup (action_id <$> actions) →
  (∀ n' s', sweep_wf n' s' → swept policy now actions s s' →
     tallied (Z.of_nat (length actions)) (sw_report s) (sw_report s') → Q (Ok tt) n' s') →
  wp (for_each actions (apply_action policy now)) Q n s.
Proof.
  intros Hsw Hnd HQ.
  apply (wp_for_each _ _ (λ rest n' s', ∃ done, actions = done ++ rest ∧ sweep_wf n' s' ∧
    swept policy now done s s' ∧ tallied (Z.of_nat (length done)) (sw_report s) (sw_report s'))).
  - intros action rest n1 s1 (done & -> & Hsw1 & Hsw2 & Htal). apply wp_apply_action; [done|].
    intros n2 s2 Hsw3 Ht Htal'. exists (done ++ [action]). rewrite <- app_assoc. split_and!; [done|done| |].
    + eapply swept_snoc; [done..|]. rewrite fmap_app in Hnd.
      apply NoDup_app in Hnd as (_ & Hdis & _). intros Hin. by apply (Hdis _ Hin); left.
    + destruct Htal, Htal'. split; try congruence. rewrite length_app. cbn. lia.
  - intros n' s' (done & Heq & Hsw' & Hs & Htal). rewrite app_nil_r in Heq. subst. by apply HQ.
  - exists []. split_and!; [done|done|apply swept_nil|]. split; cbn; lia || done.
Qed.

(** The policy and the time a sweep runs with. *)
Definition sweep_policy (policy : option SweepPolicy) : res SweepPolicy :=
  match policy with Some p => Ok p | None => default_policy end.
Definition sweep_now (now : option Z) (n : nat) : Z := default (clock n) now.

(** What a sweep has done when it ends. *)
Record swept_all (policy : SweepPolicy) (now : Z) (dry_run : bool) (s : W) (res : res SweepReport)
    (n' : nat) (s' : W) : Prop := {
  sa_wf : sweep_wf n' s';
  sa_dry : dry_run = true ∨ is_Ok res = false → sw_registry s' = sw_registry s ∧ sw_store s' = sw_store s;
  sa_error : ∀ e, res = Err e → validate_policy policy = Ok policy → e = PyOverflowError;
  sa_done : ∀ p, res = Ok p → ∃ pl, plan_ok policy now (listed (sw_registry s)) pl ∧
    sr_dry_run p = dry_run ∧ sr_candidates p = Z.of_nat (length (pl_actions pl)) ∧
    sr_applied p + sr_skipped p + sr_errors p = (if dry_run then 0 else sr_candidates p) ∧
    (dry_run = false → swept policy now (pl_actions pl) s s')
}.

Lemma wp_run_sweep policy dry_run now (Q : res SweepReport → nat → W → Prop) n s :
  sweep_wf n s →
  (∀ e, sweep_policy policy = Err e → Q (Err e) n s) →
  (∀ p res n' s', sweep_policy policy = Ok p → swept_all p (sweep_now now n) dry_run s res n' s' → Q res n' s') →
  wp (run_sweep policy dry_run now) Q n s.
Proof.
  intros Hsw Herr HQ. pose proof Hsw as [Hwf Hst]. unfold run_sweep. apply wp_bind.
  apply (wp_mono _ (λ r n' s', r = sweep_policy policy ∧ n' = n ∧ s' = s)); [by destruct policy|].
  intros r n0 s0 (-> & -> & ->). destruct (sweep_policy policy) as [p|e] eqn:Hp; [|by apply Herr].
  apply wp_bind.
  apply (wp_mono _ (λ r n' s', r = Ok (sweep_now now n) ∧ (n <= n')%nat ∧ s' = s)).
  { destruct now; [by apply wp_ret|]. apply wp_utcnow. by split_and!; [|lia|]. }
  intros r n1 s1 (-> & Hn1 & ->). apply wp_bind, wp_zoom, wp_plan_sweep; [by eapply registry_wf_mono| |].
  { intros e He. rewrite set_sw_registry_id. apply (HQ p); [done|]. split; try done.
    - by split; [eapply registry_wf_mono|].
    - intros e' [= <-]. done. }
  intros pl Hok _. rewrite set_sw_registry_id. pose proof Hok as [Hplan _].
  apply wp_bind. unfold start_report, set_report. apply wp_modify. set (s1 := mk_sweeper _ _ _ _).
  assert (Hsw1 : sweep_wf n1 s1) by (split; [by eapply registry_wf_mono|done]).
  apply wp_bind. destruct dry_run.
  - apply (wp_mono _ (λ r n' s', r = Ok tt ∧ n' = n1 ∧ s' = s1)).
    { clearbody s1. generalize (pl_actions pl) as l. by induction l as [|x l IH]; [|exact IH]. }
    intros r n2 s2 (-> & -> & ->). apply wp_bind, wp_get, wp_ret, (HQ p); [done|]. split; try done.
    intros p' [= <-]. by exists pl.
  - apply wp_apply_all; [done|apply Hplan|]. intros n2 s2 Hsw2 Hs2 Htal.
    apply wp_bind, wp_get, wp_ret, (HQ p); [done|]. split; try done; [by intros [?|?]|].
    intros p' [= <-]. exists pl. destruct Htal as [Hd Hc _ Hsum]. cbn in *. split_and!; try done; [lia|].
    intros _. by destruct Hs2.
Qed.

(** ** Properties of sweeps *)

(** What may have happened to an asset [a]: something due, or an eviction. *)
Definition swept_away (policy : SweepPolicy) (now : Z) (a a' : Asset) : Prop :=
  (∃ action, due_action policy now a = Ok (Some action) ∧ a_state a' = ac_state action) ∨
  (due_action policy now a = Ok None ∧ a_state a = AVAILABLE ∧ a_eviction_policy a = INHERIT ∧
   a_space a ∈ EVICTABLE_SPACES ∧ a_state a' = EXPIRED).

(** C32.  A sweep is safe, whether it returns or raises and whatever the store does:
    every invariant holds afterwards; an asset keeps its record unless something
    is due for it or it is evicted, which only happens to an available asset under
    the default policy in [cache] or [tmp]; and bytes change only at the location
    of an asset that is deleted. *)
Theorem sweep_safe (policy : option SweepPolicy) (dry_run : bool) (now : option Z) (n : nat) (s : W)
    (res : res SweepReport) (n' : nat) (s' : W) :
  sweep_wf n s → run_sweep policy dry_run now n s = (res, n', s') →
  sweep_wf n' s' ∧
  (∀ i a, r_assets (sw_registry s) !! i = Some a → ∃ a', r_assets (sw_registry s') !! i = Some a' ∧
     asset_step a a' ∧
     (a' = a ∨ ∃ p, sweep_policy policy = Ok p ∧ swept_away p (sweep_now now n) a a')) ∧
  (∀ l, contents (sw_store s') l ≠ contents (sw_store s) l →
     ∃ i a', r_assets (sw_registry s') !! i = Some a' ∧ location_of a' = l ∧ a_state a' = DELETED).
Proof.
  intros Hsw Hrun. refine (wp_inv _ (λ _ n' s', _) _ _ _ _ _ _ Hrun). clear Hrun res n' s'.
  apply wp_run_sweep; [done| |].
  { intros e _. split_and!; [done| |by intros]. intros i a Hi. exists a. split_and!; [done..|by left]. }
  intros p res n' s' Hp [Hsw' Hdry _ Hdone]. split; [done|].
  destruct (decide (dry_run = true ∨ is_Ok res = false)) as [Hd|Hd].
  { destruct (Hdry Hd) as [-> ->]. split; [|by intros].
    intros i a Hi. exists a. split_and!; [done..|by left]. }
  destruct res as [rep|e]; [|tauto]. destruct (Hdone rep eq_refl) as (pl & [Hplan _] & _ & _ & _ & Hs).
  destruct Hs as [S1 S2 S3 _]; [by destruct dry_run; [tauto|]|]. split.
  - intros i a Hi. destruct (decide (i ∈ action_id <$> pl_actions pl)) as [Hin|Hin]; cycle 1.
    { exists a. rewrite S1 by done. split_and!; [done..|by left]. }
    apply list_elem_of_fmap in Hin as (action & -> & Hin). pose proof (S2 action Hin) as Hrec.
    unfold current in Hrec. rewrite Hi in Hrec. destruct Hrec as (a' & Ha' & Hstep & Hm).
    exists a'. split_and!; [done..|]. destruct Hm as [->|[Heq Hm]]; [by left|right]. exists p. split; [done|].
    pose proof (get_wf _ _ _ _ (sw_registry_wf _ _ Hsw) Hi) as Hawf.
    destruct (pw_justified _ _ _ _ Hplan action Hin) as [Hdue|(_ & Hev & Hs & Hpol & Hsp & Hdue)]; rewrite <- Heq in *.
    + left. exists action. split; [done|].
      destruct (due_action_shape _ _ _ _ _ Hawf Hdue) as (_ & _ & Hshape). destruct Hm as [?|[? Hd']]; [done|].
      destruct Hshape as [(_ & _ & ?)|(_ & -> & _)]; congruence.
    + right. split_and!; try done. destruct Hm as [->|[_ ?]]; [by rewrite Hev|congruence].
  - intros l Hl. by destruct (S3 l).
Qed.


(** A sweep's report adds up: a dry run, or a sweep that raises, changes neither
    registry nor store; otherwise every candidate of the plan is counted once, as
    applied, skipped or failed.  With a validated policy a sweep raises only when
    its floating-point arithmetic overflows. *)
Theorem sweep_report_exact (policy : SweepPolicy) (dry_run : bool) (now : option Z) (n : nat) (s : W)
    (res : res SweepReport) (n' : nat) (s' : W) :
  sweep_wf n s → run_sweep (Some policy) dry_run now n s = (res, n', s') →
  (dry_run = true ∨ is_Ok res = false → sw_registry s' = sw_registry s ∧ sw_store s' = sw_store s) ∧
  match res with
  | Ok p => sr_dry_run p = dry_run ∧
      sr_applied p + sr_skipped p + sr_errors p = (if dry_run then 0 else sr_candidates p)
  | Err e => validate_policy policy = Ok policy → e = PyOverflowError
  end.
Proof.
  intros Hsw Hrun. refine (wp_inv _ (λ res n' s', _) _ _ _ _ _ _ Hrun). clear Hrun res n' s'.
  apply wp_run_sweep; [done|done|]. intros p res n' s' [= <-] [_ Hdry Herr Hdone]. split; [done|].
  destruct res as [rep|e]; [|by apply Herr]. by destruct (Hdone rep eq_refl) as (pl & _ & ? & _ & ? & _).
Qed.
End ApplyProps.

(** * A concrete sweep *)

Definition no_report : SweepReport := mk_report false 0 0 0 0 [].

(** An asset with a deadline, written through the guard. *)
Definition ttl_write : res Asset * nat * Guard Registry LocalObjectStore :=
  write_object (write_cap "cache/p") "cache/p/x" [104; 105] false None None (Some 60) 0%nat demo_guard.

Definition sweeper_of (g : Guard Registry LocalObjectStore) : Sweeper Registry LocalObjectStore :=
  mk_sweeper (g_registry g) (g_store g) no_report (mk_metrics ∅ ∅ ∅ ∅).

Definition demo_policy : SweepPolicy :=
  mk_policy 86400 default_grace {["cache" := 2]} (float_quotient 9 10) (float_quotient 7 10)
    (float_quotient 9 10) (float_quotient 3 4).

Definition hour_later : Z := 1700003600000000.
Definition month_later : Z := 1702592000000000.

Definition first_sweep : res SweepReport * nat * Sweeper Registry LocalObjectStore :=
  run_sweep (Some demo_policy) false (Some hour_later) ttl_write.1.2 (sweeper_of ttl_write.2).
Definition second_sweep : res SweepReport * nat * Sweeper Registry LocalObjectStore :=
  run_sweep (Some demo_policy) false (Some month_later) first_sweep.1.2 first_sweep.2.

Lemma ttl_write_wf : sweep_wf ttl_write.1.2 (sweeper_of ttl_write.2).
Proof.
  assert (H : guard_wf ttl_write.1.2 ttl_write.2).
  { eapply wr_wf, wp_inv; [apply wp_write_object, demo_guard_wf|exact (run_result _ _ _ _ eq_refl)]. }
  destruct H. by split.
Qed.

Lemma first_sweep_wf : sweep_wf first_sweep.1.2 first_sweep.2.
Proof.
  refine (wp_inv (run_sweep (Some demo_policy) false (Some hour_later)) (λ _ n' s', sweep_wf n' s') _ _ _ _ _ _
    (run_result _ _ _ _ eq_refl)).
  apply wp_run_sweep; [apply ttl_write_wf|done|]. by intros p res n' s' _ [].
Qed.





Lemma second_run : run_sweep (Some demo_policy) false (Some month_later) first_sweep.1.2 first_sweep.2 =
  (second_sweep.1.1, second_sweep.1.2, second_sweep.2).
Proof. unfold second_sweep. apply run_result. reflexivity. Qed.

Lemma sweep_safe_witness : sweep_wf second_sweep.1.2 second_sweep.2.
Proof.
  exact (proj1 (sweep_safe (Some demo_policy) false (Some month_later) first_sweep.1.2 first_sweep.2
    second_sweep.1.1 second_sweep.1.2 second_sweep.2 first_sweep_wf second_run)).
Defined.



Definition dry_sweep : res SweepReport * nat * Sweeper Registry LocalObjectStore :=
  run_sweep (Some demo_policy) true (Some hour_later) ttl_write.1.2 (sweeper_of ttl_write.2).

Lemma dry_run : run_sweep (Some demo_policy) true (Some hour_later) ttl_write.1.2 (sweeper_of ttl_write.2) =
  (dry_sweep.1.1, dry_sweep.1.2, dry_sweep.2).
Proof. unfold dry_sweep. apply run_result. reflexivity. Qed.

Lemma sweep_report_exact_witness :
  is_Ok dry_sweep.1.1 = true ∧ sw_registry dry_sweep.2 = sw_registry (sweeper_of ttl_write.2).
Proof.
  split; [vm_compute; reflexivity|].
  destruct (sweep_report_exact demo_policy true (Some hour_later) ttl_write.1.2 (sweeper_of ttl_write.2)
    dry_sweep.1.1 dry_sweep.1.2 dry_sweep.2 ttl_write_wf dry_run) as [Hsame _].
  destruct (Hsame (or_introl eq_refl)) as [Hr _]. exact Hr.
Defined.
