(* ===== verification/ServiceIdentity.v ===== *)
(** * Service identities

    [asset_store_core/service_identity.py]: one static secret per calling
    service, parsed from the environment, compared when a service authenticates.
    An environment is a finite map from names to texts. *)

From S2P Require Import Prelude Errors Python Paths Capabilities.

Definition ENV_VAR : string := "ASSET_STORE_SERVICE_CREDENTIALS".

Definition KNOWN_SERVICE_IDS : gset string :=
  list_to_set SERVICE_READ_BUCKETS.*1 ∪ list_to_set SERVICE_WRITE_BUCKETS.*1.

Definition dev_secret (service_id : string) : string := "dev-secret:" +:+ strip service_id.

(** ** The credential store *)

Abbreviation ServiceCredentialStore := (gmap string string).

(** The loop of the constructor, over the items of the mapping in their order. *)
Fixpoint clean_credentials (items : list (string * string)) (cleaned : ServiceCredentialStore)
    : res ServiceCredentialStore :=
  match items with
  | [] => mret cleaned
  | (raw_id, secret) :: items' =>
      let service_id := strip raw_id in
      if decide (service_id = "") then Err ValidationError
      else if decide (secret = "") then Err ValidationError
      else clean_credentials items' (<[service_id := secret]> cleaned)
  end.

Definition new_credential_store (credentials : list (string * string)) : res ServiceCredentialStore :=
  cleaned ← clean_credentials credentials ∅;
  if decide (cleaned = ∅) then Err ValidationError else mret cleaned.

Definition service_ids (store : ServiceCredentialStore) : gset string := dom store.

(** The one-character text [NUL]. *)
Definition nul_text : string := String "000"%char EmptyString.

(** [hmac.compare_digest] compares for equality. *)
Definition compare_digest (a b : list Z) : bool := bool_decide (a = b).

Definition authenticate (store : ServiceCredentialStore) (service_id secret : string) : res string :=
  let candidate := strip service_id in
  let expected := store !! candidate in
  let reference := default nul_text expected in
  let ok := compare_digest (utf8_encode reference) (utf8_encode secret) in
  if bool_decide (expected = None) || negb ok then Err ServiceAuthError else mret candidate.

Definition dev_default : res ServiceCredentialStore :=
  new_credential_store ((λ service_id, (service_id, dev_secret service_id)) <$> elements KNOWN_SERVICE_IDS).

(** ** Parsing the environment *)

(** The loop over the comma-separated entries. *)
Fixpoint parse_entries (entries : list string) (credentials : list (string * string))
    : res (list (string * string)) :=
  match entries with
  | [] => mret credentials
  | entry :: entries' =>
      let item := strip entry in
      if decide (item = "") then parse_entries entries' credentials
      else
        let '(service_id, sep, secret) := partition_on ":" item in
        if negb sep then Err ValidationError
        else parse_entries entries' (dict_set (strip service_id) (strip secret) credentials)
  end.

Definition truthy_dev_mode (text : string) : bool := mem (lower text) ["1"; "true"; "yes"].

Definition from_env (env : gmap string string) : res ServiceCredentialStore :=
  let unset := match env !! ENV_VAR with Some raw => bool_decide (strip raw = "") | None => true end in
  if unset then
    if truthy_dev_mode (default "" (env !! "ASSET_STORE_DEV_MODE")) then dev_default else Err ValidationError
  else
    credentials ← parse_entries (split_on "," (default "" (env !! ENV_VAR))) [];
    new_credential_store credentials.

(** The text of a list of credentials, as an operator writes it. *)
Definition entry_text (item : string * string) : string := item.1 +:+ ":" +:+ item.2.
Definition credentials_text (items : list (string * string)) : string :=
  join_with "," (entry_text <$> items).

(** * Lemmas *)

Lemma utf8_encode_inj s t : utf8_encode s = utf8_encode t → s = t.
Proof.
  revert t. induction s as [|c s IH]; intros [|d t]; cbn; [done|by case_match..|].
  assert (Hinj : Z.of_N (N_of_ascii c) = Z.of_N (N_of_ascii d) → c = d).
  { intros H%N2Z.inj. by rewrite <- (Ascii.ascii_N_embedding c), H, Ascii.ascii_N_embedding. }
  revert Hinj. pose proof (N2Z.is_nonneg (N_of_ascii c)) as Hx. pose proof (N2Z.is_nonneg (N_of_ascii d)) as Hy.
  revert Hx Hy. generalize (Z.of_N (N_of_ascii c)) (Z.of_N (N_of_ascii d)). intros x y Hx Hy Hinj.
  pose proof (Z.div_mod x 64 ltac:(lia)). pose proof (Z.div_mod y 64 ltac:(lia)).
  destruct (Z.ltb_spec x 128), (Z.ltb_spec y 128); cbn; intros Heq; injection Heq; intros.
  - f_equal; auto.
  - assert (2 <= y / 64) by (apply Z.div_le_lower_bound; lia). lia.
  - assert (2 <= x / 64) by (apply Z.div_le_lower_bound; lia). lia.
  - f_equal; [apply Hinj; lia|auto].
Qed.

(** Credentials an operator may configure. *)
Record valid_entry (item : string * string) : Prop := {
  ve_id : clean item.1;
  ve_secret : clean item.2;
  ve_colon : contains_char ":" item.1 = false;
  ve_comma : contains_char "," item.1 = false ∧ contains_char "," item.2 = false
}.

Lemma parse_entry items item credentials :
  valid_entry item →
  parse_entries (entry_text item :: items) credentials =
  parse_entries items (dict_set item.1 item.2 credentials).
Proof.
  intros [Hid Hsec Hcol _]. cbn. unfold entry_text.
  destruct (clean_concat item.1 ":" item.2 Hid Hsec) as [Hne ->].
  rewrite decide_False by done. change (":" +:+ item.2) with (String ":" item.2).
  rewrite partition_on_app by done. cbn. by rewrite (proj2 Hid), (proj2 Hsec).
Qed.

Lemma dict_set_fresh {V} k (v : V) d : k ∉ d.*1 → dict_set k v d = d ++ [(k, v)].
Proof.
  induction d as [|[k' v'] d IH]; [done|]. cbn. intros [Hne Hd]%not_elem_of_cons.
  rewrite decide_False by done. by rewrite IH.
Qed.

Lemma parse_entries_text items credentials :
  Forall valid_entry items → NoDup (credentials.*1 ++ items.*1) →
  parse_entries (entry_text <$> items) credentials = Ok (credentials ++ items).
Proof.
  intros Hv. revert credentials. induction Hv as [|item items Hi Hv IH]; intros credentials Hnd.
  { by rewrite app_nil_r. }
  rewrite fmap_cons, parse_entry by done. rewrite dict_set_fresh.
  - destruct item as [k v]. rewrite IH; [by rewrite <- app_assoc|].
    rewrite fmap_app, <- app_assoc. exact Hnd.
  - apply NoDup_app in Hnd as (_ & Hdis & _). intros Hin. by apply (Hdis _ Hin); left.
Qed.

Lemma clean_credentials_text items cleaned :
  Forall valid_entry items → NoDup items.*1 → (∀ k, k ∈ items.*1 → cleaned !! k = None) →
  clean_credentials items cleaned = Ok (list_to_map items ∪ cleaned).
Proof.
  intros Hv. revert cleaned. induction Hv as [|[k v] items [[Hk Hks] [Hs _] _ _] Hv IH]; intros cleaned Hnd Hfr.
  { cbn. by rewrite map_empty_union. }
  apply NoDup_cons in Hnd as [Hk' Hnd]. cbn [fst snd clean_credentials] in *. cbn zeta.
  rewrite Hks, !decide_False by done.
  rewrite IH; [|done|].
  - f_equal. rewrite list_to_map_cons, <- insert_union_l. symmetry. apply insert_union_r.
    by apply not_elem_of_list_to_map_1.
  - intros k' Hin. rewrite lookup_insert_ne; [apply Hfr; by right|]. by intros ->.
Qed.

Lemma split_entries items :
  items ≠ [] → Forall valid_entry items → split_on "," (credentials_text items) = entry_text <$> items.
Proof.
  intros Hne Hv. apply split_join; [by destruct items|]. apply Forall_fmap.
  eapply Forall_impl; [exact Hv|]. intros item [_ _ _ [H1 H2]]. cbn. unfold entry_text.
  rewrite !contains_char_app, H1, H2. done.
Qed.

Lemma clean_join l : l ≠ [] → Forall clean l → clean (join_with "," l).
Proof.
  intros Hne Hl. induction Hl as [|s l Hs Hl IH]; [done|]. destruct l as [|t l]; [done|].
  rewrite join_cons by done. change (String "," (join_with "," (t :: l))) with ("," +:+ join_with "," (t :: l)).
  apply clean_concat; [done|]. by apply IH.
Qed.

Lemma clean_text items : items ≠ [] → Forall valid_entry items → clean (credentials_text items).
Proof.
  intros Hne Hv. apply clean_join; [by destruct items|]. apply Forall_fmap.
  eapply Forall_impl; [exact Hv|]. intros item [H1 H2 _ _]. by apply clean_concat.
Qed.

Lemma authenticate_run (store : ServiceCredentialStore) service_id secret :
  authenticate store service_id secret =
    if decide (store !! strip service_id = Some secret) then Ok (strip service_id) else Err ServiceAuthError.
Proof.
  unfold authenticate, compare_digest. destruct (store !! strip service_id) as [expected|]; cbn;
    [|by rewrite decide_False]. destruct (decide (Some expected = Some secret)) as [[= ->]|Hne].
  - by rewrite bool_decide_true.
  - rewrite bool_decide_false; [done|]. by intros <-%utf8_encode_inj.
Qed.

(** * Properties *)

(** A service authenticates exactly with the secret on record under its trimmed
    name; every other attempt, for an unknown name too, is refused alike. *)
Theorem authenticate_iff (store : ServiceCredentialStore) (service_id secret : string) :
  (∀ name, authenticate store service_id secret = Ok name ↔
     name = strip service_id ∧ store !! strip service_id = Some secret) ∧
  (store !! strip service_id ≠ Some secret →
     authenticate store service_id secret = Err ServiceAuthError).
Proof.
  rewrite authenticate_run. case_decide; naive_solver.
Qed.

(** Configured credentials are read back: the text of entries with distinct,
    trimmed, non-empty names and secrets, without commas and without colons in
    names, is parsed to exactly those credentials. *)
Theorem from_env_roundtrip (items : list (string * string)) (env : gmap string string) :
  items ≠ [] → Forall valid_entry items → NoDup items.*1 →
  env !! ENV_VAR = Some (credentials_text items) →
  from_env env = Ok (list_to_map items).
Proof.
  intros Hne Hv Hnd Henv. unfold from_env. rewrite Henv.
  destruct (clean_text _ Hne Hv) as [Htext Hstrip]. rewrite Hstrip, bool_decide_false by done.
  change (default "" (Some (credentials_text items))) with (credentials_text items).
  rewrite split_entries by done. rewrite (parse_entries_text items []) by done.
  unfold mbind, res_bind, new_credential_store. cbn [app].
  rewrite clean_credentials_text by done. unfold mbind, res_bind. rewrite map_union_empty.
  rewrite decide_False; [done|]. destruct items as [|[k v] items]; [done|]. cbn. apply insert_non_empty.
Qed.

(** ** A concrete configuration *)

Definition demo_credentials : list (string * string) := [("fetcher", "s3cret:1"); ("admin", "root")].

Lemma from_env_roundtrip_witness :
  from_env {[ENV_VAR := credentials_text demo_credentials]} = Ok (list_to_map demo_credentials).
Proof.
  apply (from_env_roundtrip demo_credentials); [discriminate| | |].
  - repeat constructor; try discriminate; reflexivity.
  - apply (bool_decide_eq_true (NoDup demo_credentials.*1)). vm_compute. reflexivity.
  - apply lookup_singleton_eq.
Defined.
