(* ===== verification/Admission.v ===== *)
(** * Work admission

    [asset_store_core/admission.py]: a gate that admits at most [limit] jobs and
    never queues.  A method is a computation over the gate; the sections under the
    mutex ([acquire], [release]) are the atomic steps that concurrent jobs
    interleave.  [run_work_until_complete] is modelled by the events it awaits. *)

From S2P Require Import Prelude Errors Python Effects.

(** [positive_limit_from_env(name, default)], given the value of the variable. *)
Definition positive_limit_from_env (value : option string) (default_limit : Z) : res Z :=
  match py_int (default (pretty default_limit) value) with
  | None => Err ValidationError
  | Some limit => if limit <=? 0 then Err ValidationError else mret limit
  end.

(** ** The gate *)

Record WorkAdmission := mk_admission {
  wa_limit : Z;
  wa_active : Z;
  wa_attempts : gmap string Z
}.

Definition new_admission (limit : Z) : res WorkAdmission :=
  if limit <=? 0 then Err ValidationError else mret (mk_admission limit 0 ∅).

(** [try: m finally: f] *)
Definition finally {S A} (m : M S A) (f : M S unit) : M S A := λ n s,
  let '(r, n1, s1) := m n s in
  match f n1 s1 with
  | (Ok _, n2, s2) => (r, n2, s2)
  | (Err e, n2, s2) => (Err e, n2, s2)
  end.

Definition active : M WorkAdmission Z :=
  g ← get_state;
  mret (wa_active g).

(** The two sections under the mutex. *)
Definition acquire : M WorkAdmission bool :=
  g ← get_state;
  let admitted := wa_active g <? wa_limit g in
  (if admitted then modify (λ g, mk_admission (wa_limit g) (wa_active g + 1) (wa_attempts g))
   else mret tt) ;;
  mret admitted.

Definition release : M WorkAdmission unit :=
  modify (λ g, mk_admission (wa_limit g) (wa_active g - 1) (wa_attempts g)).

Definition count_attempt (outcome : string) : M WorkAdmission unit :=
  modify (λ g, mk_admission (wa_limit g) (wa_active g)
                 (<[outcome := default 0 (wa_attempts g !! outcome) + 1]> (wa_attempts g))).

(** [with admission.lease(): body], over a state in which [get] and [set] reach the
    gate. *)
Definition lease {W A} (get : W → WorkAdmission) (set : WorkAdmission → W → W) (body : M W A) : M W A :=
  admitted ← zoom get set acquire;
  if negb admitted then
    zoom get set (count_attempt "denied") ;;
    raise WorkCapacityError
  else finally (zoom get set (count_attempt "granted") ;; body) (zoom get set release).

(** ** Jobs side by side

    The state of a process: the gate and the jobs inside their lease. *)
Inductive gate_step : WorkAdmission * gset nat → WorkAdmission * gset nat → Prop :=
  | gate_enter g job holders g' n n' :
      job ∉ holders → acquire n g = (Ok true, n', g') → gate_step (g, holders) (g', {[job]} ∪ holders)
  | gate_denied g holders g' n n' :
      acquire n g = (Ok false, n', g') → gate_step (g, holders) (g', holders)
  | gate_leave g job holders g' n n' :
      job ∈ holders → release n g = (Ok tt, n', g') → gate_step (g, holders) (g', holders ∖ {[job]})
  | gate_count g holders outcome g' n n' :
      count_attempt outcome n g = (Ok tt, n', g') → gate_step (g, holders) (g', holders).

(** ** Waiting for a worker

    What the coroutine observes: a cancellation of the request, or the worker's
    end. *)
Inductive work_event (A : Type) := RequestCancelled | WorkerFinished (r : res A).
Arguments RequestCancelled {A}.
Arguments WorkerFinished {A} r.

Inductive work_outcome (A : Type) := Completed (r : res A) | Cancelled.
Arguments Completed {A} r.
Arguments Cancelled {A}.

(** The shielded loop: go on until the worker is done. *)
Fixpoint drain {A} (events : list (work_event A)) : option (list (work_event A)) :=
  match events with
  | [] => None
  | RequestCancelled :: events' => drain events'
  | WorkerFinished _ :: events' => Some events'
  end.

(** [None]: still waiting when the events end; else the outcome and the events left. *)
Definition run_work_until_complete {A} (events : list (work_event A))
    : option (work_outcome A * list (work_event A)) :=
  match events with
  | [] => None
  | WorkerFinished r :: events' => Some (Completed r, events')
  | RequestCancelled :: events' => rest ← drain events'; Some (Cancelled, rest)
  end.

(** * Lemmas *)

Definition gate_inv (limit : Z) (x : WorkAdmission * gset nat) : Prop :=
  wa_limit x.1 = limit ∧ wa_active x.1 = Z.of_nat (size x.2) ∧ 0 <= wa_active x.1 <= limit.

Lemma acquire_run n g :
  acquire n g =
    if wa_active g <? wa_limit g
    then (Ok true, n, mk_admission (wa_limit g) (wa_active g + 1) (wa_attempts g)) else (Ok false, n, g).
Proof.
  unfold acquire, mbind, M_bind, get_state. by destruct (wa_active g <? wa_limit g).
Qed.

Lemma gate_step_inv limit x y : gate_step x y → gate_inv limit x → gate_inv limit y.
Proof.
  unfold gate_inv. destruct 1 as [g job h g2 n n' Hj Hrun|g h g2 n n' Hrun|g job h g2 n n' Hj Hrun|g h o g2 n n' Hrun];
    cbn; intros (H1 & H2 & H3); [rewrite acquire_run in Hrun..| |].
  - destruct (wa_active g <? wa_limit g) eqn:Hlt; simplify_eq/=.
    rewrite size_union, size_singleton by set_solver. lia.
  - by destruct (wa_active g <? wa_limit g); simplify_eq/=.
  - unfold release, modify in Hrun. simplify_eq/=. rewrite size_difference, size_singleton by set_solver.
    assert (size h ≠ 0%nat) by (apply size_non_empty_iff; set_solver). lia.
  - unfold count_attempt, modify in Hrun. by simplify_eq/=.
Qed.

Lemma gate_inv_reachable limit g0 g holders :
  new_admission limit = Ok g0 → rtc gate_step (g0, ∅) (g, holders) → gate_inv limit (g, holders).
Proof.
  unfold new_admission. destruct (limit <=? 0) eqn:Hl; [done|]. intros [= <-] Hsteps.
  refine (rtc_ind_r (gate_inv limit) _ _ _ _ Hsteps).
  - unfold gate_inv. cbn. rewrite size_empty. lia.
  - intros y z _ Hyz. by apply gate_step_inv.
Qed.

(** * Properties *)

(** However jobs interleave, the gate counts exactly the jobs inside their lease,
    never more than the limit, and a job is turned away, at once, only when the
    limit is reached. *)
Theorem admission_bounded (limit : Z) (g0 g : WorkAdmission) (holders : gset nat) :
  new_admission limit = Ok g0 → rtc gate_step (g0, ∅) (g, holders) →
  wa_active g = Z.of_nat (size holders) ∧ 0 <= Z.of_nat (size holders) <= limit ∧
  ∀ n, acquire n g =
    if Z.of_nat (size holders) <? limit
    then (Ok true, n, mk_admission limit (wa_active g + 1) (wa_attempts g)) else (Ok false, n, g).
Proof.
  intros Hnew Hsteps. destruct (gate_inv_reachable _ _ _ _ Hnew Hsteps) as (H1 & H2 & H3). cbn in *.
  split_and!; [lia..|]. intros n. by rewrite acquire_run, H1, H2.
Qed.

(** A lease is given back on every exit: whatever the body does, returning or
    raising, a body that leaves the gate's occupancy alone runs at one more than
    before and the occupancy is restored; without a free slot it does not run. *)
Theorem lease_balanced {W A : Type} (get : W → WorkAdmission) (set : WorkAdmission → W → W)
    (body : M W A) (n : nat) (w : W) :
  (∀ g w, get (set g w) = g) →
  (∀ n w, wp body (λ _ _ w', wa_active (get w') = wa_active (get w)) n w) →
  let '(r, n', w') := lease get set body n w in
  wa_active (get w') = wa_active (get w) ∧
  (wa_limit (get w) <= wa_active (get w) → r = Err WorkCapacityError ∧ n' = n).
Proof.
  intros Hget Hbody. unfold lease.
  change (wp (zoom get set acquire ≫= λ admitted : bool, if negb admitted then
      zoom get set (count_attempt "denied") ;; raise WorkCapacityError
    else finally (zoom get set (count_attempt "granted") ;; body) (zoom get set release))
    (λ r n' w', wa_active (get w') = wa_active (get w) ∧
      (wa_limit (get w) <= wa_active (get w) → r = Err WorkCapacityError ∧ n' = n)) n w).
  apply wp_bind, wp_zoom. unfold wp at 1. rewrite acquire_run.
  destruct (Z.ltb_spec (wa_active (get w)) (wa_limit (get w))); cbn.
  - unfold wp, finally, mbind, M_bind, zoom at 1. cbn.
    set (w1 := set _ (set _ w)). specialize (Hbody n w1). unfold wp in Hbody.
    destruct (body n w1) as [[r n'] w'] eqn:Hb. cbn. rewrite Hget. cbn.
    rewrite Hbody. unfold w1. rewrite !Hget. cbn. split; lia.
  - apply wp_bind, wp_zoom, wp_modify, wp_raise. by rewrite !Hget.
Qed.

(** The slot is kept until the work is over: the coroutine ends exactly when the
    worker's end is observed, however often the request is cancelled before; it
    reports the cancellation if there was one, else the worker's result. *)
Theorem work_drained {A : Type} (cancels : nat) (r : res A) (rest : list (work_event A)) :
  run_work_until_complete (replicate cancels (RequestCancelled (A:=A))) = None ∧
  run_work_until_complete (replicate cancels RequestCancelled ++ WorkerFinished r :: rest) =
    Some (if decide (cancels = 0%nat) then Completed r else Cancelled, rest).
Proof.
  assert (Hd : ∀ k, drain (replicate k (RequestCancelled (A:=A))) = None ∧
    drain (replicate k RequestCancelled ++ WorkerFinished r :: rest) = Some rest).
  { induction k; cbn; [done|exact IHk]. }
  destruct cancels as [|k]; [done|]. cbn. destruct (Hd k) as [-> ->]. done.
Qed.

(** ** A concrete gate *)

Definition demo_gate : WorkAdmission := mk_admission 1 0 ∅.
Definition full_gate : WorkAdmission := mk_admission 1 1 ∅.

Lemma admission_bounded_witness : acquire 0%nat full_gate = (Ok false, 0%nat, full_gate).
Proof.
  exact (proj2 (proj2 (admission_bounded 1 demo_gate full_gate {[7%nat]} eq_refl
    (rtc_once _ _ (gate_enter demo_gate 7%nat ∅ full_gate 0%nat 0%nat (not_elem_of_empty 7%nat) eq_refl)))) 0%nat).
Defined.

Lemma lease_balanced_witness :
  wa_active (lease (λ g, g) (λ g _, g) (raise PyRuntimeError : M WorkAdmission unit) 0%nat demo_gate).2 = 0.
Proof.
  exact (proj1 (lease_balanced (λ g, g) (λ g _, g) (raise PyRuntimeError : M WorkAdmission unit) 0%nat demo_gate
    (λ g w, eq_refl) (λ n w, eq_refl))).
Defined.
