(* ===== verification/IssuanceRate.v ===== *)
(** * Issuance rate

    [asset_store_core/issuance_rate.py]: a token bucket for each configured
    identity.  Tokens are Python numbers: [min(burst, x)] yields the [int] [burst]
    when the bucket is full and a [float] otherwise.  [rate_admit] runs under a mutex;
    the reading of the monotonic clock it takes is its argument [now]. *)

From S2P Require Import Prelude Errors Python.
From Stdlib Require Import SpecFloat.

(** ** Numbers that are an [int] or a [float] *)

Inductive num := PInt (z : Z) | PFlt (f : spec_float).

Definition float_one : spec_float := S754_finite false 1 0.

(** [x + f], [x < 1], [1 - x], [x - 1], [x / f] with a [float] [f]. *)
Definition num_add_float (x : num) (f : spec_float) : res spec_float :=
  match x with
  | PInt z => g ← float_of_int z; mret (SFadd prec emax g f)
  | PFlt g => mret (SFadd prec emax g f)
  end.

Definition num_lt_one (x : num) : bool :=
  match x with PInt z => z <? 1 | PFlt f => int_gt_float 1 f end.

Definition one_minus_num (x : num) : num :=
  match x with PInt z => PInt (1 - z) | PFlt f => PFlt (SFsub prec emax float_one f) end.

Definition num_minus_one (x : num) : num :=
  match x with PInt z => PInt (z - 1) | PFlt f => PFlt (SFsub prec emax f float_one) end.

Definition num_div_float (x : num) (f : spec_float) : res spec_float :=
  match x with
  | PInt z => g ← float_of_int z; mret (SFdiv prec emax g f)
  | PFlt g => mret (SFdiv prec emax g f)
  end.

(** [min(n, f)]: the first argument unless the second is smaller. *)
Definition min_int_float (n : Z) (f : spec_float) : num := if int_gt_float n f then PFlt f else PInt n.

(** [max(f, g)]: the first argument unless the second is greater. *)
Definition max_float (f g : spec_float) : spec_float := if SFltb f g then g else f.

(** [math.ceil(f)] *)
Definition ceil_float (f : spec_float) : res Z :=
  match f with
  | S754_nan => Err PyValueError
  | S754_infinity _ => Err PyOverflowError
  | S754_zero _ => mret 0
  | S754_finite negative m e =>
      let v := if negative then Zneg m else Zpos m in
      mret (if 0 <=? e then v * 2 ^ e else - ((- v) / 2 ^ (- e)))
  end.

(** ** The limiter *)

Record Credit := mk_credit {
  cr_tokens : num;
  cr_updated_at : spec_float
}.

Record IssuanceRateLimiter := mk_limiter {
  rl_rate : spec_float;
  rl_burst : Z;
  rl_credit : gmap string Credit
}.

Definition new_rate_limiter (identities : list string) (per_minute burst : Z) (now : spec_float)
    : res IssuanceRateLimiter :=
  if (per_minute <=? 0) || (burst <=? 0) then Err ValidationError
  else
    rate ← int_true_div per_minute 60;
    match identities with
    | [] => mret (mk_limiter rate burst ∅)
    | _ =>
        full ← float_of_int burst;
        mret (mk_limiter rate burst
                (list_to_map ((λ identity, (identity, mk_credit (PFlt full) now)) <$> identities)))
    end.

(** The credit of a bucket at [now], before an attempt is taken from it. *)
Definition refill (limiter : IssuanceRateLimiter) (credit : Credit) (now : spec_float) : res Credit :=
  let earned := SFmul prec emax (max_zero (SFsub prec emax now (cr_updated_at credit))) (rl_rate limiter) in
  tokens ← num_add_float (cr_tokens credit) earned;
  mret (mk_credit (min_int_float (rl_burst limiter) tokens) (max_float now (cr_updated_at credit))).

Definition set_credit (identity : string) (credit : Credit) (limiter : IssuanceRateLimiter)
    : IssuanceRateLimiter :=
  mk_limiter (rl_rate limiter) (rl_burst limiter) (<[identity := credit]> (rl_credit limiter)).

(** The refill delay, in whole seconds. *)
Definition retry_after (limiter : IssuanceRateLimiter) (tokens : num) : res Z :=
  delay ← num_div_float (one_minus_num tokens) (rl_rate limiter);
  seconds ← ceil_float delay;
  mret (Z.max 1 seconds).

Definition rate_admit (identity : string) (now : spec_float) (limiter : IssuanceRateLimiter)
    : res unit * IssuanceRateLimiter :=
  match rl_credit limiter !! identity with
  | None => (Err ServiceAuthError, limiter)
  | Some credit =>
      match refill limiter credit now with
      | Err e => (Err e, limiter)
      | Ok credit =>
          if num_lt_one (cr_tokens credit) then
            (match retry_after limiter (cr_tokens credit) with
             | Ok seconds => Err (CapabilityRateError seconds)
             | Err e => Err e
             end, set_credit identity credit limiter)
          else (Ok tt, set_credit identity
                         (mk_credit (num_minus_one (cr_tokens credit)) (cr_updated_at credit)) limiter)
      end
  end.

(** [n] attempts in a row at one instant: their results and the limiter. *)
Fixpoint admit_times (n : nat) (identity : string) (now : spec_float) (limiter : IssuanceRateLimiter)
    : list (res unit) * IssuanceRateLimiter :=
  match n with
  | O => ([], limiter)
  | S n' =>
      let '(r, limiter1) := rate_admit identity now limiter in
      let '(rs, limiter2) := admit_times n' identity now limiter1 in (r :: rs, limiter2)
  end.

(** * Lemmas *)

(** ** Arithmetic, checked on a range *)

Definition small_float (z : Z) : spec_float := match float_of_int z with Ok f => f | Err _ => S754_nan end.

Definition same_float (f g : spec_float) : bool :=
  match f, g with
  | S754_zero s, S754_zero s' => Bool.eqb s s'
  | S754_finite s m e, S754_finite s' m' e' => Bool.eqb s s' && Pos.eqb m m' && Z.eqb e e'
  | _, _ => false
  end.

Lemma same_float_eq f g : same_float f g = true → f = g.
Proof.
  destruct f as [[]| | |[] m e], g as [[]| | |[] m' e']; cbn; try done;
    intros [?%Pos.eqb_eq ?%Z.eqb_eq]%andb_prop; by subst.
Qed.

Definition float_facts (z : Z) : bool :=
  is_Ok (float_of_int z) && same_float (SFadd prec emax (small_float z) (S754_zero false)) (small_float z) &&
  negb (int_gt_float z (small_float z)) && int_gt_float (z + 1) (small_float z) &&
  Bool.eqb (int_gt_float 1 (small_float z)) (z <? 1) &&
  (if z =? 0 then true
   else same_float (SFsub prec emax (small_float z) float_one) (small_float (z - 1))).

Definition rate_facts (z : Z) : bool :=
  match int_true_div z 60 with
  | Ok (S754_finite false m e) => is_Ok (num_div_float (PFlt float_one) (S754_finite false m e) ≫= ceil_float)
  | _ => false
  end.

Lemma float_facts_hold : forallb (λ k, float_facts (Z.of_nat k)) (seq 0 1001) = true.
Proof. vm_compute. reflexivity. Qed.

Lemma rate_facts_hold : forallb (λ k, rate_facts (Z.of_nat k)) (seq 1 3600) = true.
Proof. vm_compute. reflexivity. Qed.

Lemma facts_at (p : Z → bool) a n z :
  forallb (λ k, p (Z.of_nat k)) (seq a n) = true → Z.of_nat a <= z < Z.of_nat (a + n) → p z = true.
Proof.
  intros H Hz. rewrite forallb_forall in H. specialize (H (Z.to_nat z)).
  rewrite Z2Nat.id in H by lia. apply H, in_seq. lia.
Qed.

Lemma small_facts z :
  0 <= z <= 1000 →
  float_of_int z = Ok (small_float z) ∧ SFadd prec emax (small_float z) (S754_zero false) = small_float z ∧
  int_gt_float z (small_float z) = false ∧ int_gt_float (z + 1) (small_float z) = true ∧
  int_gt_float 1 (small_float z) = (z <? 1) ∧
  (0 < z → SFsub prec emax (small_float z) float_one = small_float (z - 1)).
Proof.
  intros Hz. pose proof (facts_at _ _ _ z float_facts_hold ltac:(lia)) as H. unfold float_facts in H.
  repeat match goal with H : _ && _ = true |- _ => apply andb_prop in H as [H ?] end.
  split_and!; [|by apply same_float_eq|by apply negb_true_iff|done|by apply eqb_prop|].
  - unfold small_float. by destruct (float_of_int z).
  - intros Hpos. destruct (Z.eqb_spec z 0); [lia|]. by apply same_float_eq.
Qed.

Lemma int_gt_float_mono n m f : n <= m → int_gt_float n f = true → int_gt_float m f = true.
Proof.
  intros Hnm. destruct f as [| | |b p e]; cbn; [rewrite !Z.ltb_lt; lia|done|done|].
  destruct (0 <=? e); rewrite !Z.ltb_lt; [lia|]. intros H. eapply Z.lt_le_trans; [exact H|].
  apply Z.mul_le_mono_nonneg_r; [|done]. apply Z.pow_nonneg. lia.
Qed.

(** Nothing is earned in no time. *)
Lemma sub_self m e s : SFsub prec emax (S754_finite s m e) (S754_finite s m e) = S754_zero false.
Proof. unfold SFsub. by rewrite Z.sub_diag. Qed.

Lemma max_self f : max_float f f = f.
Proof. unfold max_float. by destruct (SFltb f f). Qed.

(** ** The bucket at one instant *)

(** [x] is the number [z], as an [int] or as a [float]. *)
Definition is_number (x : num) (z : Z) : Prop := x = PInt z ∨ x = PFlt (small_float z).

Record at_instant (limiter : IssuanceRateLimiter) (identity : string) (now : spec_float) (z : Z) : Prop := {
  ai_burst : 0 < rl_burst limiter <= 1000;
  ai_rate : ∃ m e, rl_rate limiter = S754_finite false m e ∧
    is_Ok (num_div_float (PFlt float_one) (S754_finite false m e) ≫= ceil_float) = true;
  ai_now : ∃ s m e, now = S754_finite s m e;
  ai_range : 0 <= z <= rl_burst limiter;
  ai_credit : ∃ x, rl_credit limiter !! identity = Some (mk_credit x now) ∧ is_number x z
}.

Lemma refill_instant limiter x now z :
  0 < rl_burst limiter <= 1000 → (∃ m e, rl_rate limiter = S754_finite false m e) →
  (∃ s m e, now = S754_finite s m e) → 0 <= z <= rl_burst limiter → is_number x z →
  refill limiter (mk_credit x now) now =
    Ok (mk_credit (if z <? rl_burst limiter then PFlt (small_float z) else PInt z) now).
Proof.
  intros Hb (rm & re & Hr) (s & m & e & ->) Hz Hx. unfold refill. cbn [cr_tokens cr_updated_at].
  rewrite sub_self, Hr, max_self. change (SFmul _ _ _ _) with (S754_zero false).
  destruct (small_facts z ltac:(lia)) as (H1 & H2 & H3 & H4 & _ & _).
  assert (Hsum : num_add_float x (S754_zero false) = Ok (small_float z)).
  { destruct Hx as [-> | ->]; cbn; [rewrite H1; cbn|]; by rewrite H2. }
  rewrite Hsum. cbn. unfold min_int_float. destruct (Z.ltb_spec z (rl_burst limiter)).
  - by rewrite (int_gt_float_mono (z + 1)) by (lia || done).
  - assert (z = rl_burst limiter) as -> by lia. by rewrite H3.
Qed.

Lemma admit_instant limiter identity now z :
  at_instant limiter identity now z →
  if z =? 0 then ∃ seconds, 1 <= seconds ∧ (rate_admit identity now limiter).1 = Err (CapabilityRateError seconds)
  else (rate_admit identity now limiter).1 = Ok tt ∧ at_instant (rate_admit identity now limiter).2 identity now (z - 1).
Proof.
  intros [Hb Hr Hn Hz (x & Hc & Hx)]. unfold rate_admit. rewrite Hc.
  assert (Hr' : ∃ m e, rl_rate limiter = S754_finite false m e) by naive_solver.
  rewrite (refill_instant _ _ _ z Hb Hr' Hn Hz Hx). cbn [cr_tokens cr_updated_at].
  set (t := if z <? rl_burst limiter then PFlt (small_float z) else PInt z).
  destruct (small_facts z ltac:(lia)) as (_ & _ & _ & _ & H1 & H2).
  assert (Hlt : num_lt_one t = (z <? 1)) by (subst t; by destruct (z <? rl_burst limiter)).
  rewrite Hlt. destruct (Z.eqb_spec z 0) as [->|Hne].
  - subst t. replace (0 <? rl_burst limiter) with true by (symmetry; lia). cbn [Z.ltb Z.compare fst].
    unfold retry_after. change (one_minus_num (PFlt (small_float 0))) with (PFlt float_one).
    destruct Hr as (m & e & -> & Hok). unfold mbind, res_bind in *.
    destruct (num_div_float (PFlt float_one) _) as [d|]; [|done]. destruct (ceil_float d) as [k|]; [|done].
    exists (Z.max 1 k). split; [lia|done].
  - replace (z <? 1) with false by (symmetry; lia). cbn [fst snd]. split; [done|].
    split; cbn; try done; [lia|]. eexists. rewrite lookup_insert_eq. split; [done|].
    subst t. destruct (z <? rl_burst limiter); [right|by left]. cbn. rewrite H2; [done|lia].
Qed.

Lemma admit_times_instant n limiter identity now z :
  at_instant limiter identity now z → Z.of_nat n <= z →
  (admit_times n identity now limiter).1 = replicate n (Ok tt) ∧
  at_instant (admit_times n identity now limiter).2 identity now (z - Z.of_nat n).
Proof.
  revert limiter z. induction n as [|n IH]; intros limiter z Hai Hn; cbn [admit_times].
  { rewrite Z.sub_0_r. done. }
  pose proof (admit_instant _ _ _ _ Hai) as H. destruct (Z.eqb_spec z 0); [lia|].
  destruct (rate_admit identity now limiter) as [r l1]. cbn in H. destruct H as [-> Hai1].
  destruct (IH l1 (z - 1) Hai1 ltac:(lia)) as [H1 H2].
  destruct (admit_times n identity now l1) as [rs l2]. cbn in *. rewrite H1. split; [done|].
  by replace (z - Z.of_nat (S n)) with (z - 1 - Z.of_nat n) by lia.
Qed.

(** * Properties *)

(** A burst is bounded: a new limiter (a rate of at most 3600 a minute, a burst of
    at most 1000) admits an identity exactly [burst] times at one instant and then
    refuses it, with a delay of at least a second. *)
Theorem burst_exhausted (identities : list string) (per_minute burst : Z) (now : spec_float)
    (limiter : IssuanceRateLimiter) (identity : string) :
  per_minute <= 3600 → burst <= 1000 → (∃ s m e, now = S754_finite s m e) → identity ∈ identities →
  new_rate_limiter identities per_minute burst now = Ok limiter →
  let '(results, limiter') := admit_times (Z.to_nat burst) identity now limiter in
  results = replicate (Z.to_nat burst) (Ok tt) ∧
  ∃ seconds, 1 <= seconds ∧ (rate_admit identity now limiter').1 = Err (CapabilityRateError seconds).
Proof.
  intros Hpm Hb Hnow Hin. unfold new_rate_limiter.
  destruct ((per_minute <=? 0) || (burst <=? 0)) eqn:Hpos; [done|]. apply orb_false_iff in Hpos as [Hp0 Hb0].
  pose proof (facts_at _ _ _ per_minute rate_facts_hold ltac:(lia)) as Hrate. unfold rate_facts in Hrate.
  unfold mbind at 1, res_bind at 1. destruct (int_true_div per_minute 60) as [rate|]; [|done].
  destruct (small_facts burst ltac:(lia)) as (Hf & _). rewrite Hf.
  destruct identities as [|i0 identities]; [by apply not_elem_of_nil in Hin|]. set (ids := i0 :: identities) in *.
  intros [= <-]. set (limiter := mk_limiter _ _ _).
  assert (Hai : at_instant limiter identity now burst).
  { split; [cbn; lia| |done|cbn; lia|].
    - destruct rate as [| | |[] m e]; try done. by eexists _, _.
    - exists (PFlt (small_float burst)). split; [|by right].
      change (rl_credit limiter) with
        (list_to_map ((λ i, (i, mk_credit (PFlt (small_float burst)) now)) <$> ids) : gmap string Credit).
      apply elem_of_list_to_map_1'; [|by apply list_elem_of_fmap; exists identity].
      intros c Hc. apply list_elem_of_fmap in Hc as (i & [= _ ->] & _). done. }
  destruct (admit_times_instant (Z.to_nat burst) _ _ _ _ Hai ltac:(lia)) as [H1 H2].
  destruct (admit_times _ _ _ _) as [rs l']. cbn in *. split; [done|].
  replace (burst - Z.of_nat (Z.to_nat burst)) with 0 in H2 by lia. apply (admit_instant _ _ _ _ H2).
Qed.

(** An attempt concerns one identity: an unknown one is refused and leaves no
    trace; a known one leaves every other bucket as it is, never spends credit
    beyond the burst, is admitted only with a token, and never moves its clock
    back. *)
Theorem admit_isolated (limiter : IssuanceRateLimiter) (identity : string) (now : spec_float) :
  let '(r, limiter') := rate_admit identity now limiter in
  (∀ other, other ≠ identity → rl_credit limiter' !! other = rl_credit limiter !! other) ∧
  dom (rl_credit limiter') = dom (rl_credit limiter) ∧
  match rl_credit limiter !! identity with
  | None => r = Err ServiceAuthError ∧ limiter' = limiter
  | Some credit => r = Ok tt → ∃ filled, refill limiter credit now = Ok filled ∧
      num_lt_one (cr_tokens filled) = false ∧
      (cr_tokens filled = PInt (rl_burst limiter) ∨
       ∃ f, cr_tokens filled = PFlt f ∧ int_gt_float (rl_burst limiter) f = true) ∧
      cr_updated_at filled = max_float now (cr_updated_at credit) ∧
      rl_credit limiter' !! identity =
        Some (mk_credit (num_minus_one (cr_tokens filled)) (cr_updated_at filled))
  end.
Proof.
  unfold rate_admit. destruct (rl_credit limiter !! identity) as [credit|] eqn:Hc; [|done].
  destruct (refill limiter credit now) as [filled|e] eqn:Hr; [|done].
  assert (Hdom : ∀ c, dom (rl_credit (set_credit identity c limiter)) = dom (rl_credit limiter)).
  { intros c. cbn. rewrite dom_insert_L. assert (identity ∈ dom (rl_credit limiter)) by by apply elem_of_dom.
    set_solver. }
  assert (Hother : ∀ c other, other ≠ identity →
    rl_credit (set_credit identity c limiter) !! other = rl_credit limiter !! other).
  { intros c other Ho. cbn. by rewrite lookup_insert_ne. }
  destruct (num_lt_one (cr_tokens filled)) eqn:Hlt.
  { split_and!; [apply Hother|apply Hdom|]. by destruct (retry_after _ _). }
  split_and!; [apply Hother|apply Hdom|]. intros _. exists filled. cbn. rewrite lookup_insert_eq.
  unfold refill, mbind, res_bind in Hr. destruct (num_add_float _ _) as [t|]; [|done]. injection Hr as <-. cbn.
  split_and!; try done. unfold min_int_float. destruct (int_gt_float _ t) eqn:Hgt; [right; by exists t|by left].
Qed.

Definition demo_instant : spec_float := S754_finite false 4503599627370497 (-20).

Lemma burst_exhausted_witness :
  ∃ limiter seconds, new_rate_limiter ["a"; "b"] 120 3 demo_instant = Ok limiter ∧ 1 <= seconds ∧
    (rate_admit "a" demo_instant (admit_times 3%nat "a" demo_instant limiter).2).1 = Err (CapabilityRateError seconds).
Proof.
  destruct (new_rate_limiter ["a"; "b"] 120 3 demo_instant) as [limiter|e] eqn:Hl; [|discriminate Hl].
  assert (Hin : "a" ∈ ["a"; "b"]) by left.
  pose proof (burst_exhausted ["a"; "b"] 120 3 demo_instant limiter "a" ltac:(lia) ltac:(lia)
    (ex_intro _ _ (ex_intro _ _ (ex_intro _ _ eq_refl))) Hin Hl) as H.
  change (Z.to_nat 3) with 3%nat in H.
  destruct (admit_times 3%nat "a" demo_instant limiter) as [rs l'] eqn:Ht. destruct H as [_ (seconds & H1 & H2)].
  exists limiter, seconds. rewrite Ht. split; [reflexivity|]. split; [exact H1|exact H2].
Defined.
