(* ===== verification/Schemas.v ===== *)
(** * Requests and answers of the HTTP API

    [asset_store_core/api/schemas.py]: the bodies pydantic decodes, the constraints
    their fields carry, and the projections the routes answer with.  Decoding JSON
    into a body is pydantic's; a body that does not decode never reaches a route. *)

From S2P Require Import Prelude Errors Python Models Capabilities.
From Stdlib Require Import SpecFloat.

(** ** Bodies *)

Record AliasSpecIn := mk_alias_spec { as_name : string; as_mutable : bool }.

Record ReserveRequest := mk_reserve_request {
  rr_space : string;
  rr_partition_id : string;
  rr_aliases : list AliasSpecIn;
  rr_owner_service_id : string;
  rr_mime : option string;
  rr_annotations : option (gmap string string);
  rr_eviction_policy : EvictionPolicy;
  rr_ttl_seconds : option Z
}.

Record CommitRequest := mk_commit_request {
  cr_size_bytes : Z;
  cr_checksum : string;
  cr_caller_service_id : string;
  cr_mime : option string;
  cr_expected_checksum : option string
}.

Record CapabilityMintRequest := mk_mint_request {
  cm_operation : Operation;
  cm_scope_prefix : string;
  cm_ttl_seconds : Z;
  cm_single_use : bool
}.

Record LifecycleRequest := mk_lifecycle_request { lc_caller_service_id : string }.

Record AnnotationsUpdateRequest := mk_annotations_request {
  au_patch : gmap string string;
  au_caller_service_id : string;
  au_overwrite : bool
}.

Record AliasDetachRequest := mk_detach_request {
  ad_space : string;
  ad_alias : string;
  ad_caller_service_id : string
}.

Record AliasRebindRequest := mk_rebind_request {
  ar_space : string;
  ar_alias : string;
  ar_new_asset_id : string;
  ar_caller_service_id : string
}.

Record EvictionPolicyRequest := mk_eviction_request {
  ep_eviction_policy : EvictionPolicy;
  ep_caller_service_id : string
}.

Record PartitionQuotaRequest := mk_partition_request {
  pr_space : string;
  pr_partition_id : string;
  pr_quota_bytes : option Z;
  pr_quota_asset_count : option Z;
  pr_eviction_sweep_enabled : option bool
}.

Record BucketQuotaRequest := mk_bucket_request {
  br_space : string;
  br_quota_bytes : option Z;
  br_warn_threshold : spec_float;
  br_hard_ceiling : spec_float
}.

(** ** Constraints *)

(** [Field(default=None, gt=0)] and [Field(default=None, ge=0)] *)
Definition null_or_positive (x : option Z) : bool := match x with Some z => 0 <? z | None => true end.
Definition null_or_natural (x : option Z) : bool := match x with Some z => 0 <=? z | None => true end.

(** [Field(ge=0.0, le=bound)] *)
Definition float_within (x : spec_float) (bound : Z) : bool :=
  int_le_float 0 x && int_ge_float bound x.

Definition valid_reserve (body : ReserveRequest) : bool :=
  negb (bool_decide (rr_aliases body = [])) && null_or_positive (rr_ttl_seconds body).

Definition valid_commit (body : CommitRequest) : bool := 0 <=? cr_size_bytes body.

Definition valid_mint (body : CapabilityMintRequest) : bool :=
  (60 <=? cm_ttl_seconds body) && (cm_ttl_seconds body <=? 86400).

Definition valid_partition_quota (body : PartitionQuotaRequest) : bool :=
  null_or_natural (pr_quota_bytes body) && null_or_natural (pr_quota_asset_count body).

Definition valid_bucket_quota (body : BucketQuotaRequest) : bool :=
  null_or_natural (br_quota_bytes body) && float_within (br_warn_threshold body) 1 &&
  float_within (br_hard_ceiling body) 2.

(** ** Projections *)

Record AssetOut := mk_asset_out {
  ao_asset_id : string;
  ao_space : string;
  ao_partition_id : string;
  ao_storage_key : string;
  ao_state : string;
  ao_aliases : list string;
  ao_mime : option string;
  ao_size_bytes : option Z;
  ao_checksum : option string;
  ao_annotations : gmap string string;
  ao_created_at : Z;
  ao_updated_at : Z;
  ao_expires_at : option Z;
  ao_expired_at : option Z;
  ao_last_read_at : option Z;
  ao_read_count : Z;
  ao_payload_deleted_at : option Z;
  ao_owner_service_id : string;
  ao_eviction_policy : string
}.

Definition from_asset (a : Asset) : AssetOut :=
  mk_asset_out (a_asset_id a) (a_space a) (a_partition_id a) (a_storage_key a) (state_value (a_state a))
    (sorted_by str_ltb (elements (a_aliases a))) (a_mime a) (a_size_bytes a) (a_checksum a) (a_annotations a)
    (a_created_at a) (a_updated_at a) (a_expires_at a) (a_expired_at a) (a_last_read_at a) (a_read_count a)
    (a_payload_deleted_at a) (a_owner_service_id a) (eviction_value (a_eviction_policy a)).

Record CapabilityOut := mk_capability_out {
  co_capability_id : string;
  co_operation : string;
  co_scope_prefix : string;
  co_caller_service_id : string;
  co_expires_at : Z;
  co_single_use : bool
}.

Record PresignedUrlOut := mk_presigned_out {
  pu_alias : string;
  pu_asset_id : string;
  pu_method : string;
  pu_url : string;
  pu_expires_in : Z;
  pu_expires_at : Z;
  pu_size_bytes : option Z;
  pu_checksum : option string
}.

(** Every field of the event: [AuditEvent] itself. *)
Definition from_event (e : AuditEvent) : AuditEvent :=
  mk_event (ev_action e) (ev_target e) (ev_caller_service_id e) (ev_outcome e) (ev_before e) (ev_after e) (ev_ts e).

Record AliasBindingOut := mk_binding_out {
  bo_space : string;
  bo_alias : string;
  bo_asset_id : option string;
  bo_mutable : bool;
  bo_previous_asset_id : option string;
  bo_updated_at : Z
}.

Definition from_binding (b : AliasBinding) : AliasBindingOut :=
  mk_binding_out (b_space b) (b_alias b) (b_asset_id b) (b_mutable b) (b_previous_asset_id b) (b_updated_at b).

(** Every column of a quota. *)
Definition from_partition_quota (q : PartitionQuota) : PartitionQuota :=
  mk_partition_quota (pq_space q) (pq_partition_id q) (pq_quota_bytes q) (pq_quota_asset_count q) (pq_used_bytes q)
    (pq_used_asset_count q) (pq_eviction_sweep_enabled q).

Definition from_bucket_quota (q : BucketQuota) : BucketQuota :=
  mk_bucket_quota (bq_space q) (bq_quota_bytes q) (bq_used_bytes q) (bq_warn_threshold q) (bq_hard_ceiling q).
