(* ===== verification/App.v ===== *)
(** * The process behind the HTTP API

    [asset_store_core/api/app.py]: [App], the state [create_app] builds and the
    routes share (the guard with its registry and object store, the bearer
    capabilities, the token buckets, the upload gate, and the counters that outlive
    a request), the choice of backends at start-up, and the dependencies that
    authenticate a request.  Log lines and request metrics are not modelled. *)

From S2P Require Import Prelude Errors Python Effects Paths Models Retention Sha256 Registry Codec AdminQuery Admin Capabilities ObjectStore Guard ServiceIdentity Admission IssuanceRate.
From Stdlib Require Import SpecFloat.

(** ** The process *)

Record App (O : Type) := mk_app {
  ap_guard : Guard Registry O;
  ap_credentials : ServiceCredentialStore;
  ap_capabilities : CapabilityStore;
  ap_rate : IssuanceRateLimiter;
  ap_uploads : WorkAdmission;
  ap_max_upload_bytes : Z;
  ap_issued : gmap (string * string) Z;
  ap_fill_ratio : gmap string spec_float;
  ap_actions : gmap (string * string) Z
}.
Arguments mk_app {O}.
Arguments ap_guard {O}.
Arguments ap_credentials {O}.
Arguments ap_capabilities {O}.
Arguments ap_rate {O}.
Arguments ap_uploads {O}.
Arguments ap_max_upload_bytes {O}.
Arguments ap_issued {O}.
Arguments ap_fill_ratio {O}.
Arguments ap_actions {O}.

Section Fields.
Context {O : Type}.
Implicit Types (x : App O).

#[export] Instance replace_ap_guard : Replace (@ap_guard O) := λ v x,
  mk_app v (ap_credentials x) (ap_capabilities x) (ap_rate x) (ap_uploads x) (ap_max_upload_bytes x) (ap_issued x)
    (ap_fill_ratio x) (ap_actions x).
#[export] Instance replace_ap_capabilities : Replace (@ap_capabilities O) := λ v x,
  mk_app (ap_guard x) (ap_credentials x) v (ap_rate x) (ap_uploads x) (ap_max_upload_bytes x) (ap_issued x)
    (ap_fill_ratio x) (ap_actions x).
#[export] Instance replace_ap_rate : Replace (@ap_rate O) := λ v x,
  mk_app (ap_guard x) (ap_credentials x) (ap_capabilities x) v (ap_uploads x) (ap_max_upload_bytes x) (ap_issued x)
    (ap_fill_ratio x) (ap_actions x).
#[export] Instance replace_ap_uploads : Replace (@ap_uploads O) := λ v x,
  mk_app (ap_guard x) (ap_credentials x) (ap_capabilities x) (ap_rate x) v (ap_max_upload_bytes x) (ap_issued x)
    (ap_fill_ratio x) (ap_actions x).
#[export] Instance replace_ap_issued : Replace (@ap_issued O) := λ v x,
  mk_app (ap_guard x) (ap_credentials x) (ap_capabilities x) (ap_rate x) (ap_uploads x) (ap_max_upload_bytes x) v
    (ap_fill_ratio x) (ap_actions x).
#[export] Instance replace_ap_fill_ratio : Replace (@ap_fill_ratio O) := λ v x,
  mk_app (ap_guard x) (ap_credentials x) (ap_capabilities x) (ap_rate x) (ap_uploads x) (ap_max_upload_bytes x) (ap_issued x)
    v (ap_actions x).
#[export] Instance replace_ap_actions : Replace (@ap_actions O) := λ v x,
  mk_app (ap_guard x) (ap_credentials x) (ap_capabilities x) (ap_rate x) (ap_uploads x) (ap_max_upload_bytes x) (ap_issued x)
    (ap_fill_ratio x) v.
End Fields.

(** ** Start-up *)

(** [create_app(registry=..., store=..., credentials=...)] in the environment [env],
    with the reading [now] of the monotonic clock. *)
Definition create_app {O} (env : gmap string string) (registry : option Registry) (store : O)
    (credentials : option ServiceCredentialStore) (now : spec_float) : res (App O) :=
  registry ← match registry with Some r => mret r | None => new_registry None end;
  credentials ← match credentials with Some c => mret c | None => from_env env end;
  max_upload_bytes ← match py_int (default "52428800" (env !! "ASSET_STORE_MAX_UPLOAD_BYTES")) with
                     | Some z => mret z
                     | None => Err PyValueError
                     end;
  _ ← (if max_upload_bytes <=? 0 then Err ValidationError else mret tt);
  max_capabilities ← match py_int (default "10000" (env !! "ASSET_STORE_MAX_CAPABILITIES")) with
                     | Some z => mret z
                     | None => Err ValidationError
                     end;
  capabilities ← new_capability_store max_capabilities;
  per_minute ← positive_limit_from_env (env !! "ASSET_STORE_CAPABILITY_RATE_PER_MINUTE") 120;
  burst ← positive_limit_from_env (env !! "ASSET_STORE_CAPABILITY_RATE_BURST") 20;
  rate ← new_rate_limiter (elements (service_ids credentials)) per_minute burst now;
  inflight ← positive_limit_from_env (env !! "ASSET_STORE_MAX_INFLIGHT_UPLOADS") 4;
  uploads ← new_admission inflight;
  mret (mk_app (mk_guard registry store ∅ ∅ ∅) credentials capabilities rate uploads max_upload_bytes ∅ ∅ ∅).

(** [_require_env(name)] *)
Definition require_env (env : gmap string string) (name : string) : res string :=
  match env !! name with
  | Some value => if decide (value = "") then Err PyRuntimeError else mret value
  | None => Err PyRuntimeError
  end.

(** The backends [create_app_from_env] chooses: [S3ObjectStore] with its settings or
    [LocalObjectStore]; the DSN of [PostgresAssetRegistry] or the registry in memory. *)
Inductive StoreChoice := UseS3 (endpoint region access_key secret_key : string) | UseLocal.

Definition backends_from_env (env : gmap string string)
    : res (StoreChoice * ServiceCredentialStore * option string) :=
  store ← match given (env !! "ASSET_STORE_S3_ENDPOINT") with
          | Some endpoint =>
              access_key ← require_env env "ASSET_STORE_S3_ACCESS_KEY";
              secret_key ← require_env env "ASSET_STORE_S3_SECRET_KEY";
              mret (UseS3 endpoint (default "garage" (env !! "ASSET_STORE_S3_REGION")) access_key secret_key)
          | None => mret UseLocal
          end;
  credentials ← from_env env;
  mret (store, credentials, given (env !! "ASSET_STORE_PG_DSN")).

(** [f(await m)] *)
#[export] Instance M_fmap (S : Type) : FMap (M S) := λ A B f m, a ← m; mret (f a).

(** ** Dependencies *)

Definition CAPABILITY_SCHEME : string := "capability".
Definition SERVICE_SCHEME : string := "service".

(** [f"cap-{uuid4().hex}"]: the identifier without its dashes. *)
Definition uuid_hex (uuid : string) : string := foldr String.append "" (split_on "-" uuid).

Section App.
Context {E : Env} {D : DumpFilters} {O : Type} `{!ObjectStoreBackend O}.

Abbreviation AM := (M (App O)).

Definition ap_registry (x : App O) : Registry := g_registry (ap_guard x).
Definition set_ap_guard (g : Guard Registry O) (x : App O) : App O := x <| ap_guard := g |>.
Definition set_ap_registry (r : Registry) (x : App O) : App O := set_ap_guard (Guard.set_registry r (ap_guard x)) x.
Definition set_ap_capabilities (s : CapabilityStore) (x : App O) : App O := x <| ap_capabilities := s |>.
Definition set_ap_uploads (w : WorkAdmission) (x : App O) : App O := x <| ap_uploads := w |>.

(** The console's view of the process. *)
Definition ap_console (x : App O) : Console := mk_console (ap_registry x) (ap_actions x).
Definition set_ap_console (c : Console) (x : App O) : App O :=
  (set_ap_registry (co_registry c) x) <| ap_actions := co_actions c |>.

(** The capabilities, and the registry the grants are audited in. *)
Definition ap_grants (x : App O) : CapabilityStore * Registry := (ap_capabilities x, ap_registry x).
Definition set_ap_grants (g : CapabilityStore * Registry) (x : App O) : App O :=
  set_ap_capabilities g.1 (set_ap_registry g.2 x).

Definition on_guard {A} (m : M (Guard Registry O) A) : AM A := zoom ap_guard set_ap_guard m.
Definition on_app_registry {A} (m : M Registry A) : AM A := zoom ap_registry set_ap_registry m.
Definition on_console {A} (m : M Console A) : AM A := zoom ap_console set_ap_console m.

(** [require_capability]: the token of the [authorization] header, empty when there is
    none, names a live capability. *)
Definition bearer_token (authorization : string) : res string :=
  let '(scheme, _, token) := partition_on " " authorization in
  if bool_decide (lower scheme ≠ CAPABILITY_SCHEME) || bool_decide (strip token = "") then Err CapabilityDeniedError
  else mret (strip token).

Definition require_capability (authorization : string) : AM Capability :=
  token ← of_res (bearer_token authorization);
  capability ← zoom ap_capabilities set_ap_capabilities (get_capability token);
  match capability with Some capability => mret capability | None => raise CapabilityDeniedError end.

(** [require_service_identity] *)
Definition service_identity (credentials : ServiceCredentialStore) (authorization : string) : res string :=
  let '(scheme, _, token) := partition_on " " authorization in
  if bool_decide (lower scheme ≠ SERVICE_SCHEME) || bool_decide (strip token = "") then Err ServiceAuthError
  else
    let '(service_id, sep, secret) := partition_on ":" (strip token) in
    if negb sep then Err ServiceAuthError else authenticate credentials service_id secret.

Definition require_service_identity (authorization : string) : AM string :=
  x ← get_state;
  of_res (service_identity (ap_credentials x) authorization).

Definition require_admin (authorization : string) : AM string :=
  caller ← require_service_identity authorization;
  raise_if (bool_decide (caller ≠ "admin")) CapabilityDeniedError ;;
  mret caller.

(** [claimed] is the body's [caller_service_id], if the request has one: no body is
    read for a [GET]. *)
Definition require_legacy_admin (authorization : string) (claimed : option json) : AM string :=
  caller ← require_admin authorization;
  raise_if match claimed with
           | Some (JStr name) => bool_decide (name ≠ caller)
           | Some _ => true
           | None => false
           end CapabilityDeniedError ;;
  mret caller.

(** A constraint on parameters or body that fails. *)
Definition validated (ok : bool) : AM unit := raise_if (negb ok) RequestValidationError.

Definition observe_bucket_fill (space : string) : AM unit :=
  quota ← on_app_registry (get_bucket_quota space);
  match bq_quota_bytes quota with
  | Some bytes =>
      if bytes <=? 0 then mret tt
      else
        ratio ← of_res (int_true_div (bq_used_bytes quota) bytes);
        modify (λ x, x <| ap_fill_ratio := <[bq_space quota := ratio]> (ap_fill_ratio x) |>)
  | None => mret tt
  end.
End App.
