(* ===== verification/Api.v ===== *)
(** * The HTTP API

    [asset_store_core/api/app.py] and the routes of [api/admin.py]: each route is a
    computation over [App] that runs the dependencies FastAPI solves first, then the
    constraints on parameters and body, then the handler.  [serve] dispatches a
    request and turns what it ends with into the answer.  A body that does not
    decode never reaches a route.  The static files are not modelled. *)

From S2P Require Import Prelude Errors Python Effects Paths Models Retention Sha256 Registry Codec AdminQuery Admin Capabilities ObjectStore Guard ServiceIdentity Admission IssuanceRate Schemas App.
From Stdlib Require Import SpecFloat.

Section Api.
Context {E : Env} {D : DumpFilters} {O : Type} `{!ObjectStoreBackend O}.

Abbreviation AM := (M (App O)).

(** ** Assets *)

Definition route_reserve (authorization : string) (body : ReserveRequest) : AM AssetOut :=
  caller ← require_service_identity authorization;
  validated (valid_reserve body) ;;
  raise_if (bool_decide (rr_owner_service_id body ≠ caller)) CapabilityDeniedError ;;
  of_res (assert_service_bucket_allowed caller (rr_space body) WRITE) ;;
  asset ← on_app_registry (reserve_asset (rr_space body) (rr_partition_id body)
    (AliasMap (foldl (λ aliases spec, dict_set (as_name spec) (as_mutable spec) aliases) [] (rr_aliases body)))
    (rr_owner_service_id body) (rr_mime body) (rr_annotations body) (rr_eviction_policy body) (rr_ttl_seconds body) None);
  mret (from_asset asset).

(** The [with] block of [commit]. *)
Definition commit_locked (caller asset_id : string) (body : CommitRequest) (pending : Asset) : AM Asset :=
  of_res (assert_service_bucket_allowed caller (a_space pending) WRITE) ;;
  raise_if (bool_decide (a_owner_service_id pending ≠ caller ∧ caller ≠ "admin")) CapabilityDeniedError ;;
  location ← of_res (for_asset (a_space pending) (a_partition_id pending) (a_asset_id pending));
  stat ← on_guard (on_store (stat_object location));
  match stat with
  | None => raise ObjectNotFoundError
  | Some stat =>
      raise_if (bool_decide (cr_size_bytes body ≠ st_size_bytes stat ∨ cr_checksum body ≠ st_checksum stat))
        ChecksumMismatchError ;;
      on_app_registry (commit_asset asset_id (st_size_bytes stat) (st_checksum stat) caller (cr_mime body)
        (cr_expected_checksum body))
  end.

Definition route_commit (authorization asset_id : string) (body : CommitRequest) : AM AssetOut :=
  caller ← require_service_identity authorization;
  validated (valid_commit body) ;;
  raise_if (bool_decide (cr_caller_service_id body ≠ caller)) CapabilityDeniedError ;;
  asset ← asset_lock ap_registry set_ap_registry asset_id (commit_locked caller asset_id body);
  observe_bucket_fill (a_space asset) ;;
  mret (from_asset asset).

Definition route_resolve (authorization space alias : string) : AM AssetOut :=
  caller ← require_service_identity authorization;
  of_res (assert_service_bucket_allowed caller space READ) ;;
  asset ← on_app_registry (resolve_alias space alias);
  mret (from_asset asset).

(** ** Operator routes *)

Definition legacy {A B} (authorization : string) (claimed : option json) (ok : bool) (m : M Registry A) (f : A → B) : AM B :=
  require_legacy_admin authorization claimed ;;
  validated ok ;;
  a ← on_app_registry m;
  mret (f a).

Definition route_update_annotations (authorization asset_id : string) (body : AnnotationsUpdateRequest) : AM AssetOut :=
  legacy authorization (Some (JStr (au_caller_service_id body))) true
    (update_annotations asset_id (au_patch body) (au_caller_service_id body) (au_overwrite body)) from_asset.

Definition route_expire (authorization asset_id : string) (body : LifecycleRequest) : AM AssetOut :=
  legacy authorization (Some (JStr (lc_caller_service_id body))) true
    (expire_asset asset_id (lc_caller_service_id body)) from_asset.

Definition route_delete (authorization asset_id : string) (body : LifecycleRequest) : AM AssetOut :=
  legacy authorization (Some (JStr (lc_caller_service_id body))) true
    (delete_asset asset_id (lc_caller_service_id body)) from_asset.

Definition route_detach_alias (authorization : string) (body : AliasDetachRequest) : AM unit :=
  legacy authorization (Some (JStr (ad_caller_service_id body))) true
    (detach_alias (ad_space body) (ad_alias body) (ad_caller_service_id body)) id.

Definition route_detach_mutable_alias (authorization : string) (body : AliasDetachRequest) : AM AliasBindingOut :=
  legacy authorization (Some (JStr (ad_caller_service_id body))) true
    (detach_mutable_alias (ad_space body) (ad_alias body) (ad_caller_service_id body)) from_binding.

Definition route_rebind_alias (authorization : string) (body : AliasRebindRequest) : AM AliasBindingOut :=
  legacy authorization (Some (JStr (ar_caller_service_id body))) true
    (rebind_alias (ar_space body) (ar_alias body) (ar_new_asset_id body) (ar_caller_service_id body)) from_binding.

Definition route_set_eviction_policy (authorization asset_id : string) (body : EvictionPolicyRequest) : AM AssetOut :=
  legacy authorization (Some (JStr (ep_caller_service_id body))) true
    (set_eviction_policy asset_id (ep_eviction_policy body) (ep_caller_service_id body)) from_asset.

(** The quota bodies have no [caller_service_id]: a client may send one all the same. *)
Definition route_set_partition_quota (authorization : string) (claimed : option json) (body : PartitionQuotaRequest)
    : AM PartitionQuota :=
  legacy authorization claimed (valid_partition_quota body)
    (set_partition_quota (pr_space body) (pr_partition_id body) (pr_quota_bytes body) (pr_quota_asset_count body)
       (pr_eviction_sweep_enabled body) "admin") from_partition_quota.

Definition route_get_partition_quota (authorization space partition_id : string) : AM PartitionQuota :=
  legacy authorization None true (get_partition_quota space partition_id) from_partition_quota.

Definition route_set_bucket_quota (authorization : string) (claimed : option json) (body : BucketQuotaRequest)
    : AM BucketQuota :=
  legacy authorization claimed (valid_bucket_quota body)
    (set_bucket_quota (br_space body) (br_quota_bytes body) (br_warn_threshold body) (br_hard_ceiling body))
    from_bucket_quota.

Definition route_get_bucket_quota (authorization space : string) : AM BucketQuota :=
  legacy authorization None true (get_bucket_quota space) from_bucket_quota.

Definition event_selected (action target caller_service_id : option string) (e : AuditEvent) : bool :=
  let agrees (filter : option string) (field : string) :=
    match filter with Some text => bool_decide (field = text) | None => true end in
  agrees action (ev_action e) && agrees target (ev_target e) && agrees caller_service_id (ev_caller_service_id e).

Definition route_list_audit (authorization : string) (action target caller_service_id : option string) (limit : Z)
    : AM (list AuditEvent) :=
  legacy authorization None ((1 <=? limit) && (limit <=? 1000))
    (reads (λ r, mret (filter (λ e, Is_true (event_selected action target caller_service_id e)) (r_audit_events r))))
    (λ matched, from_event <$> drop (length matched - Z.to_nat limit) matched).

(** ** Capabilities *)

Definition count_issued (operation : Operation) (outcome : string) : AM unit :=
  modify (λ x, x <| ap_issued := bump (operation_value operation, outcome) (ap_issued x) |>).

(** [issuance_rate.admit(caller)], at the reading [now] of the monotonic clock. *)
Definition admit_issuance (caller : string) (now : spec_float) : AM unit := λ n x,
  let '(r, limiter) := rate_admit caller now (ap_rate x) in (r, n, x <| ap_rate := limiter |>).

(** [registry.record_capability_issue(...)] for the request [body]. *)
Definition audit_issue (caller : string) (body : CapabilityMintRequest) (outcome : string) (id : option string)
    : M Registry unit :=
  record_capability_issue caller (operation_value (cm_operation body)) (cm_scope_prefix body) (cm_ttl_seconds body)
    outcome id.

Definition route_mint_capability (authorization : string) (now : spec_float) (body : CapabilityMintRequest)
    : AM CapabilityOut :=
  let operation := cm_operation body in
  caller ← require_service_identity authorization;
  validated (valid_mint body) ;;
  catch (admit_issuance caller now) (λ e,
    (match e with CapabilityRateError _ => count_issued operation "rate_denied" | _ => mret tt end) ;; raise e) ;;
  bucket ← of_res (normalize_space (partition_on "/" (strip_slashes (cm_scope_prefix body))).1.1);
  catch (of_res (assert_service_bucket_allowed caller bucket operation)) (λ e,
    (if decide (e = CapabilityDeniedError)
     then count_issued operation "denied" ;; on_app_registry (audit_issue caller body "denied" None)
     else mret tt) ;; raise e) ;;
  uuid ← draw_uuid;
  issued_at ← utcnow;
  cap ← of_res (new_capability ("cap-" +:+ uuid_hex uuid) operation (cm_scope_prefix body)
                  (issued_at + cm_ttl_seconds body * usec_per_sec) caller (cm_single_use body));
  on_guard prune_consumed_capabilities ;;
  catch (zoom ap_grants set_ap_grants (issue cap (audit_issue caller body "granted" (Some (cap_id cap))))) (λ e,
    (if decide (e = CapabilityCapacityError) then count_issued operation "capacity_denied" else mret tt) ;; raise e) ;;
  count_issued operation "granted" ;;
  mret (mk_capability_out (cap_id cap) (operation_value (cap_operation cap)) (cap_scope_prefix cap)
          (cap_caller_service_id cap) (cap_expires_at cap) (cap_single_use cap)).

(** ** The data plane *)

(** The check of the [Content-Length] header, if the request has one. *)
Definition declared_within (max_upload_bytes : Z) (declared_size : option string) : res unit :=
  match declared_size with
  | None => mret tt
  | Some text =>
      match py_int text with
      | None => Err ValidationError
      | Some size =>
          if size <? 0 then Err ValidationError
          else if max_upload_bytes <? size then Err UploadTooLargeError
          else mret tt
      end
  end.

(** [async for chunk in request.stream()]: an [Err] is an exception the server
    raises in place of a chunk. *)
Fixpoint read_stream (max_upload_bytes : Z) (chunks : list (res bytes)) (data : bytes) : res bytes :=
  match chunks with
  | [] => mret data
  | Err e :: _ => Err e
  | Ok chunk :: chunks' =>
      if max_upload_bytes <? Z.of_nat (length data) + Z.of_nat (length chunk) then Err UploadTooLargeError
      else read_stream max_upload_bytes chunks' (data ++ chunk)
  end.

(** A [PUT /objects/{alias}]: its parameters, its headers and its body. *)
Record Upload := mk_upload {
  ul_alias : string;
  ul_mutable : bool;
  ul_expected_checksum : option string;
  ul_ttl_seconds : option Z;
  ul_content_length : option string;
  ul_content_type : option string;
  ul_stream : list (res bytes)
}.

(** The [with] block of [write_object]; the worker thread runs to its end. *)
Definition upload_leased (capability : Capability) (u : Upload) : AM Asset :=
  x ← get_state;
  data ← of_res (read_stream (ap_max_upload_bytes x) (ul_stream u) []);
  asset ← on_guard (write_object capability (ul_alias u) data (ul_mutable u) (ul_content_type u)
                      (ul_expected_checksum u) (ul_ttl_seconds u));
  observe_bucket_fill (a_space asset) ;;
  mret asset.

Definition route_write_object (authorization : string) (u : Upload) : AM AssetOut :=
  capability ← require_capability authorization;
  validated (null_or_positive (ul_ttl_seconds u)) ;;
  on_guard (authorize_write capability (ul_alias u)) ;;
  x ← get_state;
  of_res (declared_within (ap_max_upload_bytes x) (ul_content_length u)) ;;
  asset ← lease ap_uploads set_ap_uploads (upload_leased capability u);
  mret (from_asset asset).

(** The bytes, or where to fetch them. *)
Definition route_read_object (authorization alias mode : string) (expires_in : Z) : AM (bytes + PresignedUrlOut) :=
  capability ← require_capability authorization;
  validated ((1 <=? expires_in) && (expires_in <=? 3600)) ;;
  if decide (mode = "presign") then
    presigned ← on_guard (presign_read capability alias expires_in);
    let asset := pr_asset presigned in
    mret (inr (mk_presigned_out alias (a_asset_id asset) "GET" (pr_url presigned) (pr_expires_in presigned)
                 (pr_expires_at presigned) (a_size_bytes asset) (a_checksum asset)))
  else
    raise_if (bool_decide (mode ≠ "proxy")) ValidationError ;;
    data ← on_guard (read_bytes capability alias);
    mret (inl data).

(** ** The console *)

(** A route of the router that carries [Depends(require_admin)]. *)
Definition operator {A} (authorization : string) (ok : bool) (m : AM A) : AM A :=
  require_admin authorization ;;
  validated ok ;;
  m.

(** What pydantic refuses while it decodes the parameters is a 422; an exception of
    the domain's passes through it. *)
Definition decoded {A} (r : res A) : res A :=
  match r with Err PydanticError => Err RequestValidationError | _ => r end.

Definition route_admin_listing (authorization : string) (query : AssetQuery) : AM Listing :=
  operator authorization true (query ← of_res (decoded (validate_filters query)); on_app_registry (listing query)).

Definition route_admin_inspect (authorization asset_id : string) : AM (PublicAsset * list AuditEvent) :=
  operator authorization true (on_app_registry (inspect asset_id)).

Definition route_admin_audit (authorization : string) (limit : Z) : AM (list AuditEvent) :=
  operator authorization true (on_app_registry (audit limit)).

Definition route_admin_mutate (authorization asset_id : string) (body : Mutation) : AM PublicAsset :=
  operator authorization (null_or_positive (mu_ttl_seconds body)) (on_console (mutate asset_id body)).

Definition route_admin_quota (authorization : string) (body : PartitionQuotaRequest) : AM PartitionQuota :=
  operator authorization (valid_partition_quota body)
    (on_console (quota (pr_space body) (pr_partition_id body) (pr_quota_bytes body) (pr_quota_asset_count body)
       (pr_eviction_sweep_enabled body))).

Definition route_admin_preview (authorization prefix : string) : AM Preview :=
  operator authorization true (on_app_registry (preview prefix)).

Definition route_admin_bulk (authorization prefix : string) (candidates : list Candidate) : AM (Z * Z) :=
  operator authorization true (on_console (bulk prefix candidates)).

(** ** Metrics

    What a scrape computes on demand: the live capabilities, and each bucket's
    reserved bytes. *)
Definition route_metrics : AM (Z * list Z) :=
  live ← zoom ap_capabilities set_ap_capabilities capability_count;
  reserved ← mapM (λ space, on_app_registry (reserved_upload_bytes space)) STORAGE_BUCKETS;
  mret (live, reserved).

(** ** Requests *)

(** The routes with what FastAPI decodes for them: path, query, body, and for two of
    them what the handler reads of the world or of the request. *)
Inductive Route :=
  | GetHealth
  | GetReady
  | GetMetrics
  | PostAssets (body : ReserveRequest)
  | PostCommit (asset_id : string) (body : CommitRequest)
  | GetResolve (space alias : string)
  | PatchAnnotations (asset_id : string) (body : AnnotationsUpdateRequest)
  | PostExpire (asset_id : string) (body : LifecycleRequest)
  | PostDelete (asset_id : string) (body : LifecycleRequest)
  | PostDetach (body : AliasDetachRequest)
  | PostDetachMutable (body : AliasDetachRequest)
  | PostRebind (body : AliasRebindRequest)
  | PatchEvictionPolicy (asset_id : string) (body : EvictionPolicyRequest)
  | PutPartitionQuota (claimed : option json) (body : PartitionQuotaRequest)
  | GetPartitionQuota (space partition_id : string)
  | PutBucketQuota (claimed : option json) (body : BucketQuotaRequest)
  | GetBucketQuota (space : string)
  | GetAudit (action target caller_service_id : option string) (limit : Z)
  | PostCapabilities (now : spec_float) (body : CapabilityMintRequest)
  | PutObject (upload : Upload)
  | GetObject (alias mode : string) (expires_in : Z)
  | AdminGetAssets (query : AssetQuery)
  | AdminGetAsset (asset_id : string)
  | AdminGetAudit (limit : Z)
  | AdminPostAction (asset_id : string) (body : Mutation)
  | AdminPutQuota (body : PartitionQuotaRequest)
  | AdminGetPreview (prefix : string)
  | AdminPostBulk (prefix : string) (candidates : list Candidate).

(** A request: its [Authorization] header, empty when it has none, and its route. *)
Record Request := mk_request { rq_authorization : string; rq_route : Route }.

Inductive Body :=
  | BNone
  | BStatus (status : string)
  | BMetrics (live : Z) (reserved : list Z)
  | BAsset (asset : AssetOut)
  | BBinding (binding : AliasBindingOut)
  | BPartitionQuota (quota : PartitionQuota)
  | BBucketQuota (quota : BucketQuota)
  | BEvents (events : list AuditEvent)
  | BCapability (capability : CapabilityOut)
  | BPresigned (presigned : PresignedUrlOut)
  | BBytes (data : bytes)
  | BListing (listing : Listing)
  | BInspected (asset : PublicAsset) (events : list AuditEvent)
  | BPublic (asset : PublicAsset)
  | BPreview (preview : Preview)
  | BBulk (applied skipped : Z)
  | BProblem (p : problem).

Record Answer := mk_answer { an_status : Z; an_body : Body }.

Definition success_status (route : Route) : Z :=
  match route with
  | PostAssets _ | PostCapabilities _ _ | PutObject _ => 201
  | PostDetach _ => 204
  | _ => 200
  end.

Definition dispatch (auth : string) (route : Route) : AM Body :=
  match route with
  | GetHealth => mret (BStatus "ok")
  | GetReady => mret (BStatus "ready")
  | GetMetrics => '(live, reserved) ← route_metrics; mret (BMetrics live reserved)
  | PostAssets body => BAsset <$> route_reserve auth body
  | PostCommit i body => BAsset <$> route_commit auth i body
  | GetResolve space alias => BAsset <$> route_resolve auth space alias
  | PatchAnnotations i body => BAsset <$> route_update_annotations auth i body
  | PostExpire i body => BAsset <$> route_expire auth i body
  | PostDelete i body => BAsset <$> route_delete auth i body
  | PostDetach body => route_detach_alias auth body ;; mret BNone
  | PostDetachMutable body => BBinding <$> route_detach_mutable_alias auth body
  | PostRebind body => BBinding <$> route_rebind_alias auth body
  | PatchEvictionPolicy i body => BAsset <$> route_set_eviction_policy auth i body
  | PutPartitionQuota claimed body => BPartitionQuota <$> route_set_partition_quota auth claimed body
  | GetPartitionQuota space p => BPartitionQuota <$> route_get_partition_quota auth space p
  | PutBucketQuota claimed body => BBucketQuota <$> route_set_bucket_quota auth claimed body
  | GetBucketQuota space => BBucketQuota <$> route_get_bucket_quota auth space
  | GetAudit action target caller limit => BEvents <$> route_list_audit auth action target caller limit
  | PostCapabilities now body => BCapability <$> route_mint_capability auth now body
  | PutObject u => BAsset <$> route_write_object auth u
  | GetObject alias mode expires_in =>
      r ← route_read_object auth alias mode expires_in;
      mret match r with inl data => BBytes data | inr presigned => BPresigned presigned end
  | AdminGetAssets query => BListing <$> route_admin_listing auth query
  | AdminGetAsset i => '(asset, events) ← route_admin_inspect auth i; mret (BInspected asset events)
  | AdminGetAudit limit => BEvents <$> route_admin_audit auth limit
  | AdminPostAction i body => BPublic <$> route_admin_mutate auth i body
  | AdminPutQuota body => BPartitionQuota <$> route_admin_quota auth body
  | AdminGetPreview prefix => BPreview <$> route_admin_preview auth prefix
  | AdminPostBulk prefix candidates => '(applied, skipped) ← route_admin_bulk auth prefix candidates; mret (BBulk applied skipped)
  end.

(** The answer to a request, the count of draws and the process after it. *)
Definition serve (rq : Request) (n : nat) (x : App O) : Answer * nat * App O :=
  let '(r, n', x') := dispatch (rq_authorization rq) (rq_route rq) n x in
  (match r with
   | Ok body => mk_answer (success_status (rq_route rq)) body
   | Err e => mk_answer (problem_status (error_response e)) (BProblem (error_response e))
   end, n', x').
End Api.
