(* ===== verification/ApiInv.v ===== *)
(** * The invariant of the process

    [app_wf]: the guard's invariant, a bearer store within its bound that holds only
    grants their holder could have been given, and a gate with as many jobs as are
    inside it.  Every route keeps it and lets the registry evolve. *)

From S2P Require Import Prelude Errors Python Effects Paths Models Retention Sha256 Registry RegistryInv RegistrySound RegistryNames RegistryPayload Codec AdminQuery Admin Capabilities ObjectStore Guard GuardProps GuardFlow ServiceIdentity Admission IssuanceRate Schemas App Api.
From Stdlib Require Import SpecFloat.

Lemma wp_finally {S A} (m : M S A) (f : M S unit) (Q : res A → nat → S → Prop) n s :
  wp m (λ r n' s', wp f (λ rf n2 s2, Q (match rf with Ok _ => r | Err e => Err e end) n2 s2) n' s') n s →
  wp (finally m f) Q n s.
Proof.
  unfold wp, finally. destruct (m n s) as [[r n'] s']. by destruct (f n' s') as [[[?|?] ?] ?].
Qed.

(** The bucket [mint_capability] checks a scope against. *)
Definition scope_bucket (cap : Capability) : res string :=
  normalize_space (partition_on "/" (strip_slashes (cap_scope_prefix cap))).1.1.

Section Inv.
#[local] Set Default Proof Using "Type*".
Context {E : Env} `{!FreshIds E} `{!UuidFormat E} {D : DumpFilters}.
Context {O : Type} `{!ObjectStoreBackend O} `{!ObjectStoreLaws O}.
Implicit Types x : App O.

(** A grant in the store after [n] draws: filed under its identifier, held by a
    configured service, over a bucket that service may use, and for a day at most
    from a reading of the clock. *)
Record grant_wf (credentials : ServiceCredentialStore) (n : nat) (id : string) (cap : Capability) : Prop := {
  gr_id : cap_id cap = id;
  gr_holder : cap_caller_service_id cap ∈ service_ids credentials;
  gr_bucket : ∃ bucket, scope_bucket cap = Ok bucket ∧
    assert_service_bucket_allowed (cap_caller_service_id cap) bucket (cap_operation cap) = Ok tt;
  gr_deadline : ∃ k, (k < n)%nat ∧ cap_expires_at cap <= clock k + 86400 * usec_per_sec
}.

Record app_wf (active : Z) (n : nat) (x : App O) : Prop := {
  xw_guard : guard_wf n (ap_guard x);
  xw_room : Z.of_nat (size (cs_capabilities (ap_capabilities x))) <= cs_max (ap_capabilities x);
  xw_grants : ∀ id cap, cs_capabilities (ap_capabilities x) !! id = Some cap → grant_wf (ap_credentials x) n id cap;
  xw_active : wa_active (ap_uploads x) = active
}.

(** What no request changes, and how the registry changes. *)
Record app_step (x x' : App O) : Prop := {
  st_registry : evolves (ap_registry x) (ap_registry x');
  st_credentials : ap_credentials x' = ap_credentials x;
  st_max_upload : ap_max_upload_bytes x' = ap_max_upload_bytes x;
  st_max_grants : cs_max (ap_capabilities x') = cs_max (ap_capabilities x);
  st_limit : wa_limit (ap_uploads x') = wa_limit (ap_uploads x)
}.

#[export] Instance app_step_preorder : PreOrder app_step.
Proof.
  split; [intros x; split; reflexivity|]. intros x1 x2 x3 [] []. split; by etrans.
Qed.

Lemma grant_wf_mono credentials n n' id cap : (n <= n')%nat → grant_wf credentials n id cap → grant_wf credentials n' id cap.
Proof. intros Hn [? ? ? (k & Hk & ?)]. split; try done. exists k. split; [lia|done]. Qed.

Lemma app_wf_mono active n n' x : (n <= n')%nat → app_wf active n x → app_wf active n' x.
Proof.
  intros Hn []. split; [by eapply guard_wf_mono|done| |done]. intros id cap Hc. eapply grant_wf_mono; eauto.
Qed.

Lemma app_frame active : PreOrder app_step ∧ ∀ n n' x, (n <= n')%nat → app_wf active n x → app_wf active n' x.
Proof. split; [exact _|exact (app_wf_mono active)]. Qed.

(** ** Components *)

Lemma app_guard active {A} (m : M (Guard Registry O) A) : preserves guard_wf guard_step m → preserves (app_wf active) app_step (on_guard m).
Proof.
  intros Hm. apply preserves_zoom; [exact (app_frame active)|]. intros n x []. eapply wp_mono; [by apply Hm|].
  intros res n' g' (Hn & Hwf & Hstep). split_and!; [done| |by split].
  split; [done|done| |done]. intros id cap Hc. eapply grant_wf_mono; [exact Hn|]. by apply xw_grants0.
Qed.

Lemma app_registry active {A} (m : M Registry A) : tame m → preserves (app_wf active) app_step (on_app_registry (O:=O) m).
Proof.
  intros Hm n x Hwf. pose proof (app_guard active _ (guarded_registry m Hm) n x Hwf) as H. revert H.
  unfold on_guard, Guard.on_registry, on_app_registry, wp, zoom.
  change (g_registry (ap_guard x)) with (ap_registry x). by destruct (m n (ap_registry x)) as [[res n'] r'].
Qed.

(** Forgetting grants. *)
Lemma pruned_wf active n now x : app_wf active n x → app_wf active n (set_ap_capabilities (store_pruned now (ap_capabilities x)) x).
Proof.
  intros []. split; [done| | |done]; cbn.
  - etrans; [|exact xw_room0]. apply Nat2Z.inj_le, map_subseteq_size, unexpired_subseteq.
  - intros id cap [Hc _]%unexpired_lookup. by apply xw_grants0.
Qed.

Lemma get_capability_app active id : preserves (app_wf active) app_step (zoom ap_capabilities set_ap_capabilities (get_capability id)).
Proof.
  apply preserves_zoom; [exact (app_frame active)|]. intros n x Hwf. unfold get_capability. wp_steps.
  split_and!; [lia| |by split]. apply pruned_wf, (app_wf_mono _ n); [lia|done].
Qed.

Lemma capability_count_app active : preserves (app_wf active) app_step (zoom ap_capabilities set_ap_capabilities capability_count).
Proof.
  apply preserves_zoom; [exact (app_frame active)|]. intros n x Hwf. unfold capability_count. wp_steps.
  split_and!; [lia| |by split]. apply pruned_wf, (app_wf_mono _ n); [lia|done].
Qed.

(** ** The gate *)

Lemma lease_app active {A} (body : M (App O) A) :
  preserves (app_wf (active + 1)) app_step body → preserves (app_wf active) app_step (lease ap_uploads set_ap_uploads body).
Proof.
  intros Hb n x Hwf. pose proof Hwf as []. unfold lease. wp_step. apply wp_zoom. unfold wp at 1. rewrite acquire_run.
  destruct (wa_active (ap_uploads x) <? wa_limit (ap_uploads x)) eqn:Hlt; cbn [negb].
  - apply wp_finally. wp_step. apply wp_zoom. unfold count_attempt. wp_step.
    set (x1 := set_ap_uploads _ _). assert (Hwf1 : app_wf (active + 1) n x1) by (split; [done..|cbn; lia]).
    eapply wp_mono; [by apply Hb|]. intros res n2 x2 (Hn2 & [] & []). unfold release. apply wp_zoom, wp_modify.
    cbn. split_and!; [done|split; cbn; [done..|lia]|split; try done]. 
  - wp_step. apply wp_zoom. unfold count_attempt. wp_steps. split_and!; [done|by split|by split].
Qed.

(** ** The console *)

Definition console_wf (n : nat) (c : Console) : Prop := registry_wf n (co_registry c).
Definition console_step (c c' : Console) : Prop := tame_step (co_registry c) (co_registry c').

#[export] Instance console_step_preorder : PreOrder console_step.
Proof.
  split; [intros c; unfold console_step; reflexivity|]. intros c1 c2 c3 H1 H2. unfold console_step in *. by etrans.
Qed.

Lemma console_frame : PreOrder console_step ∧ ∀ n n' c, (n <= n')%nat → console_wf n c → console_wf n' c.
Proof. split; [exact _|]. intros n n' c. apply registry_wf_mono. Qed.

Lemma console_registry {A} (m : M Registry A) : tame m → preserves console_wf console_step (Admin.on_registry m).
Proof.
  intros Hm. apply preserves_zoom; [exact console_frame|]. intros n c Hwf. eapply wp_mono; [by apply Hm|].
  intros res n' r' (Hn & Hwf' & Hstep). by split_and!.
Qed.

Lemma console_observe {A} action (body : M Console A) :
  preserves console_wf console_step body → preserves console_wf console_step (observe action body).
Proof.
  intros Hb n c Hwf. specialize (Hb n c Hwf). revert Hb. unfold wp, observe. by destruct (body n c) as [[res n'] c'].
Qed.

Lemma console_locking {A} i (body : Asset → M Console A) :
  (∀ a, preserves console_wf console_step (body a)) →
  preserves console_wf console_step (asset_lock co_registry Admin.set_registry i body).
Proof.
  intros Hb. unfold asset_lock. apply preserves_bind; [exact console_frame| |done].
  apply (console_registry (_get_asset i)). auto with preserves.
Qed.

Ltac console :=
  repeat first
    [ progress solve_preserves ltac:(exact console_frame)
    | apply console_locking; intros ?
    | apply console_observe
    | apply console_registry; solve [auto with preserves] ].

Lemma mutate_console i body : preserves console_wf console_step (mutate i body).
Proof. unfold mutate, get_asset. console. Qed.

Lemma quota_console space p bytes count sweep : preserves console_wf console_step (quota space p bytes count sweep).
Proof. unfold quota. console. Qed.

Lemma bulk_loop_console query candidates applied skipped :
  preserves console_wf console_step (bulk_loop query candidates applied skipped).
Proof.
  revert applied skipped. induction candidates as [|c cs IH]; intros applied skipped; cbn [bulk_loop].
  { apply preserves_ret, console_frame. }
  unfold bulk_one. console; auto.
Qed.

Lemma bulk_console prefix candidates : preserves console_wf console_step (bulk prefix candidates).
Proof. unfold bulk. pose proof bulk_loop_console. console. Qed.

Lemma app_console active {A} (m : M Console A) :
  preserves console_wf console_step m → preserves (app_wf active) app_step (on_console (O:=O) m).
Proof.
  intros Hm. apply preserves_zoom; [exact (app_frame active)|]. intros n x [].
  eapply wp_mono; [apply Hm; by destruct xw_guard0|]. intros res n' c' (Hn & Hwf & Hstep).
  split_and!; [done| |split; try done; apply Hstep]. split; [|done| |done].
  - split; [done|]. eapply stored_tame; [exact Hstep|]. apply xw_guard0.
  - intros id cap Hc. eapply grant_wf_mono; [exact Hn|]. by apply xw_grants0.
Qed.
(** ** Committing *)

Lemma set_ap_registry_id x : set_ap_registry (ap_registry x) x = x.
Proof. by destruct x as [[]]. Qed.

(** Who may commit a pending asset. *)
Definition may_commit (caller : string) (a : Asset) : Prop :=
  assert_service_bucket_allowed caller (a_space a) WRITE = Ok tt ∧ (a_owner_service_id a = caller ∨ caller = "admin").

Lemma wp_commit_locked active caller i body a (Q : res Asset → nat → App O → Prop) n x :
  app_wf active n x → r_assets (ap_registry x) !! i = Some a →
  (∀ e n' x', (n <= n')%nat → app_wf active n' x' → app_step x x' → r_assets (ap_registry x') = r_assets (ap_registry x) →
     Q (Err e) n' x') →
  (∀ n' x' data m now, (n <= n')%nat → app_wf active n' x' → app_step x x' → may_commit caller a → a_state a = PENDING →
     contents (g_store (ap_guard x')) (location_of a) = Some data →
     let a' := committed a (Z.of_nat (length data)) (compute_checksum data) m now in
     r_assets (ap_registry x') = <[i := a']> (r_assets (ap_registry x)) → Q (Ok a') n' x') →
  wp (commit_locked caller i body a) Q n x.
Proof.
  intros Hwf Hi Herr Hok. pose proof Hwf as [[Hreg Hst] Hroom Hgrants Hact]. unfold commit_locked.
  assert (Herr0 : ∀ e, Q (Err e) n x) by (intros e; by apply Herr; [lia|done|reflexivity|]).
  wp_step. wp_step. destruct (assert_service_bucket_allowed caller (a_space a) WRITE) as [[]|] eqn:Hb; [|apply Herr0].
  wp_step. apply wp_raise_if; intros Ho; [apply Herr0|]. apply bool_decide_eq_false in Ho.
  wp_step. wp_step. rewrite (asset_location i a) by by eapply get_wf.
  wp_step. apply wp_zoom, wp_zoom. eapply wp_mono; [apply law_stat|]. intros res n1 o1 (Hn1 & Hc1 & Hstat).
  set (x1 := set_ap_guard (set_store o1 (ap_guard x)) x).
  assert (Hwf1 : app_wf active n1 x1).
  { apply (app_wf_mono _ n n1) in Hwf; [|done]. destruct Hwf as [[] ? ? ?]. split; [|done..]. split; [done|].
    by eapply stored_same. }
  assert (Herr1 : ∀ e, Q (Err e) n1 x1) by (intros e; apply Herr; [done|done|by split|done]).
  destruct res as [[st|]|e]; [|apply wp_raise, Herr1|apply Herr1].
  specialize (Hstat _ eq_refl). destruct (contents (g_store (ap_guard x)) (location_of a)) as [data|] eqn:Hdata; [|done].
  injection Hstat as ->. wp_step. apply wp_raise_if; intros Hm; [apply Herr1|]. cbn [stat_of st_size_bytes st_checksum].
  apply wp_zoom. change (ap_registry x1) with (ap_registry x). pose proof (registry_wf_mono _ _ _ Hn1 Hreg) as Hreg1.
  apply (wp_sound (late := False)); [apply commit_asset_sound|done|]. apply wp_commit_asset; [done| |].
  { intros e _ _. change (ap_registry x) with (ap_registry x1). rewrite set_ap_registry_id. apply Herr1. }
  intros b p events [_ _ _ Hb' Hs _ _] _ a' Hreg2 Hev. rewrite Hi in Hb'. injection Hb' as <-.
  apply (Hok _ _ data (cr_mime body) (clock n1)); try done; [lia| | |].
  - split; [|done| |done].
    + split; [done|]. cbn. intros j c. destruct (decide (i = j)) as [<-|Hne];
        [rewrite lookup_insert_eq|rewrite lookup_insert_ne by done].
      * intros Heq%(inj Some) _ _. subst c. exists data. change (location_of a') with (location_of a). rewrite Hc1. split_and!; [done..|].
        rewrite <- (strip_checksum data). done.
      * intros Hj Hsj Hz. rewrite Hc1. by eapply Hst.
    + intros id cap Hc. eapply grant_wf_mono; [|by apply Hgrants]. lia.
  - split; [done|]. destruct (decide (a_owner_service_id a = caller)); [by left|]. right.
    apply dec_stable. tauto.
  - cbn. by rewrite Hc1.
Qed.

Lemma wp_locked i (body : Asset → M (App O) Asset) (Q : res Asset → nat → App O → Prop) n x :
  (r_assets (ap_registry x) !! i = None → Q (Err AssetNotFoundError) n x) →
  (∀ a, r_assets (ap_registry x) !! i = Some a → wp (body a) Q n x) →
  wp (asset_lock ap_registry set_ap_registry i body) Q n x.
Proof.
  intros Hnone Hsome. unfold asset_lock. wp_step. apply wp_zoom.
  apply wp_get_asset; rewrite set_ap_registry_id; [exact Hsome|exact Hnone].
Qed.

Lemma commit_app active caller i body :
  preserves (app_wf active) app_step (asset_lock ap_registry set_ap_registry i (commit_locked caller i body)).
Proof.
  intros n x Hwf. apply wp_locked; [intros _; split_and!; [done|done|reflexivity]|]. intros a Hi.
  by eapply (wp_commit_locked active); [exact Hwf|exact Hi|intros; split_and!|intros; split_and!].
Qed.
End Inv.
