(* ===== verification/ApiMint.v ===== *)
(** * Minting a capability

    [POST /capabilities]: what a grant given out is, what is recorded about it, and
    that a refusal gives nothing out. *)

From S2P Require Import Prelude Errors Python Effects Paths Models Retention Sha256 Registry RegistryInv RegistrySound RegistryNames RegistryPayload Codec AdminQuery Admin Capabilities ObjectStore Guard GuardProps GuardFlow ServiceIdentity Admission IssuanceRate Schemas App Api ApiInv.
From Stdlib Require Import SpecFloat.

Section Mint.
#[local] Set Default Proof Using "Type*".
Context {E : Env} {D : DumpFilters} {O : Type} `{!ObjectStoreBackend O}.
Implicit Types x : App O.

(** The event that records a request's outcome. *)
Record issue_event (caller : string) (body : CapabilityMintRequest) (outcome : string) (id : option string)
    (e : AuditEvent) : Prop := {
  ie_action : ev_action e = "capability.issue";
  ie_target : ev_target e = cm_scope_prefix body;
  ie_caller : ev_caller_service_id e = caller;
  ie_outcome : ev_outcome e = outcome;
  ie_id : ev_after e !! "capability_fingerprint" = (λ i, sha256_hexdigest (utf8_encode i)) <$> id;
  ie_operation : ev_after e !! "operation" = Some (operation_value (cm_operation body))
}.

(** What a mint request leaves alone: everything but the token buckets, the
    counters, the ledger's expired entries, the bearer store and the audit log. *)
Record mint_frame (x x' : App O) (events : list AuditEvent) : Prop := {
  mf_registry : ap_registry x' = (ap_registry x) <| r_audit_events := r_audit_events (ap_registry x) ++ events |>;
  mf_store : g_store (ap_guard x') = g_store (ap_guard x);
  mf_credentials : ap_credentials x' = ap_credentials x;
  mf_uploads : ap_uploads x' = ap_uploads x;
  mf_max_upload : ap_max_upload_bytes x' = ap_max_upload_bytes x;
  mf_max_grants : cs_max (ap_capabilities x') = cs_max (ap_capabilities x)
}.

Lemma mint_frame_refl x : mint_frame x x [].
Proof. split; try done. destruct (ap_registry x) as [] eqn:Hr. cbn. by rewrite app_nil_r. Qed.

Lemma mint_frame_trans x1 x2 x3 l1 l2 : mint_frame x1 x2 l1 → mint_frame x2 x3 l2 → mint_frame x1 x3 (l1 ++ l2).
Proof.
  intros [] []. split; try (by etrans). rewrite mf_registry1, mf_registry0. cbn. by rewrite <- app_assoc.
Qed.

(** The grant made for [caller] with the [k]-th draws. *)
Definition grant_for (caller : string) (body : CapabilityMintRequest) (k : nat) : Capability :=
  mk_capability ("cap-" +:+ uuid_hex (new_uuid k)) (cm_operation body) (cm_scope_prefix body)
    (clock (S k) + cm_ttl_seconds body * usec_per_sec) caller (cm_single_use body).

Record granted (auth : string) (body : CapabilityMintRequest) (n : nat) (x : App O) (cap : Capability)
    (n' : nat) (x' : App O) : Prop := {
  gt_caller : service_identity (ap_credentials x) auth = Ok (cap_caller_service_id cap);
  gt_ttl : 60 <= cm_ttl_seconds body <= 86400;
  gt_cap : ∃ k, (n <= k)%nat ∧ (S k < n')%nat ∧ cap = grant_for (cap_caller_service_id cap) body k;
  gt_scope : validate_scope (cap_scope_prefix cap) = Ok tt;
  gt_bucket : ∃ bucket, scope_bucket cap = Ok bucket ∧
    assert_service_bucket_allowed (cap_caller_service_id cap) bucket (cap_operation cap) = Ok tt;
  gt_store : ∃ now, let live := unexpired cap_expires_at now (cs_capabilities (ap_capabilities x)) in
    cs_capabilities (ap_capabilities x') = <[cap_id cap := cap]> live ∧ now < cap_expires_at cap ∧
    Z.of_nat (size live) < cs_max (ap_capabilities x)
}.

(** The policy refuses [caller]: a valid request within the caller's rate, for a
    bucket the caller may not use for that operation. *)
Definition denied_by_policy (auth : string) (now : spec_float) (body : CapabilityMintRequest) (x : App O)
    (caller : string) : Prop :=
  service_identity (ap_credentials x) auth = Ok caller ∧ valid_mint body = true ∧
  (rate_admit caller now (ap_rate x)).1 = Ok tt ∧
  ∃ bucket, normalize_space (partition_on "/" (strip_slashes (cm_scope_prefix body))).1.1 = Ok bucket ∧
    assert_service_bucket_allowed caller bucket (cm_operation body) = Err CapabilityDeniedError.

(** What a mint request ends in: a refusal is on the log exactly when it is the
    policy's. *)
Definition minted (auth : string) (now : spec_float) (body : CapabilityMintRequest) (n : nat) (x : App O)
    (res : res CapabilityOut) (n' : nat) (x' : App O) : Prop :=
  ∃ events, mint_frame x x' events ∧
  match res with
  | Ok out => ∃ cap e, granted auth body n x cap n' x' ∧
      out = mk_capability_out (cap_id cap) (operation_value (cap_operation cap)) (cap_scope_prefix cap)
              (cap_caller_service_id cap) (cap_expires_at cap) (cap_single_use cap) ∧
      events = [e] ∧ issue_event (cap_caller_service_id cap) body "granted" (Some (cap_id cap)) e
  | Err err => cs_capabilities (ap_capabilities x') ⊆ cs_capabilities (ap_capabilities x) ∧
      (events = [] ∧ (∀ caller, ¬ denied_by_policy auth now body x caller) ∨
       err = CapabilityDeniedError ∧ ∃ caller e, denied_by_policy auth now body x caller ∧
         events = [e] ∧ issue_event caller body "denied" None e)
  end.

Lemma wp_audit_issue caller body outcome id (Q : res unit → nat → Registry → Prop) n r :
  (∀ e, issue_event caller body outcome id e → Q (Ok tt) (S n) (r <| r_audit_events := r_audit_events r ++ [e] |>)) →
  wp (audit_issue caller body outcome id) Q n r.
Proof.
  intros HQ. unfold audit_issue, record_capability_issue. apply wp_audit, HQ. split; try done; destruct id; cbn; by simplify_map_eq.
Qed.

(** Any state the frame leads to, nothing given out. *)
Lemma minted_error auth now body n x e n' x' :
  mint_frame x x' [] → cs_capabilities (ap_capabilities x') ⊆ cs_capabilities (ap_capabilities x) →
  (∀ caller, ¬ denied_by_policy auth now body x caller) → minted auth now body n x (Err e) n' x'.
Proof. intros Hf Hc Hno. exists []. split; [done|]. split; [done|by left]. Qed.

Lemma frame_quiet x x' :
  ap_registry x' = ap_registry x → g_store (ap_guard x') = g_store (ap_guard x) → ap_credentials x' = ap_credentials x →
  ap_uploads x' = ap_uploads x → ap_max_upload_bytes x' = ap_max_upload_bytes x →
  cs_max (ap_capabilities x') = cs_max (ap_capabilities x) → mint_frame x x' [].
Proof. intros Hr. split; try done. rewrite Hr. destruct (ap_registry x). cbn. by rewrite app_nil_r. Qed.

(** One of the conditions on the way to the policy fails. *)
Ltac not_denied :=
  let Hc := fresh in let Hr := fresh in
  match goal with Hid : service_identity _ _ = _ |- _ =>
    intros ? (Hc & ? & Hr & ? & ? & ?); rewrite Hid in Hc
  end;
  simplify_eq; try congruence;
  match goal with H : rate_admit _ _ _ = _ |- _ => rewrite H in Hr; discriminate Hr end.

Ltac nothing := split; [lia|apply minted_error; [by apply frame_quiet|reflexivity || apply unexpired_subseteq|assumption || not_denied]].

Lemma wp_mint auth now body n x :
  wp (route_mint_capability auth now body) (λ res n' x', (n <= n')%nat ∧ minted auth now body n x res n' x') n x.
Proof.
  unfold route_mint_capability, require_service_identity. cbv zeta. wp_step. wp_step. wp_step. wp_step.
  destruct (service_identity (ap_credentials x) auth) as [caller|e] eqn:Hid; [|nothing].
  wp_step. apply wp_raise_if; intros Hv; [apply negb_true_iff in Hv; nothing|]. apply negb_false_iff in Hv.
  wp_step. apply wp_catch. unfold admit_issuance, wp at 1. destruct (rate_admit caller now (ap_rate x)) as [ra limiter] eqn:Hrate.
  set (x1 := x <| ap_rate := limiter |>).
  destruct ra as [[]|e]; [|assert (Hno : ∀ c, ¬ denied_by_policy auth now body x c) by not_denied;
    destruct e; unfold count_issued; wp_steps; nothing].
  wp_step. wp_step. destruct (normalize_space _) as [bucket|e] eqn:Hbucket; [|nothing].
  wp_step. apply wp_catch. wp_step.
  destruct (assert_service_bucket_allowed caller bucket (cm_operation body)) as [[]|e] eqn:Hb.
  2:{ wp_step. destruct (decide (e = CapabilityDeniedError)) as [->|]; [|wp_steps; nothing].
      unfold count_issued. wp_step. wp_step. apply wp_zoom, wp_audit_issue. intros ev Hev. wp_step. split; [lia|].
      exists [ev]. split; [by split|]. split; [done|]. right. split; [done|]. exists caller, ev.
      split; [|by split]. split_and!; [done|done|by rewrite Hrate|by exists bucket]. }
  wp_step. wp_step. wp_step. wp_step. wp_step. wp_step. unfold new_capability.
  destruct (validate_scope (cm_scope_prefix body)) as [[]|e] eqn:Hscope; [|cbn; nothing]. cbn [mbind res_bind mret res_ret].
  change (mk_capability _ _ _ _ _ _) with (grant_for caller body n). set (cap := grant_for caller body n).
  wp_step. unfold prune_consumed_capabilities, on_ledger, prune_expired. apply wp_zoom, wp_zoom. wp_steps.
  set (x2 := set_ap_guard _ x1). apply wp_catch, wp_zoom. unfold issue.
  wp_step. wp_step. wp_step. wp_step. wp_step. apply wp_raise_if; intros Hdead; [wp_steps; nothing|].
  wp_step. wp_step. wp_step. apply wp_raise_if; intros Hfull; [unfold count_issued; wp_steps; nothing|].
  wp_step. apply wp_zoom, wp_audit_issue. intros ev Hev. wp_step. unfold count_issued. wp_steps. split; [lia|].
  exists [ev]. split; [by split|]. exists cap, ev. split_and!; [|done..].
  apply Z.leb_gt in Hdead, Hfull. apply andb_prop in Hv as [Hv1 Hv2]. split; try done; [lia| |by exists bucket|].
  - exists n. split_and!; [lia|lia|done].
  - eexists. split_and!; [done..|exact Hfull].
Qed.
End Mint.
