(* ===== verification/ApiAuthority.v ===== *)
(** * Who may change what

    The credential each route demands, what happens without it, and at whose hand an
    asset changes or comes to be. *)

From S2P Require Import Prelude Errors Python Effects Paths Models Retention Sha256 Registry RegistryInv RegistrySound RegistryNames RegistryPayload Codec AdminQuery Admin Capabilities ObjectStore Guard GuardProps GuardFlow ServiceIdentity Admission IssuanceRate Schemas App Api ApiInv ApiMint.
From Stdlib Require Import SpecFloat.

(** ** Demands *)

Inductive Demand := NoCredential | AnyService | AdminOnly | LiveCapability.

Definition demand (route : Route) : Demand :=
  match route with
  | GetHealth | GetReady | GetMetrics => NoCredential
  | PostAssets _ | PostCommit _ _ | GetResolve _ _ | PostCapabilities _ _ => AnyService
  | PutObject _ | GetObject _ _ _ => LiveCapability
  | _ => AdminOnly
  end.

Section Authority.
#[local] Set Default Proof Using "Type*".
Context {E : Env} `{!FreshIds E} `{!UuidFormat E} {D : DumpFilters}.
Context {O : Type} `{!ObjectStoreBackend O} `{!ObjectStoreLaws O}.
Implicit Types x : App O.

(** The capability a header presents is in the store and has not expired. *)
Definition live (auth : string) (n : nat) (x : App O) (cap : Capability) : Prop :=
  ∃ token, bearer_token auth = Ok token ∧ cs_capabilities (ap_capabilities x) !! token = Some cap ∧
    clock n < cap_expires_at cap.

Definition identified (auth : string) (x : App O) (caller : string) : Prop :=
  service_identity (ap_credentials x) auth = Ok caller.

#[export] Instance identified_dec auth x caller : Decision (identified auth x caller).
Proof.
  unfold identified. destruct (service_identity (ap_credentials x) auth) as [name|e]; [|by right].
  destruct (decide (name = caller)) as [->|Hne]; [by left|right; congruence].
Defined.

(** ** The dependencies *)

Lemma wp_service auth (Q : res string → nat → App O → Prop) n x :
  (service_identity (ap_credentials x) auth = Err ServiceAuthError → Q (Err ServiceAuthError) n x) →
  (∀ caller, identified auth x caller → Q (Ok caller) n x) →
  wp (require_service_identity auth) Q n x.
Proof.
  intros Herr Hok. unfold require_service_identity. wp_steps.
  assert (H : ∀ e, service_identity (ap_credentials x) auth = Err e → e = ServiceAuthError).
  { unfold service_identity. destruct (partition_on " " auth) as [[s ?] t]. destruct (_ || _); [by intros e [= <-]|].
    destruct (partition_on ":" (strip t)) as [[i sep] secret]. destruct sep; cbn; [|by intros e [= <-]].
    rewrite authenticate_run. case_decide; [done|by intros e [= <-]]. }
  destruct (service_identity (ap_credentials x) auth) as [caller|e] eqn:Hid; [by apply Hok|].
  rewrite (H e eq_refl) in *. by apply Herr.
Qed.

Lemma wp_admin auth (Q : res string → nat → App O → Prop) n x :
  (∀ e, ¬ identified auth x "admin" → e = ServiceAuthError ∨ e = CapabilityDeniedError → Q (Err e) n x) →
  (identified auth x "admin" → Q (Ok "admin") n x) →
  wp (require_admin auth) Q n x.
Proof.
  intros Herr Hok. unfold require_admin. wp_step. apply wp_service.
  - intros H. apply Herr; [unfold identified; by rewrite H|by left].
  - intros caller Hid. wp_step. apply wp_raise_if; intros H.
    + apply bool_decide_eq_true in H. apply Herr; [|by right]. unfold identified in *. congruence.
    + apply bool_decide_eq_false, dec_stable in H as ->. wp_step. by apply Hok.
Qed.

Lemma wp_legacy_admin auth claimed (Q : res string → nat → App O → Prop) n x :
  (∀ e, (¬ identified auth x "admin" → e = ServiceAuthError ∨ e = CapabilityDeniedError) → Q (Err e) n x) →
  (identified auth x "admin" → Q (Ok "admin") n x) →
  wp (require_legacy_admin auth claimed) Q n x.
Proof.
  intros Herr Hok. unfold require_legacy_admin. wp_step. apply wp_admin; [intros e Hn He; by apply Herr|].
  intros Hid. wp_step. apply wp_raise_if; intros _; [by apply Herr|]. wp_step. by apply Hok.
Qed.

(** The store without what has expired. *)
Definition pruned (n : nat) (x : App O) : App O := set_ap_capabilities (store_pruned (clock n) (ap_capabilities x)) x.

Lemma wp_capability auth (Q : res Capability → nat → App O → Prop) n x :
  (∀ n' x', (∀ cap, ¬ live auth n x cap) → (n <= n')%nat → x' = x ∨ x' = pruned n x → Q (Err CapabilityDeniedError) n' x') →
  (∀ cap, live auth n x cap → Q (Ok cap) (S n) (pruned n x)) →
  wp (require_capability auth) Q n x.
Proof.
  intros Herr Hok. unfold require_capability. wp_step. wp_step.
  assert (H : ∀ e, bearer_token auth = Err e → e = CapabilityDeniedError).
  { unfold bearer_token. destruct (partition_on " " auth) as [[s ?] t]. by destruct (_ || _); [intros e [= <-]|]. }
  destruct (bearer_token auth) as [token|e] eqn:Htok.
  - wp_step. apply wp_zoom. unfold get_capability. wp_steps.
    + apply Hok. apply unexpired_lookup in Heqo as [Hc Ht]. exists token. by split_and!.
    + apply Herr; [|lia|by right]. intros cap (t & Ht & Hcap & Hd). rewrite Htok in Ht. injection Ht as <-.
      eapply eq_None_not_Some; [exact Heqo|]. exists cap. by apply unexpired_lookup.
  - rewrite (H e eq_refl) in *. apply Herr; [|lia|by left]. intros cap (t & Ht & _). by rewrite Htok in Ht.
Qed.
(** ** Refusals *)

Ltac unfold_routes :=
  unfold fmap, M_fmap, route_reserve, route_commit, route_resolve, route_update_annotations, route_expire, route_delete,
    route_detach_alias, route_detach_mutable_alias, route_rebind_alias, route_set_eviction_policy,
    route_set_partition_quota, route_get_partition_quota, route_set_bucket_quota, route_get_bucket_quota,
    route_list_audit, route_admin_listing, route_admin_inspect, route_admin_audit, route_admin_mutate, route_admin_quota,
    route_admin_preview, route_admin_bulk, route_mint_capability, route_write_object, route_read_object, legacy, operator.

(** A credential the route does not accept is refused before anything is done. *)
Lemma wp_refused auth route n x :
  (demand route = AnyService → (∀ caller, ¬ identified auth x caller) →
     wp (dispatch auth route) (λ res _ x', res = Err ServiceAuthError ∧ x' = x) n x) ∧
  (demand route = AdminOnly → ¬ identified auth x "admin" →
     wp (dispatch auth route) (λ res _ x', (res = Err ServiceAuthError ∨ res = Err CapabilityDeniedError) ∧ x' = x) n x) ∧
  (demand route = LiveCapability → (∀ cap, ¬ live auth n x cap) →
     wp (dispatch auth route) (λ res _ x', res = Err CapabilityDeniedError ∧ (x' = x ∨ x' = pruned n x)) n x).
Proof.
  split_and!; intros Hd Hno; destruct route; try discriminate Hd; cbn [dispatch]; unfold_routes; cbv zeta; wp_step; wp_step.
  all: first
    [ apply wp_service; [by intros _|by intros caller Hid; destruct (Hno caller)]
    | apply wp_legacy_admin; [intros e He; split; [destruct (He Hno) as [-> | ->]; auto|done]|done]
    | apply wp_admin; [intros e _ [-> | ->]; auto|done]
    | apply wp_capability; [by intros n' x' _ _ [-> | ->]; auto|by intros cap Hl; destruct (Hno cap)] ].
Qed.

Lemma wp_serve {P : Answer → nat → App O → Prop} rq n x answer n' x' :
  wp (dispatch (rq_authorization rq) (rq_route rq))
     (λ r n' x', P (match r with
                    | Ok body => mk_answer (success_status (rq_route rq)) body
                    | Err e => mk_answer (problem_status (error_response e)) (BProblem (error_response e))
                    end) n' x') n x →
  serve rq n x = (answer, n', x') → P answer n' x'.
Proof.
  unfold serve, wp. destruct (dispatch _ _ n x) as [[r n1] x1]. by intros H [= <- <- <-].
Qed.
(** ** Footprints *)

(** The record after one more read. *)
Definition read_once (t : Z) (a : Asset) : Asset := a <| a_last_read_at := Some t |> <| a_read_count := a_read_count a + 1 |>.

(** What a read through the guard changes, if anything. *)
Definition read_footprint (capability : Capability) (alias : string) (n : nat) (g g' : Guard Registry O) : Prop :=
  r_assets (g_registry g') = r_assets (g_registry g) ∨
  authorized capability READ alias n g = true ∧ ∃ i a t, names_asset alias (g_registry g) i ∧
    r_assets (g_registry g) !! i = Some a ∧ r_assets (g_registry g') = <[i := read_once t a]> (r_assets (g_registry g)).

Lemma wp_record_read_footprint i (Q : res unit → nat → Registry → Prop) n r :
  (∀ res n', Q res n' r) →
  (∀ a t n' r', r_assets r !! i = Some a → r_assets r' = <[i := read_once t a]> (r_assets r) → Q (Ok tt) n' r') →
  wp (record_read i) Q n r.
Proof. intros Hsame Hput. unfold record_read. reg_steps; try apply Hsame. by eapply Hput. Qed.

Lemma wp_read_bytes_footprint capability alias n g :
  guard_wf n g → wp (read_bytes capability alias) (λ _ _ g', read_footprint capability alias n g g') n g.
Proof.
  intros Hwf. unfold read_bytes. wp_step. apply wp_resolve_for_read; [done|intros; by left|].
  intros a i Hauth Hi _ _ Hname. wp_step. apply wp_zoom. eapply wp_mono; [apply law_get|].
  intros res n1 o1 _. destruct res as [data|e]; [|by left]. wp_step. apply wp_zoom.
  cbn [ar_record_read memory_registry]. pose proof (aw_id _ _ (get_wf _ _ _ _ (gw_registry _ _ Hwf) Hi)) as Hid. cbn [gr_asset]. rewrite Hid.
  apply wp_record_read_footprint; unfold on_ledger.
  - intros [[]|e] n2; [|by left]. wp_step. apply wp_zoom. unfold wp.
    destruct (record_successful_use _ _ _) as [[[[]|e] n3] l3]; by left.
  - intros b t n2 r2 Hb Hr2. wp_step. apply wp_zoom. unfold wp.
    destruct (record_successful_use _ _ _) as [[[[]|e] n3] l3]; right; (split; [done|]); by exists i, b, t.
Qed.

Lemma wp_presign_footprint capability alias ttl n g :
  guard_wf n g → wp (presign_read capability alias ttl) (λ _ _ g', read_footprint capability alias n g g') n g.
Proof.
  intros Hwf. unfold presign_read. cbv zeta. wp_step. apply wp_raise_if; intros _; [by left|].
  wp_step. apply wp_raise_if; intros _; [by left|]. wp_step. apply wp_resolve_for_read; [done|intros; by left|].
  intros a i Hauth Hi _ _ Hname. wp_step. wp_step. wp_step. apply wp_raise_if; intros _; [by left|]. wp_step.
  apply (wp_mono _ (λ _ _ g', g_registry g' = g_registry g)); [cbn; destruct (a_expires_at a); wp_steps; done|].
  intros [ttl'|e] n1 g1 Hg1; [|left; by rewrite Hg1]. wp_step. apply wp_zoom. eapply wp_mono; [apply law_presign|].
  intros [url|e] n2 o2 _; [|left; cbn; by rewrite Hg1]. wp_step. apply wp_zoom.
  cbn [ar_record_read memory_registry]. pose proof (aw_id _ _ (get_wf _ _ _ _ (gw_registry _ _ Hwf) Hi)) as Hid.
  cbn [gr_asset]. rewrite Hid. apply wp_record_read_footprint; cbn [g_registry set_store]; rewrite Hg1.
  - intros [[]|e] n3; wp_steps; left; cbn; by rewrite ?Hg1.
  - intros b t n3 r3 Hb Hr3. wp_steps. right. split; [done|]. by exists i, b, t.
Qed.

Lemma wp_observe_fill space (Q : res unit → nat → App O → Prop) n x :
  (∀ res n' x', ap_guard x' = ap_guard x → ap_uploads x' = ap_uploads x → Q res n' x') →
  wp (observe_bucket_fill space) Q n x.
Proof.
  intros HQ. unfold observe_bucket_fill. wp_step. apply wp_zoom, wp_reads. rewrite set_ap_registry_id.
  repeat reg_step; by apply HQ.
Qed.
(** ** At whose hand *)

(** An asset that is [a'] after the request, and was not so before. *)
Definition entitled (auth : string) (route : Route) (n : nat) (x : App O) (i : string) (a' : Asset) : Prop :=
  let before := r_assets (ap_registry x) !! i in
  match route with
  | PostAssets body => before = None ∧ identified auth x (a_owner_service_id a') ∧ a_state a' = PENDING ∧
      normalize_space (rr_space body) = Ok (a_space a') ∧
      normalize_partition_id (rr_partition_id body) = Ok (a_partition_id a') ∧
      assert_service_bucket_allowed (a_owner_service_id a') (rr_space body) WRITE = Ok tt
  | PostCommit j _ => j = i ∧ ∃ a caller, before = Some a ∧ a_state a = PENDING ∧
      identified auth x caller ∧ may_commit caller a
  | PutObject u => before = None ∧ ∃ cap, live auth n x cap ∧
      authorized cap WRITE (ul_alias u) (S n) (ap_guard x) = true ∧ a_owner_service_id a' = cap_caller_service_id cap ∧
      bound_to (ul_alias u) a'
  | GetObject alias _ _ => ∃ cap a t, live auth n x cap ∧ authorized cap READ alias (S n) (ap_guard x) = true ∧
      names_asset alias (ap_registry x) i ∧ before = Some a ∧ a' = read_once t a
  | route => demand route = AdminOnly ∧ identified auth x "admin"
  end.

Definition rightful (auth : string) (route : Route) (n : nat) (x x' : App O) : Prop := ∀ i a',
  r_assets (ap_registry x') !! i = Some a' → r_assets (ap_registry x) !! i ≠ Some a' → entitled auth route n x i a'.

Lemma rightful_same auth route n x x' : r_assets (ap_registry x') = r_assets (ap_registry x) → rightful auth route n x x'.
Proof. intros Ha i a'. by rewrite Ha. Qed.

Lemma admin_rightful auth route n x : demand route = AdminOnly →
  wp (dispatch auth route) (λ _ _ x', rightful auth route n x x') n x.
Proof.
  intros Hd. destruct (decide (identified auth x "admin")) as [Hid|Hid].
  - unfold wp. destruct (dispatch auth route n x) as [[r n'] x']. intros i a' _ _.
    destruct route; try discriminate Hd; by split.
  - destruct (wp_refused auth route n x) as (_ & H & _). eapply wp_mono; [by apply H|].
    intros r n' x' [_ ->]. by apply rightful_same.
Qed.

Lemma reserve_rightful active auth body n x : app_wf active n x →
  wp (route_reserve auth body) (λ _ _ x', rightful auth (PostAssets body) n x x') n x.
Proof.
  intros [[Hwf _] _ _ _]. unfold route_reserve. wp_step. apply wp_service; [intros _; by apply rightful_same|].
  intros caller Hid. unfold validated. wp_step. apply wp_raise_if; intros _; [by apply rightful_same|].
  wp_step. apply wp_raise_if; intros Ho; [by apply rightful_same|]. apply bool_decide_eq_false, dec_stable in Ho.
  wp_step. wp_step. destruct (assert_service_bucket_allowed caller (rr_space body) WRITE) as [[]|e] eqn:Hb; [|by apply rightful_same].
  wp_step. apply wp_zoom, wp_reserve_asset; [exact Hwf| |].
  - intros e n' r' _ (t & -> & _). by apply rightful_same.
  - intros a n' r' _ _ []. wp_step. intros i a'. cbn. rewrite rs_assets, lookup_insert. case_decide as Heq; [|congruence].
    intros [= <-] _. subst i. rewrite rs_owner, Ho. split_and!; try done.
Qed.

Lemma commit_rightful active auth i body n x : app_wf active n x →
  wp (route_commit auth i body) (λ _ _ x', rightful auth (PostCommit i body) n x x') n x.
Proof.
  intros Hwf. unfold route_commit. wp_step. apply wp_service; [intros _; by apply rightful_same|].
  intros caller Hid. unfold validated. wp_step. apply wp_raise_if; intros _; [by apply rightful_same|].
  wp_step. apply wp_raise_if; intros _; [by apply rightful_same|]. wp_step.
  apply wp_locked; [intros _; by apply rightful_same|]. intros a Hi. eapply wp_commit_locked; [exact Hwf|exact Hi| |].
  - intros e n' x' _ _ _ Ha. by apply rightful_same.
  - intros n' x' data m now _ _ _ Hmay Hs _ a' Ha. wp_step. apply wp_observe_fill. intros res n2 x2 Hx2 _.
    assert (Hr : rightful auth (PostCommit i body) n x x2).
    { intros j b. unfold ap_registry at 1. rewrite Hx2. change (g_registry (ap_guard x')) with (ap_registry x'). rewrite Ha, lookup_insert. case_decide as Heq; [|congruence]. intros [= <-] _. subst j.
      split; [done|]. by exists a, caller. }
    destruct res as [[]|e]; [by apply wp_ret|done].
Qed.

Lemma read_rightful active auth alias mode expires_in n x : app_wf active n x →
  wp (route_read_object auth alias mode expires_in) (λ _ _ x', rightful auth (GetObject alias mode expires_in) n x x') n x.
Proof.
  intros Hwf. unfold route_read_object. cbv zeta. wp_step. apply wp_capability.
  { intros n' x' _ _ [-> | ->]; by apply rightful_same. }
  intros cap Hlive. assert (Hg : guard_wf (S n) (ap_guard (pruned n x))) by (eapply (guard_wf_mono n); [lia|apply Hwf]).
  assert (Hfoot : ∀ g', read_footprint cap alias (S n) (ap_guard x) g' →
    rightful auth (GetObject alias mode expires_in) n x (set_ap_guard g' (pruned n x))).
  { intros g' [Ha|(Hauth & j & a & t & Hname & Hj & Ha)]; [by apply rightful_same|]. intros i a'. cbn.
    unfold ap_registry. cbn. rewrite Ha, lookup_insert. case_decide as Heq; [|congruence]. intros [= <-] _. subst j.
    by exists cap, a, t. }
  unfold validated. wp_step. apply wp_raise_if; intros _; [by apply rightful_same|].
  destruct (decide (mode = "presign")).
  - wp_step. apply wp_zoom. eapply wp_mono; [by apply wp_presign_footprint|]. intros [p|err] n' g' Hf; [apply wp_ret|]; by apply Hfoot.
  - wp_step. apply wp_raise_if; intros _; [by apply rightful_same|]. wp_step. apply wp_zoom.
    eapply wp_mono; [by apply wp_read_bytes_footprint|]. intros [p|err] n' g' Hf; [apply wp_ret|]; by apply Hfoot.
Qed.
(** ** Uploads *)

(** A stream is read to its end only within the bound, and then whole. *)
Lemma read_stream_Ok max chunks data data' :
  read_stream max chunks data = Ok data' → Z.of_nat (length data) <= max →
  ∃ parts, chunks = Ok <$> parts ∧ data' = data ++ concat parts ∧ Z.of_nat (length data') <= max.
Proof.
  revert data. induction chunks as [|[chunk|e] chunks IH]; intros data; cbn; [| |done].
  - intros [= <-] Hd. exists []. by rewrite app_nil_r.
  - destruct (max <? _) eqn:Hm; [done|]. intros Hr _. destruct (IH _ Hr) as (parts & -> & -> & Hl); [rewrite length_app; lia|].
    exists (chunk :: parts). cbn. by rewrite app_assoc.
Qed.

(** What a [PUT] ends in: the gate is as before, but for its counters; and the guard
    is as [write_object] left it, run on a body within the bound, or untouched but
    for expired entries of its ledger. *)
Definition uploaded (auth : string) (u : Upload) (n : nat) (x : App O) (res : res AssetOut) (x' : App O) : Prop :=
  wa_active (ap_uploads x') = wa_active (ap_uploads x) ∧
  ((∃ e l, res = Err e ∧ ap_guard x' = set_ledger l (ap_guard x)) ∨
   ∃ cap data m l r n1 n2, live auth n x cap ∧ authorized cap WRITE (ul_alias u) (S n) (ap_guard x) = true ∧
     read_stream (ap_max_upload_bytes x) (ul_stream u) [] = Ok data ∧
     wa_active (ap_uploads x) < wa_limit (ap_uploads x) ∧ (n <= n1)%nat ∧
     write_object cap (ul_alias u) data (ul_mutable u) m (ul_expected_checksum u) (ul_ttl_seconds u) n1 (set_ledger l (ap_guard x))
       = (r, n2, ap_guard x') ∧
     ∀ out, res = Ok out → ∃ a, r = Ok a ∧ out = from_asset a).

Lemma untouched_upload auth u n x e x' l :
  wa_active (ap_uploads x') = wa_active (ap_uploads x) → ap_guard x' = set_ledger l (ap_guard x) →
  uploaded auth u n x (Err e) x'.
Proof. intros Ha Hg. split; [done|]. left. by exists e, l. Qed.

Lemma wp_lease {A} (body : M (App O) A) (Q : res A → nat → App O → Prop) n x :
  (∀ w, wa_active w = wa_active (ap_uploads x) → Q (Err WorkCapacityError) n (set_ap_uploads w x)) →
  (wa_active (ap_uploads x) < wa_limit (ap_uploads x) → ∀ w, let x1 := set_ap_uploads w x in
     wa_active w = wa_active (ap_uploads x) + 1 →
     wp body (λ res n' x', ∀ w', wa_active w' = wa_active (ap_uploads x') - 1 → Q res n' (set_ap_uploads w' x')) n x1) →
  wp (lease ap_uploads set_ap_uploads body) Q n x.
Proof.
  intros Hfull Hroom. unfold lease. wp_step. apply wp_zoom. unfold wp at 1. rewrite acquire_run.
  destruct (wa_active (ap_uploads x) <? wa_limit (ap_uploads x)) eqn:Hlt; cbn [negb].
  - apply wp_finally. wp_step. apply wp_zoom. unfold count_attempt. wp_step.
    match goal with |- wp _ _ _ ?y => change y with (set_ap_uploads (ap_uploads y) x) end.
    eapply wp_mono; [apply Hroom; [lia|done]|]. intros res n' x' HQ. apply wp_zoom. unfold release. apply wp_modify. by apply HQ.
  - wp_step. apply wp_zoom. unfold count_attempt. wp_steps. by apply Hfull.
Qed.

Lemma wp_upload auth u n x :
  wp (route_write_object auth u) (λ res _ x', uploaded auth u n x res x') n x.
Proof.
  unfold route_write_object. wp_step. apply wp_capability.
  { intros n' x' _ _ [-> | ->]; (eapply (untouched_upload _ _ _ _ _ _ (g_ledger (ap_guard x))); [done|by destruct x as [[]]]). }
  intros cap Hlive. assert (Hg : ap_guard (pruned n x) = set_ledger (g_ledger (ap_guard x)) (ap_guard x)) by by destruct x as [[]].
  unfold validated. wp_step. apply wp_raise_if; intros _; [by eapply untouched_upload|].
  wp_step. apply wp_zoom. unfold authorize_write. wp_step. wp_step.
  destruct (_parse_alias (ul_alias u)) as [parsed|e] eqn:Hp; [|by eapply untouched_upload].
  eapply wp_authorize; [exact Hp|intros e n' l _; by eapply untouched_upload|]. intros Hauth. wp_step. wp_step. wp_step. wp_step.
  set (x1 := set_ap_guard _ _). destruct (declared_within _ _) as [[]|e]; [|by eapply untouched_upload].
  wp_step. apply wp_lease; [intros; by eapply untouched_upload|]. intros Hroom w x2 Hw. cbn in Hroom, Hw.
  unfold upload_leased. wp_step. wp_step. wp_step. wp_step. cbn [ap_max_upload_bytes x2 x1 set_ap_uploads set_ap_guard pruned].
  destruct (read_stream _ _ _) as [data|e] eqn:Hdata; [|intros w' Hw'; eapply untouched_upload; [cbn in *; lia|done]].
  wp_step. apply wp_zoom. unfold wp at 1. destruct (write_object _ _ _ _ _ _ _ _ _) as [[r n2] g2] eqn:Hrun.
  assert (Hdone : ∀ res' : res AssetOut, ∀ x', ap_guard x' = g2 → wa_active (ap_uploads x') = wa_active (ap_uploads x) →
    (∀ out, res' = Ok out → ∃ a, r = Ok a ∧ out = from_asset a) → uploaded auth u n x res' x').
  { intros res' x' Hg2 Ha Hout. split; [done|]. right. exists cap, data, (ul_content_type u), (g_ledger (ap_guard x2)), r, (S (S (S n))), n2. split_and!; try done.
    - lia.
    - rewrite Hg2. exact Hrun. }
  destruct r as [a|e]; [|intros w' Hw'; apply Hdone; [done|cbn in *; lia|done]].
  wp_step. apply wp_observe_fill. intros [[]|e] n3 x3 Hg3 Hu3; [wp_step|]; intros w' Hw'; [wp_step|];
    (apply Hdone; [done|cbn; rewrite Hw', Hu3; cbn; lia|]); [|done]. intros out [= <-]. by exists a.
Qed.
(** ** Every route *)

Lemma upload_rightful active auth u n x : app_wf active n x →
  wp (route_write_object auth u) (λ _ _ x', rightful auth (PutObject u) n x x') n x.
Proof.
  intros Hwf. eapply wp_mono; [apply wp_upload|]. intros res n' x' [_ [(e & l & _ & Hg)|H]].
  { apply rightful_same. unfold ap_registry. by rewrite Hg. }
  destruct H as (cap & data & m & l & r & n1 & n2 & Hlive & Hauth & _ & _ & Hn1 & Hrun & _).
  assert (Hg1 : guard_wf n1 (set_ledger l (ap_guard x))).
  { apply guard_wf_set_ledger. eapply guard_wf_mono; [exact Hn1|]. apply Hwf. }
  destruct (wp_inv _ _ _ _ _ _ _ (wp_write_object _ _ _ _ _ _ _ _ _ Hg1) Hrun) as [_ Hkept _ _ Howner _].
  intros i a' Hi Hne. cbn in Hkept, Howner. unfold entitled, ap_registry in *.
  destruct (r_assets (g_registry (ap_guard x)) !! i) as [a|] eqn:Ha; [pose proof (Hkept _ _ Ha); congruence|].
  split; [done|]. exists cap. split_and!; try done; by eapply Howner.
Qed.

Lemma mint_rightful auth now body n x :
  wp (route_mint_capability auth now body) (λ _ _ x', rightful auth (PostCapabilities now body) n x x') n x.
Proof.
  eapply wp_mono; [apply wp_mint|]. intros res n' x' (_ & events & [Hr _ _ _ _ _] & _). apply rightful_same. by rewrite Hr.
Qed.

(** Reading the registry through a route. *)
Lemma resolve_rightful auth space alias n x :
  wp (route_resolve auth space alias) (λ _ _ x', rightful auth (GetResolve space alias) n x x') n x.
Proof.
  unfold route_resolve. wp_step. apply wp_service; [intros _; by apply rightful_same|]. intros caller _. wp_step. wp_step.
  destruct (assert_service_bucket_allowed _ _ _) as [[]|e]; [|by apply rightful_same]. wp_step. apply wp_zoom.
  unfold resolve_alias, _get_binding, raise_about. repeat reg_step; by apply rightful_same.
Qed.

Lemma metrics_rightful auth n x : wp (route_metrics (O:=O)) (λ _ _ x', rightful auth GetMetrics n x x') n x.
Proof.
  set (R := λ x x' : App O, ap_registry x' = ap_registry x).
  assert (Hf : PreOrder R ∧ ∀ (n n' : nat) (x : App O), (n <= n')%nat → True → True).
  { split; [|done]. split; [by intros y|]. intros y1 y2 y3. unfold R. congruence. }
  assert (H : preserves (λ _ _, True) R (route_metrics (O:=O))).
  { unfold route_metrics. apply preserves_bind; [exact Hf| |intros live'; apply preserves_bind; [exact Hf| |]].
    - intros k y _. apply wp_zoom. unfold capability_count. wp_steps. split_and!; [lia|done|done].
    - induction STORAGE_BUCKETS as [|space buckets IH]; cbn [mapM]; [by apply preserves_ret|].
      apply preserves_bind; [exact Hf| |intros z; apply preserves_bind; [exact Hf|done|intros zs; by apply preserves_ret]].
      intros k y _. apply wp_zoom, wp_reads. by rewrite set_ap_registry_id.
    - intros zs. by apply preserves_ret. }
  eapply wp_mono; [by apply H|]. intros res n' x' (_ & _ & Hx). apply rightful_same. by rewrite Hx.
Qed.

Lemma dispatch_rightful active auth route n x : app_wf active n x →
  wp (dispatch auth route) (λ _ _ x', rightful auth route n x x') n x.
Proof.
  intros Hwf. destruct (demand route) eqn:Hd; [..|by apply admin_rightful|].
  all: destruct route; try discriminate Hd; cbn [dispatch]; unfold fmap, M_fmap.
  all: try (apply wp_bind; eapply wp_mono; [first [by apply metrics_rightful|by eapply reserve_rightful|by eapply commit_rightful
    |by apply resolve_rightful|by apply mint_rightful|by eapply upload_rightful|by eapply read_rightful]|]).
  all: try (intros res n' x' Hr; destruct res; [try case_match; by apply wp_ret|done]).
  all: apply wp_ret; by apply rightful_same.
Qed.
End Authority.
