(* ===== verification/ApiProps.v ===== *)
(** * What the HTTP API guarantees

    Over every sequence of requests the process keeps its invariant; a request
    without the credential its route demands changes nothing; an asset changes, or
    comes to be, only at the hand of someone entitled to it; a minted capability is
    its caller's own and within the policy; an upload never exceeds its bound. *)

From S2P Require Import Prelude Errors Python Effects Paths Models Retention Sha256 Registry RegistryInv RegistrySound RegistryNames RegistryPayload Scenario Codec AdminQuery Admin Capabilities ObjectStore Guard GuardProps GuardFlow ServiceIdentity Admission IssuanceRate Schemas App Api ApiInv ApiMint ApiAuthority.
From Stdlib Require Import SpecFloat.

Section ApiProps.
#[local] Set Default Proof Using "Type*".
Context {E : Env} `{!FreshIds E} `{!UuidFormat E} {D : DumpFilters}.
Context {O : Type} `{!ObjectStoreBackend O} `{!ObjectStoreLaws O}.
Implicit Types x : App O.

(** ** Every route keeps the invariant *)

Lemma service_identity_known credentials auth caller :
  service_identity credentials auth = Ok caller → caller ∈ service_ids credentials.
Proof.
  unfold service_identity. destruct (partition_on " " auth) as [[scheme ?] token].
  destruct (_ || _); [done|]. destruct (partition_on ":" (strip token)) as [[id sep] secret].
  destruct sep; [|done]. cbn. rewrite authenticate_run. case_decide as Hs; [|done]. intros [= <-].
  by eapply elem_of_dom_2.
Qed.

Lemma minted_wf active auth instant body n x res n' x' :
  app_wf active n x → (n <= n')%nat → minted auth instant body n x res n' x' → app_wf active n' x' ∧ app_step x x'.
Proof.
  intros [[Hreg Hst] Hroom Hgrants Hact] Hn (events & [] & Hres). split.
  - split.
    + split; rewrite ?mf_store; change (g_registry (ap_guard x')) with (ap_registry x'); rewrite mf_registry.
      * by apply registry_wf_audit, (registry_wf_mono n).
      * exact Hst.
    + rewrite mf_max_grants. destruct res as [out|e].
      * destruct Hres as (cap & ev & [_ _ _ _ _ (now & -> & _ & Hsize)] & _). cbn zeta in Hsize. rewrite map_size_insert. case_match; unfold id; lia.
      * destruct Hres as [Hsub _]. etrans; [|exact Hroom]. by apply Nat2Z.inj_le, map_subseteq_size.
    + rewrite mf_credentials. destruct res as [out|e].
      * destruct Hres as (cap & ev & [Hid Httl (k & Hk1 & Hk2 & Hcap) _ Hb (now & -> & _ & _)] & _).
        intros id c. rewrite lookup_insert. case_decide as Heq.
        -- intros [= <-]. split; [done|by eapply service_identity_known|exact Hb|]. exists (S k). split; [done|].
           rewrite Hcap. cbn. unfold usec_per_sec. lia.
        -- intros [Hc _]%unexpired_lookup. eapply grant_wf_mono; [exact Hn|]. by apply Hgrants.
      * destruct Hres as [Hsub _]. intros id c Hc. eapply grant_wf_mono; [exact Hn|]. apply Hgrants. by eapply lookup_weaken.
    + by rewrite mf_uploads.
  - split; rewrite ?mf_uploads; try done. by eapply evolves_same; rewrite mf_registry.
Qed.

Lemma mint_app active auth now body : preserves (app_wf active) app_step (route_mint_capability (O:=O) auth now body).
Proof.
  intros n x Hwf. eapply wp_mono; [apply wp_mint|]. intros res n' x' [Hn Hm]. split; [done|]. by eapply minted_wf.
Qed.
Ltac app :=
  repeat first
    [ progress solve_preserves ltac:(exact (app_frame _))
    | apply app_registry; solve [auto with preserves | apply tame_reads]
    | apply app_guard; solve [auto with preserves]
    | apply app_console; solve [auto with preserves]
    | apply get_capability_app
    | apply capability_count_app ].

Lemma observe_app active space : preserves (app_wf active) app_step (observe_bucket_fill (O:=O) space).
Proof.
  unfold observe_bucket_fill. app. apply preserves_modify; [exact (app_frame active)|].
  intros n x []. split; by split.
Qed.

Lemma service_app active auth : preserves (app_wf active) app_step (require_service_identity (O:=O) auth).
Proof. unfold require_service_identity. app. Qed.

Lemma admin_app active auth : preserves (app_wf active) app_step (require_admin (O:=O) auth).
Proof. unfold require_admin. pose proof service_app. app. Qed.

Lemma legacy_admin_app active auth claimed : preserves (app_wf active) app_step (require_legacy_admin (O:=O) auth claimed).
Proof. unfold require_legacy_admin. pose proof admin_app. app. Qed.

Lemma capability_app active auth : preserves (app_wf active) app_step (require_capability (O:=O) auth).
Proof. unfold require_capability. app. Qed.

Lemma validated_app active ok : preserves (app_wf active) app_step (validated (O:=O) ok).
Proof. unfold validated. app. Qed.
#[local] Hint Resolve observe_app service_app admin_app legacy_admin_app capability_app validated_app commit_app mint_app : preserves.

Lemma legacy_app active {A B} auth claimed ok (m : M Registry A) (f : A → B) :
  tame m → preserves (app_wf active) app_step (legacy (O:=O) auth claimed ok m f).
Proof. intros Hm. unfold legacy. app. Qed.

Lemma operator_app active {A} auth ok (m : M (App O) A) :
  preserves (app_wf active) app_step m → preserves (app_wf active) app_step (operator auth ok m).
Proof. intros Hm. unfold operator. app. Qed.

Lemma write_route_app active auth u : preserves (app_wf active) app_step (route_write_object (O:=O) auth u).
Proof.
  unfold route_write_object. app. apply lease_app. unfold upload_leased. app.
Qed.

Lemma read_route_app active auth alias mode expires_in :
  preserves (app_wf active) app_step (route_read_object (O:=O) auth alias mode expires_in).
Proof. unfold route_read_object. cbv zeta. app. Qed.

Lemma metrics_app active : preserves (app_wf active) app_step (route_metrics (O:=O)).
Proof.
  unfold route_metrics. app. induction STORAGE_BUCKETS as [|space l IH]; cbn [mapM]; app.
Qed.
#[local] Hint Resolve write_route_app read_route_app metrics_app : preserves.

Lemma dispatch_app active auth route : preserves (app_wf active) app_step (dispatch (O:=O) auth route).
Proof.
  destruct route; cbn [dispatch]; unfold fmap, M_fmap.
  all: unfold route_reserve, route_commit, route_resolve, route_update_annotations, route_expire, route_delete,
    route_detach_alias, route_detach_mutable_alias, route_rebind_alias, route_set_eviction_policy,
    route_set_partition_quota, route_get_partition_quota, route_set_bucket_quota, route_get_bucket_quota,
    route_list_audit, route_admin_listing, route_admin_inspect, route_admin_audit, route_admin_mutate, route_admin_quota,
    route_admin_preview, route_admin_bulk.
  all: repeat first
    [ progress app
    | apply commit_app
    | apply legacy_app; auto with preserves; apply tame_reads
    | apply operator_app ].
  all: apply app_console; auto using mutate_console, quota_console, bulk_console.
Qed.

(** ** Sequences of requests *)

(** The process after a list of requests, and their answers. *)
Fixpoint serve_all (rqs : list Request) (n : nat) (x : App O) : list Answer * nat * App O :=
  match rqs with
  | [] => ([], n, x)
  | rq :: rqs' =>
      let '(answer, n1, x1) := serve rq n x in
      let '(answers, n2, x2) := serve_all rqs' n1 x1 in (answer :: answers, n2, x2)
  end.

Lemma serve_keeps active rq n x answer n' x' :
  app_wf active n x → serve rq n x = (answer, n', x') → app_wf active n' x' ∧ app_step x x'.
Proof.
  intros Hwf. pose proof (dispatch_app active (rq_authorization rq) (rq_route rq) n x Hwf) as H. revert H.
  unfold serve, wp. destruct (dispatch _ _ n x) as [[res n1] x1]. intros (_ & Hwf1 & Hstep) [= _ <- <-]. done.
Qed.

Lemma serve_all_keeps active rqs n x answers n' x' :
  app_wf active n x → serve_all rqs n x = (answers, n', x') → app_wf active n' x' ∧ app_step x x'.
Proof.
  revert n x answers n' x'. induction rqs as [|rq rqs IH]; intros n x answers n' x' Hwf; cbn.
  - intros [= _ <- <-]. split; [done|reflexivity].
  - destruct (serve rq n x) as [[answer n1] x1] eqn:H1. destruct (serve_all rqs n1 x1) as [[rest n2] x2] eqn:H2.
    intros [= _ <- <-]. destruct (serve_keeps _ _ _ _ _ _ _ Hwf H1) as [Hwf1 Hs1].
    destruct (IH _ _ _ _ _ Hwf1 H2) as [Hwf2 Hs2]. split; [done|by etrans].
Qed.

(** What start-up builds. *)
Lemma positive_Ok {A} (z : Z) e (a b : A) : (if z <=? 0 then Err e else mret a) = Ok b → 0 < z ∧ b = a.
Proof. destruct (z <=? 0) eqn:Hz; [done|]. intros [= ->]. split; [lia|done]. Qed.

Lemma create_app_inv env store credentials now x n :
  create_app env None store credentials now = Ok x →
  app_wf 0 n x ∧ 0 < wa_limit (ap_uploads x) ∧ 0 < ap_max_upload_bytes x ∧ 0 < cs_max (ap_capabilities x).
Proof.
  unfold create_app, new_capability_store, new_admission. intros H.
  repeat match goal with
  | H : _ ≫= _ = Ok _ |- _ => apply res_bind_Ok in H as (? & ? & H)
  | H : (if _ <=? 0 then _ else _) = Ok _ |- _ => apply positive_Ok in H as [? ->]
  end.
  injection H as <-. cbn. split_and!; try done. split; cbn; try done.
  - split; cbn; [by eapply new_registry_wf|]. intros i a.
    match goal with H : new_registry None = Ok _ |- _ => injection H as <- end. cbn. by rewrite lookup_empty.
  - rewrite map_size_empty. lia.
Qed.

(** * Properties *)

(** C6.  Whatever requests a fresh process serves, in whatever order and however
    they end, its invariant holds after them: the registry is consistent, every
    committed asset that is not deleted has its bytes in the store with the size
    and checksum on record, the bearer store is within its bound and holds only
    grants of configured services over buckets they may use and of at most a day,
    and no upload slot is leaked.  Assets only follow the lifecycle, the audit log
    only grows, and credentials and limits are those of start-up. *)
Theorem api_invariant (env : gmap string string) (store : O) (credentials : option ServiceCredentialStore)
    (now : spec_float) (x0 : App O) (rqs : list Request) (n : nat) (answers : list Answer) (n' : nat) (x : App O) :
  create_app env None store credentials now = Ok x0 → serve_all rqs n x0 = (answers, n', x) →
  app_wf 0 n' x ∧ app_step x0 x ∧ length answers = length rqs.
Proof.
  intros Hnew Hrun. destruct (create_app_inv _ _ _ _ _ n Hnew) as [Hwf _].
  split_and!; [by eapply serve_all_keeps..|]. clear Hnew Hwf. revert n x0 answers n' x Hrun.
  induction rqs as [|rq rqs IH]; intros n x0 answers n' x; cbn; [by intros [= <- _ _]|].
  destruct (serve rq n x0) as [[answer n1] x1]. destruct (serve_all rqs n1 x1) as [[rest n2] x2] eqn:H.
  intros [= <- _ _]. cbn. f_equal. by eapply IH.
Qed.
(** C10.  Without the credential a route demands nothing is done: a service route
    answers 401, an operator route 401 or 403, an object route 403, and the process
    is as before but for expired capabilities it may have dropped. *)
Theorem refused_inert (auth : string) (route : Route) (n : nat) (x : App O) (answer : Answer) (n' : nat) (x' : App O) :
  serve (mk_request auth route) n x = (answer, n', x') →
  (demand route = AnyService → (∀ caller, ¬ identified auth x caller) → an_status answer = 401 ∧ x' = x) ∧
  (demand route = AdminOnly → ¬ identified auth x "admin" →
     (an_status answer = 401 ∨ an_status answer = 403) ∧ x' = x) ∧
  (demand route = LiveCapability → (∀ cap, ¬ live auth n x cap) →
     an_status answer = 403 ∧ (x' = x ∨ x' = pruned n x)).
Proof.
  intros Hrun. destruct (wp_refused auth route n x) as (H1 & H2 & H3).
  split_and!; intros Hd Hno; pattern answer, n', x'; (eapply wp_serve; [|exact Hrun]); cbn.
  - eapply wp_mono; [by apply H1|]. by intros res n1 x1 [-> ->].
  - eapply wp_mono; [by apply H2|]. intros res n1 x1 [[-> | ->] ->]; auto.
  - eapply wp_mono; [by apply H3|]. by intros res n1 x1 [-> ?].
Qed.

(** C7.  Assets change only at the hand of someone entitled to it.  Whatever a request
    ends in: an asset that is not as it was was changed by the operator, or was a
    pending asset committed by its owner (or the operator) where the policy lets
    that service write, or was read once more under a live capability that covers
    it; an asset that is new was reserved by its owner, in a bucket the policy lets
    that service write, or uploaded under a live capability that covers the name
    asked for: then the capability's holder owns it, it lies in the bucket and the
    partition of that name, and its one name is the one the registry makes of it.
    (That name is not always covered by the capability: a name that repeats its
    partition is bound without the repetition.)  No asset disappears. *)
Theorem changes_authorized (auth : string) (route : Route) (n : nat) (x : App O)
    (answer : Answer) (n' : nat) (x' : App O) :
  app_wf 0 n x → serve (mk_request auth route) n x = (answer, n', x') →
  (∀ i a', r_assets (ap_registry x') !! i = Some a' → r_assets (ap_registry x) !! i ≠ Some a' →
     entitled auth route n x i a') ∧
  (∀ i, is_Some (r_assets (ap_registry x) !! i) → is_Some (r_assets (ap_registry x') !! i)).
Proof.
  intros Hwf Hrun. split.
  - change (rightful auth route n x x'). pattern answer, n', x'. eapply wp_serve; [|exact Hrun].
    by eapply dispatch_rightful.
  - intros i [a Ha]. destruct (serve_keeps _ _ _ _ _ _ _ Hwf Hrun) as [_ Hstep].
    destruct (ev_assets _ _ (st_registry _ _ Hstep) i a Ha) as (a' & Ha' & _). by exists a'.
Qed.

Lemma refusal_status e : problem_status (error_response e) ≠ 201.
Proof. by destruct e. Qed.

(** C9.  A capability that is minted is its caller's own: it names the authenticated
    service, covers a scope in a bucket that service may use for that operation,
    lives as long as was asked, a minute to a day from the reading taken when it
    was made, is stored under its fresh identifier beside the live ones within the
    bound, and its grant is on the audit log by digest.  A request that is
    refused gives nothing out; it leaves an event on the audit log, naming the
    caller, exactly when the request was valid, within the caller's rate, and
    refused by the policy. *)
Theorem mint_spec (auth : string) (now : spec_float) (body : CapabilityMintRequest) (n : nat) (x : App O)
    (answer : Answer) (n' : nat) (x' : App O) :
  serve (mk_request auth (PostCapabilities now body)) n x = (answer, n', x') →
  (∃ out, answer = mk_answer 201 (BCapability out) ∧ minted auth now body n x (Ok out) n' x') ∨
  (∃ e, answer = mk_answer (problem_status (error_response e)) (BProblem (error_response e)) ∧
     an_status answer ≠ 201 ∧ minted auth now body n x (Err e) n' x').
Proof.
  intros Hrun. pattern answer, n', x'. eapply wp_serve; [|exact Hrun].
  cbn [rq_authorization rq_route dispatch success_status]. unfold fmap, M_fmap. apply wp_bind.
  eapply wp_mono; [apply wp_mint|]. intros [out|e] n1 x1 [_ Hm].
  - apply wp_ret. left. by exists out.
  - right. exists e. split_and!; [done|apply refusal_status|done].
Qed.

(** C8.  An upload that is accepted was authorised, streamed whole within the byte
    limit while a slot was free, and is stored: the answer describes an available
    asset, owned by the capability's holder, whose bytes are the chunks in their
    order.  Whatever it ends in, the upload slot is given back; an upload longer
    than the limit is refused and leaves registry and store as they were. *)
Theorem upload_spec (auth : string) (u : Upload) (n : nat) (x : App O) (answer : Answer) (n' : nat) (x' : App O) :
  app_wf 0 n x → 0 < ap_max_upload_bytes x → serve (mk_request auth (PutObject u)) n x = (answer, n', x') →
  wa_active (ap_uploads x') = 0 ∧
  (an_status answer = 201 → ∃ cap parts a, live auth n x cap ∧ authorized cap WRITE (ul_alias u) (S n) (ap_guard x) = true ∧
     0 < wa_limit (ap_uploads x) ∧ ul_stream u = Ok <$> parts ∧ Z.of_nat (length (concat parts)) <= ap_max_upload_bytes x ∧
     an_body answer = BAsset (from_asset a) ∧ r_assets (ap_registry x') !! a_asset_id a = Some a ∧ a_state a = AVAILABLE ∧
     a_owner_service_id a = cap_caller_service_id cap ∧ contents (g_store (ap_guard x')) (location_of a) = Some (concat parts)) ∧
  (∀ parts, ul_stream u = Ok <$> parts → ap_max_upload_bytes x < Z.of_nat (length (concat parts)) →
     an_status answer ≠ 201 ∧ ap_registry x' = ap_registry x ∧ g_store (ap_guard x') = g_store (ap_guard x)).
Proof.
  intros Hwf Hmax Hrun. pattern answer, n', x'. eapply wp_serve; [|exact Hrun]. clear answer n' x' Hrun.
  cbn [rq_authorization rq_route dispatch success_status]. unfold fmap, M_fmap. apply wp_bind.
  eapply wp_mono; [apply wp_upload|]. intros res n1 x1 [Hact Hup].
  pose proof (xw_active _ _ _ Hwf) as Hidle. rewrite Hidle in Hact, Hup.
  destruct Hup as [(e & l & -> & Hg)|(cap & data & m & l & r & k & n2 & Hlive & Hauth & Hdata & Hroom & Hk & Hrun & Hout)].
  { split_and!; [done|by intros []%refusal_status|]. intros parts _ _. split_and!; [apply refusal_status|..];
      unfold ap_registry; by rewrite Hg. }
  apply read_stream_Ok in Hdata as (parts & Hstream & -> & Hlen); [|cbn; lia]. cbn in Hlen, Hrun.
  assert (Hlong : ∀ parts', ul_stream u = Ok <$> parts' → ¬ ap_max_upload_bytes x < Z.of_nat (length (concat parts'))).
  { intros parts' Hp. rewrite Hstream in Hp. assert (Inj (=) (=) (@Ok bytes)) by by intros ?? [= ->].
    apply (inj (fmap Ok)) in Hp as <-. lia. }
  destruct res as [out|e]; [apply wp_ret|]; (split_and!; [done| |by intros parts' Hp Hl; destruct (Hlong _ Hp)]);
    [|by intros []%refusal_status].
  intros _. destruct (Hout out eq_refl) as (a & -> & ->).
  assert (Hg1 : guard_wf k (set_ledger l (ap_guard x))) by (eapply guard_wf_set_ledger, guard_wf_mono; [exact Hk|apply Hwf]).
  destruct (wp_inv _ _ _ _ _ _ _ (wp_write_object _ _ _ _ _ _ _ _ _ Hg1) Hrun) as [_ _ _ _ _ (_ & _ & Ha & Hs & Ho & Hc & _)].
  by exists cap, parts, a.
Qed.
End ApiProps.

(** * Concrete requests

    A process with two services and an upload limit of four bytes: the fetcher
    mints a capability, uploads an object, mints another and reads it back. *)

Definition demo_vars : gmap string string :=
  {["ASSET_STORE_SERVICE_CREDENTIALS" := "admin:root,fetcher:s2"; "ASSET_STORE_MAX_UPLOAD_BYTES" := "4"]}.
Definition demo_start : res (App LocalObjectStore) := create_app demo_vars None ∅ None demo_instant.
Definition demo_app : App LocalObjectStore :=
  match demo_start with
  | Ok x => x
  | Err _ => mk_app demo_guard ∅ (mk_capability_store 0 ∅) (mk_limiter S754_nan 0 ∅) (mk_admission 0 0 ∅) 0 ∅ ∅ ∅
  end.

Definition fetcher_auth : string := "Service fetcher:s2".
Definition mint_body (operation : Operation) : CapabilityMintRequest := mk_mint_request operation "cache/p" 600 false.
Definition mint_rq (operation : Operation) : Request := mk_request fetcher_auth (PostCapabilities demo_instant (mint_body operation)).
Definition demo_upload (chunks : list bytes) : Upload :=
  mk_upload "cache/p/x" false None None None (Some "text/plain") (Ok <$> chunks).
Definition writer : string := "Capability cap-id0".
Definition put_rq : Request := mk_request writer (PutObject (demo_upload [[104]; [105]])).
Definition get_rq : Request := mk_request "Capability cap-id17" (GetObject "cache/p/x" "proxy" 300).
Definition demo_requests : list Request := [mint_rq WRITE; put_rq; mint_rq READ; get_rq].

Lemma demo_start_ok : create_app demo_vars None (∅ : LocalObjectStore) None demo_instant = Ok demo_app.
Proof. vm_compute. reflexivity. Qed.

(** The process once the first capability is minted. *)
Definition minted_app : nat * App LocalObjectStore := let '(_, n, x) := serve_all [mint_rq WRITE] 0 demo_app in (n, x).

Lemma minted_app_wf : app_wf 0 minted_app.1 minted_app.2.
Proof.
  unfold minted_app. destruct (serve_all [mint_rq WRITE] 0 demo_app) as [[answers n] x] eqn:H.
  destruct (create_app_inv _ _ _ _ _ 0%nat demo_start_ok) as [Hwf _]. by destruct (serve_all_keeps _ _ _ _ _ _ _ Hwf H).
Qed.

Lemma api_invariant_witness :
  ∃ answers n x, serve_all demo_requests 0 demo_app = (answers, n, x) ∧
    an_status <$> answers = [201; 201; 201; 200] ∧ app_wf 0 n x ∧ length answers = 4%nat.
Proof.
  destruct (serve_all demo_requests 0 demo_app) as [[answers n] x] eqn:H. exists answers, n, x. split; [reflexivity|].
  destruct (api_invariant _ _ _ _ _ demo_requests 0%nat answers n x demo_start_ok H) as (Hwf & _ & Hlen).
  split; [|split; [exact Hwf|exact Hlen]].
  assert (Hs : an_status <$> (serve_all demo_requests 0 demo_app).1.1 = [201; 201; 201; 200]) by (vm_compute; reflexivity).
  rewrite H in Hs. exact Hs.
Defined.

Lemma refused_inert_witness :
  an_status (serve (mk_request "Service fetcher:guess" (GetResolve "cache" "p/x")) 0 demo_app).1.1 = 401 ∧
  (serve (mk_request "Service fetcher:guess" (GetResolve "cache" "p/x")) 0 demo_app).2 = demo_app.
Proof.
  destruct (serve (mk_request "Service fetcher:guess" (GetResolve "cache" "p/x")) 0 demo_app) as [[answer n] x] eqn:H.
  apply (refused_inert _ _ _ _ _ _ _ H); [reflexivity|]. intros caller Hid.
  assert (Hno : service_identity (ap_credentials demo_app) "Service fetcher:guess" = Err ServiceAuthError)
    by (vm_compute; reflexivity).
  unfold identified in Hid. rewrite Hno in Hid. discriminate Hid.
Defined.

Lemma changes_authorized_witness :
  ∃ a, r_assets (ap_registry (serve put_rq minted_app.1 minted_app.2).2) !! "id-10" = Some a ∧
    entitled writer (rq_route put_rq) minted_app.1 minted_app.2 "id-10" a.
Proof.
  destruct (serve put_rq minted_app.1 minted_app.2) as [[answer n] x] eqn:H.
  destruct (changes_authorized _ _ _ _ _ _ _ minted_app_wf H) as [Hact _].
  assert (Hnew : bool_decide (is_Some (r_assets (ap_registry (serve put_rq minted_app.1 minted_app.2).2) !! "id-10")) &&
    bool_decide (r_assets (ap_registry minted_app.2) !! "id-10" = None) = true) by (vm_compute; reflexivity).
  rewrite H in Hnew. apply andb_prop in Hnew as [[a Ha]%bool_decide_eq_true Hnone%bool_decide_eq_true].
  exists a. split; [exact Ha|]. apply Hact; [exact Ha|]. rewrite Hnone. discriminate.
Defined.

Lemma mint_spec_witness :
  ∃ out x', (serve (mint_rq WRITE) 0 demo_app).1.1 = mk_answer 201 (BCapability out) ∧
    minted fetcher_auth demo_instant (mint_body WRITE) 0 demo_app (Ok out) (serve (mint_rq WRITE) 0 demo_app).1.2 x'.
Proof.
  destruct (serve (mint_rq WRITE) 0 demo_app) as [[answer n] x] eqn:H.
  assert (Hs : an_status (serve (mint_rq WRITE) 0 demo_app).1.1 = 201) by (vm_compute; reflexivity). rewrite H in Hs.
  destruct (mint_spec _ _ _ _ _ _ _ _ H) as [(out & Ha & Hm)|(e & _ & Hne & _)].
  - exists out, x. split; [exact Ha|exact Hm].
  - destruct (Hne Hs).
Defined.

Lemma upload_spec_witness :
  ∃ a, an_body (serve put_rq minted_app.1 minted_app.2).1.1 = BAsset (from_asset a) ∧ a_state a = AVAILABLE ∧
    g_store (ap_guard (serve put_rq minted_app.1 minted_app.2).2) !! location_of a = Some [104; 105].
Proof.
  destruct (serve put_rq minted_app.1 minted_app.2) as [[answer n] x] eqn:H.
  assert (Hs : an_status (serve put_rq minted_app.1 minted_app.2).1.1 = 201) by (vm_compute; reflexivity). rewrite H in Hs.
  assert (Hmax : 0 < ap_max_upload_bytes minted_app.2) by (vm_compute; reflexivity).
  destruct (upload_spec writer (demo_upload [[104]; [105]]) _ _ _ _ _ minted_app_wf Hmax H) as (_ & Hup & _).
  destruct (Hup Hs) as (cap & parts & a & _ & _ & _ & Hparts & _ & Hbody & _ & Hst & _ & Hc). exists a.
  split; [exact Hbody|]. split; [exact Hst|]. refine (eq_trans Hc _). destruct parts as [|p [|q [|]]]; try discriminate Hparts.
  injection Hparts as <- <-. reflexivity.
Defined.
