(* ===== verification/PgSchema.v ===== *)
(** * The schema of the Postgres registry

    The tables [_SCHEMA] of [asset_store_core/pg_registry.py] creates, and the
    statements its methods execute on them.  A table is a finite map from its
    primary key to its rows, the audit table the list of its rows in the order of
    their serial identifiers.  A method's SQL is a computation over [Database]: it
    is only ever run by a unit of work.  Statements other than the ones that
    violate a key or overflow a [bigint] succeed; texts contain no NUL, which
    Postgres cannot store. *)

From S2P Require Import Prelude Errors Python Effects Paths Models Retention Sha256 Registry.

(** ** Rows *)

(** A row of [assets]: [Asset] without the names. *)
Record AssetRow := mk_row {
  row_asset_id : string;
  row_space : string;
  row_partition_id : string;
  row_storage_key : string;
  row_state : AssetState;
  row_mime : option string;
  row_size_bytes : option Z;
  row_reserved_bytes : option Z;
  row_checksum_algo : string;
  row_checksum : option string;
  row_annotations : gmap string string;
  row_eviction_policy : EvictionPolicy;
  row_owner_service_id : string;
  row_created_at : Z;
  row_updated_at : Z;
  row_expires_at : option Z;
  row_expired_at : option Z;
  row_last_read_at : option Z;
  row_read_count : Z;
  row_payload_deleted_at : option Z
}.

#[export] Instance replace_row_state : Replace row_state := λ v r,
  mk_row (row_asset_id r) (row_space r) (row_partition_id r) (row_storage_key r) v (row_mime r)
  (row_size_bytes r) (row_reserved_bytes r) (row_checksum_algo r) (row_checksum r)
  (row_annotations r) (row_eviction_policy r) (row_owner_service_id r) (row_created_at r)
  (row_updated_at r) (row_expires_at r) (row_expired_at r) (row_last_read_at r) (row_read_count r)
  (row_payload_deleted_at r).
#[export] Instance replace_row_mime : Replace row_mime := λ v r,
  mk_row (row_asset_id r) (row_space r) (row_partition_id r) (row_storage_key r) (row_state r) v
  (row_size_bytes r) (row_reserved_bytes r) (row_checksum_algo r) (row_checksum r)
  (row_annotations r) (row_eviction_policy r) (row_owner_service_id r) (row_created_at r)
  (row_updated_at r) (row_expires_at r) (row_expired_at r) (row_last_read_at r) (row_read_count r)
  (row_payload_deleted_at r).
#[export] Instance replace_row_size_bytes : Replace row_size_bytes := λ v r,
  mk_row (row_asset_id r) (row_space r) (row_partition_id r) (row_storage_key r) (row_state r)
  (row_mime r) v (row_reserved_bytes r) (row_checksum_algo r) (row_checksum r) (row_annotations r)
  (row_eviction_policy r) (row_owner_service_id r) (row_created_at r) (row_updated_at r)
  (row_expires_at r) (row_expired_at r) (row_last_read_at r) (row_read_count r)
  (row_payload_deleted_at r).
#[export] Instance replace_row_reserved_bytes : Replace row_reserved_bytes := λ v r,
  mk_row (row_asset_id r) (row_space r) (row_partition_id r) (row_storage_key r) (row_state r)
  (row_mime r) (row_size_bytes r) v (row_checksum_algo r) (row_checksum r) (row_annotations r)
  (row_eviction_policy r) (row_owner_service_id r) (row_created_at r) (row_updated_at r)
  (row_expires_at r) (row_expired_at r) (row_last_read_at r) (row_read_count r)
  (row_payload_deleted_at r).
#[export] Instance replace_row_checksum : Replace row_checksum := λ v r,
  mk_row (row_asset_id r) (row_space r) (row_partition_id r) (row_storage_key r) (row_state r)
  (row_mime r) (row_size_bytes r) (row_reserved_bytes r) (row_checksum_algo r) v
  (row_annotations r) (row_eviction_policy r) (row_owner_service_id r) (row_created_at r)
  (row_updated_at r) (row_expires_at r) (row_expired_at r) (row_last_read_at r) (row_read_count r)
  (row_payload_deleted_at r).
#[export] Instance replace_row_annotations : Replace row_annotations := λ v r,
  mk_row (row_asset_id r) (row_space r) (row_partition_id r) (row_storage_key r) (row_state r)
  (row_mime r) (row_size_bytes r) (row_reserved_bytes r) (row_checksum_algo r) (row_checksum r) v
  (row_eviction_policy r) (row_owner_service_id r) (row_created_at r) (row_updated_at r)
  (row_expires_at r) (row_expired_at r) (row_last_read_at r) (row_read_count r)
  (row_payload_deleted_at r).
#[export] Instance replace_row_eviction_policy : Replace row_eviction_policy := λ v r,
  mk_row (row_asset_id r) (row_space r) (row_partition_id r) (row_storage_key r) (row_state r)
  (row_mime r) (row_size_bytes r) (row_reserved_bytes r) (row_checksum_algo r) (row_checksum r)
  (row_annotations r) v (row_owner_service_id r) (row_created_at r) (row_updated_at r)
  (row_expires_at r) (row_expired_at r) (row_last_read_at r) (row_read_count r)
  (row_payload_deleted_at r).
#[export] Instance replace_row_updated_at : Replace row_updated_at := λ v r,
  mk_row (row_asset_id r) (row_space r) (row_partition_id r) (row_storage_key r) (row_state r)
  (row_mime r) (row_size_bytes r) (row_reserved_bytes r) (row_checksum_algo r) (row_checksum r)
  (row_annotations r) (row_eviction_policy r) (row_owner_service_id r) (row_created_at r) v
  (row_expires_at r) (row_expired_at r) (row_last_read_at r) (row_read_count r)
  (row_payload_deleted_at r).
#[export] Instance replace_row_expires_at : Replace row_expires_at := λ v r,
  mk_row (row_asset_id r) (row_space r) (row_partition_id r) (row_storage_key r) (row_state r)
  (row_mime r) (row_size_bytes r) (row_reserved_bytes r) (row_checksum_algo r) (row_checksum r)
  (row_annotations r) (row_eviction_policy r) (row_owner_service_id r) (row_created_at r)
  (row_updated_at r) v (row_expired_at r) (row_last_read_at r) (row_read_count r)
  (row_payload_deleted_at r).
#[export] Instance replace_row_expired_at : Replace row_expired_at := λ v r,
  mk_row (row_asset_id r) (row_space r) (row_partition_id r) (row_storage_key r) (row_state r)
  (row_mime r) (row_size_bytes r) (row_reserved_bytes r) (row_checksum_algo r) (row_checksum r)
  (row_annotations r) (row_eviction_policy r) (row_owner_service_id r) (row_created_at r)
  (row_updated_at r) (row_expires_at r) v (row_last_read_at r) (row_read_count r)
  (row_payload_deleted_at r).
#[export] Instance replace_row_last_read_at : Replace row_last_read_at := λ v r,
  mk_row (row_asset_id r) (row_space r) (row_partition_id r) (row_storage_key r) (row_state r)
  (row_mime r) (row_size_bytes r) (row_reserved_bytes r) (row_checksum_algo r) (row_checksum r)
  (row_annotations r) (row_eviction_policy r) (row_owner_service_id r) (row_created_at r)
  (row_updated_at r) (row_expires_at r) (row_expired_at r) v (row_read_count r)
  (row_payload_deleted_at r).
#[export] Instance replace_row_read_count : Replace row_read_count := λ v r,
  mk_row (row_asset_id r) (row_space r) (row_partition_id r) (row_storage_key r) (row_state r)
  (row_mime r) (row_size_bytes r) (row_reserved_bytes r) (row_checksum_algo r) (row_checksum r)
  (row_annotations r) (row_eviction_policy r) (row_owner_service_id r) (row_created_at r)
  (row_updated_at r) (row_expires_at r) (row_expired_at r) (row_last_read_at r) v
  (row_payload_deleted_at r).
#[export] Instance replace_row_payload_deleted_at : Replace row_payload_deleted_at := λ v r,
  mk_row (row_asset_id r) (row_space r) (row_partition_id r) (row_storage_key r) (row_state r)
  (row_mime r) (row_size_bytes r) (row_reserved_bytes r) (row_checksum_algo r) (row_checksum r)
  (row_annotations r) (row_eviction_policy r) (row_owner_service_id r) (row_created_at r)
  (row_updated_at r) (row_expires_at r) (row_expired_at r) (row_last_read_at r) (row_read_count r)
  v.

(** [AssetRow] with its aliases: [_asset_from_row]. *)
Definition _asset_from_row (row : AssetRow) (aliases : gset string) : Asset :=
  mk_asset (row_asset_id row) (row_space row) (row_partition_id row) (row_storage_key row)
  (row_state row) aliases (row_mime row) (row_size_bytes row) (row_reserved_bytes row)
  (row_checksum_algo row) (row_checksum row) (row_annotations row) (row_created_at row)
  (row_updated_at row) (row_expires_at row) (row_expired_at row) (row_last_read_at row)
  (row_read_count row) (row_payload_deleted_at row) (row_owner_service_id row)
  (row_eviction_policy row).

(** Rows of [aliases], [partition_quotas], [bucket_quotas] and [audit_events] have
    the columns of the records of [Models]; a tombstone is its [grace_until]. *)
Record Database := mk_database {
  db_assets : gmap string AssetRow;
  db_aliases : gmap (string * string) AliasBinding;
  db_alias_tombstones : gmap (string * string) Z;
  db_partition_quotas : gmap (string * string) PartitionQuota;
  db_bucket_quotas : gmap string BucketQuota;
  db_audit_events : list AuditEvent
}.

#[export] Instance replace_db_assets : Replace db_assets := λ v d,
  mk_database v (db_aliases d) (db_alias_tombstones d) (db_partition_quotas d)
  (db_bucket_quotas d) (db_audit_events d).
#[export] Instance replace_db_aliases : Replace db_aliases := λ v d,
  mk_database (db_assets d) v (db_alias_tombstones d) (db_partition_quotas d) (db_bucket_quotas d)
  (db_audit_events d).
#[export] Instance replace_db_alias_tombstones : Replace db_alias_tombstones := λ v d,
  mk_database (db_assets d) (db_aliases d) v (db_partition_quotas d) (db_bucket_quotas d)
  (db_audit_events d).
#[export] Instance replace_db_partition_quotas : Replace db_partition_quotas := λ v d,
  mk_database (db_assets d) (db_aliases d) (db_alias_tombstones d) v (db_bucket_quotas d)
  (db_audit_events d).
#[export] Instance replace_db_bucket_quotas : Replace db_bucket_quotas := λ v d,
  mk_database (db_assets d) (db_aliases d) (db_alias_tombstones d) (db_partition_quotas d) v
  (db_audit_events d).
#[export] Instance replace_db_audit_events : Replace db_audit_events := λ v d,
  mk_database (db_assets d) (db_aliases d) (db_alias_tombstones d) (db_partition_quotas d)
  (db_bucket_quotas d) v.

(** The tables as [_SCHEMA] creates them. *)
Definition empty_database : Database := mk_database ∅ ∅ ∅ ∅ ∅ [].

(** ** [bigint] columns *)

Definition in_bigint (z : Z) : bool := (-(2 ^ 63) <=? z) && (z <? 2 ^ 63).

Definition bigint (z : Z) : res Z := if in_bigint z then Ok z else Err PgNumericValueOutOfRange.

Definition bigint_null (z : option Z) : res (option Z) :=
  match z with Some z => z ← bigint z; mret (Some z) | None => mret None end.

(** ** Statements *)

Definition select {A} (f : Database → A) : M Database A := λ n db, (Ok (f db), n, db).

(** A statement that fails changes nothing. *)
Definition execute (f : Database → res Database) : M Database unit := λ n db,
  match f db with Ok db' => (Ok tt, n, db') | Err e => (Err e, n, db) end.

(** [INSERT]: the primary key must be new. *)
Definition insert_row {K V} `{Countable K} (k : K) (row : V) (table : gmap K V) : res (gmap K V) :=
  if decide (is_Some (table !! k)) then Err PgUniqueViolation else mret (<[k := row]> table).

(** [UPDATE ... WHERE key = k]: no row, no change. *)
Definition update_row {K V} `{Countable K} (k : K) (f : V → res V) (table : gmap K V)
    : res (gmap K V) :=
  match table !! k with
  | Some row => row ← f row; mret (<[k := row]> table)
  | None => mret table
  end.

(** [INSERT ... ON CONFLICT DO UPDATE] *)
Definition upsert_row {K V} `{Countable K} (k : K) (row : res V) (f : V → res V) (table : gmap K V)
    : res (gmap K V) :=
  row ← row;
  row ← match table !! k with Some old => f old | None => mret row end;
  mret (<[k := row]> table).

Definition on_assets (f : gmap string AssetRow → res (gmap string AssetRow)) : M Database unit :=
  execute (λ db, t ← f (db_assets db); mret (db <| db_assets := t |>)).
Definition on_aliases (f : gmap (string * string) AliasBinding → res (gmap (string * string) AliasBinding))
    : M Database unit :=
  execute (λ db, t ← f (db_aliases db); mret (db <| db_aliases := t |>)).
Definition on_tombstones (f : gmap (string * string) Z → gmap (string * string) Z) : M Database unit :=
  execute (λ db, mret (db <| db_alias_tombstones := f (db_alias_tombstones db) |>)).
Definition on_partition_quotas
    (f : gmap (string * string) PartitionQuota → res (gmap (string * string) PartitionQuota))
    : M Database unit :=
  execute (λ db, t ← f (db_partition_quotas db); mret (db <| db_partition_quotas := t |>)).
Definition on_bucket_quotas (f : gmap string BucketQuota → res (gmap string BucketQuota))
    : M Database unit :=
  execute (λ db, t ← f (db_bucket_quotas db); mret (db <| db_bucket_quotas := t |>)).

(** [UPDATE assets SET ... WHERE asset_id = ...] *)
Definition update_assets (asset_id : string) (f : AssetRow → res AssetRow) : M Database unit :=
  on_assets (update_row asset_id f).

(** [with connection.transaction()] inside a transaction: a savepoint. *)
Definition savepoint {A} (m : M Database A) : M Database A := λ n db,
  match m n db with
  | (Err e, n', _) => (Err e, n', db)
  | ok => ok
  end.

(** The names bound to an asset: [SELECT alias FROM aliases WHERE asset_id = ...],
    each under the asset's bucket. *)
Definition alias_names (row : AssetRow) (aliases : gmap (string * string) AliasBinding) : gset string :=
  list_to_set (omap (λ x : (string * string) * AliasBinding,
    if decide (b_asset_id x.2 = Some (row_asset_id row))
    then Some (row_space row +:+ "/" +:+ b_alias x.2) else None) (map_to_list aliases)).

Definition load_row (db : Database) (row : AssetRow) : Asset :=
  _asset_from_row row (alias_names row (db_aliases db)).
