(* ===== verification/PgRegistry.v ===== *)
(** * The Postgres asset registry

    [asset_store_core/pg_registry.py]: [PostgresAssetRegistry], one definition per
    method ([pg_m] for [m]) over the tables of [PgSchema].  The body of a method is
    a computation over [Database]; the decorator [_transactional] runs it in a
    [unit_of_work], which checks a connection out of the pool, commits when the
    body returns and rolls back when it raises.  Units of work run one at a time:
    the interleaving of the statements of concurrent transactions is not modelled.
    The session's time zone is UTC. *)

From S2P Require Import Prelude Errors Python Effects Paths Models Retention Sha256 Registry PgSchema.

(** ** Units of work *)

(** The pool: whether its [n]-th check-out fails ([PoolTimeout], [TooManyRequests],
    [PoolClosed]). *)
Class ConnectionPool := getconn_fails : nat → bool.

(** [pg_connection] tells whether this thread holds a connection; the counters are
    the metrics, [pg_checkouts] counts the check-outs asked of the pool. *)
Record PostgresAssetRegistry := mk_pg {
  pg_db : Database;
  pg_alias_grace : Z;
  pg_connection : bool;
  pg_checkouts : nat;
  pg_committed : Z;
  pg_rolled_back : Z;
  pg_unavailable : Z
}.

#[export] Instance replace_pg_db : Replace pg_db := λ v s,
  mk_pg v (pg_alias_grace s) (pg_connection s) (pg_checkouts s) (pg_committed s) (pg_rolled_back s)
    (pg_unavailable s).
#[export] Instance replace_pg_connection : Replace pg_connection := λ v s,
  mk_pg (pg_db s) (pg_alias_grace s) v (pg_checkouts s) (pg_committed s) (pg_rolled_back s)
    (pg_unavailable s).
#[export] Instance replace_pg_checkouts : Replace pg_checkouts := λ v s,
  mk_pg (pg_db s) (pg_alias_grace s) (pg_connection s) v (pg_committed s) (pg_rolled_back s)
    (pg_unavailable s).
#[export] Instance replace_pg_committed : Replace pg_committed := λ v s,
  mk_pg (pg_db s) (pg_alias_grace s) (pg_connection s) (pg_checkouts s) v (pg_rolled_back s)
    (pg_unavailable s).
#[export] Instance replace_pg_rolled_back : Replace pg_rolled_back := λ v s,
  mk_pg (pg_db s) (pg_alias_grace s) (pg_connection s) (pg_checkouts s) (pg_committed s) v
    (pg_unavailable s).
#[export] Instance replace_pg_unavailable : Replace pg_unavailable := λ v s,
  mk_pg (pg_db s) (pg_alias_grace s) (pg_connection s) (pg_checkouts s) (pg_committed s)
    (pg_rolled_back s) v.

(** The checks of [connect] on the pool's limits; [timeout] is [None] when [float]
    refuses the text, and infinite or [nan] timeouts are refused. *)
Definition positive_finite (f : spec_float) : bool :=
  match f with S754_finite false _ _ => true | _ => false end.

Definition pool_limits (minimum maximum waiting : option string) (timeout : option spec_float)
    : res (Z * Z * Z * spec_float) :=
  match py_int (default "1" minimum), py_int (default "8" maximum), timeout,
        py_int (default "32" waiting) with
  | Some minimum, Some maximum, Some timeout, Some waiting =>
      if (minimum <? 1) || (maximum <? minimum) || (waiting <? 1) || negb (positive_finite timeout)
      then Err ValidationError else mret (minimum, maximum, waiting, timeout)
  | _, _, _, _ => Err ValidationError
  end.

Section UnitOfWork.
Context {E : Env} {P : ConnectionPool} {W : Type}.
Variable get : W → PostgresAssetRegistry.
Variable set : PostgresAssetRegistry → W → W.

(** [with registry.unit_of_work(): body], for a client whose state holds the
    registry.  A nested unit reuses the connection; a rollback restores the tables
    and nothing else. *)
Definition unit_of_work {A} (body : M W A) : M W A := λ n w,
  let s := get w in
  if pg_connection s then body n w
  else
    let s1 := s <| pg_checkouts := S (pg_checkouts s) |> in
    if getconn_fails (pg_checkouts s) then
      (Err RegistryUnavailableError, n, set (s1 <| pg_unavailable := pg_unavailable s + 1 |>) w)
    else
      let '(r, n', w') := body n (set (s1 <| pg_connection := true |>) w) in
      let s' := get w' in
      let s2 := match r with
                | Ok _ => s' <| pg_committed := pg_committed s' + 1 |>
                | Err _ => s' <| pg_db := pg_db s |> <| pg_rolled_back := pg_rolled_back s' + 1 |>
                end in
      (r, n', set (s2 <| pg_connection := false |>) w').

(** [connection.transaction()] inside a unit of work, around the client's code. *)
Definition nested_transaction {A} (body : M W A) : M W A := λ n w,
  match body n w with
  | (Err e, n', w') => (Err e, n', set ((get w') <| pg_db := pg_db (get w) |>) w')
  | ok => ok
  end.
End UnitOfWork.

(** [PostgresAssetRegistry(pool, bootstrap_schema=bootstrap,
    alias_name_grace_period=grace)] on the database [db]; creating the tables where
    they are missing is a unit of work that changes no row. *)
Definition new_postgres_registry {P : ConnectionPool} (db : Database) (grace : option Z) (bootstrap : bool)
    : res PostgresAssetRegistry :=
  grace ← match grace with
          | None => mret seven_days
          | Some g => if g <? 0 then Err ValidationError else mret g
          end;
  let s := mk_pg db grace false 0 0 0 0 in
  if bootstrap then
    match unit_of_work (λ s, s) (λ s _, s) (mret tt) 0%nat s with
    | (Ok _, _, s') => mret s'
    | (Err e, _, _) => Err e
    end
  else mret s.

Definition set_pg_db (db : Database) (s : PostgresAssetRegistry) : PostgresAssetRegistry :=
  s <| pg_db := db |>.

(** [_transactional] *)
Definition _transactional {P : ConnectionPool} {A} (body : M Database A) : M PostgresAssetRegistry A :=
  unit_of_work (λ s, s) (λ s _, s) (zoom pg_db set_pg_db body).

(** ** Helpers *)

Section Methods.
Context {E : Env}.

Abbreviation DM := (M Database).

Definition pg_write_audit (action target caller_service_id outcome : string)
    (before after : gmap string string) : DM unit :=
  ts ← utcnow;
  execute (λ db, mret (db <| db_audit_events :=
    db_audit_events db ++ [mk_event action target caller_service_id outcome before after ts] |>)).

(** [SELECT ... FROM assets WHERE asset_id = ...]; [AssetNotFoundError] when there
    is no row. *)
Definition asset_row (asset_id : string) : DM AssetRow :=
  row ← select (λ db, db_assets db !! asset_id);
  match row with Some row => mret row | None => raise AssetNotFoundError end.

Definition pg_load_asset (asset_id : string) : DM Asset :=
  row ← asset_row asset_id;
  names ← select (λ db, alias_names row (db_aliases db));
  mret (_asset_from_row row names).

Definition pg_load_binding (norm_space norm_alias : string) : DM AliasBinding :=
  row ← select (λ db, db_aliases db !! (norm_space, norm_alias));
  match row with Some b => mret b | None => raise AliasNotFoundError end.

(** A quota row that has never been written. *)
Definition default_partition_row (norm_space norm_partition : string) : PartitionQuota :=
  new_partition_quota norm_space norm_partition (mem norm_space SWEEP_DEFAULT_SPACES).

(** [INSERT ... ON CONFLICT DO NOTHING] *)
Definition insert_missing {K V} `{Countable K} (k : K) (row : V) (table : gmap K V) : res (gmap K V) :=
  mret (match table !! k with Some _ => table | None => <[k := row]> table end).

Definition pg_partition_quota (norm_space norm_partition : string) (for_update : bool)
    : DM PartitionQuota :=
  (if for_update then
     on_partition_quotas (insert_missing (norm_space, norm_partition)
                            (default_partition_row norm_space norm_partition))
   else mret tt) ;;
  row ← select (λ db, db_partition_quotas db !! (norm_space, norm_partition));
  mret match row with
       | None => default_partition_row norm_space norm_partition
       | Some row => mk_partition_quota norm_space norm_partition (pq_quota_bytes row)
           (pq_quota_asset_count row) (pq_used_bytes row) (pq_used_asset_count row)
           (pq_eviction_sweep_enabled row)
       end.

Definition pg_bucket_quota (norm_space : string) (for_update : bool) : DM BucketQuota :=
  (if for_update then on_bucket_quotas (insert_missing norm_space (new_bucket_quota norm_space))
   else mret tt) ;;
  row ← select (λ db, db_bucket_quotas db !! norm_space);
  mret match row with
       | None => new_bucket_quota norm_space
       | Some row => mk_bucket_quota norm_space (bq_quota_bytes row) (bq_used_bytes row)
           (bq_warn_threshold row) (bq_hard_ceiling row)
       end.

(** The three aggregates over pending reservations, and the physical usage of a
    bucket. *)
Definition pending_row (space : string) (exclude : option string) (row : AssetRow) : bool :=
  bool_decide (row_space row = space) && bool_decide (row_state row = PENDING) &&
  bool_decide (is_Some (row_reserved_bytes row)) && bool_decide (Some (row_asset_id row) ≠ exclude).

Definition pending_in (space partition_id : string) (exclude : option string) (row : AssetRow) : bool :=
  pending_row space exclude row && bool_decide (row_partition_id row = partition_id).

Definition sum_rows (p : AssetRow → bool) (f : AssetRow → Z) (db : Database) : Z :=
  sum_map (λ row, if p row then f row else 0) (db_assets db).

Definition reserved_column (row : AssetRow) : Z := default 0 (row_reserved_bytes row).

(** [COALESCE(size_bytes, reserved_bytes)], a missing value adding nothing *)
Definition physical_column (row : AssetRow) : Z :=
  match row_size_bytes row with Some size => size | None => reserved_column row end.

Definition unpurged_row (space : string) (row : AssetRow) : bool :=
  bool_decide (row_space row = space) && bool_decide (row_payload_deleted_at row = None).

Definition pg_enforce_quota (space partition_id : string) (new_bytes : Z) (exclude : option string)
    : DM unit :=
  pq ← pg_partition_quota space partition_id true;
  bq ← pg_bucket_quota space true;
  partition_bytes ← select (sum_rows (pending_in space partition_id exclude) reserved_column);
  count ← select (sum_rows (pending_in space partition_id exclude) (λ _, 1));
  bytes ← select (sum_rows (pending_row space exclude) reserved_column);
  of_res (check_ceiling "partition" (pq_quota_bytes pq) PARTITION_HARD_RATIO
            (pq_used_bytes pq + partition_bytes + new_bytes)) ;;
  raise_if match pq_quota_asset_count pq with
           | Some limit => limit <? pq_used_asset_count pq + count + 1
           | None => false
           end (QuotaExceededError "partition") ;;
  limits ← of_res capacity_limits;
  match limits !! space with
  | Some _ =>
      usage ← select (sum_rows (λ row, unpurged_row space row && bool_decide (Some (row_asset_id row) ≠ exclude))
                        physical_column);
      of_res (enforce_capacity space (usage + new_bytes))
  | None => mret tt
  end ;;
  of_res (check_ceiling "bucket" (bq_quota_bytes bq) (bq_hard_ceiling bq)
            (bq_used_bytes bq + bytes + new_bytes)).

Definition pg_acquire_quota (space partition_id : string) (nbytes : Z) : DM unit :=
  on_partition_quotas (upsert_row (space, partition_id)
    (nbytes ← bigint nbytes;
     mret (mk_partition_quota space partition_id None None nbytes 1 (mem space SWEEP_DEFAULT_SPACES)))
    (λ q, used ← bigint (pq_used_bytes q + nbytes);
          count ← bigint (pq_used_asset_count q + 1);
          mret (q <| pq_used_bytes := used |> <| pq_used_asset_count := count |>))) ;;
  on_bucket_quotas (upsert_row space
    (nbytes ← bigint nbytes; mret ((new_bucket_quota space) <| bq_used_bytes := nbytes |>))
    (λ q, used ← bigint (bq_used_bytes q + nbytes); mret (q <| bq_used_bytes := used |>))).

Definition pg_release_quota (space partition_id : string) (nbytes : Z) : DM unit :=
  on_partition_quotas (update_row (space, partition_id) (λ q,
    used ← bigint (pq_used_bytes q - nbytes);
    count ← bigint (pq_used_asset_count q - 1);
    mret (q <| pq_used_bytes := Z.max 0 used |> <| pq_used_asset_count := Z.max 0 count |>))) ;;
  on_bucket_quotas (update_row space (λ q,
    used ← bigint (bq_used_bytes q - nbytes); mret (q <| bq_used_bytes := Z.max 0 used |>))).

Definition pg_mark_for_gc_if_orphaned (asset_id caller_service_id : string) : DM unit :=
  remaining ← select (λ db, bool_decide (map_Exists (λ _ b, b_asset_id b = Some asset_id) (db_aliases db)));
  if (remaining : bool) then mret tt
  else
    row ← select (λ db, db_assets db !! asset_id);
    match row with
    | None => mret tt
    | Some row =>
        if decide (row_state row = EXPIRED ∨ row_state row = DELETED) then mret tt
        else
          updated_at ← utcnow;
          expired_at ← utcnow;
          update_assets asset_id (λ row, mret (row <| row_state := EXPIRED |>
            <| row_updated_at := updated_at |> <| row_expired_at := Some expired_at |>)) ;;
          (if decide (row_state row = AVAILABLE) then
             pg_release_quota (row_space row) (row_partition_id row) (default 0 (row_size_bytes row))
           else mret tt) ;;
          pg_write_audit "asset.gc_mark" asset_id caller_service_id "success"
            {["state" := state_value (row_state row); "reason" := "zero_aliases"]}
            {["state" := state_value EXPIRED]}
    end.

Definition pg_require_alias_name_available (norm_space alias_name : string) : DM unit :=
  existing ← select (λ db, db_aliases db !! (norm_space, alias_name));
  match existing with
  | Some _ => raise AliasConflictError
  | None =>
      tomb ← select (λ db, db_alias_tombstones db !! (norm_space, alias_name));
      match tomb with
      | None => mret tt
      | Some grace_until =>
          now ← utcnow;
          if grace_until <=? now
          then on_tombstones (delete (norm_space, alias_name))
          else raise AliasConflictError
      end
  end.

(** ** Methods *)

(** The loop of [reserve_asset] that inserts one alias. *)
Definition pg_insert_alias (norm_space asset_id owner_service_id : string) (now : Z)
    (spec : string * bool) : DM unit :=
  on_aliases (insert_row (norm_space, spec.1)
    (mk_binding norm_space spec.1 (Some asset_id) spec.2 None now now owner_service_id)) ;;
  pg_write_audit "alias.create" (norm_space +:+ "/" +:+ spec.1) owner_service_id "success" ∅
    {["asset_id" := asset_id; "mutable" := str_bool_lower spec.2]}.

Definition pg_reserve_asset (space partition_id : string) (aliases : alias_specs)
    (owner_service_id : string) (mime : option string) (annotations : option (gmap string string))
    (policy : EvictionPolicy) (ttl_seconds reserved_bytes : option Z) : DM Asset :=
  raise_if (is_negative reserved_bytes) ValidationError ;;
  norm_space ← of_res (normalize_space space);
  norm_partition ← of_res (normalize_partition_id partition_id);
  specs ← of_res (_normalize_alias_specs aliases);
  scoped ← of_res (mapM (λ spec : string * bool,
    name ← _alias_under_partition norm_partition spec.1; mret (name, spec.2)) specs);
  asset_id ← draw_uuid;
  now ← utcnow;
  storage_key ← of_res (build_storage_key norm_partition asset_id);
  savepoint (
    for_each scoped (λ spec, pg_require_alias_name_available norm_space spec.1) ;;
    match reserved_bytes with
    | Some bytes => pg_enforce_quota norm_space norm_partition bytes None
    | None => mret tt
    end ;;
    expires_at ← of_res (expiry_for norm_space ttl_seconds now);
    on_assets (λ table,
      reserved ← bigint_null reserved_bytes;
      insert_row asset_id (mk_row asset_id norm_space norm_partition storage_key PENDING mime None
        reserved "sha256" None (default ∅ annotations) policy owner_service_id now now expires_at
        None None 0 None) table) ;;
    for_each scoped (pg_insert_alias norm_space asset_id owner_service_id now) ;;
    match reserved_bytes with
    | Some bytes =>
        pg_write_audit "asset.upload_reserve" asset_id owner_service_id "success" ∅
          {["reserved_bytes" := pretty bytes]}
    | None => mret tt
    end) ;;
  pg_load_asset asset_id.

Definition pg_commit_asset (asset_id : string) (size_bytes : Z) (checksum caller_service_id : string)
    (mime expected_checksum : option string) : DM Asset :=
  raise_if (size_bytes <? 0) ValidationError ;;
  let server_checksum := strip checksum in
  raise_if (bool_decide (server_checksum = "")) ValidationError ;;
  raise_if match expected_checksum with
           | Some expected => bool_decide (expected ≠ server_checksum)
           | None => false
           end ChecksumMismatchError ;;
  now ← utcnow;
  savepoint (
    row ← asset_row asset_id;
    raise_if (bool_decide (row_state row ≠ PENDING)) InvalidStateTransitionError ;;
    raise_if match row_reserved_bytes row with
             | Some reserved => negb (reserved =? size_bytes)
             | None => false
             end ValidationError ;;
    pg_enforce_quota (row_space row) (row_partition_id row) size_bytes (Some asset_id) ;;
    update_assets asset_id (λ r,
      size ← bigint size_bytes;
      mret (r <| row_state := AVAILABLE |> <| row_size_bytes := Some size |>
              <| row_checksum := Some server_checksum |> <| row_mime := or_mime mime (row_mime row) |>
              <| row_updated_at := now |> <| row_reserved_bytes := None |>)) ;;
    pg_acquire_quota (row_space row) (row_partition_id row) size_bytes ;;
    pg_write_audit "asset.commit" asset_id caller_service_id "success"
      {["state" := state_value PENDING]} {["state" := state_value AVAILABLE]}) ;;
  pg_load_asset asset_id.

Definition pg_update_annotations (asset_id : string) (patch : gmap string string)
    (caller_service_id : string) (overwrite : bool) : DM Asset :=
  now ← utcnow;
  savepoint (
    row ← asset_row asset_id;
    raise_if (bool_decide (row_state row = DELETED)) InvalidStateTransitionError ;;
    let before := row_annotations row in
    let merged := if overwrite then patch else patch ∪ before in
    update_assets asset_id (λ r,
      mret (r <| row_annotations := merged |> <| row_updated_at := now |>)) ;;
    pg_write_audit "asset.annotations_update" asset_id caller_service_id "success" before merged) ;;
  pg_load_asset asset_id.

Definition pg_transition_out_of_available (asset_id caller_service_id : string)
    (allowed_from : list AssetState) (new_state : AssetState) (action : string) : DM Asset :=
  now ← utcnow;
  savepoint (
    row ← asset_row asset_id;
    raise_if (bool_decide (row_state row ∉ allowed_from)) InvalidStateTransitionError ;;
    update_assets asset_id (λ r,
      mret (r <| row_state := new_state |> <| row_updated_at := now |>
              <| row_expired_at := if decide (new_state = EXPIRED) then Some now
                                   else row_expired_at r |>)) ;;
    (if decide (row_state row = AVAILABLE) then
       pg_release_quota (row_space row) (row_partition_id row) (default 0 (row_size_bytes row))
     else mret tt) ;;
    pg_write_audit action asset_id caller_service_id "success"
      {["state" := state_value (row_state row)]} {["state" := state_value new_state]}) ;;
  pg_load_asset asset_id.

Definition pg_expire_asset (asset_id caller_service_id : string) : DM Asset :=
  pg_transition_out_of_available asset_id caller_service_id [AVAILABLE] EXPIRED "asset.expire".

Definition pg_delete_asset (asset_id caller_service_id : string) : DM Asset :=
  pg_transition_out_of_available asset_id caller_service_id [AVAILABLE; EXPIRED] DELETED "asset.delete".

Definition pg_set_eviction_policy (asset_id : string) (policy : EvictionPolicy)
    (caller_service_id : string) : DM Asset :=
  now ← utcnow;
  savepoint (
    row ← asset_row asset_id;
    raise_if (bool_decide (row_state row = DELETED)) InvalidStateTransitionError ;;
    update_assets asset_id (λ r,
      mret (r <| row_eviction_policy := policy |> <| row_updated_at := now |>)) ;;
    pg_write_audit "asset.eviction_policy_set" asset_id caller_service_id "success"
      {["eviction_policy" := eviction_value (row_eviction_policy row)]}
      {["eviction_policy" := eviction_value policy]}) ;;
  pg_load_asset asset_id.

(** [UPDATE assets SET updated_at = ... WHERE asset_id = ...] *)
Definition touch_asset (asset_id : string) (now : Z) : DM unit :=
  update_assets asset_id (λ r, mret (r <| row_updated_at := now |>)).

Definition pg_detach_alias (grace : Z) (space alias caller_service_id : string) : DM unit :=
  norm_space ← of_res (normalize_space space);
  norm_alias ← of_res (normalize_relative_alias alias);
  savepoint (
    binding ← pg_load_binding norm_space norm_alias;
    if b_mutable binding then of_res (b_qualified_alias binding) ;; raise AliasImmutableError
    else match b_asset_id binding with
    | None => of_res (b_qualified_alias binding) ;; raise InvalidStateTransitionError
    | Some asset_id =>
        on_aliases (λ t, mret (delete (norm_space, norm_alias) t)) ;;
        (if 0 <? grace then
           now ← utcnow;
           until ← of_res (datetime_add now grace);
           on_tombstones <[(norm_space, norm_alias) := until]>
         else mret tt) ;;
        key ← of_res (b_qualified_alias binding);
        pg_write_audit "alias.detach" key caller_service_id "success" {["asset_id" := asset_id]} ∅ ;;
        now ← utcnow;
        touch_asset asset_id now ;;
        pg_mark_for_gc_if_orphaned asset_id caller_service_id
    end).

Definition pg_detach_mutable_alias (space alias caller_service_id : string) : DM AliasBinding :=
  norm_space ← of_res (normalize_space space);
  norm_alias ← of_res (normalize_relative_alias alias);
  now ← utcnow;
  savepoint (
    binding ← pg_load_binding norm_space norm_alias;
    if negb (b_mutable binding) then of_res (b_qualified_alias binding) ;; raise AliasImmutableError
    else match b_asset_id binding with
    | None => of_res (b_qualified_alias binding) ;; raise InvalidStateTransitionError
    | Some old_asset_id =>
        on_aliases (update_row (norm_space, norm_alias) (λ b,
          mret (b <| b_asset_id := None |> <| b_previous_asset_id := Some old_asset_id |>
                  <| b_updated_at := now |>))) ;;
        key ← of_res (b_qualified_alias binding);
        pg_write_audit "alias.detach_mutable" key caller_service_id "success"
          {["asset_id" := old_asset_id]} {["asset_id" := ""]} ;;
        touch_asset old_asset_id now ;;
        pg_mark_for_gc_if_orphaned old_asset_id caller_service_id
    end) ;;
  pg_load_binding norm_space norm_alias.

Definition pg_rebind_alias (space alias new_asset_id caller_service_id : string) : DM AliasBinding :=
  norm_space ← of_res (normalize_space space);
  norm_alias ← of_res (normalize_relative_alias alias);
  now ← utcnow;
  savepoint (
    binding ← pg_load_binding norm_space norm_alias;
    if negb (b_mutable binding) then of_res (b_qualified_alias binding) ;; raise AliasImmutableError
    else if bool_decide (is_Some (b_asset_id binding)) then
      of_res (b_qualified_alias binding) ;; raise InvalidStateTransitionError
    else
      new_asset ← pg_load_asset new_asset_id;
      raise_if (bool_decide (a_space new_asset ≠ b_space binding)) AliasConflictError ;;
      partition ← of_res (_partition_from_scoped_alias (b_alias binding));
      raise_if (bool_decide (a_partition_id new_asset ≠ partition)) AliasConflictError ;;
      raise_if (bool_decide (a_state new_asset ≠ AVAILABLE)) InvalidStateTransitionError ;;
      let previous_asset_id := default "" (b_previous_asset_id binding) in
      on_aliases (update_row (norm_space, norm_alias) (λ b,
        mret (b <| b_asset_id := Some new_asset_id |> <| b_previous_asset_id := None |>
                <| b_updated_at := now |>))) ;;
      touch_asset new_asset_id now ;;
      key ← of_res (b_qualified_alias binding);
      pg_write_audit "alias.rebind" key caller_service_id "success"
        {["asset_id" := previous_asset_id]} {["asset_id" := new_asset_id]}) ;;
  pg_load_binding norm_space norm_alias.

Definition pg_resolve_alias (space alias : string) : DM Asset :=
  norm_space ← of_res (normalize_space space);
  norm_alias ← of_res (normalize_relative_alias alias);
  row ← select (λ db, b_asset_id <$> db_aliases db !! (norm_space, norm_alias));
  match row with
  | None => raise AliasNotFoundError
  | Some None => raise InvalidStateTransitionError
  | Some (Some asset_id) =>
      asset ← pg_load_asset asset_id;
      now ← utcnow;
      of_res (require_live asset now) ;;
      raise_if (negb (is_resolvable asset)) InvalidStateTransitionError ;;
      mret asset
  end.

Definition pg_get_partition_quota (space partition_id : string) : DM PartitionQuota :=
  norm_space ← of_res (normalize_space space);
  norm_partition ← of_res (normalize_partition_id partition_id);
  pg_partition_quota norm_space norm_partition false.

Definition pg_get_bucket_quota (space : string) : DM BucketQuota :=
  norm_space ← of_res (normalize_space space);
  pg_bucket_quota norm_space false.

Definition pg_set_partition_quota (space partition_id : string)
    (quota_bytes quota_asset_count : option Z) (sweep_enabled : option bool)
    (caller_service_id : string) : DM PartitionQuota :=
  raise_if (is_negative quota_bytes) ValidationError ;;
  raise_if (is_negative quota_asset_count) ValidationError ;;
  norm_space ← of_res (normalize_space space);
  norm_partition ← of_res (normalize_partition_id partition_id);
  savepoint (
    current ← pg_partition_quota norm_space norm_partition true;
    let sweep := default (pq_eviction_sweep_enabled current) sweep_enabled in
    on_partition_quotas (upsert_row (norm_space, norm_partition)
      (quota_bytes ← bigint_null quota_bytes;
       quota_asset_count ← bigint_null quota_asset_count;
       mret (mk_partition_quota norm_space norm_partition quota_bytes quota_asset_count
               (pq_used_bytes current) (pq_used_asset_count current) sweep))
      (λ q, mret (q <| pq_quota_bytes := quota_bytes |> <| pq_quota_asset_count := quota_asset_count |>
                    <| pq_eviction_sweep_enabled := sweep |>))) ;;
    pg_write_audit "admin.quota_set" (norm_space +:+ "/" +:+ norm_partition) caller_service_id "success"
      {["quota_bytes" := str_opt pretty (pq_quota_bytes current);
        "quota_asset_count" := str_opt pretty (pq_quota_asset_count current);
        "eviction_sweep_enabled" := str_bool (pq_eviction_sweep_enabled current)]}
      {["quota_bytes" := str_opt pretty quota_bytes;
        "quota_asset_count" := str_opt pretty quota_asset_count;
        "eviction_sweep_enabled" := str_bool sweep]}) ;;
  pg_get_partition_quota norm_space norm_partition.

Definition pg_set_bucket_quota (space : string) (quota_bytes : option Z)
    (warn_threshold hard_ceiling : spec_float) : DM BucketQuota :=
  raise_if (is_negative quota_bytes) ValidationError ;;
  norm_space ← of_res (normalize_space space);
  savepoint (
    current ← pg_bucket_quota norm_space true;
    on_bucket_quotas (upsert_row norm_space
      (quota_bytes ← bigint_null quota_bytes;
       mret (mk_bucket_quota norm_space quota_bytes (bq_used_bytes current) warn_threshold hard_ceiling))
      (λ q, mret (q <| bq_quota_bytes := quota_bytes |> <| bq_warn_threshold := warn_threshold |>
                    <| bq_hard_ceiling := hard_ceiling |>)))) ;;
  pg_get_bucket_quota norm_space.

Definition pg_audit_events : DM (list AuditEvent) := select db_audit_events.

Definition pg_record_capability_issue (caller_service_id operation scope_prefix : string)
    (ttl_seconds : Z) (outcome : string) (capability_id : option string) : DM unit :=
  let after := {["operation" := operation; "ttl_seconds" := pretty ttl_seconds]} in
  savepoint (pg_write_audit "capability.issue" scope_prefix caller_service_id outcome ∅
    match capability_id with
    | None => after
    | Some id => <["capability_fingerprint" := sha256_hexdigest (utf8_encode id)]> after
    end).

(** [SELECT COALESCE(SUM(reserved_bytes), 0) ... WHERE space = ... AND
    payload_deleted_at IS NULL] *)
Definition pg_reserved_upload_bytes (space : string) : DM Z :=
  norm_space ← of_res (normalize_space space);
  select (sum_rows (unpurged_row norm_space) reserved_column).

(** The order of the rows is open. *)
Definition pg_list_assets : DM (list Asset) :=
  select (λ db, load_row db <$>
    filter (λ row, row_payload_deleted_at row = None) ((map_to_list (db_assets db)).*2)).

(** [SELECT ... FOR UPDATE], then the asset; inside another unit of work. *)
Definition locked_asset {A} (asset_id : string) (body : Asset → DM A) : DM A :=
  savepoint (asset ← pg_load_asset asset_id; body asset).

Definition pg_record_read (asset_id : string) : DM unit :=
  now ← utcnow;
  update_assets asset_id (λ row,
    if decide (row_state row = AVAILABLE) then
      count ← bigint (row_read_count row + 1);
      mret (row <| row_last_read_at := Some now |> <| row_read_count := count |>)
    else mret row).

Definition pg_lifecycle_update (asset : Asset) (state : AssetState) (now : Z) (reason : string)
    (payload_deleted : bool) : DM Asset :=
  current ← pg_load_asset (a_asset_id asset);
  raise_if (bool_decide (current ≠ asset)) InvalidStateTransitionError ;;
  of_res (validate_cleanup_transition asset state payload_deleted) ;;
  update_assets (a_asset_id asset) (λ row, mret (row <| row_state := state |> <| row_updated_at := now |>
    <| row_expired_at := if decide (state = EXPIRED) then Some now else a_expired_at asset |>
    <| row_payload_deleted_at := if payload_deleted then Some now else a_payload_deleted_at asset |>)) ;;
  (if decide (a_state asset = AVAILABLE) then
     pg_release_quota (a_space asset) (a_partition_id asset) (default 0 (a_size_bytes asset))
   else mret tt) ;;
  pg_write_audit (lifecycle_action state payload_deleted) (a_asset_id asset) "lifecycle-worker" "success"
    {["state" := state_value (a_state asset)]}
    {["state" := state_value state; "reason" := reason]} ;;
  pg_load_asset (a_asset_id asset).

(** [WHERE ... ORDER BY id DESC LIMIT ...], and [reversed]. *)
Definition pg_recent_audit (asset_id : option string) (limit : Z) : DM (list AuditEvent) :=
  raise_if (negb ((1 <=? limit) && (limit <=? 500))) ValidationError ;;
  rows ← select (λ db, take (Z.to_nat limit)
    (filter (λ e, Is_true (concerns_asset asset_id e)) (reverse (db_audit_events db))));
  mret (reverse rows).

Definition pg_get_asset (asset_id : string) : DM Asset := pg_load_asset asset_id.

(** [except psycopg.errors.UniqueViolation: raise AliasConflictError] *)
Definition conflict_on_duplicate (m : DM unit) : DM unit :=
  catch m (λ e, if decide (e = PgUniqueViolation) then raise AliasConflictError else raise e).

Definition pg_attach_alias (asset_id alias : string) (mutable : bool) (caller_service_id : string)
    : DM AliasBinding :=
  locked_asset asset_id (λ asset,
    raise_if (bool_decide (a_state asset = DELETED)) InvalidStateTransitionError ;;
    name ← of_res (_alias_under_partition (a_partition_id asset) alias);
    pg_require_alias_name_available (a_space asset) name ;;
    now ← utcnow;
    conflict_on_duplicate (savepoint (on_aliases (insert_row (a_space asset, name)
      (mk_binding (a_space asset) name (Some asset_id) mutable None now now caller_service_id)))) ;;
    touch_asset asset_id now ;;
    pg_write_audit "alias.attach" (a_space asset +:+ "/" +:+ name) caller_service_id "success" ∅
      {["asset_id" := asset_id; "mutable" := str_bool_lower mutable]} ;;
    pg_load_binding (a_space asset) name).

Definition pg_set_asset_ttl (asset_id : string) (ttl_seconds : Z) (caller_service_id : string)
    : DM Asset :=
  locked_asset asset_id (λ asset,
    raise_if (bool_decide (a_state asset ≠ AVAILABLE ∧ a_state asset ≠ EXPIRED))
      InvalidStateTransitionError ;;
    raise_if (bool_decide (a_size_bytes asset = None ∨ a_checksum asset = None))
      InvalidStateTransitionError ;;
    now ← utcnow;
    deadline ← of_res (expiry_for (a_space asset) (Some ttl_seconds) now);
    let size := default 0 (a_size_bytes asset) in
    (if decide (a_state asset = EXPIRED) then
       pg_enforce_quota (a_space asset) (a_partition_id asset) size (Some (a_asset_id asset)) ;;
       pg_acquire_quota (a_space asset) (a_partition_id asset) size
     else mret tt) ;;
    update_assets asset_id (λ r, mret (r <| row_state := AVAILABLE |> <| row_expires_at := deadline |>
      <| row_expired_at := None |> <| row_updated_at := now |>)) ;;
    pg_write_audit "admin.ttl_set" asset_id caller_service_id "success"
      {["expires_at" := str_opt str_datetime (a_expires_at asset);
        "state" := state_value (a_state asset)]}
      {["expires_at" := str_opt str_datetime deadline; "state" := "available"]} ;;
    pg_load_asset asset_id).
End Methods.

(** [metric_reserved_upload_bytes]: its own check-out, [nan] when there is none. *)
Definition pg_metric_reserved_upload_bytes {P : ConnectionPool} (space : string)
    : M PostgresAssetRegistry spec_float := λ n s,
  let s1 := s <| pg_checkouts := S (pg_checkouts s) |> in
  if getconn_fails (pg_checkouts s) then (Ok S754_nan, n, s1)
  else
    let '(r, n', _) := pg_reserved_upload_bytes space n (pg_db s) in
    (match r with Ok bytes => float_of_int bytes | Err e => Err e end, n', s1).

(** [asset_lock], around a client's code: the unit of work and the savepoint undo
    the tables when the client raises. *)
Definition pg_asset_lock {E : Env} {P : ConnectionPool} {W A} (get : W → PostgresAssetRegistry)
    (set : PostgresAssetRegistry → W → W) (asset_id : string) (body : Asset → M W A) : M W A :=
  unit_of_work get set (nested_transaction get set (
    locked ← zoom get set (zoom pg_db set_pg_db (pg_load_asset asset_id));
    body locked)).

#[export] Instance postgres_registry {E : Env} {P : ConnectionPool}
    : Registry.AssetRegistry PostgresAssetRegistry := {|
  ar_resolve_alias := λ space alias, _transactional (pg_resolve_alias space alias);
  ar_reserve_asset := λ space partition aliases owner mime annotations policy ttl bytes,
    _transactional (pg_reserve_asset space partition aliases owner mime annotations policy ttl bytes);
  ar_commit_asset := λ i size checksum caller mime expected,
    _transactional (pg_commit_asset i size checksum caller mime expected);
  ar_record_read := λ i, _transactional (pg_record_read i);
  ar_lifecycle_update := λ asset state now reason purge,
    _transactional (pg_lifecycle_update asset state now reason purge);
  ar_list_assets := _transactional pg_list_assets;
  ar_get_partition_quota := λ space partition, _transactional (pg_get_partition_quota space partition);
  ar_get_bucket_quota := λ space, _transactional (pg_get_bucket_quota space);
  ar_asset_lock := λ W A get set, pg_asset_lock get set
|}.
