(* ===== verification/PgRelation.v ===== *)
(** * The tables that represent a registry

    [represents db r]: the rows of [db] are the in-memory registry [r], record by
    record; quota rows may be missing where they would hold defaults.  [refines]
    relates a method's SQL to the in-memory method: what the first answers, the
    second answers too, under a clock that returns the readings the first took,
    perhaps in another order. *)

From S2P Require Import Prelude Errors Python Effects Paths Models Retention Sha256 Registry RegistryInv RegistrySound PgSchema PgRegistry.

(** ** Names *)

(** The key of [space]/[alias] in memory. *)
Definition name_key (space alias : string) : string := space +:+ String "/" alias.

Lemma name_key_inj sp1 al1 sp2 al2 :
  sp1 ∈ STORAGE_BUCKETS → sp2 ∈ STORAGE_BUCKETS → name_key sp1 al1 = name_key sp2 al2 →
  sp1 = sp2 ∧ al1 = al2.
Proof.
  intros H1 H2 Heq. apply (f_equal (partition_on "/")) in Heq. unfold name_key in Heq.
  rewrite !partition_on_app in Heq by eauto with paths. by injection Heq as -> ->.
Qed.

(** A table keyed by bucket and alias, and the map keyed by the qualified alias. *)
Definition keyed {V} (m : gmap string V) (t : gmap (string * string) V) : Prop :=
  ∀ sp al, sp ∈ STORAGE_BUCKETS → m !! name_key sp al = t !! (sp, al).

Lemma keyed_insert {V} (m : gmap string V) t sp al v :
  sp ∈ STORAGE_BUCKETS → keyed m t → keyed (<[name_key sp al := v]> m) (<[(sp, al) := v]> t).
Proof.
  intros Hs Hk sp2 al2 H2. rewrite !lookup_insert. do 2 case_decide; simplify_eq; auto.
  destruct (name_key_inj sp al sp2 al2); naive_solver.
Qed.

Lemma keyed_delete {V} (m : gmap string V) t sp al :
  sp ∈ STORAGE_BUCKETS → keyed m t → keyed (delete (name_key sp al) m) (delete (sp, al) t).
Proof.
  intros Hs Hk sp2 al2 H2. rewrite !lookup_delete. do 2 case_decide; simplify_eq; auto.
  destruct (name_key_inj sp al sp2 al2); naive_solver.
Qed.

(** ** The names of an asset *)

Lemma elem_of_alias_names row aliases k :
  k ∈ alias_names row aliases ↔
  ∃ key b, aliases !! key = Some b ∧ b_asset_id b = Some (row_asset_id row) ∧
           k = name_key (row_space row) (b_alias b).
Proof.
  unfold alias_names. rewrite elem_of_list_to_set, list_elem_of_omap. split.
  - intros ([key b] & Hin%elem_of_map_to_list & H). cbn in H. case_decide; simplify_eq. by exists key, b.
  - intros (key & b & Hin & Hid & ->). exists (key, b). rewrite elem_of_map_to_list. cbn.
    by rewrite decide_True.
Qed.

(** Binding the name [(sp, al)], so far free or detached, to asset [i]. *)
Lemma alias_names_bind row aliases sp al b i :
  b_alias b = al → b_asset_id b = Some i → (∀ b0, aliases !! (sp, al) = Some b0 → b_asset_id b0 = None) →
  alias_names row (<[(sp, al) := b]> aliases) =
  if decide (row_asset_id row = i) then {[name_key (row_space row) al]} ∪ alias_names row aliases
  else alias_names row aliases.
Proof.
  intros Hal Hb Hold. apply set_eq. intros k. transitivity
    (k ∈ alias_names row aliases ∨ (row_asset_id row = i ∧ k = name_key (row_space row) al)).
  2:{ case_decide; set_solver. }
  rewrite !elem_of_alias_names. split.
  - intros (key & b' & Hk & Hid & ->). apply lookup_insert_Some in Hk as [[<- ->]|[Hne Hk]].
    + right. split; congruence.
    + left. by exists key, b'.
  - intros [(key & b' & Hk & Hid & ->)|[<- ->]].
    + exists key, b'. split; [|done]. rewrite lookup_insert_ne; [done|]. intros <-.
      rewrite (Hold _ Hk) in Hid. done.
    + exists (sp, al), b. rewrite lookup_insert_eq. by rewrite Hal.
Qed.

(** Taking the name away from asset [i]: the row is deleted or detached. *)
Lemma alias_names_unbind row aliases aliases' sp al b i :
  aliases !! (sp, al) = Some b → b_alias b = al → b_asset_id b = Some i →
  (∀ key, key ≠ (sp, al) → aliases' !! key = aliases !! key) →
  (∀ b', aliases' !! (sp, al) = Some b' → b_asset_id b' = None) →
  (∀ key b', aliases !! key = Some b' → b_asset_id b' = Some i → key = (sp, b_alias b')) →
  alias_names row aliases' =
  if decide (row_asset_id row = i) then alias_names row aliases ∖ {[name_key (row_space row) al]}
  else alias_names row aliases.
Proof.
  intros Hk Hal Hb Hother Hgone Hone. apply set_eq. intros k. transitivity
    (k ∈ alias_names row aliases ∧ ¬ (row_asset_id row = i ∧ k = name_key (row_space row) al)).
  2:{ case_decide; set_solver. }
  rewrite !elem_of_alias_names. split.
  - intros (key & b' & Hk' & Hid & ->). assert (key ≠ (sp, al)) as Hne.
    { intros ->. rewrite (Hgone _ Hk') in Hid. done. }
    rewrite Hother in Hk' by done. split; [by exists key, b'|]. intros [<- Heq]. apply Hne.
    rewrite (Hone _ _ Hk' Hid). unfold name_key in Heq. by apply (inj (String.append _)) in Heq as [= ->].
  - intros [(key & b' & Hk' & Hid & ->) Hnot]. exists key, b'. split; [|done].
    destruct (decide (key = (sp, al))) as [->|Hne]; [|by rewrite Hother].
    exfalso. apply Hnot. rewrite Hk in Hk'. injection Hk' as <-. split; congruence.
Qed.

(** ** The relation *)

Definition partition_row (pqs : gmap (string * string) PartitionQuota) (space p : string) : PartitionQuota :=
  default (default_partition_row space p) (pqs !! (space, p)).
Definition bucket_row (bqs : gmap string BucketQuota) (space : string) : BucketQuota :=
  default (new_bucket_quota space) (bqs !! space).

Record represents (db : Database) (r : Registry) : Prop := {
  rp_assets : r_assets r = load_row db <$> db_assets db;
  rp_aliases : keyed (r_aliases r) (db_aliases db);
  rp_tombstones : keyed (r_tombstones r) (db_alias_tombstones db);
  rp_partition : ∀ space p,
    partition_row (r_partition_quotas r) space p = partition_row (db_partition_quotas db) space p;
  rp_bucket : ∀ space, bucket_row (r_bucket_quotas r) space = bucket_row (db_bucket_quotas db) space;
  rp_audit : r_audit_events r = db_audit_events db
}.

(** What holds of the rows themselves: keys agree with columns, partitions and
    aliases are stored normalised. *)
Record rows_wf (db : Database) : Prop := {
  dw_row : ∀ i row, db_assets db !! i = Some row →
    row_asset_id row = i ∧ normalize_partition_id (row_partition_id row) = Ok (row_partition_id row);
  dw_alias : ∀ sp al b, db_aliases db !! (sp, al) = Some b →
    b_space b = sp ∧ b_alias b = al ∧ sp ∈ STORAGE_BUCKETS ∧ normalize_relative_alias al = Ok al;
  dw_partition : ∀ k q, db_partition_quotas db !! k = Some q → (pq_space q, pq_partition_id q) = k;
  dw_bucket : ∀ k q, db_bucket_quotas db !! k = Some q → bq_space q = k
}.

Definition rows_fresh `{Env} (n : nat) (db : Database) : Prop :=
  ∀ i, is_Some (db_assets db !! i) → ∃ m, (m < n)%nat ∧ i = new_uuid m.

Record related `{Env} (n : nat) (db : Database) (r : Registry) : Prop := {
  rl_rep : represents db r;
  rl_rows : rows_wf db;
  rl_fresh : rows_fresh n db;
  rl_wf : registry_wf n r
}.

(** ** Running the in-memory method under the readings the SQL took *)

(** The same configuration, another clock and other identifiers. *)
Definition reclock (E : Env) (f : nat → Z) (g : nat → string) : Env := {|
  clock := f;
  new_uuid := g;
  results_max_ttl_env := @results_max_ttl_env E;
  capacity_env := @capacity_env E;
  hard_ratio_env := @hard_ratio_env E
|}.

(** Failures the in-memory registry does not know: no connection, a duplicate
    key, a number beyond [bigint]. *)
Definition infrastructure (e : error) : Prop :=
  e = RegistryUnavailableError ∨ e = PgUniqueViolation ∨ e = PgNumericValueOutOfRange.

(** The clock [f] reads the times [L] from its [n]-th reading on. *)
Fixpoint readings (f : nat → Z) (n : nat) (L : list Z) : Prop :=
  match L with
  | [] => True
  | t :: L' => f n = t ∧ readings f (S n) L'
  end.

Lemma readings_app f n L1 L2 :
  readings f n (L1 ++ L2) ↔ readings f n L1 ∧ readings f (n + length L1)%nat L2.
Proof.
  revert n. induction L1 as [|t L1 IH]; intros n; cbn.
  - rewrite Nat.add_0_r. naive_solver.
  - rewrite IH, Nat.add_succ_r. cbn. naive_solver.
Qed.

Section Mimics.
Context {E : Env}.

(** [mm] ends as [Q] says when its readings are those of [L], all taken between
    [n] and [hi], and its identifier is the one drawn at [n]. *)
Definition mimics {A} (mm : Env → M Registry A) (n : nat) (r : Registry) (hi : nat)
    (Q : res A → Registry → Prop) : Prop :=
  ∃ (L : list Z) (p : nat),
    (n + p <= hi)%nat ∧
    Forall (λ t, ∃ j, (n <= j < hi)%nat ∧ t = clock j) L ∧
    ∀ f g, readings f n L → g (n + p)%nat = new_uuid n →
      wp (mm (reclock E f g)) (λ res _ r', Q res r') n r.

Definition refines {A} (mp : M Database A) (mm : Env → M Registry A) (n : nat) (db : Database)
    (r : Registry) : Prop :=
  wp mp (λ res n' db', (n <= n')%nat ∧
    match res with
    | Ok a => rows_wf db' ∧ rows_fresh n' db' ∧
              mimics mm n r n' (λ res r', res = Ok a ∧ represents db' r')
    | Err e => infrastructure e ∨ mimics mm n r n' (λ res _, res = Err e)
    end) n db.

(** An answer reached with the readings [L], drawing no identifier. *)
Lemma mimics_readings {A} (L : list Z) (mm : Env → M Registry A) n r hi Q :
  (n <= hi)%nat → Forall (λ t, ∃ j, (n <= j < hi)%nat ∧ t = clock j) L →
  (∀ f g, readings f n L → wp (mm (reclock E f g)) (λ res _ r', Q res r') n r) → mimics mm n r hi Q.
Proof. intros Hn HL Hm. exists L, 0%nat. split_and!; [lia|done|auto]. Qed.

(** An answer reached without reading the clock. *)
Lemma mimics_pure {A} (mm : Env → M Registry A) n r hi Q :
  (n <= hi)%nat → (∀ f g, wp (mm (reclock E f g)) (λ res _ r', Q res r') n r) → mimics mm n r hi Q.
Proof. intros Hn Hm. apply (mimics_readings []); auto. Qed.

Lemma rows_fresh_mono n n' db : (n <= n')%nat → rows_fresh n db → rows_fresh n' db.
Proof. intros Hn Hf i Hi. destruct (Hf i Hi) as (m & ? & ?). exists m. split; [lia|done]. Qed.

(** ** Symbolic execution of the statements *)

Lemma wp_select {A} (f : Database → A) Q n db : Q (Ok (f db)) n db → wp (select f) Q n db.
Proof. done. Qed.

Lemma wp_savepoint {A} (m : M Database A) Q n db :
  wp m (λ res n' db', Q res n' (if is_Ok res then db' else db)) n db → wp (savepoint m) Q n db.
Proof. unfold wp, savepoint. by destruct (m n db) as [[[a|e] n'] db']. Qed.

Lemma wp_on_assets f (Q : res unit → nat → Database → Prop) n db :
  (∀ t, f (db_assets db) = Ok t → Q (Ok tt) n (db <| db_assets := t |>)) →
  (∀ e, f (db_assets db) = Err e → Q (Err e) n db) → wp (on_assets f) Q n db.
Proof.
  intros H1 H2. unfold wp, on_assets, execute, mbind, res_bind.
  destruct (f (db_assets db)) as [t|e]; cbn; auto.
Qed.

Lemma wp_on_aliases f (Q : res unit → nat → Database → Prop) n db :
  (∀ t, f (db_aliases db) = Ok t → Q (Ok tt) n (db <| db_aliases := t |>)) →
  (∀ e, f (db_aliases db) = Err e → Q (Err e) n db) → wp (on_aliases f) Q n db.
Proof.
  intros H1 H2. unfold wp, on_aliases, execute, mbind, res_bind.
  destruct (f (db_aliases db)) as [t|e]; cbn; auto.
Qed.

Lemma wp_on_partition_quotas f (Q : res unit → nat → Database → Prop) n db :
  (∀ t, f (db_partition_quotas db) = Ok t → Q (Ok tt) n (db <| db_partition_quotas := t |>)) →
  (∀ e, f (db_partition_quotas db) = Err e → Q (Err e) n db) → wp (on_partition_quotas f) Q n db.
Proof.
  intros H1 H2. unfold wp, on_partition_quotas, execute, mbind, res_bind.
  destruct (f (db_partition_quotas db)) as [t|e]; cbn; auto.
Qed.

Lemma wp_on_bucket_quotas f (Q : res unit → nat → Database → Prop) n db :
  (∀ t, f (db_bucket_quotas db) = Ok t → Q (Ok tt) n (db <| db_bucket_quotas := t |>)) →
  (∀ e, f (db_bucket_quotas db) = Err e → Q (Err e) n db) → wp (on_bucket_quotas f) Q n db.
Proof.
  intros H1 H2. unfold wp, on_bucket_quotas, execute, mbind, res_bind.
  destruct (f (db_bucket_quotas db)) as [t|e]; cbn; auto.
Qed.

Lemma wp_pg_audit action target caller outcome before after (Q : res unit → nat → Database → Prop) n db :
  Q (Ok tt) (S n) (db <| db_audit_events := db_audit_events db ++
    [mk_event action target caller outcome before after (clock n)] |>) →
  wp (pg_write_audit action target caller outcome before after) Q n db.
Proof. done. Qed.

Lemma wp_asset_row i Q n db :
  (∀ row, db_assets db !! i = Some row → Q (Ok row) n db) →
  (db_assets db !! i = None → Q (Err AssetNotFoundError) n db) → wp (asset_row i) Q n db.
Proof.
  intros H1 H2. unfold asset_row. apply wp_bind, wp_select. destruct (db_assets db !! i); [by apply H1|by apply H2].
Qed.

Lemma wp_pg_load_asset i Q n db :
  (∀ row, db_assets db !! i = Some row → Q (Ok (load_row db row)) n db) →
  (db_assets db !! i = None → Q (Err AssetNotFoundError) n db) → wp (pg_load_asset i) Q n db.
Proof.
  intros H1 H2. unfold pg_load_asset. apply wp_bind, wp_asset_row; intros; [|by apply H2].
  apply wp_bind, wp_select, wp_ret. by apply H1.
Qed.

(** Reloading an asset whose row is known. *)
Lemma wp_reload i row Q n db :
  db_assets db !! i = Some row → Q (Ok (load_row db row)) n db → wp (pg_load_asset i) Q n db.
Proof. intros Hi HQ. apply wp_pg_load_asset; intros; congruence. Qed.

(** [UPDATE] of a row that is there, by a function that does not fail. *)
Lemma wp_update_asset i row row' f (Q : res unit → nat → Database → Prop) n db :
  db_assets db !! i = Some row → f row = Ok row' →
  Q (Ok tt) n (db <| db_assets := <[i := row']> (db_assets db) |>) → wp (update_assets i f) Q n db.
Proof.
  intros Hi Hf HQ. unfold update_assets. apply wp_on_assets; unfold update_row, mbind, res_bind; rewrite Hi, Hf; [|done].
  by intros ? [= <-].
Qed.

Lemma wp_update_alias k b b' f (Q : res unit → nat → Database → Prop) n db :
  db_aliases db !! k = Some b → f b = Ok b' →
  Q (Ok tt) n (db <| db_aliases := <[k := b']> (db_aliases db) |>) → wp (on_aliases (update_row k f)) Q n db.
Proof.
  intros Hb Hf HQ. apply wp_on_aliases; unfold update_row, mbind, res_bind; rewrite Hb, Hf; [|done].
  by intros ? [= <-].
Qed.

Lemma wp_pg_load_binding sp al Q n db :
  (∀ b, db_aliases db !! (sp, al) = Some b → Q (Ok b) n db) →
  (db_aliases db !! (sp, al) = None → Q (Err AliasNotFoundError) n db) → wp (pg_load_binding sp al) Q n db.
Proof.
  intros H1 H2. unfold pg_load_binding. apply wp_bind, wp_select.
  destruct (db_aliases db !! (sp, al)); [by apply H1|by apply H2].
Qed.

Lemma bigint_cases z : bigint z = Ok z ∨ bigint z = Err PgNumericValueOutOfRange.
Proof. unfold bigint. destruct (in_bigint z); auto. Qed.

Lemma bigint_null_cases z : bigint_null z = Ok z ∨ bigint_null z = Err PgNumericValueOutOfRange.
Proof. destruct z as [z|]; [|by left]. cbn. destruct (bigint_cases z) as [-> | ->]; auto. Qed.
End Mimics.
