(* ===== verification/PgQuota.v ===== *)
(** * Quotas in SQL and in memory

    Checking, acquiring and releasing quota by SQL statements has the effect of
    the in-memory helpers, row by row, default rows included. *)

From S2P Require Import Prelude Errors Python Effects Paths Models Retention Sha256 Registry RegistryInv RegistrySound PgSchema PgRegistry PgRelation.

Lemma sum_map_fmap {K A B} `{Countable K} (f : B → Z) (g : A → B) (m : gmap K A) :
  sum_map f (g <$> m) = sum_map (λ a, f (g a)) m.
Proof.
  induction m as [|k a m Hk IH] using map_ind; [by rewrite fmap_empty, !sum_map_empty|].
  rewrite fmap_insert, !sum_map_insert; [by rewrite IH|done|by rewrite lookup_fmap, Hk].
Qed.

(** A sum over assets is the sum over their rows. *)
Lemma sum_rows_assets db r (p : Asset → bool) (f : Asset → Z) :
  r_assets r = load_row db <$> db_assets db →
  sum_where p f (r_assets r) = sum_rows (λ row, p (load_row db row)) (λ row, f (load_row db row)) db.
Proof. intros ->. unfold sum_where. by rewrite sum_map_fmap. Qed.

(** What no statement on quotas touches. *)
Record same_tables (db db' : Database) : Prop := {
  st_assets : db_assets db' = db_assets db;
  st_aliases : db_aliases db' = db_aliases db;
  st_tombstones : db_alias_tombstones db' = db_alias_tombstones db;
  st_audit : db_audit_events db' = db_audit_events db
}.

#[export] Instance same_tables_preorder : PreOrder same_tables.
Proof. split; [done|]. intros ??? [] []. split; congruence. Qed.

Lemma load_row_same db db' row : same_tables db db' → load_row db' row = load_row db row.
Proof. intros [_ H _ _]. unfold load_row. by rewrite H. Qed.

(** Replacing the quota tables. *)
Lemma represents_quotas db db' r r' :
  represents db r → same_tables db db' →
  r_assets r' = r_assets r → r_aliases r' = r_aliases r → r_tombstones r' = r_tombstones r →
  r_audit_events r' = r_audit_events r →
  (∀ space p, partition_row (r_partition_quotas r') space p = partition_row (db_partition_quotas db') space p) →
  (∀ space, bucket_row (r_bucket_quotas r') space = bucket_row (db_bucket_quotas db') space) →
  represents db' r'.
Proof.
  intros [Ra Rl Rt _ _ Re] Hs Ha Hl Ht He Hp Hb. pose proof Hs as [Sa Sl St Se]. split; [|by rewrite Hl, Sl|by rewrite Ht, St|done|done|congruence].
  rewrite Ha, Ra, Sa. apply map_fmap_ext. intros. symmetry. by apply load_row_same.
Qed.

Lemma rows_wf_quotas db db' :
  rows_wf db → same_tables db db' →
  (∀ k q, db_partition_quotas db' !! k = Some q → (pq_space q, pq_partition_id q) = k) →
  (∀ k q, db_bucket_quotas db' !! k = Some q → bq_space q = k) → rows_wf db'.
Proof. intros [] [Ha Hl _ _] ? ?. split; [by rewrite Ha|by rewrite Hl|done..]. Qed.

Lemma partition_row_insert pqs sp p q sp' p' :
  partition_row (<[(sp, p) := q]> pqs) sp' p' =
  if decide ((sp', p') = (sp, p)) then q else partition_row pqs sp' p'.
Proof. unfold partition_row. rewrite lookup_insert. by repeat case_decide; simplify_eq. Qed.

Lemma bucket_row_insert bqs sp q sp' :
  bucket_row (<[sp := q]> bqs) sp' = if decide (sp' = sp) then q else bucket_row bqs sp'.
Proof. unfold bucket_row. rewrite lookup_insert. by repeat case_decide; simplify_eq. Qed.

Lemma partition_row_key pqs sp p :
  (∀ k q, pqs !! k = Some q → (pq_space q, pq_partition_id q) = k) →
  (pq_space (partition_row pqs sp p), pq_partition_id (partition_row pqs sp p)) = (sp, p).
Proof. intros Hk. unfold partition_row. destruct (pqs !! (sp, p)) eqn:Hq; cbn; [by apply Hk|done]. Qed.

Lemma bucket_row_key bqs sp :
  (∀ k q, bqs !! k = Some q → bq_space q = k) → bq_space (bucket_row bqs sp) = sp.
Proof. intros Hk. unfold bucket_row. destruct (bqs !! sp) eqn:Hq; cbn; [by apply Hk|done]. Qed.

Section Quota.
Context {E : Env}.
Implicit Types (n : nat) (db : Database) (r : Registry).

(** [SELECT ... FOR UPDATE] after the default row has been inserted. *)
Lemma wp_pg_partition_quota sp p (for_update : bool) Q n db r :
  represents db r → rows_wf db →
  (∀ db', represents db' r → rows_wf db' → same_tables db db' →
     (for_update = true → is_Some (db_partition_quotas db' !! (sp, p))) →
     partition_row (db_partition_quotas db') sp p = partition_row (db_partition_quotas db) sp p →
     Q (Ok (partition_row (r_partition_quotas r) sp p)) n db') →
  wp (pg_partition_quota sp p for_update) Q n db.
Proof.
  intros Hrep Hrows HQ. unfold pg_partition_quota.
  set (pqs := if for_update then
      match db_partition_quotas db !! (sp, p) with
      | Some _ => db_partition_quotas db
      | None => <[(sp, p) := default_partition_row sp p]> (db_partition_quotas db)
      end else db_partition_quotas db).
  assert (Hview : ∀ sp' p', partition_row pqs sp' p' = partition_row (db_partition_quotas db) sp' p').
  { intros. unfold pqs. destruct for_update; [|done]. destruct (_ !! _) eqn:Hq; [done|].
    rewrite partition_row_insert. case_decide; [|done]. simplify_eq. unfold partition_row. by rewrite Hq. }
  assert (Hkeys : ∀ k q, pqs !! k = Some q → (pq_space q, pq_partition_id q) = k).
  { intros k q. unfold pqs. destruct for_update; [destruct (_ !! (sp, p))|]; try apply (dw_partition _ Hrows).
    intros [[<- <-]|[_ Hk]]%lookup_insert_Some; [done|by apply (dw_partition _ Hrows)]. }
  cut (wp (row ← select (λ db, db_partition_quotas db !! (sp, p));
           mret match row with
                | None => default_partition_row sp p
                | Some row => mk_partition_quota sp p (pq_quota_bytes row) (pq_quota_asset_count row)
                    (pq_used_bytes row) (pq_used_asset_count row) (pq_eviction_sweep_enabled row)
                end) Q n (db <| db_partition_quotas := pqs |>)).
  { intros Hw. apply wp_bind. destruct for_update; [|by destruct db].
    unfold insert_missing. apply wp_on_partition_quotas; [|done]. by intros t [= <-]. }
  assert (Hs : same_tables db (db <| db_partition_quotas := pqs |>)) by done.
  apply wp_bind, wp_select, wp_ret. cbn. pose proof (partition_row_key pqs sp p Hkeys) as Hkey.
  replace (match pqs !! (sp, p) with Some _ => _ | None => _ end) with (partition_row (r_partition_quotas r) sp p).
  2:{ rewrite (rp_partition _ _ Hrep), <- Hview. unfold partition_row in *. destruct (pqs !! _) as [[]|]; [|done].
      cbn in *. by simplify_eq. }
  apply HQ; [by eapply represents_quotas; try done; intros; cbn; try rewrite Hview; apply Hrep
            |by eapply rows_wf_quotas; try done; apply Hrows|done| |apply Hview].
  intros ->. cbn. unfold pqs. destruct (_ !! (sp, p)) eqn:Hq; [by rewrite Hq|by rewrite lookup_insert_eq].
Qed.

Lemma wp_pg_bucket_quota sp (for_update : bool) Q n db r :
  represents db r → rows_wf db →
  (∀ db', represents db' r → rows_wf db' → same_tables db db' →
     db_partition_quotas db' = db_partition_quotas db →
     (for_update = true → is_Some (db_bucket_quotas db' !! sp)) →
     Q (Ok (bucket_row (r_bucket_quotas r) sp)) n db') →
  wp (pg_bucket_quota sp for_update) Q n db.
Proof.
  intros Hrep Hrows HQ. unfold pg_bucket_quota.
  set (bqs := if for_update then
      match db_bucket_quotas db !! sp with
      | Some _ => db_bucket_quotas db
      | None => <[sp := new_bucket_quota sp]> (db_bucket_quotas db)
      end else db_bucket_quotas db).
  assert (Hview : ∀ sp', bucket_row bqs sp' = bucket_row (db_bucket_quotas db) sp').
  { intros. unfold bqs. destruct for_update; [|done]. destruct (_ !! _) eqn:Hq; [done|].
    rewrite bucket_row_insert. case_decide; [|done]. simplify_eq. unfold bucket_row. by rewrite Hq. }
  assert (Hkeys : ∀ k q, bqs !! k = Some q → bq_space q = k).
  { intros k q. unfold bqs. destruct for_update; [destruct (_ !! sp)|]; try apply (dw_bucket _ Hrows).
    intros [[<- <-]|[_ Hk]]%lookup_insert_Some; [done|by apply (dw_bucket _ Hrows)]. }
  cut (wp (row ← select (λ db, db_bucket_quotas db !! sp);
           mret match row with
                | None => new_bucket_quota sp
                | Some row => mk_bucket_quota sp (bq_quota_bytes row) (bq_used_bytes row)
                    (bq_warn_threshold row) (bq_hard_ceiling row)
                end) Q n (db <| db_bucket_quotas := bqs |>)).
  { intros Hw. apply wp_bind. destruct for_update; [|by destruct db].
    unfold insert_missing. apply wp_on_bucket_quotas; [|done]. by intros t [= <-]. }
  assert (Hs : same_tables db (db <| db_bucket_quotas := bqs |>)) by done.
  apply wp_bind, wp_select, wp_ret. cbn. pose proof (bucket_row_key bqs sp Hkeys) as Hkey.
  replace (match bqs !! sp with Some _ => _ | None => _ end) with (bucket_row (r_bucket_quotas r) sp).
  2:{ rewrite (rp_bucket _ _ Hrep), <- Hview. unfold bucket_row in *. destruct (bqs !! _) as [[]|]; [|done].
      cbn in *. by simplify_eq. }
  apply HQ; [by eapply represents_quotas; try done; intros; cbn; try rewrite Hview; apply Hrep
            |by eapply rows_wf_quotas; try done; apply Hrows|done|done|].
  intros ->. cbn. unfold bqs. destruct (_ !! sp) eqn:Hq; [by rewrite Hq|by rewrite lookup_insert_eq].
Qed.

(** The in-memory lookups return the row, default or not. *)
Lemma find_partition_row r sp p :
  quota_keys_wf (r_partition_quotas r) (r_bucket_quotas r) → sp ∈ STORAGE_BUCKETS →
  normalize_partition_id p = Ok p →
  find_partition_quota r sp p = Ok (partition_row (r_partition_quotas r) sp p).
Proof. intros Hk Hs Hp. by destruct (find_partition_quota_run r sp p p Hk Hs Hp) as (q & -> & _ & ->). Qed.

Lemma find_bucket_row r sp :
  quota_keys_wf (r_partition_quotas r) (r_bucket_quotas r) → sp ∈ STORAGE_BUCKETS →
  find_bucket_quota r sp = Ok (bucket_row (r_bucket_quotas r) sp).
Proof. intros Hk Hs. by destruct (find_bucket_quota_run r sp Hk Hs) as (q & -> & _ & ->). Qed.

(** The check in SQL is the check in memory. *)
Lemma wp_pg_enforce_quota sp p bytes exclude Q n db r :
  represents db r → rows_wf db → quota_keys_wf (r_partition_quotas r) (r_bucket_quotas r) →
  sp ∈ STORAGE_BUCKETS → normalize_partition_id p = Ok p →
  (∀ db', represents db' r → rows_wf db' → same_tables db db' →
     Q (enforce_quota r sp p bytes exclude) n db') →
  wp (pg_enforce_quota sp p bytes exclude) Q n db.
Proof.
  intros Hrep Hrows Hk Hs Hp HQ. unfold pg_enforce_quota.
  apply wp_bind, (wp_pg_partition_quota _ _ _ _ _ _ r); [done..|]. intros db1 Hrep1 Hrows1 Hst1 _ _.
  apply wp_bind, (wp_pg_bucket_quota _ _ _ _ _ r); [done..|]. intros db2 Hrep2 Hrows2 Hst2 _ _.
  specialize (HQ db2 Hrep2 Hrows2). unfold enforce_quota in HQ.
  rewrite find_partition_row, find_bucket_row in HQ by done. unfold mbind, res_bind in HQ.
  unfold count_map in HQ. rewrite !(sum_rows_assets db2) in HQ by apply Hrep2.
  replace (sum_map _ _) with (sum_rows (pending_in sp p exclude) (λ _, 1) db2) in HQ.
  2:{ rewrite (rp_assets _ _ Hrep2), sum_map_fmap. done. }
  specialize (HQ ltac:(by etrans)). do 3 apply wp_bind, wp_select.
  change (sum_rows (λ row, is_partition_reservation sp p exclude (load_row db2 row)) _ db2)
    with (sum_rows (pending_in sp p exclude) reserved_column db2) in HQ.
  change (sum_rows (λ row, is_pending_reservation sp exclude (load_row db2 row)) _ db2)
    with (sum_rows (pending_row sp exclude) reserved_column db2) in HQ.
  apply wp_bind, wp_of_res. destruct (check_ceiling "partition" _ _ _); [|done].
  apply wp_bind, wp_raise_if; intros Hc; (destruct (pq_quota_asset_count _); [rewrite Hc in HQ|]); try done.
  all: apply wp_bind, wp_of_res; destruct capacity_limits as [limits|]; [|done].
  all: apply wp_bind; destruct (limits !! sp); [|by apply wp_ret, wp_of_res].
  all: apply wp_bind, wp_select, wp_of_res; by destruct (enforce_capacity sp _); [apply wp_of_res|].
Qed.

(** Adding to the counters of a row. *)
Definition charge_partition (bytes count : Z → Z) (q : PartitionQuota) : PartitionQuota :=
  q <| pq_used_bytes := bytes (pq_used_bytes q) |> <| pq_used_asset_count := count (pq_used_asset_count q) |>.
Definition charge_bucket (bytes : Z → Z) (q : BucketQuota) : BucketQuota :=
  q <| bq_used_bytes := bytes (bq_used_bytes q) |>.

(** Tables whose two rows have been charged, in the sense of [adjust_quota]. *)
Lemma represents_charged db db' r bytes count sp p pqs bqs :
  represents db r → rows_wf db → same_tables db db' →
  db_partition_quotas db' = pqs → db_bucket_quotas db' = bqs →
  (∀ sp' p', partition_row pqs sp' p' =
     if decide ((sp', p') = (sp, p)) then charge_partition bytes count (partition_row (db_partition_quotas db) sp p)
     else partition_row (db_partition_quotas db) sp' p') →
  (∀ sp', bucket_row bqs sp' =
     if decide (sp' = sp) then charge_bucket bytes (bucket_row (db_bucket_quotas db) sp)
     else bucket_row (db_bucket_quotas db) sp') →
  (∀ k q, pqs !! k = Some q → (pq_space q, pq_partition_id q) = k) →
  (∀ k q, bqs !! k = Some q → bq_space q = k) →
  represents db' (adjust_quota bytes count sp p r) ∧ rows_wf db'.
Proof.
  intros Hrep Hrows Hs <- <- Hp Hb Hkp Hkb. split; [|by eapply rows_wf_quotas].
  eapply represents_quotas; try done.
  - intros sp' p'. rewrite Hp. cbn. change (new_partition_quota sp p _) with (default_partition_row sp p).
    rewrite partition_row_insert. case_decide; [|apply Hrep]. unfold charge_partition.
    by rewrite <- (rp_partition _ _ Hrep).
  - intros sp'. rewrite Hb. cbn. rewrite bucket_row_insert. case_decide; [|apply Hrep].
    unfold charge_bucket. by rewrite <- (rp_bucket _ _ Hrep).
Qed.

Lemma wp_pg_acquire_quota sp p nbytes (Q : res unit → nat → Database → Prop) n db r :
  represents db r → rows_wf db →
  (∀ e db', infrastructure e → Q (Err e) n db') →
  (∀ db', represents db' (adjust_quota (λ u, u + nbytes) (λ c, c + 1) sp p r) → rows_wf db' →
     same_tables db db' → Q (Ok tt) n db') →
  wp (pg_acquire_quota sp p nbytes) Q n db.
Proof.
  intros Hrep Hrows Herr HQ. unfold pg_acquire_quota.
  assert (Hinf : ∀ db', Q (Err PgNumericValueOutOfRange) n db') by (intros; apply Herr; right; by right).
  pose proof (partition_row_key (db_partition_quotas db) sp p (dw_partition _ Hrows)) as Hkey.
  pose proof (bucket_row_key (db_bucket_quotas db) sp (dw_bucket _ Hrows)) as Hbkey.
  set (pq := charge_partition (λ u, u + nbytes) (λ c, c + 1) (partition_row (db_partition_quotas db) sp p)).
  set (bq := charge_bucket (λ u, u + nbytes) (bucket_row (db_bucket_quotas db) sp)).
  apply wp_bind, wp_on_partition_quotas; unfold upsert_row, mbind, res_bind.
  2:{ intros e. destruct (bigint_cases nbytes) as [-> | ->]; [|by intros [= <-]]. cbn.
      destruct (db_partition_quotas db !! (sp, p)) as [q|]; [|done].
      destruct (bigint_cases (pq_used_bytes q + nbytes)) as [-> | ->]; [|by intros [= <-]].
      destruct (bigint_cases (pq_used_asset_count q + 1)) as [-> | ->]; [done|by intros [= <-]]. }
  intros t Ht. assert (t = <[(sp, p) := pq]> (db_partition_quotas db)) as ->.
  { revert Ht. unfold pq, partition_row. destruct (bigint_cases nbytes) as [-> | ->]; [|done]. cbn.
    destruct (db_partition_quotas db !! (sp, p)) as [q|]; [|by intros [= <-]]. cbn.
    destruct (bigint_cases (pq_used_bytes q + nbytes)) as [-> | ->]; [|done].
    destruct (bigint_cases (pq_used_asset_count q + 1)) as [-> | ->]; [|done]. by intros [= <-]. }
  apply wp_on_bucket_quotas; unfold upsert_row, mbind, res_bind; cbn [db_bucket_quotas replace_field replace_db_partition_quotas].
  2:{ intros e. destruct (bigint_cases nbytes) as [-> | ->]; [|by intros [= <-]]. cbn.
      destruct (db_bucket_quotas db !! sp) as [q|]; [|done].
      destruct (bigint_cases (bq_used_bytes q + nbytes)) as [-> | ->]; [done|by intros [= <-]]. }
  intros t Ht2. assert (t = <[sp := bq]> (db_bucket_quotas db)) as ->.
  { revert Ht2. unfold bq, bucket_row. destruct (bigint_cases nbytes) as [-> | ->]; [|done]. cbn.
    destruct (db_bucket_quotas db !! sp) as [q|]; [|by intros [= <-]]. cbn.
    destruct (bigint_cases (bq_used_bytes q + nbytes)) as [-> | ->]; [|done]. by intros [= <-]. }
  destruct (represents_charged db
      (db <| db_partition_quotas := <[(sp, p) := pq]> (db_partition_quotas db) |>
          <| db_bucket_quotas := <[sp := bq]> (db_bucket_quotas db) |>)
      r (λ u, u + nbytes) (λ c, c + 1) sp p _ _ Hrep Hrows ltac:(done) eq_refl eq_refl) as [H1 H2].
  - intros sp' p'. cbn. by rewrite partition_row_insert.
  - intros sp'. cbn. by rewrite bucket_row_insert.
  - cbn. intros k q [[<- <-]|[_ Hk]]%lookup_insert_Some; [done|by apply (dw_partition _ Hrows)].
  - cbn. intros k q [[<- <-]|[_ Hk]]%lookup_insert_Some; [done|by apply (dw_bucket _ Hrows)].
  - by apply HQ.
Qed.

(** A missing row stays missing, which is a row of zeros. *)
Lemma wp_pg_release_quota sp p nbytes (Q : res unit → nat → Database → Prop) n db r :
  represents db r → rows_wf db → 0 <= nbytes →
  (∀ e db', infrastructure e → Q (Err e) n db') →
  (∀ db', represents db' (adjust_quota (λ u, Z.max 0 (u - nbytes)) (λ c, Z.max 0 (c - 1)) sp p r) →
     rows_wf db' → same_tables db db' → Q (Ok tt) n db') →
  wp (pg_release_quota sp p nbytes) Q n db.
Proof.
  intros Hrep Hrows Hn Herr HQ. unfold pg_release_quota.
  assert (Hinf : ∀ db', Q (Err PgNumericValueOutOfRange) n db') by (intros; apply Herr; right; by right).
  set (bytes := λ u, Z.max 0 (u - nbytes)) in *. set (count := λ c, Z.max 0 (c - 1)) in *.
  apply wp_bind, wp_on_partition_quotas; unfold update_row, mbind, res_bind.
  2:{ intros e. destruct (db_partition_quotas db !! (sp, p)) as [q|]; [|done].
      destruct (bigint_cases (pq_used_bytes q - nbytes)) as [-> | ->]; [|by intros [= <-]].
      destruct (bigint_cases (pq_used_asset_count q - 1)) as [-> | ->]; [done|by intros [= <-]]. }
  intros pqs Ht. assert (pqs = match db_partition_quotas db !! (sp, p) with
      | Some q => <[(sp, p) := charge_partition bytes count q]> (db_partition_quotas db)
      | None => db_partition_quotas db end) as Hpqs.
  { revert Ht. destruct (db_partition_quotas db !! (sp, p)) as [q|]; [|by intros [= <-]].
    destruct (bigint_cases (pq_used_bytes q - nbytes)) as [-> | ->]; [|done].
    destruct (bigint_cases (pq_used_asset_count q - 1)) as [-> | ->]; [|done]. by intros [= <-]. }
  apply wp_on_bucket_quotas; unfold update_row, mbind, res_bind; cbn [db_bucket_quotas replace_field replace_db_partition_quotas].
  2:{ intros e. destruct (db_bucket_quotas db !! sp) as [q|]; [|done].
      destruct (bigint_cases (bq_used_bytes q - nbytes)) as [-> | ->]; [done|by intros [= <-]]. }
  intros bqs Ht2. assert (bqs = match db_bucket_quotas db !! sp with
      | Some q => <[sp := charge_bucket bytes q]> (db_bucket_quotas db)
      | None => db_bucket_quotas db end) as Hbqs.
  { revert Ht2. destruct (db_bucket_quotas db !! sp) as [q|]; [|by intros [= <-]].
    destruct (bigint_cases (bq_used_bytes q - nbytes)) as [-> | ->]; [|done]. by intros [= <-]. }
  destruct (represents_charged db (db <| db_partition_quotas := pqs |> <| db_bucket_quotas := bqs |>)
      r bytes count sp p _ _ Hrep Hrows ltac:(done) eq_refl eq_refl) as [H1 H2]; cbn; [..|by apply HQ].
  - intros sp' p'. rewrite Hpqs. destruct (_ !! (sp, p)) as [q|] eqn:Hq.
    + rewrite partition_row_insert. unfold partition_row at 2. by rewrite Hq.
    + case_decide as Heq; [|done]. injection Heq as -> ->. unfold partition_row. rewrite Hq. unfold charge_partition, bytes, count.
      cbn. by rewrite !Z.max_l by lia.
  - intros sp'. rewrite Hbqs. destruct (_ !! sp) as [q|] eqn:Hq.
    + rewrite bucket_row_insert. unfold bucket_row at 2. by rewrite Hq.
    + case_decide as Heq; [|done]. subst sp'. unfold bucket_row. rewrite Hq. unfold charge_bucket, bytes.
      cbn. by rewrite !Z.max_l by lia.
  - intros k q. rewrite Hpqs. destruct (_ !! (sp, p)) as [q'|] eqn:Hq; [|by apply (dw_partition _ Hrows)].
    intros [[<- <-]|[_ Hk]]%lookup_insert_Some; [|by apply (dw_partition _ Hrows)].
    by apply (dw_partition _ Hrows) in Hq.
  - intros k q. rewrite Hbqs. destruct (_ !! sp) as [q'|] eqn:Hq; [|by apply (dw_bucket _ Hrows)].
    intros [[<- <-]|[_ Hk]]%lookup_insert_Some; [|by apply (dw_bucket _ Hrows)].
    by apply (dw_bucket _ Hrows) in Hq.
Qed.
End Quota.
