(* ===== verification/PgMethods.v ===== *)
(** * Each Postgres method refines the in-memory one

    One lemma [refines_m] per method. *)

From S2P Require Import Prelude Errors Python Effects Paths Models Retention Sha256 Registry RegistryInv RegistrySound PgSchema PgRegistry PgRelation PgQuota.

Section Methods.
Context {E : Env}.
Implicit Types (n : nat) (db : Database) (r : Registry).

(** ** Writes on both sides *)

Lemma lookup_row db r i row :
  represents db r → db_assets db !! i = Some row → r_assets r !! i = Some (load_row db row).
Proof. intros [-> _ _ _ _ _] Hi. by rewrite lookup_fmap, Hi. Qed.

Lemma lookup_no_row db r i : represents db r → db_assets db !! i = None → r_assets r !! i = None.
Proof. intros [-> _ _ _ _ _] Hi. by rewrite lookup_fmap, Hi. Qed.

Lemma load_row_aliases db db' row : db_aliases db' = db_aliases db → load_row db' row = load_row db row.
Proof. unfold load_row. by intros ->. Qed.

(** Overwriting a row, its identity kept. *)
Record same_identity (row row' : AssetRow) : Prop := {
  si_id : row_asset_id row' = row_asset_id row;
  si_space : row_space row' = row_space row;
  si_partition : row_partition_id row' = row_partition_id row
}.

Lemma represents_put db r i row' :
  represents db r →
  represents (db <| db_assets := <[i := row']> (db_assets db) |>)
             (r <| r_assets := <[i := load_row db row']> (r_assets r) |>).
Proof. intros []. split; try done. cbn. rewrite rp_assets, fmap_insert. done. Qed.

Lemma rows_wf_put db i row row' :
  rows_wf db → db_assets db !! i = Some row → same_identity row row' →
  rows_wf (db <| db_assets := <[i := row']> (db_assets db) |>).
Proof.
  intros [Hr ? ? ?] Hi [H1 _ H3]. split; try done. cbn.
  intros j row2 [[<- <-]|[_ Hj]]%lookup_insert_Some; [|by apply Hr]. rewrite H1, H3. by apply Hr.
Qed.

Lemma rows_fresh_put n n' db db' i row row' :
  rows_fresh n db → (n <= n')%nat → db_assets db !! i = Some row →
  db_assets db' = <[i := row']> (db_assets db) → rows_fresh n' db'.
Proof.
  intros Hf Hn Hi Hdb j Hj. rewrite Hdb in Hj. apply (rows_fresh_mono _ _ _ Hn Hf).
  rewrite lookup_insert in Hj. case_decide; [subst; by eexists|done].
Qed.

Lemma represents_audit db r e :
  represents db r →
  represents (db <| db_audit_events := db_audit_events db ++ [e] |>)
             (r <| r_audit_events := r_audit_events r ++ [e] |>).
Proof. intros []. split; try done. cbn. by rewrite rp_audit. Qed.

Lemma rows_wf_audit db es : rows_wf db → rows_wf (db <| db_audit_events := es |>).
Proof. by intros []. Qed.

(** ** Executing the in-memory method *)

Lemma wp_get_known i a Q n r : r_assets r !! i = Some a → Q (Ok a) n r → wp (_get_asset i) Q n r.
Proof. intros Hi HQ. apply wp_get_asset; intros; congruence. Qed.

Lemma wp_get_unknown i Q n r :
  r_assets r !! i = None → Q (Err AssetNotFoundError) n r → wp (_get_asset i) Q n r.
Proof. intros Hi HQ. apply wp_get_asset; intros; congruence. Qed.

Lemma wp_get_binding space alias b Q n r :
  find_binding r space alias = b → Q b n r → wp (_get_binding space alias) Q n r.
Proof. by intros <-. Qed.

Lemma wp_enforce f g space p bytes exclude res Q n r :
  enforce_quota r space p bytes exclude = res → Q res n r →
  wp (@_enforce_quota (reclock E f g) space p bytes exclude) Q n r.
Proof. by intros <-. Qed.

Lemma wp_find_partition space p q Q n r :
  find_partition_quota r space p = q → Q q n r → wp (_partition_quota space p) Q n r.
Proof. by intros <-. Qed.

Lemma wp_find_bucket space q Q n r :
  find_bucket_quota r space = q → Q q n r → wp (_bucket_quota space) Q n r.
Proof. by intros <-. Qed.

Lemma wp_passes {S} (b : bool) e (Q : res unit → nat → S → Prop) n s :
  b = false → Q (Ok tt) n s → wp (raise_if b e) Q n s.
Proof. by intros ->. Qed.

Lemma wp_refuses {S} (b : bool) e (Q : res unit → nat → S → Prop) n s :
  b = true → Q (Err e) n s → wp (raise_if b e) Q n s.
Proof. by intros ->. Qed.
End Methods.

(** Steps whose outcome is known. *)
Ltac mem_step :=
  lazymatch goal with
  | |- wp (_get_asset _) _ _ _ =>
      first [eapply wp_get_known; [eassumption|] | eapply wp_get_unknown; [eassumption|]]
  | |- wp (_get_binding _ _) _ _ _ => eapply wp_get_binding; [eassumption|]
  | |- wp (_enforce_quota _ _ _ _) _ _ _ => eapply wp_enforce; [eassumption|]
  | |- wp (_partition_quota _ _) _ _ _ => eapply wp_find_partition; [eassumption|]
  | |- wp (_bucket_quota _) _ _ _ => eapply wp_find_bucket; [eassumption|]
  | |- wp (put_partition_quota _) _ _ _ => apply wp_modify
  | |- wp (put_bucket_quota _) _ _ _ => apply wp_modify
  | |- wp (raise_if _ _) _ _ _ =>
      first [apply wp_passes; [eassumption|] | apply wp_refuses; [eassumption|]]
  | |- wp (_audit _ _ _ _ _ _) _ _ _ => apply wp_audit
  | |- wp (put_asset _ _) _ _ _ => apply wp_put_asset
  | |- wp (put_alias _ _) _ _ _ => apply wp_put_alias
  | |- wp (_ ≫= _) _ _ _ => apply wp_bind
  | |- wp (mret _) _ _ _ => apply wp_ret
  | |- wp (raise _) _ _ _ => apply wp_raise
  | |- wp get_state _ _ _ => apply wp_get
  | |- wp (modify _) _ _ _ => apply wp_modify
  | |- wp utcnow _ _ _ => apply wp_utcnow
  | |- wp draw_uuid _ _ _ => apply wp_draw_uuid
  | |- wp (of_res ?x) _ _ _ => apply wp_of_res; try match goal with H : x = _ |- _ => rewrite H end
  end; cbv beta iota.

(** The readings of the in-memory method's clock. *)
Ltac mem_clock F :=
  match goal with
  | |- context [@clock (reclock ?E ?f ?g)] =>
      change (@clock (reclock E f g)) with f; rewrite ?F;
      change (@expiry_for (reclock E f g)) with (@expiry_for E)
  end;
  repeat match goal with
  | |- context [a_space (load_row ?db ?row)] => change (a_space (load_row db row)) with (row_space row)
  end.

(** The listed times were read between the two bounds. *)
Ltac taken :=
  rewrite ?Forall_cons, Forall_nil; split_and?; try exact I; eexists; (split; [|reflexivity]); lia.

(** The rows are those of before, one of them updated. *)
Ltac fresh_put :=
  eapply rows_fresh_put; [eassumption|lia|eassumption|first [eassumption|reflexivity]].

Ltac mem_steps := repeat mem_step.

(** A step that reads no clock on the in-memory side. *)
Ltac mem_pure := split; [lia|right]; apply mimics_pure; [lia|intros f g].

Section Refinements.
Context {E : Env}.
Implicit Types (n : nat) (db : Database) (r : Registry).

Lemma refines_set_eviction_policy i policy caller n db r :
  related n db r →
  refines (pg_set_eviction_policy i policy caller) (λ E', @set_eviction_policy E' i policy caller) n db r.
Proof.
  intros [Hrep Hrows Hfresh Hwf]. unfold refines, pg_set_eviction_policy.
  apply wp_bind, wp_utcnow, wp_bind, wp_savepoint, wp_bind, wp_asset_row.
  2:{ intros Hi%(lookup_no_row _ _ _ Hrep). split; [lia|right]. apply mimics_pure; [lia|intros f g].
      unfold set_eviction_policy. by mem_steps. }
  intros row Hi. pose proof (lookup_row _ _ _ _ Hrep Hi) as Hri.
  apply wp_bind, wp_raise_if; intros Hs.
  { split; [lia|right]. apply mimics_pure; [lia|intros f g]. unfold set_eviction_policy. by mem_steps. }
  apply wp_bind; eapply wp_update_asset; [exact Hi|reflexivity|]. apply wp_pg_audit.
  cbn [is_Ok]. eapply wp_reload; [apply lookup_insert_eq|]. split; [lia|].
  split_and!; [by apply rows_wf_audit, (rows_wf_put _ _ row)|fresh_put|].
  apply (mimics_readings [clock n; clock (S n)]); [lia|taken|].
  intros f g (F0 & F1 & _). unfold set_eviction_policy. mem_steps.
  change (@clock (reclock E f g)) with f. rewrite F0, F1. split; [done|].
  exact (represents_audit _ _ _ (represents_put _ _ _ _ Hrep)).
Qed.

Lemma refines_update_annotations i patch caller overwrite n db r :
  related n db r →
  refines (pg_update_annotations i patch caller overwrite)
          (λ E', @update_annotations E' i patch caller overwrite) n db r.
Proof.
  intros [Hrep Hrows Hfresh Hwf]. unfold refines, pg_update_annotations.
  apply wp_bind, wp_utcnow, wp_bind, wp_savepoint, wp_bind, wp_asset_row.
  2:{ intros Hi%(lookup_no_row _ _ _ Hrep). mem_pure. unfold update_annotations. by mem_steps. }
  intros row Hi. pose proof (lookup_row _ _ _ _ Hrep Hi) as Hri.
  apply wp_bind, wp_raise_if; intros Hs.
  { mem_pure. unfold update_annotations. by mem_steps. }
  apply wp_bind; eapply wp_update_asset; [exact Hi|reflexivity|]. apply wp_pg_audit.
  cbn [is_Ok]. eapply wp_reload; [apply lookup_insert_eq|]. split; [lia|].
  split_and!; [by apply rows_wf_audit, (rows_wf_put _ _ row)|fresh_put|].
  apply (mimics_readings [clock n; clock (S n)]); [lia|taken|].
  intros f g (F0 & F1 & _). unfold update_annotations. mem_steps.
  change (@clock (reclock E f g)) with f. rewrite F0, F1. split; [done|].
  exact (represents_audit _ _ _ (represents_put _ _ _ _ Hrep)).
Qed.

Lemma refines_record_capability_issue caller op scope ttl outcome id n db r :
  related n db r →
  refines (pg_record_capability_issue caller op scope ttl outcome id)
          (λ E', @record_capability_issue E' caller op scope ttl outcome id) n db r.
Proof.
  intros [Hrep Hrows Hfresh Hwf]. unfold refines, pg_record_capability_issue.
  apply wp_savepoint, wp_pg_audit. split; [lia|]. cbn [is_Ok].
  split_and!; [by apply rows_wf_audit|by apply (rows_fresh_mono n); [lia|]|].
  apply (mimics_readings [clock n]); [lia|taken|].
  intros f g (F0 & _). unfold record_capability_issue. mem_steps.
  change (@clock (reclock E f g)) with f. rewrite F0. split; [done|]. exact (represents_audit _ _ _ Hrep).
Qed.

Lemma take_reverse {A} (k : nat) (l : list A) : reverse (take k (reverse l)) = drop (length l - k) l.
Proof.
  unfold reverse. rewrite <- !rev_alt, firstn_rev. apply rev_involutive.
Qed.

Lemma filter_reverse {A} (P : A → Prop) `{∀ x, Decision (P x)} (l : list A) :
  filter P (reverse l) = reverse (filter P l).
Proof.
  induction l as [|x l IH]; [done|]. rewrite reverse_cons, filter_app, IH, !filter_cons.
  rewrite filter_nil. case_decide; [by rewrite reverse_cons|by rewrite app_nil_r].
Qed.

Lemma refines_recent_audit asset_id limit n db r :
  related n db r →
  refines (pg_recent_audit asset_id limit) (λ E', recent_audit asset_id limit) n db r.
Proof.
  intros [Hrep Hrows Hfresh Hwf]. unfold refines, pg_recent_audit.
  apply wp_bind, wp_raise_if; intros Hl. { mem_pure. unfold recent_audit. by mem_steps. }
  apply wp_bind, wp_select, wp_ret. split; [lia|]. split_and!; [done|done|].
  apply mimics_pure; [lia|intros f g]. unfold recent_audit. mem_step. mem_step.
  apply wp_reads. split; [|done]. by rewrite filter_reverse, take_reverse, (rp_audit _ _ Hrep).
Qed.

(** ** Names *)

(** Normalising the alias twice is normalising it once. *)
Definition stable_alias (alias : string) : Prop :=
  ∀ al, normalize_relative_alias alias = Ok al → normalize_relative_alias al = Ok al.

Lemma qualified_key sp al :
  sp ∈ STORAGE_BUCKETS → normalize_relative_alias al = Ok al → qualified_alias sp al = Ok (name_key sp al).
Proof.
  intros Hs Ha. unfold qualified_alias, mbind, res_bind, normalize_space. by rewrite normalize_bucket_fix, Ha.
Qed.

Lemma find_binding_row db r space alias sp al :
  represents db r → normalize_space space = Ok sp → normalize_relative_alias alias = Ok al →
  normalize_relative_alias al = Ok al →
  find_binding r space alias =
  match db_aliases db !! (sp, al) with Some b => Ok b | None => Err AliasNotFoundError end.
Proof.
  intros Hrep Hs Ha Hal. unfold find_binding, mbind, res_bind. rewrite Hs, Ha.
  apply normalize_bucket_member in Hs. rewrite qualified_key by done.
  by rewrite <- (rp_aliases _ _ Hrep).
Qed.

Lemma binding_key db sp al b :
  rows_wf db → db_aliases db !! (sp, al) = Some b → b_qualified_alias b = Ok (name_key sp al).
Proof.
  intros Hrows Hb. destruct (dw_alias _ Hrows _ _ _ Hb) as (<- & <- & ? & ?). by apply qualified_key.
Qed.

Lemma find_binding_space r space alias e :
  normalize_space space = Err e → find_binding r space alias = Err e.
Proof. unfold find_binding, mbind, res_bind. by intros ->. Qed.

Lemma find_binding_alias r space alias sp e :
  normalize_space space = Ok sp → normalize_relative_alias alias = Err e → find_binding r space alias = Err e.
Proof. unfold find_binding, mbind, res_bind. by intros -> ->. Qed.

Lemma refines_resolve_alias space alias n db r :
  stable_alias alias → related n db r →
  refines (pg_resolve_alias space alias) (λ E', @resolve_alias E' space alias) n db r.
Proof.
  intros Hstable [Hrep Hrows Hfresh Hwf]. unfold refines, pg_resolve_alias.
  apply wp_bind, wp_of_res. destruct (normalize_space space) as [sp|e] eqn:Hs.
  2:{ apply (find_binding_space r _ alias) in Hs. mem_pure. unfold resolve_alias. by mem_steps. }
  apply wp_bind, wp_of_res. destruct (normalize_relative_alias alias) as [al|e] eqn:Ha.
  2:{ apply (find_binding_alias r _ _ _ _ Hs) in Ha. mem_pure. unfold resolve_alias. by mem_steps. }
  pose proof (find_binding_row db r space alias sp al Hrep Hs Ha (Hstable _ Ha)) as Hfind.
  apply wp_bind, wp_select. destruct (db_aliases db !! (sp, al)) as [b|] eqn:Hb; cbn.
  2:{ mem_pure. unfold resolve_alias. by mem_steps. }
  pose proof (binding_key _ _ _ _ Hrows Hb) as Hkey.
  destruct (b_asset_id b) as [i|] eqn:Hid.
  2:{ mem_pure. unfold resolve_alias, raise_about. mem_step. mem_step. rewrite Hid. by mem_steps. }
  apply wp_bind, wp_pg_load_asset.
  2:{ intros Hi%(lookup_no_row _ _ _ Hrep). mem_pure. unfold resolve_alias.
      mem_step. mem_step. rewrite Hid. by mem_steps. }
  intros row Hi. pose proof (lookup_row _ _ _ _ Hrep Hi) as Hri.
  assert (Hmem : ∀ f g Q, readings f n [clock n] →
    wp (of_res (require_live (load_row db row) (clock n)) ;;
        raise_if (negb (is_resolvable (load_row db row))) InvalidStateTransitionError ;;
        mret (load_row db row)) Q (S n) r →
    wp (@resolve_alias (reclock E f g) space alias) Q n r).
  { intros f g Q [F0 _] HQ. unfold resolve_alias. mem_step. mem_step. rewrite Hid. do 4 mem_step.
    change (@clock (reclock E f g) n) with (f n). by rewrite F0. }
  apply wp_bind, wp_utcnow, wp_bind, wp_of_res.
  destruct (require_live (load_row db row) (clock n)) as [[]|e] eqn:Hl.
  2:{ split; [lia|right]. apply (mimics_readings [clock n]); [lia|taken|]. intros f g HL. by apply Hmem. }
  apply wp_bind, wp_raise_if; intros Hr; [split; [lia|right]|apply wp_ret; split; [lia|]; split_and!; try done].
  - apply (mimics_readings [clock n]); [lia|taken|]. intros f g HL. apply Hmem; [done|]. by mem_steps.
  - by apply (rows_fresh_mono n); [lia|].
  - apply (mimics_readings [clock n]); [lia|taken|]. intros f g HL. apply Hmem; [done|]. by mem_steps.
Qed.

(** ** Commits and transitions *)

Lemma row_partition_normal n db r i row :
  related n db r → db_assets db !! i = Some row →
  row_space row ∈ STORAGE_BUCKETS ∧ normalize_partition_id (row_partition_id row) = Ok (row_partition_id row) ∧
  row_asset_id row = i ∧ asset_wf i (load_row db row).
Proof.
  intros [Hrep Hrows _ Hwf] Hi. destruct (dw_row _ Hrows _ _ Hi). pose proof (lookup_row _ _ _ _ Hrep Hi) as Hri.
  pose proof (get_wf _ _ _ _ Hwf Hri) as Ha. split_and!; try done. apply (aw_space _ _ Ha).
Qed.

Lemma refines_commit_asset i size checksum caller mime expected n db r :
  related n db r →
  refines (pg_commit_asset i size checksum caller mime expected)
          (λ E', @commit_asset E' i size checksum caller mime expected) n db r.
Proof.
  intros Hrel. pose proof Hrel as [Hrep Hrows Hfresh Hwf]. unfold refines, pg_commit_asset.
  apply wp_bind, wp_raise_if; intros H1. { mem_pure. unfold commit_asset. by mem_steps. }
  apply wp_bind, wp_raise_if; intros H2. { mem_pure. unfold commit_asset. by mem_steps. }
  apply wp_bind, wp_raise_if; intros H3. { mem_pure. unfold commit_asset. by mem_steps. }
  apply wp_bind, wp_utcnow, wp_bind, wp_savepoint, wp_bind, wp_asset_row.
  2:{ intros Hi%(lookup_no_row _ _ _ Hrep). mem_pure. unfold commit_asset. by mem_steps. }
  intros row Hi. pose proof (lookup_row _ _ _ _ Hrep Hi) as Hri.
  destruct (row_partition_normal _ _ _ _ _ Hrel Hi) as (Hsp & Hpart & Hid & _).
  apply wp_bind, wp_raise_if; intros H4. { mem_pure. unfold commit_asset. by mem_steps. }
  apply wp_bind, wp_raise_if; intros H5. { mem_pure. unfold commit_asset. by mem_steps. }
  apply wp_bind, (wp_pg_enforce_quota _ _ _ _ _ _ _ r); try done; [by apply Hwf|].
  intros db1 Hrep1 Hrows1 Hst1. destruct (enforce_quota _ _ _ _ _) as [[]|e] eqn:Hq.
  2:{ mem_pure. unfold commit_asset. by mem_steps. }
  assert (Hi1 : db_assets db1 !! i = Some row) by (by rewrite (st_assets _ _ Hst1)).
  destruct (bigint_cases size) as [Hbig|Hbig].
  2:{ apply wp_bind, wp_on_assets; unfold update_row, mbind, res_bind; rewrite Hi1, Hbig; [done|].
      intros e [= <-]. split; [lia|left; right; by right]. }
  apply wp_bind; eapply wp_update_asset; [exact Hi1|by rewrite Hbig|].
  set (row' := row <| row_state := AVAILABLE |> <| row_size_bytes := Some size |>
              <| row_checksum := Some (strip checksum) |> <| row_mime := or_mime mime (row_mime row) |>
              <| row_updated_at := clock n |> <| row_reserved_bytes := None |>).
  pose proof (represents_put db1 r i row' Hrep1) as Hrep2.
  apply wp_bind. eapply (wp_pg_acquire_quota _ _ _ _ _ _ _ Hrep2); [by apply (rows_wf_put _ _ row)| |].
  { intros e db2 He. split; [lia|by left]. }
  intros db2 Hrep3 Hrows3 Hst3. apply wp_pg_audit. cbn [is_Ok].
  assert (Hi3 : db_assets db2 !! i = Some row') by (rewrite (st_assets _ _ Hst3); apply lookup_insert_eq).
  eapply wp_reload; [exact Hi3|]. split; [lia|]. split_and!; [by apply rows_wf_audit| |].
  { eapply rows_fresh_put; [exact Hfresh|lia|exact Hi|]. cbn. rewrite (st_assets _ _ Hst3). cbn.
    by rewrite (st_assets _ _ Hst1). }
  apply (mimics_readings [clock n; clock (S n)]); [lia|taken|].
  intros f g (F0 & F1 & _). unfold commit_asset. mem_steps.
  eapply wp_acquire_quota; [by apply Hwf|exact Hsp|exact Hpart|]. mem_steps.
  change (@clock (reclock E f g)) with f. rewrite F0, F1.
  assert (row_state row = PENDING) as Hst by (guards; by apply dec_stable).
  rewrite (load_row_same db db1) in Hrep3 by done. split.
  - f_equal. symmetry. apply (load_row_aliases db). cbn. rewrite (st_aliases _ _ Hst3). apply Hst1.
  - rewrite <- Hst. exact (represents_audit _ _ _ Hrep3).
Qed.

(** Releasing the usage of an asset that leaves the available state. *)
Lemma wp_pg_release_state db0 i row (Q : res unit → nat → Database → Prop) n db r :
  represents db r → rows_wf db → asset_wf i (load_row db0 row) →
  (∀ e db', infrastructure e → Q (Err e) n db') →
  (∀ db', represents db' (release_state (load_row db0 row) (row_partition_id row) r) → rows_wf db' →
     same_tables db db' → Q (Ok tt) n db') →
  wp (if decide (row_state row = AVAILABLE) then
        pg_release_quota (row_space row) (row_partition_id row) (default 0 (row_size_bytes row))
      else mret tt) Q n db.
Proof.
  intros Hrep Hrows Ha Herr HQ. unfold release_state in HQ. cbn [a_state load_row _asset_from_row] in HQ.
  destruct (decide (row_state row = AVAILABLE)); [|by apply wp_ret, HQ].
  apply (wp_pg_release_quota _ _ _ _ _ _ r); try done.
  pose proof (aw_size _ _ Ha) as Hs. cbn in Hs. destruct (row_size_bytes row); cbn; [by apply Hs|lia].
Qed.

(** A row that leaves its state, and the release of its usage. *)
Lemma wp_pg_leave {B} (k : M Database B) i row row' Q f n db r :
  represents db r → rows_wf db → asset_wf i (load_row db row) →
  db_assets db !! i = Some row → f row = Ok row' → same_identity row row' →
  (∀ e db', infrastructure e → Q (Err e) n db') →
  (∀ db', represents db' (release_state (load_row db row) (row_partition_id row)
                            (r <| r_assets := <[i := load_row db row']> (r_assets r) |>)) →
     rows_wf db' → db_assets db' = <[i := row']> (db_assets db) → db_aliases db' = db_aliases db →
     wp k Q n db') →
  wp (update_assets i f ;;
      (if decide (row_state row = AVAILABLE) then
         pg_release_quota (row_space row) (row_partition_id row) (default 0 (row_size_bytes row))
       else mret tt) ;; k) Q n db.
Proof.
  intros Hrep Hrows Ha Hi Hf Hid Herr HQ. apply wp_bind. eapply wp_update_asset; [exact Hi|exact Hf|].
  pose proof (represents_put db r i row' Hrep) as Hrep1.
  apply wp_bind. eapply (wp_pg_release_state db i _ _ _ _ _ Hrep1);
    [by apply (rows_wf_put _ _ row)|exact Ha|done|].
  intros db2 Hrep2 Hrows2 Hst2. apply HQ; [done|done|apply Hst2|apply Hst2].
Qed.

Lemma refines_expire_asset i caller n db r :
  related n db r → refines (pg_expire_asset i caller) (λ E', @expire_asset E' i caller) n db r.
Proof.
  intros Hrel. pose proof Hrel as [Hrep Hrows Hfresh Hwf].
  unfold refines, pg_expire_asset, pg_transition_out_of_available.
  apply wp_bind, wp_utcnow, wp_bind, wp_savepoint, wp_bind, wp_asset_row.
  2:{ intros Hi%(lookup_no_row _ _ _ Hrep). mem_pure. unfold expire_asset. by mem_steps. }
  intros row Hi. pose proof (lookup_row _ _ _ _ Hrep Hi) as Hri.
  destruct (row_partition_normal _ _ _ _ _ Hrel Hi) as (Hsp & Hpart & Hid & Ha).
  assert (Hguard : bool_decide (row_state row ∉ [AVAILABLE]) = bool_decide (row_state row ≠ AVAILABLE)).
  { apply bool_decide_ext. set_solver. }
  apply wp_bind, wp_raise_if; rewrite Hguard; intros H1. { mem_pure. unfold expire_asset. by mem_steps. }
  eapply (wp_pg_leave _ i row _ _ _ _ _ _ Hrep Hrows Ha Hi); [reflexivity|done| |].
  { intros e db' He. split; [lia|by left]. }
  intros db' Hrep' Hrows' Has Hal. apply wp_pg_audit. cbn [is_Ok].
  eapply wp_reload; [cbn; rewrite Has; apply lookup_insert_eq|].
  rewrite (load_row_aliases db) by done. split; [lia|]. split_and!; [by apply rows_wf_audit|fresh_put|].
  apply (mimics_readings [clock n; clock n; clock (S n)]); [lia|taken|].
  intros f g (F0 & F1 & F2 & _). unfold expire_asset. mem_steps.
  eapply wp_release_quota; [by apply Hwf|exact Hsp|exact Hpart|]. mem_steps.
  change (@clock (reclock E f g)) with f. rewrite F0, F1, F2. split; [done|exact (represents_audit _ _ _ Hrep')].
Qed.

Lemma refines_delete_asset i caller n db r :
  related n db r → refines (pg_delete_asset i caller) (λ E', @delete_asset E' i caller) n db r.
Proof.
  intros Hrel. pose proof Hrel as [Hrep Hrows Hfresh Hwf].
  unfold refines, pg_delete_asset, pg_transition_out_of_available.
  apply wp_bind, wp_utcnow, wp_bind, wp_savepoint, wp_bind, wp_asset_row.
  2:{ intros Hi%(lookup_no_row _ _ _ Hrep). mem_pure. unfold delete_asset. by mem_steps. }
  intros row Hi. pose proof (lookup_row _ _ _ _ Hrep Hi) as Hri.
  destruct (row_partition_normal _ _ _ _ _ Hrel Hi) as (Hsp & Hpart & Hid & Ha).
  assert (Hguard : bool_decide (row_state row ∉ [AVAILABLE; EXPIRED]) =
                   bool_decide (row_state row ≠ AVAILABLE ∧ row_state row ≠ EXPIRED)).
  { apply bool_decide_ext. set_solver. }
  apply wp_bind, wp_raise_if; rewrite Hguard; intros H1. { mem_pure. unfold delete_asset. by mem_steps. }
  eapply (wp_pg_leave _ i row _ _ _ _ _ _ Hrep Hrows Ha Hi); [reflexivity|done| |].
  { intros e db' He. split; [lia|by left]. }
  intros db' Hrep' Hrows' Has Hal. apply wp_pg_audit. cbn [is_Ok].
  eapply wp_reload; [cbn; rewrite Has; apply lookup_insert_eq|].
  rewrite (load_row_aliases db) by done. split; [lia|]. split_and!; [by apply rows_wf_audit|fresh_put|].
  apply (mimics_readings [clock n; clock (S n)]); [lia|taken|].
  intros f g (F0 & F1 & _). unfold delete_asset. mem_steps.
  eapply wp_release_quota; [by apply Hwf|exact Hsp|exact Hpart|]. mem_steps.
  change (@clock (reclock E f g)) with f. rewrite F0, F1. split; [done|exact (represents_audit _ _ _ Hrep')].
Qed.

Lemma refines_record_read i n db r :
  is_Some (db_assets db !! i) → related n db r →
  refines (pg_record_read i) (λ E', @record_read E' i) n db r.
Proof.
  intros [row Hi] Hrel. pose proof Hrel as [Hrep Hrows Hfresh Hwf]. unfold refines, pg_record_read.
  pose proof (lookup_row _ _ _ _ Hrep Hi) as Hri. apply wp_bind, wp_utcnow.
  unfold update_assets. apply wp_on_assets; unfold update_row, mbind, res_bind; rewrite Hi.
  2:{ case_decide as Hs; [|done]. destruct (bigint_cases (row_read_count row + 1)) as [-> | ->]; [done|].
      intros e [= <-]. split; [lia|left; right; by right]. }
  intros t Ht. case_decide as Hs.
  - destruct (bigint_cases (row_read_count row + 1)) as [Hb|Hb]; rewrite Hb in Ht; [|done]. injection Ht as <-.
    split; [lia|]. split_and!; [by apply (rows_wf_put _ _ row)|fresh_put|].
    apply (mimics_readings [clock n]); [lia|taken|]. intros f g (F0 & _). unfold record_read.
    mem_steps. cbn [a_state load_row _asset_from_row]. rewrite decide_True by done. mem_steps.
    change (@clock (reclock E f g)) with f. rewrite F0. split; [done|]. exact (represents_put _ _ _ _ Hrep).
  - injection Ht as <-. rewrite insert_id by done. split; [lia|].
    split_and!; [by destruct db|by apply (rows_fresh_mono n); [lia|by destruct db]|].
    apply mimics_pure; [lia|]. intros f g. unfold record_read.
    mem_steps. cbn [a_state load_row _asset_from_row]. rewrite decide_False by done. mem_steps.
    split; [done|]. by destruct db.
Qed.

Lemma refines_lifecycle_update asset state now reason purge n db r :
  related n db r →
  refines (pg_lifecycle_update asset state now reason purge)
          (λ E', @lifecycle_update E' asset state now reason purge) n db r.
Proof.
  intros Hrel. pose proof Hrel as [Hrep Hrows Hfresh Hwf]. unfold refines, pg_lifecycle_update.
  apply wp_bind, wp_pg_load_asset.
  2:{ intros Hi%(lookup_no_row _ _ _ Hrep). mem_pure. unfold lifecycle_update. by mem_steps. }
  intros row Hi. pose proof (lookup_row _ _ _ _ Hrep Hi) as Hri.
  destruct (row_partition_normal _ _ _ _ _ Hrel Hi) as (Hsp & Hpart & Hid & Ha).
  apply wp_bind, wp_raise_if; intros H1. { mem_pure. unfold lifecycle_update. by mem_steps. }
  guards. assert (load_row db row = asset) as Heq by (by apply dec_stable). subst asset. clear H1.
  assert (H1 : bool_decide (load_row db row ≠ load_row db row) = false) by (apply bool_decide_eq_false; tauto).
  apply wp_bind, wp_of_res. destruct (validate_cleanup_transition _ _ _) as [[]|e] eqn:Hv.
  2:{ mem_pure. unfold lifecycle_update. by mem_steps. }
  cbn [a_asset_id load_row _asset_from_row] in *.
  eapply (wp_pg_leave _ (row_asset_id row) row _ _ _ _ _ _ Hrep Hrows); [exact Ha|exact Hi|reflexivity|done| |].
  { intros e db' He. split; [lia|by left]. }
  intros db' Hrep' Hrows' Has Hal. apply wp_bind, wp_pg_audit.
  eapply wp_reload; [cbn; rewrite Has; apply lookup_insert_eq|].
  rewrite (load_row_aliases db (db' <| db_audit_events := _ |>)) by done. split; [lia|]. split_and!; [by apply rows_wf_audit|fresh_put|].
  apply (mimics_readings [clock n]); [lia|taken|].
  intros f g (F0 & _). unfold lifecycle_update. mem_steps.
  eapply wp_release_quota; [by apply Hwf|exact Hsp|exact Hpart|]. mem_steps.
  change (@clock (reclock E f g)) with f. rewrite F0. split; [done|].
  rewrite release_state_put in Hrep'.
  destruct (release_state_fields (load_row db row) (row_partition_id row) r) as [Hfield _].
  rewrite Hfield. exact (represents_audit _ _ _ Hrep').
Qed.

Lemma refines_set_asset_ttl i ttl caller n db r :
  related n db r →
  refines (pg_set_asset_ttl i ttl caller) (λ E', @set_asset_ttl E' i ttl caller) n db r.
Proof.
  intros Hrel. pose proof Hrel as [Hrep Hrows Hfresh Hwf]. unfold refines, pg_set_asset_ttl, locked_asset.
  apply wp_savepoint, wp_bind, wp_pg_load_asset.
  2:{ intros Hi%(lookup_no_row _ _ _ Hrep). mem_pure. unfold set_asset_ttl. by mem_steps. }
  intros row Hi. pose proof (lookup_row _ _ _ _ Hrep Hi) as Hri.
  destruct (row_partition_normal _ _ _ _ _ Hrel Hi) as (Hsp & Hpart & Hid & Ha).
  apply wp_bind, wp_raise_if; intros H1. { mem_pure. unfold set_asset_ttl. by mem_steps. }
  apply wp_bind, wp_raise_if; intros H2. { mem_pure. unfold set_asset_ttl. by mem_steps. }
  apply wp_bind, wp_utcnow, wp_bind, wp_of_res.
  change (a_space (load_row db row)) with (row_space row).
  destruct (expiry_for (row_space row) (Some ttl) (clock n)) as [deadline|e] eqn:Hexp.
  2:{ split; [lia|right]. apply (mimics_readings [clock n]); [lia|taken|]. intros f g (F0 & _).
      unfold set_asset_ttl. mem_steps. mem_clock F0. by rewrite Hexp. }
  set (row' := row <| row_state := AVAILABLE |> <| row_expires_at := deadline |>
                   <| row_expired_at := None |> <| row_updated_at := clock n |>).
  set (r1 := if decide (row_state row = EXPIRED)
             then adjust_quota (λ u, u + default 0 (row_size_bytes row)) (λ c, c + 1) (row_space row) (row_partition_id row) r
             else r).
  assert (Hrest : ∀ db1, represents db1 r1 → rows_wf db1 → same_tables db db1 →
    (row_state row = EXPIRED → enforce_quota r (row_space row) (row_partition_id row)
       (default 0 (row_size_bytes row)) (Some (row_asset_id row)) = Ok tt) →
    wp (update_assets i (λ w : AssetRow, mret (w <| row_state := AVAILABLE |> <| row_expires_at := deadline |>
          <| row_expired_at := None |> <| row_updated_at := clock n |>)) ;;
        pg_write_audit "admin.ttl_set" i caller "success"
          {["expires_at" := str_opt str_datetime (row_expires_at row); "state" := state_value (row_state row)]}
          {["expires_at" := str_opt str_datetime deadline; "state" := "available"]} ;;
        pg_load_asset i)
      (λ res n' db', (n <= n')%nat ∧ match res with
        | Ok a => rows_wf db' ∧ rows_fresh n' db' ∧
            mimics (λ E', @set_asset_ttl E' i ttl caller) n r n' (λ res r', res = Ok a ∧ represents db' r')
        | Err e => False end) (S n) db1).
  { intros db1 Hrep1 Hrows1 Hst1 Hq. assert (Hi1 : db_assets db1 !! i = Some row) by (by rewrite (st_assets _ _ Hst1)).
    apply wp_bind. eapply wp_update_asset; [exact Hi1|reflexivity|]. apply wp_bind, wp_pg_audit.
    eapply wp_reload; [apply lookup_insert_eq|]. split; [lia|].
    split_and!; [by apply rows_wf_audit, (rows_wf_put _ _ row)| |].
    { eapply rows_fresh_put; [exact Hfresh|lia|exact Hi|]. cbn. by rewrite (st_assets _ _ Hst1). }
    apply (mimics_readings [clock n; clock (S n)]); [lia|taken|]. intros f g (F0 & F1 & _).
    unfold set_asset_ttl. mem_steps. mem_clock F0. rewrite Hexp. mem_step.
    assert (Hadd : wp (if decide (a_state (load_row db row) = EXPIRED) then
        @_enforce_quota (reclock E f g) (row_space row) (a_partition_id (load_row db row)) (default 0 (a_size_bytes (load_row db row))) (Some (a_asset_id (load_row db row))) ;;
        _acquire_quota (row_space row) (a_partition_id (load_row db row)) (default 0 (a_size_bytes (load_row db row)))
        else mret tt) (λ res n' r', res = Ok tt ∧ n' = S n ∧ r' = r1) (S n) r).
    { unfold r1. change (a_state (load_row db row)) with (row_state row).
      destruct (decide (row_state row = EXPIRED)) as [Hs|Hs]; [|by mem_steps]. specialize (Hq Hs). mem_steps.
      eapply wp_acquire_quota; [by apply Hwf|exact Hsp|exact Hpart|done]. }
    eapply wp_mono; [exact Hadd|]. intros ? ? ? (-> & -> & ->). mem_steps. mem_clock F1.
    pose proof (represents_put db1 r1 i row' Hrep1) as Hput. rewrite (load_row_same db db1) in Hput by done.
    split; [|exact (represents_audit _ _ _ Hput)]. f_equal. symmetry. apply (load_row_aliases db). apply Hst1. }
  apply wp_bind. change (a_state (load_row db row)) with (row_state row).
  destruct (decide (row_state row = EXPIRED)) as [Hs|Hs].
  - apply wp_bind, (wp_pg_enforce_quota _ _ _ _ _ _ _ r); try done; [by apply Hwf|]. intros db1 Hrep1 Hrows1 Hst1.
    destruct (enforce_quota _ _ _ _ _) as [[]|e] eqn:Hq.
    + eapply (wp_pg_acquire_quota _ _ _ _ _ _ _ Hrep1 Hrows1).
      { intros e db2 He. split; [lia|by left]. }
      intros db2 Hrep2 Hrows2 Hst2. eapply wp_mono; [by apply (Hrest db2); [..|etrans|]|].
      intros [a|e] n' db' [Hn H]; done.
    + split; [lia|right]. apply (mimics_readings [clock n]); [lia|taken|]. intros f g (F0 & _).
      unfold set_asset_ttl. mem_steps. mem_clock F0. rewrite Hexp. mem_step.
      change (a_state (load_row db row)) with (row_state row). rewrite decide_True by done. by mem_steps.
  - apply wp_ret. eapply wp_mono; [by apply (Hrest db)|]. intros [a|e] n' db' [Hn H]; done.
Qed.

(** ** Quotas *)

Lemma find_partition_norm r space partition sp p :
  normalize_space space = Ok sp → normalize_partition_id partition = Ok p →
  find_partition_quota r space partition = Ok (partition_row (r_partition_quotas r) sp p).
Proof.
  intros Hs Hp. unfold find_partition_quota, partition_row, mbind, res_bind. rewrite Hs, Hp.
  by destruct (r_partition_quotas r !! (sp, p)).
Qed.

Lemma find_partition_space r space partition e :
  normalize_space space = Err e → find_partition_quota r space partition = Err e.
Proof. unfold find_partition_quota, mbind, res_bind. by intros ->. Qed.

Lemma find_partition_partition r space partition sp e :
  normalize_space space = Ok sp → normalize_partition_id partition = Err e →
  find_partition_quota r space partition = Err e.
Proof. unfold find_partition_quota, mbind, res_bind. by intros -> ->. Qed.

Lemma find_bucket_norm r space sp :
  normalize_space space = Ok sp → find_bucket_quota r space = Ok (bucket_row (r_bucket_quotas r) sp).
Proof.
  intros Hs. unfold find_bucket_quota, bucket_row, mbind, res_bind. rewrite Hs.
  by destruct (r_bucket_quotas r !! sp).
Qed.

Lemma find_bucket_space r space e : normalize_space space = Err e → find_bucket_quota r space = Err e.
Proof. unfold find_bucket_quota, mbind, res_bind. by intros ->. Qed.

Lemma refines_get_partition_quota space partition n db r :
  related n db r →
  refines (pg_get_partition_quota space partition) (λ E', get_partition_quota space partition) n db r.
Proof.
  intros [Hrep Hrows Hfresh Hwf]. unfold refines, pg_get_partition_quota.
  apply wp_bind, wp_of_res. destruct (normalize_space space) as [sp|e] eqn:Hs.
  2:{ apply (find_partition_space r _ partition) in Hs. mem_pure. unfold get_partition_quota. by mem_steps. }
  apply wp_bind, wp_of_res. destruct (normalize_partition_id partition) as [p|e] eqn:Hp.
  2:{ apply (find_partition_partition r _ _ _ _ Hs) in Hp. mem_pure. unfold get_partition_quota. by mem_steps. }
  apply (wp_pg_partition_quota _ _ _ _ _ _ r); try done. intros db' Hrep' Hrows' Hst _ _.
  split; [lia|]. split_and!; [done|intros i; rewrite (st_assets _ _ Hst); apply Hfresh|].
  apply mimics_pure; [lia|intros f g]. pose proof (find_partition_norm r _ _ _ _ Hs Hp).
  unfold get_partition_quota. by mem_steps.
Qed.

Lemma refines_get_bucket_quota space n db r :
  related n db r → refines (pg_get_bucket_quota space) (λ E', get_bucket_quota space) n db r.
Proof.
  intros [Hrep Hrows Hfresh Hwf]. unfold refines, pg_get_bucket_quota.
  apply wp_bind, wp_of_res. destruct (normalize_space space) as [sp|e] eqn:Hs.
  2:{ apply (find_bucket_space r) in Hs. mem_pure. unfold get_bucket_quota. by mem_steps. }
  apply (wp_pg_bucket_quota _ _ _ _ _ r); try done. intros db' Hrep' Hrows' Hst _ _.
  split; [lia|]. split_and!; [done|intros i; rewrite (st_assets _ _ Hst); apply Hfresh|].
  apply mimics_pure; [lia|intros f g]. pose proof (find_bucket_norm r _ _ Hs).
  unfold get_bucket_quota. by mem_steps.
Qed.

Lemma represents_partition_put db r sp p q :
  represents db r → represents (db <| db_partition_quotas := <[(sp, p) := q]> (db_partition_quotas db) |>)
                               (r <| r_partition_quotas := <[(sp, p) := q]> (r_partition_quotas r) |>).
Proof.
  intros Hrep. eapply represents_quotas; try done; cbn; [|apply Hrep].
  intros. rewrite !partition_row_insert. case_decide; [done|apply Hrep].
Qed.

Lemma represents_bucket_put db r sp q :
  represents db r → represents (db <| db_bucket_quotas := <[sp := q]> (db_bucket_quotas db) |>)
                               (r <| r_bucket_quotas := <[sp := q]> (r_bucket_quotas r) |>).
Proof.
  intros Hrep. eapply represents_quotas; try done; cbn; [apply Hrep|].
  intros. rewrite !bucket_row_insert. case_decide; [done|apply Hrep].
Qed.

Lemma rows_wf_partition_put db sp p q :
  rows_wf db → (pq_space q, pq_partition_id q) = (sp, p) →
  rows_wf (db <| db_partition_quotas := <[(sp, p) := q]> (db_partition_quotas db) |>).
Proof.
  intros Hrows Hq. eapply rows_wf_quotas; try done; [|apply Hrows]. cbn.
  intros k q' [[<- <-]|[_ Hk]]%lookup_insert_Some; [done|by apply (dw_partition _ Hrows)].
Qed.

Lemma rows_wf_bucket_put db sp q :
  rows_wf db → bq_space q = sp →
  rows_wf (db <| db_bucket_quotas := <[sp := q]> (db_bucket_quotas db) |>).
Proof.
  intros Hrows Hq. eapply rows_wf_quotas; try done; [apply Hrows|]. cbn.
  intros k q' [[<- <-]|[_ Hk]]%lookup_insert_Some; [done|by apply (dw_bucket _ Hrows)].
Qed.

Lemma refines_set_partition_quota space partition qb qc sweep caller n db r :
  stable_alias partition → related n db r →
  refines (pg_set_partition_quota space partition qb qc sweep caller)
          (λ E', @set_partition_quota E' space partition qb qc sweep caller) n db r.
Proof.
  intros Hstable [Hrep Hrows Hfresh Hwf]. unfold refines, pg_set_partition_quota.
  apply wp_bind, wp_raise_if; intros H1. { mem_pure. unfold set_partition_quota. by mem_steps. }
  apply wp_bind, wp_raise_if; intros H2. { mem_pure. unfold set_partition_quota. by mem_steps. }
  apply wp_bind, wp_of_res. destruct (normalize_space space) as [sp|e] eqn:Hs.
  2:{ apply (find_partition_space r _ partition) in Hs. mem_pure. unfold set_partition_quota. by mem_steps. }
  apply wp_bind, wp_of_res. destruct (normalize_partition_id partition) as [p|e] eqn:Hp.
  2:{ apply (find_partition_partition r _ _ _ _ Hs) in Hp. mem_pure. unfold set_partition_quota. by mem_steps. }
  pose proof (find_partition_norm r _ _ _ _ Hs Hp) as Hfind.
  apply wp_bind, wp_savepoint, wp_bind, (wp_pg_partition_quota _ _ _ _ _ _ r); try done.
  intros db1 Hrep1 Hrows1 Hst1 Hex _. destruct (Hex eq_refl) as [q Hq]. clear Hex.
  set (current := partition_row (r_partition_quotas r) sp p) in *.
  assert (Hcur : current = q).
  { unfold current. rewrite (rp_partition _ _ Hrep1). unfold partition_row. by rewrite Hq. }
  set (new := q <| pq_quota_bytes := qb |> <| pq_quota_asset_count := qc |>
                <| pq_eviction_sweep_enabled := default (pq_eviction_sweep_enabled current) sweep |>).
  apply wp_bind, wp_on_partition_quotas; unfold upsert_row, mbind, res_bind; rewrite Hq.
  2:{ intros e. destruct (bigint_null_cases qb) as [-> | ->]; [destruct (bigint_null_cases qc) as [-> | ->]|]; [done|..];
      intros [= <-]; (split; [lia|left; right; by right]). }
  intros t Ht. assert (t = <[(sp, p) := new]> (db_partition_quotas db1)) as ->.
  { destruct (bigint_null_cases qb) as [Hb|Hb]; [destruct (bigint_null_cases qc) as [Hc|Hc]|]; rewrite Hb in Ht; try rewrite Hc in Ht; [by injection Ht as <-|done..]. }
  apply wp_pg_audit. cbn [is_Ok]. clear Ht. pose proof (dw_partition _ Hrows1 _ _ Hq) as Hkey.
  pose proof (represents_audit _ _ (mk_event "admin.quota_set" (sp +:+ "/" +:+ p) caller "success"
      {["quota_bytes" := str_opt pretty (pq_quota_bytes current);
        "quota_asset_count" := str_opt pretty (pq_quota_asset_count current);
        "eviction_sweep_enabled" := str_bool (pq_eviction_sweep_enabled current)]}
      {["quota_bytes" := str_opt pretty qb; "quota_asset_count" := str_opt pretty qc;
        "eviction_sweep_enabled" := str_bool (default (pq_eviction_sweep_enabled current) sweep)]} (clock n))
    (represents_partition_put db1 r sp p new Hrep1)) as Hrep2.
  unfold pg_get_partition_quota. apply wp_bind, wp_of_res. pose proof Hs as Hsp%normalize_bucket_member.
  unfold normalize_space. rewrite normalize_bucket_fix by done. apply wp_bind, wp_of_res.
  unfold normalize_partition_id. rewrite (Hstable _ Hp).
  eapply (wp_pg_partition_quota _ _ _ _ _ _ _ Hrep2); [by apply rows_wf_audit, rows_wf_partition_put|].
  intros db' Hrep' Hrows' Hst' _ _. split; [lia|]. split_and!; [done| |].
  { apply (rows_fresh_mono n); [lia|]. intros i. rewrite (st_assets _ _ Hst'). cbn. rewrite (st_assets _ _ Hst1). apply Hfresh. }
  apply (mimics_readings [clock n]); [lia|taken|]. intros f g (F0 & _). unfold set_partition_quota. mem_steps.
  mem_clock F0. injection Hkey as Hk1 Hk2. split.
  - f_equal. cbn. rewrite partition_row_insert, decide_True by done. unfold new. rewrite Hcur. done.
  - revert Hrep'. subst new. rewrite Hcur. cbn. by rewrite Hk1, Hk2.
Qed.

Lemma refines_set_bucket_quota space qb warn hard n db r :
  related n db r →
  refines (pg_set_bucket_quota space qb warn hard) (λ E', set_bucket_quota space qb warn hard) n db r.
Proof.
  intros [Hrep Hrows Hfresh Hwf]. unfold refines, pg_set_bucket_quota.
  apply wp_bind, wp_raise_if; intros H1. { mem_pure. unfold set_bucket_quota. by mem_steps. }
  apply wp_bind, wp_of_res. destruct (normalize_space space) as [sp|e] eqn:Hs.
  2:{ apply (find_bucket_space r) in Hs. mem_pure. unfold set_bucket_quota. by mem_steps. }
  pose proof (find_bucket_norm r _ _ Hs) as Hfind.
  apply wp_bind, wp_savepoint, wp_bind, (wp_pg_bucket_quota _ _ _ _ _ r); try done.
  intros db1 Hrep1 Hrows1 Hst1 _ Hex. destruct (Hex eq_refl) as [q Hq]. clear Hex.
  set (current := bucket_row (r_bucket_quotas r) sp) in *.
  assert (Hcur : current = q).
  { unfold current. rewrite (rp_bucket _ _ Hrep1). unfold bucket_row. by rewrite Hq. }
  set (new := q <| bq_quota_bytes := qb |> <| bq_warn_threshold := warn |> <| bq_hard_ceiling := hard |>).
  apply wp_on_bucket_quotas; unfold upsert_row, mbind, res_bind; rewrite Hq.
  2:{ intros e. destruct (bigint_null_cases qb) as [-> | ->]; [done|].
      intros [= <-]; (split; [lia|left; right; by right]). }
  intros t Ht. assert (t = <[sp := new]> (db_bucket_quotas db1)) as ->.
  { destruct (bigint_null_cases qb) as [Hb|Hb]; rewrite Hb in Ht; [by injection Ht as <-|done]. }
  cbn [is_Ok]. clear Ht. pose proof (dw_bucket _ Hrows1 _ _ Hq) as Hkey.
  pose proof (represents_bucket_put db1 r sp new Hrep1) as Hrep2.
  unfold pg_get_bucket_quota. apply wp_bind, wp_of_res. pose proof Hs as Hsp%normalize_bucket_member.
  unfold normalize_space. rewrite normalize_bucket_fix by done.
  eapply (wp_pg_bucket_quota _ _ _ _ _ _ Hrep2); [by apply rows_wf_bucket_put|].
  intros db' Hrep' Hrows' Hst' _ _. split; [lia|]. split_and!; [done| |].
  { intros i. rewrite (st_assets _ _ Hst'). cbn. rewrite (st_assets _ _ Hst1). apply Hfresh. }
  apply mimics_pure; [lia|intros f g]. unfold set_bucket_quota. mem_steps. split.
  - f_equal. cbn. rewrite bucket_row_insert, decide_True by done. unfold new. by rewrite Hcur.
  - revert Hrep'. subst new. rewrite Hcur. cbn. by rewrite Hkey.
Qed.
End Refinements.
