(* ===== verification/PgNames.v ===== *)
(** * Names: the SQL methods that bind and release aliases

    Detaching, rebinding and attaching a name by SQL refines the in-memory
    methods; [reserve_asset] is in [PgReserve]. *)

From S2P Require Import Prelude Errors Python Effects Paths Models Retention Sha256 Registry RegistryInv RegistrySound PgSchema PgRegistry PgRelation PgQuota PgMethods.

Section Names.
Context {E : Env}.
Implicit Types (n : nat) (db : Database) (r : Registry).

Lemma alias_names_identity row row' aliases :
  same_identity row row' → alias_names row' aliases = alias_names row aliases.
Proof. intros [H1 H2 _]. unfold alias_names. by rewrite H1, H2. Qed.

(** An asset's row and the alias table change together. *)
Lemma represents_names db r i row row' names m' t' :
  represents db r → rows_wf db → db_assets db !! i = Some row → same_identity row row' →
  keyed m' t' → alias_names row t' = names →
  (∀ w, row_asset_id w ≠ row_asset_id row → alias_names w t' = alias_names w (db_aliases db)) →
  represents (db <| db_aliases := t' |> <| db_assets := <[i := row']> (db_assets db) |>)
             (r <| r_aliases := m' |> <| r_assets := <[i := _asset_from_row row' names]> (r_assets r) |>).
Proof.
  intros [Ra Rl Rt Rp Rb Re] Hrows Hi Hid Hk Hnames Hothers. split; try done. cbn.
  rewrite Ra, fmap_insert. apply map_eq. intros j. rewrite !lookup_insert, !lookup_fmap. case_decide as Hj.
  - f_equal. unfold load_row. cbn. by rewrite (alias_names_identity row row'), Hnames.
  - destruct (db_assets db !! j) as [w|] eqn:Hw; [|done]. cbn. f_equal. unfold load_row. cbn. f_equal.
    symmetry. apply Hothers. destruct (dw_row _ Hrows _ _ Hw) as [-> _]. destruct (dw_row _ Hrows _ _ Hi) as [-> _]. congruence.
Qed.

Lemma rows_wf_aliases db t' :
  rows_wf db → (∀ sp al b, t' !! (sp, al) = Some b →
    b_space b = sp ∧ b_alias b = al ∧ sp ∈ STORAGE_BUCKETS ∧ normalize_relative_alias al = Ok al) →
  rows_wf (db <| db_aliases := t' |>).
Proof. by intros [] ?; split. Qed.

Lemma rows_wf_names db i row row' t' :
  rows_wf db → db_assets db !! i = Some row → same_identity row row' →
  (∀ sp al b, t' !! (sp, al) = Some b →
    b_space b = sp ∧ b_alias b = al ∧ sp ∈ STORAGE_BUCKETS ∧ normalize_relative_alias al = Ok al) →
  rows_wf (db <| db_aliases := t' |> <| db_assets := <[i := row']> (db_assets db) |>).
Proof.
  intros Hrows Hi Hid Ht. destruct (rows_wf_aliases db t' Hrows Ht) as [Hr ? ? ?].
  destruct (rows_wf_put db i row row' Hrows Hi Hid). by split.
Qed.

(** A bound name lies in its asset's bucket. *)
Lemma bound_row n db r sp al b i :
  related n db r → db_aliases db !! (sp, al) = Some b → b_asset_id b = Some i →
  ∃ row, db_assets db !! i = Some row ∧ row_space row = sp.
Proof.
  intros [Hrep Hrows _ Hwf] Hb Hid. destruct (dw_alias _ Hrows _ _ _ Hb) as (<- & <- & Hs & _).
  rewrite <- (rp_aliases _ _ Hrep) in Hb by done.
  destruct (lw_target _ _ _ _ (rw_links _ _ Hwf) _ _ _ Hb Hid) as (a & Ha & _ & Hsp).
  rewrite (rp_assets _ _ Hrep), lookup_fmap in Ha. destruct (db_assets db !! i) as [row|]; [|done].
  cbn in Ha. simplify_eq. by exists row.
Qed.

(** The names of all assets after a name of asset [i] is given up. *)
Lemma names_given_up n db r sp al b i row t' :
  related n db r → db_aliases db !! (sp, al) = Some b → b_asset_id b = Some i →
  db_assets db !! i = Some row →
  (∀ key, key ≠ (sp, al) → t' !! key = db_aliases db !! key) →
  (∀ b', t' !! (sp, al) = Some b' → b_asset_id b' = None) →
  alias_names row t' = alias_names row (db_aliases db) ∖ {[name_key sp al]} ∧
  (∀ w, row_asset_id w ≠ row_asset_id row → alias_names w t' = alias_names w (db_aliases db)).
Proof.
  intros Hrel Hb Hid Hi Hother Hgone. pose proof Hrel as [_ Hrows _ _].
  destruct (bound_row _ _ _ _ _ _ _ Hrel Hb Hid) as (row0 & Hi0 & Hsp). simplify_eq.
  destruct (dw_alias _ Hrows _ _ _ Hb) as (_ & Hal & _ & _). destruct (dw_row _ Hrows _ _ Hi) as [Hrid _].
  assert (Hone : ∀ key b', db_aliases db !! key = Some b' → b_asset_id b' = Some i → key = (row_space row, b_alias b')).
  { intros [sp' al'] b' Hb' Hid'. destruct (bound_row _ _ _ _ _ _ _ Hrel Hb' Hid') as (row' & Hi' & Hsp').
    destruct (dw_alias _ Hrows _ _ _ Hb') as (_ & Hal' & _). congruence. }
  split; [|intros w Hw]; rewrite (alias_names_unbind _ _ _ _ _ _ _ Hb Hal Hid Hother Hgone Hone).
  - by rewrite decide_True.
  - rewrite decide_False; [done|congruence].
Qed.

(** The names of all assets after a free name is bound to asset [i]. *)
Lemma names_bound db sp al b i row :
  rows_wf db → db_assets db !! i = Some row → row_space row = sp → b_alias b = al → b_asset_id b = Some i →
  (∀ b0, db_aliases db !! (sp, al) = Some b0 → b_asset_id b0 = None) →
  alias_names row (<[(sp, al) := b]> (db_aliases db)) = {[name_key sp al]} ∪ alias_names row (db_aliases db) ∧
  (∀ w, row_asset_id w ≠ row_asset_id row →
     alias_names w (<[(sp, al) := b]> (db_aliases db)) = alias_names w (db_aliases db)).
Proof.
  intros Hrows Hi Hsp Hal Hid Hold. destruct (dw_row _ Hrows _ _ Hi) as [Hrid _].
  split; [|intros w Hw]; rewrite (alias_names_bind _ _ _ _ _ _ Hal Hid Hold).
  - by rewrite decide_True, Hsp.
  - rewrite decide_False; [done|congruence].
Qed.

(** The table and the map after a name is bound. *)
Lemma represents_bound db r sp al b i row now :
  represents db r → rows_wf db → db_assets db !! i = Some row → row_space row = sp → sp ∈ STORAGE_BUCKETS →
  b_space b = sp → b_alias b = al → normalize_relative_alias al = Ok al → b_asset_id b = Some i →
  (∀ b0, db_aliases db !! (sp, al) = Some b0 → b_asset_id b0 = None) →
  let row' := row <| row_updated_at := now |> in
  let db' := db <| db_aliases := <[(sp, al) := b]> (db_aliases db) |> <| db_assets := <[i := row']> (db_assets db) |> in
  represents db' (r <| r_aliases := <[name_key sp al := b]> (r_aliases r) |>
    <| r_assets := <[i := _asset_from_row row' ({[name_key sp al]} ∪ alias_names row (db_aliases db))]> (r_assets r) |>) ∧
  rows_wf db'.
Proof.
  intros Hrep Hrows Hi Hsp Hs Hbs Hbl Hn Hid Hold row' db'.
  destruct (names_bound db sp al b i row Hrows Hi Hsp Hbl Hid Hold) as [Hnames Hothers]. split.
  - apply represents_names with row; try done. apply keyed_insert; [done|apply Hrep].
  - apply rows_wf_names with row; try done. intros sp' al' b' [[[= <- <-] <-]|[_ Hb']]%lookup_insert_Some; [done|].
    by apply (dw_alias _ Hrows).
Qed.

(** ** Marking for collection *)

Lemma alias_names_empty row aliases :
  alias_names row aliases = ∅ ↔ ¬ map_Exists (λ _ b, b_asset_id b = Some (row_asset_id row)) aliases.
Proof.
  split.
  - intros Hempty (key & b & Hb & Hid).
    assert (name_key (row_space row) (b_alias b) ∈ alias_names row aliases); [|set_solver].
    apply elem_of_alias_names. by exists key, b.
  - intros Hno. apply set_eq. intros k. rewrite elem_of_alias_names. split; [|set_solver].
    intros (key & b & Hb & Hid & _). destruct Hno. by exists key, b.
Qed.

Definition marks (i caller : string) (n : nat) (db : Database) (r : Registry) (n' : nat) (db' : Database) : Prop :=
  rows_wf db' ∧ db_aliases db' = db_aliases db ∧
  (∀ j, is_Some (db_assets db' !! j) → is_Some (db_assets db !! j)) ∧
  ∃ L, Forall (λ t, ∃ j, (n <= j < n')%nat ∧ t = clock j) L ∧
    ∀ f g m, readings f m L →
      wp (@_mark_for_gc_if_orphaned (reclock E f g) i caller)
         (λ res _ r', res = Ok tt ∧ represents db' r') m r.

Lemma wp_pg_mark_for_gc i caller n db r row :
  represents db r → rows_wf db → db_assets db !! i = Some row → asset_wf i (load_row db row) →
  quota_keys_wf (r_partition_quotas r) (r_bucket_quotas r) →
  wp (pg_mark_for_gc_if_orphaned i caller) (λ res n' db', (n <= n')%nat ∧
    match res with Ok _ => marks i caller n db r n' db' | Err e => infrastructure e end) n db.
Proof.
  intros Hrep Hrows Hi Ha Hkeys. pose proof (lookup_row _ _ _ _ Hrep Hi) as Hri.
  destruct (dw_row _ Hrows _ _ Hi) as [Hid Hpart]. pose proof (aw_space _ _ Ha) as Hsp.
  pose proof (alias_names_empty row (db_aliases db)) as Hempty. rewrite Hid in Hempty.
  assert (Hsame : ∀ (Hm : ∀ f g m, wp (@_mark_for_gc_if_orphaned (reclock E f g) i caller)
            (λ res _ r', res = Ok tt ∧ represents db r') m r), marks i caller n db r n db).
  { intros Hm. split_and!; [done..|]. exists []. split; [by apply Forall_nil|auto]. }
  unfold pg_mark_for_gc_if_orphaned. apply wp_bind, wp_select.
  case_bool_decide as Hrem.
  { apply wp_ret. split; [lia|]. apply Hsame. intros f g m. unfold _mark_for_gc_if_orphaned. mem_step. mem_step.
    rewrite decide_True; [by mem_steps|]. cbn. tauto. }
  apply wp_bind, wp_select. rewrite Hi. case_decide as Hst.
  { apply wp_ret. split; [lia|]. apply Hsame. intros f g m. unfold _mark_for_gc_if_orphaned. mem_step. mem_step.
    rewrite decide_False by (cbn; tauto). rewrite decide_True by done. by mem_steps. }
  apply wp_bind, wp_utcnow, wp_bind, wp_utcnow.
  eapply (wp_pg_leave _ i row _ _ _ _ _ _ Hrep Hrows Ha Hi); [reflexivity|done|by intros; split; [lia|]|].
  intros db' Hrep' Hrows' Has Hal. apply wp_pg_audit. split; [lia|].
  split_and!; [by apply rows_wf_audit|done| |].
  { cbn. intros j. rewrite Has, lookup_insert. case_decide; [|done]. subst. by rewrite Hi. }
  exists [clock n; clock (S n); clock (S (S n))]. split; [taken|]. intros f g m (F0 & F1 & F2 & _).
  unfold _mark_for_gc_if_orphaned. mem_step. mem_step.
  rewrite decide_False by (cbn; tauto). rewrite decide_False by done. mem_steps.
  eapply wp_release_quota; [done|exact Hsp|exact Hpart|]. mem_steps.
  change (@clock (reclock E f g)) with f. rewrite F0, F1, F2. split; [done|exact (represents_audit _ _ _ Hrep')].
Qed.

(** ** Detaching *)

Lemma asset_wf_touch i a now : asset_wf i a → asset_wf i (a <| a_updated_at := now |>).
Proof. intros Ha. solve_asset_wf. Qed.

Lemma represents_tombstones db r m t :
  represents db r → keyed m t →
  represents (db <| db_alias_tombstones := t |>) (r <| r_tombstones := m |>).
Proof. by intros [] ?; split. Qed.

Lemma wp_on_tombstones f (Q : res unit → nat → Database → Prop) n db :
  Q (Ok tt) n (db <| db_alias_tombstones := f (db_alias_tombstones db) |>) → wp (on_tombstones f) Q n db.
Proof. done. Qed.

(** The name is given up, the event written and the asset touched; what remains
    is to collect the asset. *)
Lemma wp_pg_give_up i caller sp al b row t' m' tombs mtombs ev now n n1 db r :
  related n db r → (n <= n1)%nat →
  db_aliases db !! (sp, al) = Some b → b_asset_id b = Some i → db_assets db !! i = Some row →
  keyed m' t' → keyed mtombs tombs →
  (∀ key, key ≠ (sp, al) → t' !! key = db_aliases db !! key) →
  (∀ b', t' !! (sp, al) = Some b' → b_asset_id b' = None ∧ b_space b' = sp ∧ b_alias b' = al) →
  let row' := row <| row_updated_at := now |> in
  let db1 := db <| db_aliases := t' |> <| db_alias_tombstones := tombs |>
                <| db_audit_events := db_audit_events db ++ [ev] |>
                <| db_assets := <[i := row']> (db_assets db) |> in
  let r1 := r <| r_aliases := m' |> <| r_tombstones := mtombs |>
              <| r_audit_events := r_audit_events r ++ [ev] |>
              <| r_assets := <[i := _asset_from_row row' (alias_names row (db_aliases db) ∖ {[name_key sp al]})]> (r_assets r) |> in
  wp (pg_mark_for_gc_if_orphaned i caller) (λ res n' db', (n1 <= n')%nat ∧
    match res with
    | Ok _ => rows_wf db' ∧ rows_fresh n' db' ∧ db_aliases db' = t' ∧
        ∃ L, Forall (λ t, ∃ j, (n <= j < n')%nat ∧ t = clock j) L ∧
          ∀ f g m, readings f m L →
            wp (@_mark_for_gc_if_orphaned (reclock E f g) i caller)
               (λ res _ r', res = Ok tt ∧ represents db' r') m r1
    | Err e => infrastructure e end) n1 db1.
Proof.
  intros Hrel Hn1 Hb Hid Hi Hkeyed Htombs Hother Hgone row' db1 r1. pose proof Hrel as [Hrep Hrows Hfresh Hwf].
  destruct (names_given_up n db r sp al b i row t' Hrel Hb Hid Hi Hother) as [Hnames Hothers]; [by intros b' []%Hgone|].
  pose proof (represents_names db r i row row' _ m' t' Hrep Hrows Hi ltac:(done) Hkeyed Hnames Hothers) as Hrep1.
  pose proof (represents_audit _ _ ev (represents_tombstones _ _ _ _ Hrep1 Htombs)) as Hrep2.
  assert (Hrows1 : rows_wf db1).
  { destruct (rows_wf_names db i row row' t' Hrows Hi ltac:(done)); [|by split].
    intros sp' al' b' Hb'. destruct (decide ((sp', al') = (sp, al))) as [[= -> ->]|Hne].
    - destruct (Hgone _ Hb') as (_ & -> & ->). by apply (dw_alias _ Hrows) in Hb as (_ & _ & ? & ?).
    - rewrite Hother in Hb' by done. by apply (dw_alias _ Hrows). }
  assert (Hawf1 : asset_wf i (load_row db1 row')).
  { destruct (get_wf _ _ _ _ Hwf (lookup_row _ _ _ _ Hrep Hi)). by split. }
  eapply wp_mono; [apply (wp_pg_mark_for_gc i caller _ db1 _ row' Hrep2 Hrows1 ltac:(apply lookup_insert_eq) Hawf1); apply Hwf|].
  intros [[]|e] n' db' [Hn H]; (split; [lia|]); [|done].
  destruct H as (Hrows' & Hal & Hdom & L & HL & Hmem). split_and!; [done| |done|].
  - intros j Hj%Hdom. cbn in Hj. rewrite lookup_insert in Hj.
    apply (rows_fresh_mono n n' db ltac:(lia) Hfresh). case_decide; [by subst|done].
  - exists L. split; [|exact Hmem]. eapply Forall_impl; [exact HL|]. intros t0 (j & Hj & ->). exists j. split; [lia|done].
Qed.

Lemma refines_detach_alias grace space alias caller n db r :
  stable_alias alias → r_alias_grace r = grace → related n db r →
  refines (pg_detach_alias grace space alias caller) (λ E', @detach_alias E' space alias caller) n db r.
Proof.
  intros Hstable <- Hrel. pose proof Hrel as [Hrep Hrows Hfresh Hwf]. unfold refines, pg_detach_alias.
  set (grace := r_alias_grace r).
  apply wp_bind, wp_of_res. destruct (normalize_space space) as [sp|e] eqn:Hs.
  2:{ apply (find_binding_space r _ alias) in Hs. mem_pure. unfold detach_alias. by mem_steps. }
  apply wp_bind, wp_of_res. destruct (normalize_relative_alias alias) as [al|e] eqn:Ha.
  2:{ apply (find_binding_alias r _ _ _ _ Hs) in Ha. mem_pure. unfold detach_alias. by mem_steps. }
  pose proof (find_binding_row db r space alias sp al Hrep Hs Ha (Hstable _ Ha)) as Hfind.
  apply normalize_bucket_member in Hs. apply wp_savepoint, wp_bind, wp_pg_load_binding.
  2:{ intros Hb. rewrite Hb in Hfind. mem_pure. unfold detach_alias. by mem_steps. }
  intros b Hb. rewrite Hb in Hfind. pose proof (binding_key _ _ _ _ Hrows Hb) as Hkey.
  destruct (b_mutable b) eqn:Hmut.
  { apply wp_bind, wp_of_res. rewrite Hkey. apply wp_raise. mem_pure.
    unfold detach_alias, raise_about_if, raise_about. mem_step. mem_step. rewrite Hmut. by mem_steps. }
  destruct (b_asset_id b) as [i|] eqn:Hid.
  2:{ apply wp_bind, wp_of_res. rewrite Hkey. apply wp_raise. mem_pure.
      unfold detach_alias, raise_about_if, raise_about. mem_step. mem_step. rewrite Hmut, Hid. by mem_steps. }
  destruct (bound_row _ _ _ _ _ _ _ Hrel Hb Hid) as (row & Hi & Hspace).
  pose proof (lookup_row _ _ _ _ Hrep Hi) as Hri. pose proof (get_wf _ _ _ _ Hwf Hri) as Hawf.
  apply wp_bind, wp_on_aliases; [|done]. intros t [= <-]. apply wp_bind.
  destruct (decide (0 < grace ∧ datetime_max < clock n + grace)) as [[Hg Hlast]|Hfits].
  { assert (Hadd : datetime_add (clock n) grace = Err PyOverflowError)
      by (unfold datetime_add; by rewrite (proj2 (Z.ltb_lt _ _) Hlast)).
    apply Z.ltb_lt in Hg. rewrite Hg. apply wp_bind, wp_utcnow, wp_bind, wp_of_res. rewrite Hadd.
    split; [lia|right]. apply (mimics_readings [clock n; clock n]); [lia|taken|]. intros f g (F0 & F1 & _).
    unfold detach_alias, raise_about_if, raise_about. do 2 mem_step. rewrite Hmut.
    do 4 mem_step. rewrite Hid. unfold _remove_alias_from_asset. do 10 mem_step.
    match goal with |- context [0 <? ?x] => change x with (r_alias_grace r) end.
    change (r_alias_grace r) with grace. rewrite Hg. do 2 mem_step. apply wp_bind, wp_of_res.
    change (@clock (reclock E f g)) with f. change (r_alias_grace _) with grace. rewrite F1, Hadd. done. }
  assert (Hadd : (0 <? grace) = true → datetime_add (clock n) grace = Ok (clock n + grace)).
  { intros Hg%Z.ltb_lt. unfold datetime_add. destruct (Z.ltb_spec datetime_max (clock n + grace)); [|done].
    destruct Hfits. by split. }
  set (tombs := if 0 <? grace then <[(sp, al) := clock n + grace]> (db_alias_tombstones db) else db_alias_tombstones db).
  set (mtombs := if 0 <? grace then <[name_key sp al := clock n + grace]> (r_tombstones r) else r_tombstones r).
  set (k := if 0 <? grace then S n else n).
  assert (Hk : (n <= k <= S n)%nat) by (unfold k; destruct (0 <? grace); lia).
  pose proof (wp_pg_give_up i caller sp al b row (delete (sp, al) (db_aliases db)) (delete (name_key sp al) (r_aliases r))
    tombs mtombs (mk_event "alias.detach" (name_key sp al) caller "success" {["asset_id" := i]} ∅ (clock k))
    (clock (S k)) n (S (S k)) db r Hrel ltac:(lia) Hb Hid Hi
    ltac:(apply keyed_delete; [done|apply Hrep])
    ltac:(unfold mtombs, tombs; destruct (0 <? grace); [apply keyed_insert; [done|]|]; apply Hrep)
    ltac:(intros; by apply lookup_delete_ne) ltac:(intros b'; by rewrite lookup_delete_eq)) as Hw.
  cut (wp (pg_mark_for_gc_if_orphaned i caller) (λ res n' db', (n <= n')%nat ∧
    match res with
    | Ok a => rows_wf db' ∧ rows_fresh n' db' ∧
        mimics (λ E', @detach_alias E' space alias caller) n r n' (λ res r', res = Ok a ∧ represents db' r')
    | Err e => infrastructure e end) (S (S k)) (db <| db_aliases := delete (sp, al) (db_aliases db) |> <| db_alias_tombstones := tombs |>
      <| db_audit_events := db_audit_events db ++
           [mk_event "alias.detach" (name_key sp al) caller "success" {["asset_id" := i]} ∅ (clock k)] |>
      <| db_assets := <[i := row <| row_updated_at := clock (S k) |>]> (db_assets db) |>)).
  2:{ eapply wp_mono; [exact Hw|]. intros [[]|e] n' db' [Hn H]; (split; [lia|]); [|exact H].
    destruct H as (Hrows' & Hfresh' & _ & L & HL & Hmem). split_and!; [done..|].
      apply (mimics_readings (clock (S k) :: (if 0 <? grace then [clock n; clock k] else [clock k]) ++ L)); [lia| |].
      { apply Forall_cons. split; [exists (S k); split; [lia|done]|]. apply Forall_app. split; [|done].
        unfold k in *. destruct (0 <? grace); taken. }
      intros f g (F0 & HL'). unfold detach_alias, raise_about_if, raise_about. do 2 mem_step. rewrite Hmut.
      do 4 mem_step. rewrite Hid. unfold _remove_alias_from_asset. do 10 mem_step.
      match goal with |- context [0 <? ?x] => change x with (r_alias_grace r) end.
      change (r_alias_grace r) with grace. apply readings_app in HL' as [HL1 HL2]. subst mtombs. destruct (0 <? grace) eqn:Hgr.
      + specialize (Hadd eq_refl). destruct HL1 as (F1 & F2 & _).
        do 2 mem_step. apply wp_bind, wp_of_res. change (@clock (reclock E f g)) with f. change (r_alias_grace _) with grace.
        rewrite F0, F1, Hadd. do 3 mem_step. change (@clock (reclock E f g)) with f. rewrite F2. cbn in HL2. rewrite !Nat.add_succ_r, Nat.add_0_r in HL2.
        exact (Hmem f g _ HL2).
      + destruct HL1 as (F1 & _). do 4 mem_step. change (@clock (reclock E f g)) with f. rewrite F0, F1.
        cbn in HL2. rewrite !Nat.add_succ_r, Nat.add_0_r in HL2. exact (Hmem f g _ HL2). }
  clear Hw. intros Hw.
  subst tombs k. clear Hk. destruct (0 <? grace).
  - apply wp_bind, wp_utcnow, wp_bind, wp_of_res. rewrite (Hadd eq_refl). apply wp_on_tombstones, wp_bind, wp_of_res. rewrite Hkey. apply wp_bind, wp_pg_audit, wp_bind, wp_utcnow, wp_bind.
    eapply wp_update_asset; [exact Hi|reflexivity|]. eapply wp_mono; [exact Hw|]. intros [[]|e] n' db' [Hn H]; (split; [lia|]); [done|by left].
  - apply wp_ret, wp_bind, wp_of_res. rewrite Hkey. apply wp_bind, wp_pg_audit, wp_bind, wp_utcnow, wp_bind.
      eapply wp_update_asset; [exact Hi|reflexivity|]. eapply wp_mono; [exact Hw|]. intros [[]|e] n' db' [Hn H]; (split; [lia|]); [done|by left].
Qed.

Lemma refines_detach_mutable_alias space alias caller n db r :
  stable_alias alias → related n db r →
  refines (pg_detach_mutable_alias space alias caller) (λ E', @detach_mutable_alias E' space alias caller) n db r.
Proof.
  intros Hstable Hrel. pose proof Hrel as [Hrep Hrows Hfresh Hwf]. unfold refines, pg_detach_mutable_alias.
  apply wp_bind, wp_of_res. destruct (normalize_space space) as [sp|e] eqn:Hs.
  2:{ apply (find_binding_space r _ alias) in Hs. mem_pure. unfold detach_mutable_alias. by mem_steps. }
  apply wp_bind, wp_of_res. destruct (normalize_relative_alias alias) as [al|e] eqn:Ha.
  2:{ apply (find_binding_alias r _ _ _ _ Hs) in Ha. mem_pure. unfold detach_mutable_alias. by mem_steps. }
  pose proof (find_binding_row db r space alias sp al Hrep Hs Ha (Hstable _ Ha)) as Hfind.
  apply normalize_bucket_member in Hs. apply wp_bind, wp_utcnow, wp_bind, wp_savepoint, wp_bind, wp_pg_load_binding.
  2:{ intros Hb. rewrite Hb in Hfind. mem_pure. unfold detach_mutable_alias. by mem_steps. }
  intros b Hb. rewrite Hb in Hfind. pose proof (binding_key _ _ _ _ Hrows Hb) as Hkey.
  destruct (b_mutable b) eqn:Hmut; cbn [negb].
  2:{ apply wp_bind, wp_of_res. rewrite Hkey. apply wp_raise. mem_pure.
      unfold detach_mutable_alias, raise_about_if, raise_about. mem_step. mem_step. rewrite Hmut. cbn [negb]. by mem_steps. }
  destruct (b_asset_id b) as [i|] eqn:Hid.
  2:{ apply wp_bind, wp_of_res. rewrite Hkey. apply wp_raise. mem_pure.
      unfold detach_mutable_alias, raise_about_if, raise_about. mem_step. mem_step. rewrite Hmut. cbn [negb]. do 2 mem_step. rewrite Hid. by mem_steps. }
  destruct (bound_row _ _ _ _ _ _ _ Hrel Hb Hid) as (row & Hi & Hspace).
  pose proof (lookup_row _ _ _ _ Hrep Hi) as Hri.
  set (b' := b <| b_asset_id := None |> <| b_previous_asset_id := Some i |> <| b_updated_at := clock n |>).
  pose proof (wp_pg_give_up i caller sp al b row (<[(sp, al) := b']> (db_aliases db)) (<[name_key sp al := b']> (r_aliases r))
    (db_alias_tombstones db) (r_tombstones r)
    (mk_event "alias.detach_mutable" (name_key sp al) caller "success" {["asset_id" := i]} {["asset_id" := ""]} (clock (S n)))
    (clock n) n (S (S n)) db r Hrel ltac:(lia) Hb Hid Hi
    ltac:(apply keyed_insert; [done|apply Hrep]) ltac:(apply Hrep)
    ltac:(intros; by apply lookup_insert_ne)
    ltac:(intros b2; rewrite lookup_insert_eq; intros [= <-]; destruct (dw_alias _ Hrows _ _ _ Hb) as (? & ? & _); done)) as Hw.
  apply wp_bind. eapply (wp_update_alias _ b b'); [exact Hb|reflexivity|]. apply wp_bind, wp_of_res. rewrite Hkey. apply wp_bind, wp_pg_audit, wp_bind.
  eapply wp_update_asset; [exact Hi|reflexivity|]. eapply wp_mono; [exact Hw|].
  intros [[]|e] n' db' [Hn H]; [|split; [lia|by left]].
  destruct H as (Hrows' & Hfresh' & Hal & L & HL & Hmem). cbn [is_Ok].
  apply wp_pg_load_binding; rewrite Hal, lookup_insert_eq; [|done]. intros b2 [= <-]. split; [lia|]. split_and!; [done..|].
  apply (mimics_readings ([clock n; clock n; clock (S n)] ++ L)); [lia| |].
  { apply Forall_app. split; [taken|done]. }
  intros f g ([F0 [F1 [F2 _]]] & HL')%readings_app. cbn in HL'. rewrite !Nat.add_succ_r, Nat.add_0_r in HL'.
  unfold detach_mutable_alias, raise_about_if, raise_about. do 2 mem_step. rewrite Hmut.
  cbn [negb]. do 2 mem_step. rewrite Hid. unfold _remove_alias_from_asset. do 13 mem_step. mem_clock F0. rewrite F1.
  mem_step. mem_step. mem_clock F2. eapply wp_mono; [exact (Hmem f g _ HL')|].
  intros ? ? ? [-> Hrep']. by mem_steps.
Qed.

Lemma refines_rebind_alias space alias i caller n db r :
  stable_alias alias → related n db r →
  refines (pg_rebind_alias space alias i caller) (λ E', @rebind_alias E' space alias i caller) n db r.
Proof.
  intros Hstable Hrel. pose proof Hrel as [Hrep Hrows Hfresh Hwf]. unfold refines, pg_rebind_alias.
  apply wp_bind, wp_of_res. destruct (normalize_space space) as [sp|e] eqn:Hs.
  2:{ apply (find_binding_space r _ alias) in Hs. mem_pure. unfold rebind_alias. by mem_steps. }
  apply wp_bind, wp_of_res. destruct (normalize_relative_alias alias) as [al|e] eqn:Ha.
  2:{ apply (find_binding_alias r _ _ _ _ Hs) in Ha. mem_pure. unfold rebind_alias. by mem_steps. }
  pose proof (find_binding_row db r space alias sp al Hrep Hs Ha (Hstable _ Ha)) as Hfind.
  apply normalize_bucket_member in Hs. apply wp_bind, wp_utcnow, wp_bind, wp_savepoint, wp_bind, wp_pg_load_binding.
  2:{ intros Hb. rewrite Hb in Hfind. mem_pure. unfold rebind_alias. by mem_steps. }
  intros b Hb. rewrite Hb in Hfind. pose proof (binding_key _ _ _ _ Hrows Hb) as Hkey.
  destruct (dw_alias _ Hrows _ _ _ Hb) as (Hbsp & Hbal & _ & Hnorm).
  destruct (b_mutable b) eqn:Hmut; cbn [negb].
  2:{ apply wp_bind, wp_of_res. rewrite Hkey. apply wp_raise. mem_pure.
      unfold rebind_alias, raise_about_if, raise_about. mem_step. mem_step. rewrite Hmut. cbn [negb]. by mem_steps. }
  destruct (bool_decide (is_Some (b_asset_id b))) eqn:Hid.
  { apply wp_bind, wp_of_res. rewrite Hkey. apply wp_raise. mem_pure.
    unfold rebind_alias, raise_about_if, raise_about. mem_step. mem_step. rewrite Hmut. cbn [negb]. do 2 mem_step. rewrite Hid. by mem_steps. }
  assert (Hmem : ∀ f g Q, 
    wp (new_asset ← _get_asset i;
        raise_if (bool_decide (a_space new_asset ≠ b_space b)) AliasConflictError ;;
        partition ← of_res (_partition_from_scoped_alias (b_alias b));
        raise_if (bool_decide (a_partition_id new_asset ≠ partition)) AliasConflictError ;;
        raise_if (bool_decide (a_state new_asset ≠ AVAILABLE)) InvalidStateTransitionError ;;
        key ← of_res (b_qualified_alias b);
        now ← @utcnow (reclock E f g) Registry;
        let b' := b <| b_asset_id := Some i |> <| b_previous_asset_id := None |> <| b_updated_at := now |> in
        put_alias key b' ;; @_add_alias_to_asset (reclock E f g) i key ;;
        @_audit (reclock E f g) "alias.rebind" key caller "success"
          {["asset_id" := default "" (b_previous_asset_id b)]} {["asset_id" := i]} ;; mret b') Q n r →
    wp (@rebind_alias (reclock E f g) space alias i caller) Q n r).
  { intros f g Q HQ. unfold rebind_alias, raise_about_if, raise_about. do 2 mem_step. rewrite Hmut, Hid. cbn [negb].
    do 4 mem_step. exact HQ. }
  apply wp_bind, wp_pg_load_asset.
  2:{ intros Hi%(lookup_no_row _ _ _ Hrep). mem_pure. apply Hmem. by mem_steps. }
  intros row Hi. pose proof (lookup_row _ _ _ _ Hrep Hi) as Hri.
  apply wp_bind, wp_raise_if; intros H1. { mem_pure. apply Hmem. by mem_steps. }
  apply wp_bind, wp_of_res. destruct (_partition_from_scoped_alias (b_alias b)) as [part|e] eqn:Hpart.
  2:{ mem_pure. apply Hmem. by mem_steps. }
  apply wp_bind, wp_raise_if; intros H2. { mem_pure. apply Hmem. by mem_steps. }
  apply wp_bind, wp_raise_if; intros H3. { mem_pure. apply Hmem. by mem_steps. }
  set (b' := b <| b_asset_id := Some i |> <| b_previous_asset_id := None |> <| b_updated_at := clock n |>).
  set (row' := row <| row_updated_at := clock n |>).
  assert (Hspace : row_space row = sp) by (guards; rewrite <- Hbsp; by apply dec_stable).
  apply wp_bind. eapply (wp_update_alias _ b b'); [exact Hb|reflexivity|]. apply wp_bind. eapply (wp_update_asset i row row'); [exact Hi|reflexivity|].
  apply wp_bind, wp_of_res. rewrite Hkey. apply wp_pg_audit. cbn [is_Ok].
  apply wp_pg_load_binding; cbn [db_aliases replace_field replace_db_audit_events replace_db_assets replace_db_aliases];
    rewrite lookup_insert_eq; [|done]. intros b2 [= <-]. split; [lia|].
  destruct (represents_bound db r sp al b' i row (clock n) Hrep Hrows Hi Hspace Hs Hbsp Hbal Hnorm eq_refl) as [Hrep' Hrows'].
  { intros b0 Hb0. rewrite Hb in Hb0. injection Hb0 as <-. guards. destruct (b_asset_id b); [|done]. by destruct Hid. }
  split_and!; [by apply rows_wf_audit|fresh_put|].
  apply (mimics_readings [clock n; clock n; clock (S n)]); [lia|taken|]. intros f g (F0 & F1 & F2 & _).
  apply Hmem. unfold _add_alias_to_asset. mem_steps. mem_clock F0. rewrite F1, F2. split; [done|].
  exact (represents_audit _ _ _ Hrep').
Qed.

(** ** Attaching *)

(** What checking a name does: nothing, or an expired tombstone is deleted. *)
Definition checks (sp al : string) (n : nat) (db : Database) (r : Registry)
    (res : res unit) (n' : nat) (db' : Database) : Prop :=
  (res = Ok tt ∨ res = Err AliasConflictError) ∧
  (res = Ok tt → db_aliases db !! (sp, al) = None) ∧
  ∃ L t m, n' = (n + length L)%nat ∧ Forall (λ t, ∃ j, (n <= j < n')%nat ∧ t = clock j) L ∧
    db' = db <| db_alias_tombstones := t |> ∧ keyed m t ∧
    ∀ f g k, readings f k L →
      @_require_alias_name_available (reclock E f g) sp al k r =
      (res, (k + length L)%nat, r <| r_tombstones := m |>).

Lemma wp_pg_require sp al n db r :
  represents db r → sp ∈ STORAGE_BUCKETS → normalize_relative_alias al = Ok al →
  wp (pg_require_alias_name_available sp al) (checks sp al n db r) n db.
Proof.
  intros Hrep Hs Ha. pose proof (qualified_key sp al Hs Ha) as Hkey.
  assert (Hsame : ∀ res, (∀ f g k, @_require_alias_name_available (reclock E f g) sp al k r = (res, k, r)) →
    ∀ f g k, readings f k [] → @_require_alias_name_available (reclock E f g) sp al k r =
      (res, (k + length (@nil Z))%nat, r <| r_tombstones := r_tombstones r |>)).
  { intros res H f g k _. rewrite H. cbn. rewrite Nat.add_0_r. by destruct r. }
  unfold pg_require_alias_name_available. apply wp_bind, wp_select.
  destruct (db_aliases db !! (sp, al)) as [b|] eqn:Hb.
  { apply wp_raise. split_and!; [by right|done|]. exists [], (db_alias_tombstones db), (r_tombstones r).
    split_and!; [cbn; lia|by apply Forall_nil|by destruct db|apply Hrep|]. apply Hsame. intros f g k.
    unfold _require_alias_name_available, _alias_name_is_blocked, mbind, M_bind, of_res, get_state. rewrite Hkey. cbn.
    rewrite (rp_aliases _ _ Hrep), Hb by done. done. }
  apply wp_bind, wp_select. destruct (db_alias_tombstones db !! (sp, al)) as [until|] eqn:Ht.
  2:{ apply wp_ret. split_and!; [by left|done|]. exists [], (db_alias_tombstones db), (r_tombstones r).
    split_and!; [cbn; lia|by apply Forall_nil|by destruct db|apply Hrep|]. apply Hsame. intros f g k.
    unfold _require_alias_name_available, _alias_name_is_blocked, mbind, M_bind, of_res, get_state. rewrite Hkey. cbn.
    rewrite (rp_aliases _ _ Hrep), Hb, (rp_tombstones _ _ Hrep), Ht by done. done. }
  apply wp_bind, wp_utcnow.
  assert (Hmem : ∀ f g k, f k = clock n → @_require_alias_name_available (reclock E f g) sp al k r =
    if until <=? clock n then (Ok tt, S k, r <| r_tombstones := delete (name_key sp al) (r_tombstones r) |>)
    else (Err AliasConflictError, S k, r)).
  { intros f g k Hf. unfold _require_alias_name_available, _alias_name_is_blocked, mbind, M_bind, of_res, get_state. rewrite Hkey. cbn.
    rewrite (rp_aliases _ _ Hrep), Hb, (rp_tombstones _ _ Hrep), Ht by done.
    rewrite decide_False by (by intros []). cbn. change (@clock (reclock E f g)) with f. rewrite Hf.
    by destruct (until <=? clock n). }
  destruct (until <=? clock n).
  - apply wp_on_tombstones. split_and!; [by left|done|].
    exists [clock n], (delete (sp, al) (db_alias_tombstones db)), (delete (name_key sp al) (r_tombstones r)).
    split_and!; [cbn; lia|taken|done|apply keyed_delete; [done|apply Hrep]|].
    intros f g k [F0 _]. rewrite Hmem by done. cbn. by rewrite Nat.add_1_r.
  - apply wp_raise. split_and!; [by right|done|]. exists [clock n], (db_alias_tombstones db), (r_tombstones r).
    split_and!; [cbn; lia|taken|by destruct db|apply Hrep|].
    intros f g k [F0 _]. rewrite Hmem by done. cbn. rewrite Nat.add_1_r. by destruct r.
Qed.

Lemma alias_under_partition_normal p alias name :
  normalize_partition_id p = Ok p → stable_alias alias → _alias_under_partition p alias = Ok name →
  normalize_relative_alias name = Ok name.
Proof.
  intros Hp Hstable. unfold _alias_under_partition, mbind, res_bind. rewrite Hp.
  destruct (normalize_relative_alias alias) as [rel|] eqn:Hrel; [|done]. pose proof (Hstable _ Hrel) as Hr.
  destruct (is_path_or_child p rel); intros [= <-]; [done|by apply normalize_join].
Qed.

Lemma refines_attach_alias i alias mutable caller n db r :
  stable_alias alias → related n db r →
  refines (pg_attach_alias i alias mutable caller) (λ E', @attach_alias E' i alias mutable caller) n db r.
Proof.
  intros Hstable Hrel. pose proof Hrel as [Hrep Hrows Hfresh Hwf]. unfold refines, pg_attach_alias, locked_asset.
  apply wp_savepoint, wp_bind, wp_pg_load_asset.
  2:{ intros Hi%(lookup_no_row _ _ _ Hrep). mem_pure. unfold attach_alias. by mem_steps. }
  intros row Hi. pose proof (lookup_row _ _ _ _ Hrep Hi) as Hri.
  destruct (row_partition_normal _ _ _ _ _ Hrel Hi) as (Hsp & Hpart & Hrid & _).
  apply wp_bind, wp_raise_if; intros H1. { mem_pure. unfold attach_alias. by mem_steps. }
  set (sp := row_space row) in *. change (a_space (load_row db row)) with sp.
  change (a_partition_id (load_row db row)) with (row_partition_id row).
  pose proof (normalize_bucket_fix sp Hsp : normalize_space sp = Ok sp) as Hspace.
  apply wp_bind, wp_of_res. destruct (_alias_under_partition (row_partition_id row) alias) as [al|e] eqn:Hal.
  2:{ mem_pure. unfold attach_alias. mem_step. mem_step. mem_step. mem_step. mem_step.
      change (a_space (load_row db row)) with sp. mem_steps.
      change (a_partition_id (load_row db row)) with (row_partition_id row). by rewrite Hal. }
  pose proof (alias_under_partition_normal _ _ _ Hpart Hstable Hal) as Hnorm.
  pose proof (qualified_key sp al Hsp Hnorm) as Hkey.
  assert (Hstart : ∀ f g Q,
    wp (@_require_alias_name_available (reclock E f g) sp al ;;
        now ← @utcnow (reclock E f g) Registry;
        put_alias (name_key sp al) (mk_binding sp al (Some i) mutable None now now caller) ;;
        @_add_alias_to_asset (reclock E f g) i (name_key sp al) ;;
        @_audit (reclock E f g) "alias.attach" (name_key sp al) caller "success" ∅
          {["asset_id" := i; "mutable" := str_bool_lower mutable]} ;;
        mret (mk_binding sp al (Some i) mutable None now now caller)) Q n r →
    wp (@attach_alias (reclock E f g) i alias mutable caller) Q n r).
  { intros f g Q HQ. unfold attach_alias. do 5 mem_step. change (a_space (load_row db row)) with sp. do 3 mem_step.
    change (a_partition_id (load_row db row)) with (row_partition_id row). rewrite Hal. cbv beta iota.
    unfold wp, mbind, M_bind in HQ |- *.
    destruct (@_require_alias_name_available (reclock E f g) sp al n r) as [[[[]|e] n'] r'] eqn:Hreq; [|done].
    unfold of_res. rewrite Hkey. exact HQ. }
  apply wp_bind. eapply wp_mono; [by apply wp_pg_require|].
  intros res n1 db1 (Hres & Hfree & L & t & m & -> & HL & -> & Hk & Hmem).
  destruct Hres as [-> | ->]; cycle 1.
  { split; [lia|right]. apply (mimics_readings L); [lia|done|]. intros f g HLf. apply Hstart.
    apply wp_bind. unfold wp. by rewrite (Hmem f g n HLf). }
  set (n1 := (n + length L)%nat) in *. pose proof (Hfree eq_refl) as Hnone.
  pose proof (represents_tombstones _ _ m t Hrep Hk) as Hrep1.
  set (b := mk_binding sp al (Some i) mutable None (clock n1) (clock n1) caller).
  destruct (represents_bound _ _ sp al b i row (clock n1) Hrep1 ltac:(by destruct Hrows; split) Hi eq_refl Hsp eq_refl eq_refl Hnorm eq_refl) as [Hrep2 Hrows2].
  { intros b0 Hb0. cbn in Hb0. congruence. }
  apply wp_bind, wp_utcnow, wp_bind. unfold conflict_on_duplicate. apply wp_catch, wp_savepoint, wp_on_aliases;
    unfold insert_row, mret, res_ret; cbn [db_aliases replace_field replace_db_alias_tombstones];
    rewrite decide_False by (rewrite Hnone; by intros []); [|done].
  intros t2 [= <-]. cbn [is_Ok].
  apply wp_bind. eapply wp_update_asset; [exact Hi|reflexivity|]. apply wp_bind, wp_pg_audit.
  apply wp_pg_load_binding; cbn [db_aliases replace_field replace_db_audit_events replace_db_assets replace_db_aliases];
    rewrite lookup_insert_eq; [|done]. intros b2 [= <-]. split; [lia|]. cbn [is_Ok].
  split_and!; [by apply rows_wf_audit|fresh_put|].
  apply (mimics_readings (L ++ [clock n1; clock n1; clock (S n1)])); [lia| |].
  { apply Forall_app. split; [|unfold n1; taken]. eapply Forall_impl; [exact HL|].
    intros t0 (j & Hj & ->). exists j. split; [unfold n1 in *; lia|done]. }
  intros f g (HLf & F0 & F1 & F2 & _)%readings_app. apply Hstart. apply wp_bind. unfold wp at 1. rewrite (Hmem f g n HLf).
  fold n1 in F0, F1, F2 |- *. unfold _add_alias_to_asset. mem_steps. mem_clock F0. rewrite F1, F2. split; [done|].
  exact (represents_audit _ _ _ Hrep2).
Qed.
End Names.
