(* ===== verification/PgReserve.v ===== *)
(** * Reserving an asset by SQL

    The Postgres method draws the identifier and the time before it checks the
    names, the in-memory one after: the readings are the same in another order. *)

From S2P Require Import Prelude Errors Python Effects Paths Models Retention Sha256 Registry RegistryInv RegistrySound PgSchema PgRegistry PgRelation PgQuota PgMethods PgNames.

(** The name of a spec under its partition, as [pg_reserve_asset] computes it. *)
Definition scope (p : string) (spec : string * bool) : res (string * bool) :=
  name ← _alias_under_partition p spec.1; mret (name, spec.2).

Lemma scope_Ok p spec s :
  scope p spec = Ok s → _alias_under_partition p spec.1 = Ok s.1 ∧ s.2 = spec.2.
Proof.
  unfold scope, mbind, res_bind. destruct (_alias_under_partition p spec.1); [|done]. by intros [= <-].
Qed.

Lemma mapM_cons_Ok {A B} (f : A → res B) x l y :
  mapM f (x :: l) = Ok y → ∃ z k, f x = Ok z ∧ mapM f l = Ok k ∧ y = z :: k.
Proof.
  cbn. unfold mbind, res_bind. destruct (f x) as [z|]; [|done]. destruct (mapM f l) as [k|]; [|done].
  intros [= <-]. by exists z, k.
Qed.

(** ** Computations that always raise *)

Definition errs {S A} (m : M S A) : Prop := ∀ n s, wp m (λ res _ _, is_Ok res = false) n s.

Lemma errs_raise {S A} e : errs (raise e : M S A).
Proof. done. Qed.

Lemma errs_bind_l {S A B} (m : M S A) (k : A → M S B) : errs m → errs (m ≫= k).
Proof. intros Hm n s. apply wp_bind. eapply wp_mono; [apply Hm|]. by intros [a|e] n' s' ?. Qed.

Lemma errs_bind_r {S A B} (m : M S A) (k : A → M S B) : (∀ a, errs (k a)) → errs (m ≫= k).
Proof.
  intros Hk n s. apply wp_bind. unfold wp. destruct (m n s) as [[[a|e] n'] s']; [apply Hk|done].
Qed.

Lemma errs_of_res {S A B} (r : res A) (k : A → M S B) : (∀ a, r = Ok a → errs (k a)) → errs (of_res r ≫= k).
Proof. intros Hk n s. apply wp_bind, wp_of_res. destruct r as [a|e]; [by apply Hk|done]. Qed.

Lemma mapM_Err {A B} (f : A → res B) l e : mapM f l = Err e → Exists (λ x, is_Ok (f x) = false) l.
Proof.
  revert e. induction l as [|x l IH]; [done|]. intros e. cbn. unfold mbind, res_bind.
  destruct (f x) as [y|] eqn:Hx; [|left; by rewrite Hx].
  destruct (mapM f l) as [k|e2]; [done|]. intros _. right. by eapply IH.
Qed.

Lemma errs_for_each {S A B} (f : A → res B) (body : B → M S unit) l :
  Exists (λ x, is_Ok (f x) = false) l → errs (for_each l (λ x, y ← of_res (f x); body y)).
Proof.
  induction 1 as [x l Hx|x l _ IH]; cbn; [|by apply errs_bind_r].
  do 2 apply errs_bind_l. intros n s. apply wp_of_res. by rewrite Hx.
Qed.

Section Reserve.
Context {E : Env}.
Implicit Types (n : nat) (db : Database) (r : Registry).

(** ** Checking the names *)

Lemma wp_pg_require_all sp p specs scoped n db r :
  represents db r → sp ∈ STORAGE_BUCKETS → normalize_partition_id p = Ok p →
  Forall (λ spec, stable_alias spec.1) specs → mapM (scope p) specs = Ok scoped →
  wp (for_each scoped (λ spec, pg_require_alias_name_available sp spec.1)) (λ res n' db',
    (res = Ok tt ∨ res = Err AliasConflictError) ∧
    ∃ L t m, n' = (n + length L)%nat ∧ Forall (λ t, ∃ j, (n <= j < n')%nat ∧ t = clock j) L ∧
      db' = db <| db_alias_tombstones := t |> ∧ keyed m t ∧
      ∀ f g k, readings f k L →
        for_each specs (λ spec, scoped ← of_res (_alias_under_partition p spec.1);
          @_require_alias_name_available (reclock E f g) sp scoped) k r =
        (res, (k + length L)%nat, r <| r_tombstones := m |>)) n db.
Proof.
  intros Hrep Hs Hp Hstable. revert scoped n db r Hrep.
  induction Hstable as [|spec specs Hspec _ IH]; intros scoped n db r Hrep Hsc.
  { injection Hsc as <-. apply wp_ret. split; [by left|].
    exists [], (db_alias_tombstones db), (r_tombstones r).
    split_and!; [cbn; lia|by apply Forall_nil|by destruct db|apply Hrep|].
    intros f g k _. cbn. rewrite Nat.add_0_r. by destruct r. }
  apply mapM_cons_Ok in Hsc as ([name mutable] & scoped' & [Hname _]%scope_Ok & Hsc & ->). cbn in Hname.
  pose proof (alias_under_partition_normal _ _ _ Hp Hspec Hname) as Hnorm.
  cbn [for_each]. apply wp_bind. eapply wp_mono; [by apply wp_pg_require|].
  intros res n1 db1 (Hres & _ & L & t & m & -> & HL & -> & Hk & Hmem).
  cbn [fst] in Hmem.
  assert (Hhead : ∀ f g k, readings f k L → ∀ body : M Registry unit,
    ((scoped ← of_res (_alias_under_partition p spec.1);
      @_require_alias_name_available (reclock E f g) sp scoped) ;; body) k r =
    match res with
    | Ok _ => body (k + length L)%nat (r <| r_tombstones := m |>)
    | Err e => (Err e, (k + length L)%nat, r <| r_tombstones := m |>)
    end).
  { intros f g k HLf body. unfold mbind, M_bind, of_res. by rewrite Hname, (Hmem f g k HLf). }
  destruct Hres as [-> | ->]; cycle 1.
  { split; [by right|]. exists L, t, m. split_and!; [done..|]. intros f g k HLf. exact (Hhead f g k HLf _). }
  eapply wp_mono; [by apply IH; [apply represents_tombstones|]|].
  intros res n2 db2 (Hres & L2 & t2 & m2 & -> & HL2 & -> & Hk2 & Hmem2). split; [done|].
  exists (L ++ L2), t2, m2. rewrite length_app, Nat.add_assoc. split_and!; [done| |done|done|].
  - apply Forall_app. split; eapply Forall_impl; try eassumption; intros t0 (j & Hj & ->); exists j; split; [lia|done|lia|done].
  - intros f g k [HLf HLf2]%readings_app. etrans; [exact (Hhead f g k HLf _)|]. rewrite Nat.add_assoc.
    exact (Hmem2 f g _ HLf2).
Qed.

(** ** Binding the names *)

Definition binds (i sp p owner : string) (now : Z) (specs scoped : list (string * bool)) n db r n' db' : Prop :=
  ∃ L t m evs, Forall (λ t, ∃ j, (n <= j < n')%nat ∧ t = clock j) L ∧
    db' = db <| db_aliases := t |> <| db_audit_events := evs |> ∧ keyed m t ∧
    (∀ row, alias_names row t =
       if decide (row_asset_id row = i)
       then list_to_set (name_key (row_space row) <$> scoped.*1) ∪ alias_names row (db_aliases db)
       else alias_names row (db_aliases db)) ∧
    (∀ sp' al b, t !! (sp', al) = Some b → db_aliases db !! (sp', al) = Some b ∨
       b_space b = sp' ∧ b_alias b = al ∧ sp' = sp ∧ normalize_relative_alias al = Ok al) ∧
    ∀ f g k, readings f k L →
      for_each specs (@bind_alias (reclock E f g) sp p i owner now) k r =
      (Ok tt, (k + length L)%nat, r <| r_aliases := m |> <| r_audit_events := evs |>).

Lemma wp_pg_insert_all i sp p owner now specs scoped n db r :
  keyed (r_aliases r) (db_aliases db) → r_audit_events r = db_audit_events db →
  sp ∈ STORAGE_BUCKETS → normalize_partition_id p = Ok p →
  Forall (λ spec, stable_alias spec.1) specs → mapM (scope p) specs = Ok scoped →
  wp (for_each scoped (pg_insert_alias sp i owner now)) (λ res n' db', (n <= n')%nat ∧
    match res with Ok _ => binds i sp p owner now specs scoped n db r n' db' | Err e => infrastructure e end) n db.
Proof.
  intros Hk He Hs Hp Hstable. revert scoped n db r Hk He.
  induction Hstable as [|spec specs Hspec _ IH]; intros scoped n db r Hk He Hsc.
  { injection Hsc as <-. apply wp_ret. split; [lia|]. exists [], (db_aliases db), (r_aliases r), (db_audit_events db).
    split_and!; [by apply Forall_nil|by destruct db|done| |by left|].
    - intros row. cbn. case_decide; [by rewrite union_empty_l_L|done].
    - intros f g k _. cbn. rewrite Nat.add_0_r, <- He. by destruct r. }
  apply mapM_cons_Ok in Hsc as ([name mutable] & scoped' & [Hname Hmut]%scope_Ok & Hsc & ->). cbn in Hname, Hmut.
  subst mutable. pose proof (alias_under_partition_normal _ _ _ Hp Hspec Hname) as Hnorm.
  pose proof (qualified_key sp name Hs Hnorm) as Hkey.
  set (b := mk_binding sp name (Some i) spec.2 None now now owner).
  set (ev := mk_event "alias.create" (name_key sp name) owner "success" ∅
               {["asset_id" := i; "mutable" := str_bool_lower spec.2]} (clock n)).
  cbn [for_each]. unfold pg_insert_alias at 1. apply wp_bind, wp_bind, wp_on_aliases; unfold insert_row; cycle 1.
  { intros e. case_decide; [|done]. intros [= <-]. split; [lia|]. right. by left. }
  intros t1. case_decide as Hfree; [done|]. intros [= <-]. apply eq_None_not_Some in Hfree. cbn [fst] in Hfree.
  apply wp_pg_audit. set (db1 := _ <| db_audit_events := _ |>).
  set (r1 := r <| r_aliases := <[name_key sp name := b]> (r_aliases r) |> <| r_audit_events := r_audit_events r ++ [ev] |>).
  eapply wp_mono; [apply (IH scoped' (S n) db1 r1); [by apply keyed_insert|by cbn; rewrite He|done]|].
  intros [[]|e] n' db' [Hn H]; (split; [lia|]); [|done].
  destruct H as (L & t & m & evs & HL & -> & Hkm & Hnames & Hrows & Hmem).
  exists (clock n :: L), t, m, evs. split_and!; [|done|done| | |].
  - apply Forall_cons. split; [exists n; split; [lia|done]|].
    eapply Forall_impl; [exact HL|]. intros t0 (j & Hj & ->). exists j. split; [lia|done].
  - intros row. rewrite Hnames. cbn. rewrite (alias_names_bind _ _ sp name b i eq_refl eq_refl) by (intros; congruence).
    case_decide; [|done]. set_solver.
  - intros sp' al b' [Hb|H]%Hrows; [|by right]. cbn in Hb.
    apply lookup_insert_Some in Hb as [[[= <- <-] <-]|[_ Hb]]; [by right|by left].
  - intros f g k [F0 HLf]. cbn [for_each length]. unfold mbind at 1, M_bind at 1.
    replace (bind_alias sp p i owner now spec k r) with (Ok tt, S k, r1).
    { rewrite <- plus_n_Sm. exact (Hmem f g _ HLf). }
    unfold bind_alias, mbind, M_bind, of_res, put_alias, modify, _audit, b_qualified_alias. rewrite Hname. cbn. rewrite Hkey.
    cbn. unfold r1, ev, utcnow, mbind, M_bind, modify. change (@clock (reclock E f g)) with f. by rewrite F0.
Qed.

(** ** The method *)

Definition reserve_stable (partition_id : string) (aliases : alias_specs) : Prop := ∀ p specs,
  normalize_partition_id partition_id = Ok p → _normalize_alias_specs aliases = Ok specs →
  normalize_partition_id p = Ok p ∧ Forall (λ spec, stable_alias spec.1) specs.

(** [refines], up to which check of the in-memory method refuses first. *)
Definition refines_refusals {A} (mp : M Database A) (mm : Env → M Registry A) n db r : Prop :=
  wp mp (λ res n' db', (n <= n')%nat ∧
    match res with
    | Ok a => rows_wf db' ∧ rows_fresh n' db' ∧
              mimics mm n r n' (λ res r', res = Ok a ∧ represents db' r')
    | Err e => infrastructure e ∨ mimics mm n r n' (λ res _, is_Ok res = false)
    end) n db.

Lemma mimics_mono {A} (mm : Env → M Registry A) n r hi (Q Q' : res A → Registry → Prop) :
  (∀ res r', Q res r' → Q' res r') → mimics mm n r hi Q → mimics mm n r hi Q'.
Proof.
  intros HQ (L & p & Hp & HL & Hm). exists L, p. split_and!; [done..|]. intros f g Hf Hg.
  eapply wp_mono; [by apply Hm|]. cbn. auto.
Qed.

Lemma refines_refusals_intro {A} (mp : M Database A) (mm : Env → M Registry A) n db r :
  refines mp mm n db r → refines_refusals mp mm n db r.
Proof.
  intros Hr. eapply wp_mono; [exact Hr|]. intros [a|e] n' db' [Hn H]; (split; [done|]); [done|].
  destruct H as [H|H]; [by left|right]. eapply mimics_mono; [|exact H]. by intros res r' ->.
Qed.

Lemma mimics_errs {A} (mm : Env → M Registry A) n r hi :
  (n <= hi)%nat → (∀ f g, errs (mm (reclock E f g))) → mimics mm n r hi (λ res _, is_Ok res = false).
Proof. intros Hn Hm. apply mimics_pure; [done|]. intros f g. apply Hm. Qed.

Lemma qualified_all sp p specs scoped :
  sp ∈ STORAGE_BUCKETS → normalize_partition_id p = Ok p →
  Forall (λ spec, stable_alias spec.1) specs → mapM (scope p) specs = Ok scoped →
  mapM (λ spec : string * bool, scoped ← _alias_under_partition p spec.1; qualified_alias sp scoped) specs =
  Ok (name_key sp <$> scoped.*1).
Proof.
  intros Hs Hp Hstable. revert scoped. induction Hstable as [|spec specs Hspec _ IH]; intros scoped Hsc.
  { by injection Hsc as <-. }
  apply mapM_cons_Ok in Hsc as (s & scoped' & [Hname _]%scope_Ok & Hsc & ->).
  cbn. rewrite (IH _ Hsc). unfold mbind, res_bind. rewrite Hname.
  by rewrite (qualified_key sp s.1 Hs (alias_under_partition_normal _ _ _ Hp Hspec Hname)).
Qed.

Lemma scope_error p specs e :
  mapM (scope p) specs = Err e →
  Exists (λ spec : string * bool, is_Ok (_alias_under_partition p spec.1) = false) specs.
Proof.
  intros H%mapM_Err. eapply Exists_impl; [exact H|]. intros spec. unfold scope, mbind, res_bind.
  by destruct (_alias_under_partition p spec.1).
Qed.

Lemma storage_key_total `{!UuidFormat E} p n :
  normalize_partition_id p = Ok p → ∃ key, build_storage_key p (new_uuid n) = Ok key.
Proof.
  intros Hp. eexists. apply build_storage_key_Ok. exists p. split; [done|]. rewrite uuid_strip.
  split; [apply uuid_nonempty|done].
Qed.

(** No name of a table is bound to an asset that is not there. *)
Lemma no_names_yet n db r row :
  related n db r → db_assets db !! row_asset_id row = None → alias_names row (db_aliases db) = ∅.
Proof.
  intros Hrel Hi. apply alias_names_empty. intros ([sp al] & b & Hb & Hid).
  destruct (bound_row _ _ _ _ _ _ _ Hrel Hb Hid) as (row0 & Hrow & _). congruence.
Qed.

Lemma reserve_negative {S A} (reserved : option Z) (enforce : Z → M S unit) (rest : unit → M S A) :
  is_negative reserved = true →
  errs (match reserved with
        | Some bytes => raise_if (bytes <? 0) ValidationError ;; enforce bytes
        | None => mret tt
        end ≫= rest).
Proof. intros H. destruct reserved as [z|]; [|done]. cbn in H. rewrite H. by apply errs_bind_l, errs_bind_l. Qed.

Lemma wp_pg_enforce_opt sp p reserved Q n db r :
  represents db r → rows_wf db → quota_keys_wf (r_partition_quotas r) (r_bucket_quotas r) →
  sp ∈ STORAGE_BUCKETS → normalize_partition_id p = Ok p → is_negative reserved = false →
  (∀ res db', represents db' r → rows_wf db' → same_tables db db' →
     (∀ f g k, (match reserved with
              | Some bytes => raise_if (bytes <? 0) ValidationError ;; @_enforce_quota (reclock E f g) sp p bytes None
              | None => mret tt
              end : M Registry unit) k r = (res, k, r)) → Q res n db') →
  wp (match reserved with Some bytes => pg_enforce_quota sp p bytes None | None => mret tt end) Q n db.
Proof.
  intros Hrep Hrows Hk Hs Hp Hneg HQ. destruct reserved as [bytes|]; [|by apply wp_ret, HQ].
  cbn in Hneg. eapply wp_pg_enforce_quota; [done..|]. intros db' Hrep' Hrows' Hst. apply HQ; [done..|].
  intros f g k. by rewrite Hneg.
Qed.

Lemma wp_insert_asset reserved row i (Q : res unit → nat → Database → Prop) n db :
  (∀ e, infrastructure e → Q (Err e) n db) →
  (db_assets db !! i = None → Q (Ok tt) n (db <| db_assets := <[i := row reserved]> (db_assets db) |>)) →
  wp (on_assets (λ table, reserved ← bigint_null reserved; insert_row i (row reserved) table)) Q n db.
Proof.
  intros Herr HQ. apply wp_on_assets; unfold insert_row, mbind, res_bind;
    (destruct (bigint_null_cases reserved) as [-> | ->]; [case_decide as Hi|]); try done.
  - intros t [= <-]. apply HQ. by apply eq_None_not_Some.
  - intros e [= <-]. apply Herr. right. by left.
  - intros e [= <-]. apply Herr. right. by right.
Qed.

(** The row inserted, its names bound. *)
Lemma represents_reserved db r i row t m evs names :
  represents db r → db_assets db !! i = None → row_asset_id row = i → keyed m t →
  (∀ w, alias_names w t = if decide (row_asset_id w = i) then names w else alias_names w (db_aliases db)) →
  (∀ j w, db_assets db !! j = Some w → row_asset_id w = j) →
  represents (db <| db_assets := <[i := row]> (db_assets db) |> <| db_aliases := t |> <| db_audit_events := evs |>)
    (r <| r_assets := <[i := _asset_from_row row (names row)]> (r_assets r) |> <| r_aliases := m |>
       <| r_audit_events := evs |>).
Proof.
  intros [Ra Rl Rt Rp Rb Re] Hi Hid Hk Hnames Hrows. split; try done. cbn.
  rewrite Ra, fmap_insert. apply map_eq. intros j. rewrite !lookup_insert, !lookup_fmap. case_decide as Hj.
  - f_equal. unfold load_row. cbn. by rewrite Hnames, decide_True.
  - destruct (db_assets db !! j) as [w|] eqn:Hw; [|done]. cbn. f_equal. unfold load_row. cbn. f_equal.
    rewrite Hnames, decide_False; [done|]. apply Hrows in Hw. congruence.
Qed.

(** ** After the checks *)

Section Reservation.
Variables (owner i sp p key : string) (mime : option string) (annotations : option (gmap string string))
  (policy : EvictionPolicy) (now : Z) (expires reserved : option Z) (specs scoped : list (string * bool)).

Definition reserved_row : AssetRow :=
  mk_row i sp p key PENDING mime None reserved "sha256" None (default ∅ annotations) policy owner now now expires
    None None 0 None.

Definition reserved_asset : Asset :=
  mk_asset i sp p key PENDING (list_to_set (name_key sp <$> scoped.*1)) mime None reserved "sha256" None
    (default ∅ annotations) now now expires None None 0 None owner policy.

(** What is left to do in SQL, and in memory. *)
Definition pg_finish : M Database unit :=
  on_assets (λ table, reserved ← bigint_null reserved;
    insert_row i (mk_row i sp p key PENDING mime None reserved "sha256" None (default ∅ annotations) policy owner
      now now expires None None 0 None) table) ;;
  for_each scoped (pg_insert_alias sp i owner now) ;;
  match reserved with
  | Some bytes => pg_write_audit "asset.upload_reserve" i owner "success" ∅ {["reserved_bytes" := pretty bytes]}
  | None => mret tt
  end.

Definition finish (E' : Env) : M Registry Asset :=
  put_asset i reserved_asset ;;
  for_each specs (bind_alias sp p i owner now) ;;
  match reserved with
  | Some bytes => _audit "asset.upload_reserve" i owner "success" ∅ {["reserved_bytes" := pretty bytes]}
  | None => mret tt
  end ;;
  mret reserved_asset.

(** The asset is in the table, its names are bound, and memory can follow. *)
Definition finished n db r n' db' : Prop :=
  rows_wf db' ∧ db_assets db' = <[i := reserved_row]> (db_assets db) ∧ load_row db' reserved_row = reserved_asset ∧
  ∃ L, Forall (λ t, ∃ j, (n <= j < n')%nat ∧ t = clock j) L ∧
    ∀ f g k, readings f k L →
      wp (finish (reclock E f g)) (λ res _ r', res = Ok reserved_asset ∧ represents db' r') k r.

Lemma wp_pg_finish n db r :
  represents db r → rows_wf db → sp ∈ STORAGE_BUCKETS → normalize_partition_id p = Ok p →
  Forall (λ spec, stable_alias spec.1) specs → mapM (scope p) specs = Ok scoped →
  (db_assets db !! i = None → alias_names reserved_row (db_aliases db) = ∅) →
  wp pg_finish (λ res n' db', (n <= n')%nat ∧
    match res with Ok _ => finished n db r n' db' | Err e => infrastructure e end) n db.
Proof.
  intros Hrep Hrows Hsp Hpp Hall Hsc Hnone. unfold pg_finish.
  apply wp_bind, (wp_insert_asset reserved (λ reserved, mk_row i sp p key PENDING mime None reserved "sha256" None
    (default ∅ annotations) policy owner now now expires None None 0 None)); [by intros e ?; split; [lia|]|].
  intros Hi. fold reserved_row. specialize (Hnone Hi). apply wp_bind. eapply wp_mono.
  { apply (wp_pg_insert_all i sp p owner now specs scoped n _ (r <| r_assets := <[i := reserved_asset]> (r_assets r) |>));
     [apply Hrep|apply Hrep|done..]. }
  intros [[]|e] n2 db4 [Hn2 H]; [|by split].
  destruct H as (L & t & m & evs & HL & -> & Hk & Hnames & Hrows4 & Hbind).
  pose proof (represents_reserved db r i reserved_row t m evs _ Hrep Hi eq_refl Hk Hnames
    ltac:(by intros j w Hw; apply (dw_row _ Hrows _ _ Hw))) as Hrep4.
  replace (_asset_from_row reserved_row _) with reserved_asset in Hrep4 by (cbn; rewrite Hnone, union_empty_r_L; done).
  set (db4 := _ <| db_audit_events := evs |>) in *.
  assert (Hasset : load_row db4 reserved_row = reserved_asset).
  { unfold load_row. cbn. rewrite Hnames, decide_True by done. cbn. by rewrite Hnone, union_empty_r_L. }
  assert (Hrows5 : rows_wf db4).
  { destruct Hrows as [Hr Ha Hpq Hbq]. split; [| |done..]; cbn.
    - intros j w [[<- <-]|[_ Hw]]%lookup_insert_Some; [done|by apply Hr].
    - intros sp' al b [Hb|(? & ? & -> & ?)]%Hrows4; [by apply Ha|done]. }
  assert (Hmem : ∀ f g k (Q : res Asset → nat → Registry → Prop), readings f k L →
    wp (match reserved with
        | Some bytes => @_audit (reclock E f g) "asset.upload_reserve" i owner "success" ∅ {["reserved_bytes" := pretty bytes]}
        | None => mret tt
        end ;; mret reserved_asset) Q (k + length L)
        (r <| r_assets := <[i := reserved_asset]> (r_assets r) |> <| r_aliases := m |> <| r_audit_events := evs |>) →
    wp (finish (reclock E f g)) Q k r).
  { intros f g k Q HLf HQ. unfold finish. apply wp_bind, wp_put_asset, wp_bind. unfold wp at 1. by rewrite (Hbind f g _ HLf). }
  destruct reserved as [bytes|].
  - apply wp_pg_audit. split; [lia|]. split_and!; [by apply rows_wf_audit|done|done|].
    exists (L ++ [clock n2]). split.
    { apply Forall_app. split; [|taken]. eapply Forall_impl; [exact HL|]. intros t0 (j & Hj & ->). exists j. split; [lia|done]. }
    intros f g k [HLf [F2 _]]%readings_app. apply Hmem; [done|]. mem_steps. mem_clock F2.
    split; [done|]. exact (represents_audit _ _ _ Hrep4).
  - apply wp_ret. split; [done|]. split_and!; [done..|]. exists L. split; [done|].
    intros f g k HLf. apply Hmem; [done|]. by mem_steps.
Qed.
End Reservation.

(** The in-memory method up to the deadline. *)
Lemma mem_reserve f g space partition aliases owner mime annotations policy ttl reserved sp p specs scoped key now expires L m
    Q n r :
  normalize_space space = Ok sp → normalize_partition_id partition = Ok p → _normalize_alias_specs aliases = Ok specs →
  sp ∈ STORAGE_BUCKETS → normalize_partition_id p = Ok p → Forall (λ spec, stable_alias spec.1) specs →
  mapM (scope p) specs = Ok scoped → build_storage_key p (g (n + length L)%nat) = Ok key →
  for_each specs (λ spec, scoped ← of_res (_alias_under_partition p spec.1);
    @_require_alias_name_available (reclock E f g) sp scoped) n r = (Ok tt, (n + length L)%nat, r <| r_tombstones := m |>) →
  (∀ k, (match reserved with
         | Some bytes => raise_if (bytes <? 0) ValidationError ;; @_enforce_quota (reclock E f g) sp p bytes None
         | None => mret tt
         end : M Registry unit) k (r <| r_tombstones := m |>) = (Ok tt, k, r <| r_tombstones := m |>)) →
  readings f n (L ++ [clock n; now]) → expiry_for sp ttl now = expires →
  match expires with
  | Ok expires => wp (finish owner (g (n + length L)%nat) sp p key mime annotations policy now expires reserved
                        specs scoped (reclock E f g)) Q (n + length (L ++ [clock n; now])) (r <| r_tombstones := m |>)
  | Err e => Q (Err e) (n + length (L ++ [clock n; now]))%nat (r <| r_tombstones := m |>)
  end →
  wp (@reserve_asset (reclock E f g) space partition aliases owner mime annotations policy ttl reserved) Q n r.
Proof.
  intros Hs Hp Hspecs Hsp Hpp Hall Hsc Hkey Hloop Henf (_ & _ & F1 & _)%readings_app Hexp HQ.
  replace (n + length (L ++ [clock n; now]))%nat with (S (S (n + length L))) in HQ by (rewrite length_app; cbn; lia).
  unfold reserve_asset. do 6 mem_step. apply wp_bind. unfold wp at 1. rewrite Hloop.
  apply wp_bind. unfold wp at 1. rewrite (Henf _). apply wp_bind, wp_draw_uuid, wp_bind, wp_utcnow, wp_bind, wp_of_res.
  change (@new_uuid (reclock E f g)) with g. change (@clock (reclock E f g)) with f.
  rewrite F1, (qualified_all sp p specs scoped) by done. apply wp_bind, wp_of_res. rewrite Hkey.
  apply wp_bind, wp_of_res. change (@expiry_for (reclock E f g)) with (@expiry_for E). rewrite Hexp. by destruct expires.
Qed.

Lemma taken_mono lo hi lo' hi' L :
  (lo' <= lo)%nat → (hi <= hi')%nat →
  Forall (λ t, ∃ j, (lo <= j < hi)%nat ∧ t = clock j) L → Forall (λ t, ∃ j, (lo' <= j < hi')%nat ∧ t = clock j) L.
Proof. intros Hlo Hhi HL. eapply Forall_impl; [exact HL|]. intros t (j & Hj & ->). exists j. split; [lia|done]. Qed.

Lemma refines_reserve_asset `{!UuidFormat E} space partition aliases owner mime annotations policy ttl reserved n db r :
  reserve_stable partition aliases → related n db r →
  refines_refusals (pg_reserve_asset space partition aliases owner mime annotations policy ttl reserved)
    (λ E', @reserve_asset E' space partition aliases owner mime annotations policy ttl reserved) n db r.
Proof.
  intros Hstable Hrel. pose proof Hrel as [Hrep Hrows Hfresh Hwf]. unfold refines_refusals, pg_reserve_asset.
  apply wp_bind, wp_raise_if; intros Hneg.
  { split; [lia|right]. apply mimics_errs; [lia|]. intros f g. unfold reserve_asset.
    do 4 (apply errs_bind_r; intros ?). by apply reserve_negative. }
  apply wp_bind, wp_of_res. destruct (normalize_space space) as [sp|e] eqn:Hs.
  2:{ mem_pure. unfold reserve_asset. by mem_steps. }
  apply wp_bind, wp_of_res. destruct (normalize_partition_id partition) as [p|e] eqn:Hp.
  2:{ mem_pure. unfold reserve_asset. by mem_steps. }
  apply wp_bind, wp_of_res. destruct (_normalize_alias_specs aliases) as [specs|e] eqn:Hspecs.
  2:{ mem_pure. unfold reserve_asset. by mem_steps. }
  destruct (Hstable p specs Hp Hspecs) as [Hpp Hall]. pose proof (normalize_bucket_member _ _ Hs) as Hsp.
  apply wp_bind, wp_of_res. change (mapM _ specs) with (mapM (scope p) specs).
  destruct (mapM (scope p) specs) as [scoped|e] eqn:Hsc.
  2:{ split; [lia|right]. apply mimics_errs; [lia|]. intros f g. unfold reserve_asset. rewrite Hs, Hp, Hspecs.
      do 3 (apply errs_of_res; intros ? [= <-]).
      by apply errs_bind_l, (errs_for_each _ (@_require_alias_name_available (reclock E f g) sp)), (scope_error p specs e). }
  destruct (storage_key_total p n Hpp) as [key Hkey].
  apply wp_bind, wp_draw_uuid, wp_bind, wp_utcnow, wp_bind, wp_of_res. rewrite Hkey.
  set (i := new_uuid n) in *. set (now := clock (S n)) in *. apply wp_bind, wp_savepoint, wp_bind.
  eapply wp_mono; [by apply (wp_pg_require_all sp p specs scoped _ db r)|].
  intros res n1 db1 (Hres & L & t & m & Hn1 & HL & -> & Hk & Hloop).
  destruct Hres as [-> | ->]; cycle 1.
  { split; [lia|right]. apply (mimics_readings L); [lia|by eapply taken_mono; [..|exact HL]; lia|].
    intros f g HLf. unfold reserve_asset. do 6 mem_step. apply wp_bind. unfold wp. by rewrite (Hloop f g n HLf). }
  apply wp_bind. eapply wp_pg_enforce_opt;
    [by apply represents_tombstones|by destruct Hrows; split|apply (rw_keys _ _ Hwf)|done..|].
  intros enforced db2 Hrep2 Hrows2 Hst Henf. destruct enforced as [[]|e]; cycle 1.
  { split; [lia|right]. apply (mimics_readings L); [lia|by eapply taken_mono; [..|exact HL]; lia|]. intros f g HLf.
    unfold reserve_asset. do 6 mem_step. apply wp_bind. unfold wp at 1. rewrite (Hloop f g n HLf).
    apply wp_bind. unfold wp. by rewrite (Henf f g _). }
  assert (HL1 : ∀ hi, (n1 <= hi)%nat → Forall (λ t, ∃ j, (n <= j < hi)%nat ∧ t = clock j) (L ++ [clock n; now])).
  { intros hi Hhi. apply Forall_app. split; [by eapply taken_mono; [..|exact HL]; lia|unfold now; taken]. }
  apply wp_bind, wp_of_res. destruct (expiry_for sp ttl now) as [expires|e] eqn:Hexp; cycle 1.
  { split; [lia|right]. exists (L ++ [clock n; now]), (length L). split_and!; [lia|by apply HL1|].
    intros f g HLf Hg. pose proof (proj1 (proj1 (readings_app _ _ _ _) HLf)) as HL0.
    by eapply mem_reserve; [..|apply (Hloop f g n HL0)| | |exact Hexp|]; rewrite ?Hg. }
  eapply wp_mono; [apply (wp_pg_finish owner i sp p key mime annotations policy now expires reserved specs scoped n1 db2); try done|].
  { rewrite (st_assets _ _ Hst), (st_aliases _ _ Hst). intros Hi. by apply (no_names_yet n db r). }
  intros [[]|e] n2 db3 [Hn2 H]; [|split; [lia|by left]].
  destruct H as (Hrows3 & Hassets & Hload & L2 & HL2 & Hmem). cbn [is_Ok].
  eapply wp_reload; [rewrite Hassets; apply lookup_insert_eq|]. split; [lia|]. split_and!; [done| |].
  { intros j. rewrite Hassets, lookup_insert. case_decide as Hj; [intros _; exists n; split; [lia|done]|].
    rewrite (st_assets _ _ Hst). intros (k & ? & ->)%Hfresh. exists k. split; [lia|done]. }
  rewrite Hload. exists ((L ++ [clock n; now]) ++ L2), (length L). split_and!; [lia| |].
  { apply Forall_app. split; [by apply HL1|by eapply taken_mono; [..|exact HL2]; lia]. }
  intros f g [HLf HL2f]%readings_app Hg. pose proof (proj1 (proj1 (readings_app _ _ _ _) HLf)) as HL0.
  eapply mem_reserve; [..|apply (Hloop f g n HL0)| | |exact Hexp|]; rewrite ?Hg; try done. by apply Hmem.
Qed.
End Reserve.
