(* ===== verification/PgQuery.v ===== *)
(** * Listing assets in SQL

    [query_assets] of [asset_store_core/pg_registry.py]: the filters and the cursor
    as a [WHERE] clause, the order and the limit in the statement; and that it lists
    what the in-memory registry lists.  Texts compare by code points: identifiers
    are lower-case UUIDs, which every collation orders that way. *)

From S2P Require Import Prelude Errors Python Effects Paths Models Retention Sha256 Registry Codec AdminQuery RegistryInv RegistrySound PgSchema PgRegistry PgRelation PgQuota PgMethods PgNames.

(** [n.space || '/' || n.alias = prefix OR left(n.space || '/' || n.alias, length(prefix || '/')) = prefix || '/'] *)
Definition name_under (prefix : string) (n : AliasBinding) : bool :=
  let name := b_space n +:+ "/" +:+ b_alias n in
  bool_decide (name = prefix) ||
  bool_decide (String.substring 0 (String.length (prefix +:+ "/")) name = prefix +:+ "/").

Definition row_matches (q : AssetQuery) (db : Database) (row : AssetRow) : bool :=
  match q_space q with Some space => bool_decide (row_space row = space) | None => true end &&
  match q_partition_id q with Some p => bool_decide (row_partition_id row = p) | None => true end &&
  match q_state q with Some state => bool_decide (row_state row = state) | None => true end &&
  match q_created_from q with Some t => instant t <=? row_created_at row | None => true end &&
  match q_created_to q with Some t => row_created_at row <=? instant t | None => true end &&
  match q_prefix q with
  | Some prefix => existsb (λ x : (string * string) * AliasBinding,
      bool_decide (b_asset_id x.2 = Some (row_asset_id row)) && name_under prefix x.2) (map_to_list (db_aliases db))
  | None => true
  end.

(** [(created_at, asset_id)] *)
Definition row_key (row : AssetRow) : Z * string := (row_created_at row, row_asset_id row).

Definition pg_query_assets {D : DumpFilters} (q : AssetQuery) : M Database (list Asset) :=
  after ← of_res (after q);
  select (λ db, load_row db <$>
    take (Z.to_nat (q_limit q + 1))
      (sorted_by (λ a b, key_ltb (row_key a) (row_key b))
        (filter (λ row, Is_true (row_matches q db row && beyond after (row_key row)))
          ((map_to_list (db_assets db)).*2)))).

(** ** The clauses *)

Lemma left_startswith p s : bool_decide (String.substring 0 (String.length p) s = p) = startswith p s.
Proof.
  unfold startswith. apply eq_bool_prop_intro. rewrite bool_decide_spec, Is_true_true, String.prefix_correct. done.
Qed.

Lemma row_matches_load `{Env} n db r q i row :
  related n db r → db_assets db !! i = Some row → row_matches q db row = matches q (load_row db row).
Proof.
  intros Hrel Hi. pose proof Hrel as [Hrep Hrows _ Hwf]. unfold row_matches, matches. cbn.
  f_equal. destruct (q_prefix q) as [prefix|]; [|done].
  assert (Hname : ∀ b, (name_under prefix b = prefix_matches (b_space b +:+ "/" +:+ b_alias b) prefix)).
  { intros b. unfold name_under, prefix_matches. by rewrite left_startswith. }
  assert (Hspace : ∀ sp al b, db_aliases db !! (sp, al) = Some b → b_asset_id b = Some (row_asset_id row) → b_space b = row_space row).
  { intros sp al b Hb Hid. destruct (bound_row _ _ _ _ _ _ _ Hrel Hb Hid) as (row' & Hi' & <-).
    destruct (dw_alias _ Hrows _ _ _ Hb) as (-> & _). destruct (dw_row _ Hrows _ _ Hi) as [Hid' _]. congruence. }
  apply eq_bool_prop_intro. rewrite !Is_true_true, !existsb_exists. split.
  - intros ([key b] & Hin%list_elem_of_In%elem_of_map_to_list & [Hid%bool_decide_eq_true Hm]%andb_prop). cbn in *.
    exists (name_key (row_space row) (b_alias b)). split.
    + apply list_elem_of_In, elem_of_elements, elem_of_alias_names. by exists key, b.
    + rewrite Hname in Hm. destruct key as [sp al]. by rewrite (Hspace _ _ _ Hin Hid) in Hm.
  - intros (k & (key & b & Hb & Hid & ->)%list_elem_of_In%elem_of_elements%elem_of_alias_names & Hm).
    exists (key, b). split; [by apply list_elem_of_In, elem_of_map_to_list|]. cbn.
    rewrite bool_decide_eq_true_2, Hname by done. destruct key as [sp al]. by rewrite (Hspace _ _ _ Hb Hid).
Qed.

(** ** The answer *)

Lemma rows_loaded db r a :
  represents db r → a ∈ (map_to_list (r_assets r)).*2 ↔ ∃ i row, db_assets db !! i = Some row ∧ a = load_row db row.
Proof.
  intros Hrep. rewrite list_elem_of_fmap, (rp_assets _ _ Hrep). split.
  - intros ([i a'] & -> & Hi%elem_of_map_to_list). rewrite lookup_fmap in Hi.
    destruct (db_assets db !! i) as [row|] eqn:Hr; [|done]. injection Hi as <-. by exists i, row.
  - intros (i & row & Hi & ->). exists (i, load_row db row). split; [done|].
    by rewrite elem_of_map_to_list, lookup_fmap, Hi.
Qed.

Lemma StronglySorted_fmap {A B} (f : A → B) (R : B → B → Prop) l :
  StronglySorted (λ a b, R (f a) (f b)) l → StronglySorted R (f <$> l).
Proof. induction 1 as [|x l _ IH Hx]; constructor; [done|]. by apply Forall_fmap. Qed.

(** Both lists are in the order of their keys and have the same members. *)
Lemma same_listing `{Env} n db r q after :
  related n db r →
  load_row db <$> sorted_by (λ a b, key_ltb (row_key a) (row_key b))
    (filter (λ row, Is_true (row_matches q db row && beyond after (row_key row))) ((map_to_list (db_assets db)).*2)) =
  filter (λ a, Is_true (matches q a && beyond after (asset_key a)))
    (sorted_by (λ a b, key_ltb (asset_key a) (asset_key b)) ((map_to_list (r_assets r)).*2)).
Proof.
  intros Hrel. pose proof Hrel as [Hrep Hrows _ Hwf]. apply key_order_unique.
  - apply (StronglySorted_fmap (load_row db)), (keyed_sorted row_key), filter_NoDup_fmap, (map_ids_NoDup row_asset_id).
    intros i row Hi. apply (dw_row _ Hrows _ _ Hi).
  - apply StronglySorted_filter, keyed_sorted, (map_ids_NoDup a_asset_id). intros i a Hi. apply (get_wf _ _ _ _ Hwf Hi).
  - intros a. rewrite list_elem_of_filter, elem_of_sorted_by, (rows_loaded _ _ _ Hrep), list_elem_of_fmap.
    setoid_rewrite elem_of_sorted_by. setoid_rewrite list_elem_of_filter. split.
    + intros (row & -> & Hm & ([i row'] & -> & Hi%elem_of_map_to_list)%list_elem_of_fmap). cbn in *.
      rewrite (row_matches_load _ _ _ _ _ _ Hrel Hi) in Hm. split; [done|]. by exists i, row'.
    + intros (Hm & i & row & Hi & ->). exists row. split; [done|]. rewrite (row_matches_load _ _ _ _ _ _ Hrel Hi).
      split; [done|]. apply list_elem_of_fmap. exists (i, row). by rewrite elem_of_map_to_list.
Qed.

Lemma refines_query_assets `{E : Env} `{D : DumpFilters} q n db r :
  related n db r → refines (pg_query_assets q) (λ E', query_assets q) n db r.
Proof.
  intros Hrel. pose proof Hrel as [Hrep Hrows Hfresh Hwf]. unfold refines, pg_query_assets.
  apply wp_bind, wp_of_res. destruct (after q) as [k|e] eqn:Hafter.
  - apply wp_select. split; [lia|]. split_and!; [done|done|]. apply mimics_pure; [lia|intros f g].
    unfold query_assets. apply wp_bind, wp_of_res. rewrite Hafter. apply wp_bind, wp_get, wp_ret. split; [|done].
    by rewrite <- (same_listing n db r q k Hrel), fmap_take.
  - split; [lia|]. right. apply mimics_pure; [lia|intros f g]. unfold query_assets.
    apply wp_bind, wp_of_res. by rewrite Hafter.
Qed.
