(* ===== verification/PgRefinement.v ===== *)
(** * The Postgres registry refines the in-memory registry

    A request to the Postgres registry that returns is answered by the in-memory
    registry too, with the same answer and the same state, under a clock that
    returns the same times in the order the in-memory code asks for them.  A
    request that raises leaves the tables as they were. *)

From S2P Require Import Prelude Errors Python Effects Paths Models Retention Sha256 Registry AdminQuery RegistryInv RegistrySound Scenario PgSchema PgRegistry PgRelation PgQuota PgMethods PgNames PgReserve PgQuery.

(** ** Requests and answers *)

(** The calls that change a registry, and the queries. *)
Inductive request :=
  | Do (c : call)
  | GetAsset (asset_id : string)
  | GetPartitionQuota (space partition : string)
  | GetBucketQuota (space : string)
  | QueryAssets (query : AssetQuery).

Inductive answer :=
  | TheAsset (asset : Asset)
  | TheBinding (binding : AliasBinding)
  | ThePartitionQuota (quota : PartitionQuota)
  | TheBucketQuota (quota : BucketQuota)
  | TheEvents (events : list AuditEvent)
  | TheAssets (assets : list Asset)
  | Done.

Definition reply {S A} (f : A → answer) (m : M S A) : M S answer := a ← m; mret (f a).

(** What the in-memory registry does, and what the Postgres registry does in one
    transaction. *)
Definition ask {E : Env} {D : DumpFilters} (q : request) : M Registry answer :=
  match q with
  | Do (CallReserve space partition aliases owner mime annotations policy ttl bytes) =>
      reply TheAsset (reserve_asset space partition aliases owner mime annotations policy ttl bytes)
  | Do (CallCommit i size checksum caller mime expected) =>
      reply TheAsset (commit_asset i size checksum caller mime expected)
  | Do (CallAnnotate i patch caller overwrite) => reply TheAsset (update_annotations i patch caller overwrite)
  | Do (CallAttach i alias mutable caller) => reply TheBinding (attach_alias i alias mutable caller)
  | Do (CallResolve space alias) => reply TheAsset (resolve_alias space alias)
  | Do (CallDetach space alias caller) => reply (λ _, Done) (detach_alias space alias caller)
  | Do (CallDetachMutable space alias caller) => reply TheBinding (detach_mutable_alias space alias caller)
  | Do (CallRebind space alias i caller) => reply TheBinding (rebind_alias space alias i caller)
  | Do (CallExpire i caller) => reply TheAsset (expire_asset i caller)
  | Do (CallDelete i caller) => reply TheAsset (delete_asset i caller)
  | Do (CallEvictionPolicy i policy caller) => reply TheAsset (set_eviction_policy i policy caller)
  | Do (CallPartitionQuota space partition bytes count sweep caller) =>
      reply ThePartitionQuota (set_partition_quota space partition bytes count sweep caller)
  | Do (CallBucketQuota space bytes warn hard) => reply TheBucketQuota (set_bucket_quota space bytes warn hard)
  | Do (CallRecordRead i) => reply (λ _, Done) (record_read i)
  | Do (CallLifecycle asset state now reason purge) =>
      reply TheAsset (lifecycle_update asset state now reason purge)
  | Do (CallSetTtl i ttl caller) => reply TheAsset (set_asset_ttl i ttl caller)
  | Do (CallCapabilityIssue caller operation scope ttl outcome id) =>
      reply (λ _, Done) (record_capability_issue caller operation scope ttl outcome id)
  | Do (CallRecentAudit i limit) => reply TheEvents (recent_audit i limit)
  | GetAsset i => reply TheAsset (get_asset i)
  | GetPartitionQuota space partition => reply ThePartitionQuota (get_partition_quota space partition)
  | GetBucketQuota space => reply TheBucketQuota (get_bucket_quota space)
  | QueryAssets query => reply TheAssets (query_assets query)
  end.

Definition pg_ask {E : Env} {D : DumpFilters} (grace : Z) (q : request) : M Database answer :=
  match q with
  | Do (CallReserve space partition aliases owner mime annotations policy ttl bytes) =>
      reply TheAsset (pg_reserve_asset space partition aliases owner mime annotations policy ttl bytes)
  | Do (CallCommit i size checksum caller mime expected) =>
      reply TheAsset (pg_commit_asset i size checksum caller mime expected)
  | Do (CallAnnotate i patch caller overwrite) => reply TheAsset (pg_update_annotations i patch caller overwrite)
  | Do (CallAttach i alias mutable caller) => reply TheBinding (pg_attach_alias i alias mutable caller)
  | Do (CallResolve space alias) => reply TheAsset (pg_resolve_alias space alias)
  | Do (CallDetach space alias caller) => reply (λ _, Done) (pg_detach_alias grace space alias caller)
  | Do (CallDetachMutable space alias caller) => reply TheBinding (pg_detach_mutable_alias space alias caller)
  | Do (CallRebind space alias i caller) => reply TheBinding (pg_rebind_alias space alias i caller)
  | Do (CallExpire i caller) => reply TheAsset (pg_expire_asset i caller)
  | Do (CallDelete i caller) => reply TheAsset (pg_delete_asset i caller)
  | Do (CallEvictionPolicy i policy caller) => reply TheAsset (pg_set_eviction_policy i policy caller)
  | Do (CallPartitionQuota space partition bytes count sweep caller) =>
      reply ThePartitionQuota (pg_set_partition_quota space partition bytes count sweep caller)
  | Do (CallBucketQuota space bytes warn hard) => reply TheBucketQuota (pg_set_bucket_quota space bytes warn hard)
  | Do (CallRecordRead i) => reply (λ _, Done) (pg_record_read i)
  | Do (CallLifecycle asset state now reason purge) =>
      reply TheAsset (pg_lifecycle_update asset state now reason purge)
  | Do (CallSetTtl i ttl caller) => reply TheAsset (pg_set_asset_ttl i ttl caller)
  | Do (CallCapabilityIssue caller operation scope ttl outcome id) =>
      reply (λ _, Done) (pg_record_capability_issue caller operation scope ttl outcome id)
  | Do (CallRecentAudit i limit) => reply TheEvents (pg_recent_audit i limit)
  | GetAsset i => reply TheAsset (pg_get_asset i)
  | GetPartitionQuota space partition => reply ThePartitionQuota (pg_get_partition_quota space partition)
  | GetBucketQuota space => reply TheBucketQuota (pg_get_bucket_quota space)
  | QueryAssets query => reply TheAssets (pg_query_assets query)
  end.

(** A request to the registry as a client makes it. *)
Definition pg_call {E : Env} {D : DumpFilters} {P : ConnectionPool} (q : request) : M PostgresAssetRegistry answer := λ n s,
  _transactional (pg_ask (pg_alias_grace s) q) n s.

(** ** Where the two agree *)

Definition same_path (p : res string) (q : string) : bool :=
  match p with Ok p => bool_decide (p = q) | Err _ => false end.

(** Normalising the path twice is normalising it once. *)
Definition stable_path (path : string) : bool :=
  match normalize_relative_alias path with
  | Ok p => same_path (normalize_relative_alias p) p
  | Err _ => true
  end.

(** Requests whose names and partitions are stable. *)
Definition stable (q : request) : bool :=
  match q with
  | Do (CallReserve _ partition aliases _ _ _ _ _ _) =>
      match normalize_partition_id partition, _normalize_alias_specs aliases with
      | Ok p, Ok specs =>
          same_path (normalize_partition_id p) p && forallb (λ spec : string * bool, stable_path spec.1) specs
      | _, _ => true
      end
  | Do (CallAttach _ alias _ _) | Do (CallResolve _ alias) | Do (CallDetach _ alias _)
  | Do (CallDetachMutable _ alias _) | Do (CallRebind _ alias _ _) => stable_path alias
  | Do (CallPartitionQuota _ partition _ _ _ _) => stable_path partition
  | _ => true
  end.

(** The order in which the checks of these two methods refuse differs. *)
Definition reserves (q : request) : bool :=
  match q with Do (CallReserve _ _ _ _ _ _ _ _ _) => true | _ => false end.

Lemma same_path_Ok p q : same_path p q = true → p = Ok q.
Proof. destruct p as [p|]; cbn; [|done]. by intros ->%bool_decide_eq_true. Qed.

Lemma stable_path_alias alias : stable_path alias = true → stable_alias alias.
Proof. unfold stable_path. intros H al Hal. rewrite Hal in H. by apply same_path_Ok. Qed.

Lemma stable_reserve space partition aliases owner mime annotations policy ttl bytes :
  stable (Do (CallReserve space partition aliases owner mime annotations policy ttl bytes)) = true →
  reserve_stable partition aliases.
Proof.
  cbn. intros H p specs Hp Hs. rewrite Hp, Hs in H. apply andb_prop in H as [H1%same_path_Ok H2]. split; [done|].
  apply Forall_forall. intros spec Hspec. apply stable_path_alias. rewrite forallb_forall in H2.
  by apply H2, list_elem_of_In.
Qed.

(** ** One request *)

(** Same answer and same state, or a refusal on both sides. *)
Definition answers_alike {E : Env} {A} (exact : bool) (mp : M Database A) (mm : Env → M Registry A)
    (n : nat) (db : Database) (r : Registry) : Prop :=
  wp mp (λ res n' db', (n <= n')%nat ∧
    match res with
    | Ok a => rows_wf db' ∧ rows_fresh n' db' ∧
              mimics mm n r n' (λ res r', res = Ok a ∧ represents db' r')
    | Err e => infrastructure e ∨
               mimics mm n r n' (λ res _, is_Ok res = false ∧ (exact = true → res = Err e))
    end) n db.

Section Requests.
Context {E : Env} {D : DumpFilters}.
Implicit Types (n : nat) (db : Database) (r : Registry).

Lemma alike_refines {A} (mp : M Database A) mm n db r : refines mp mm n db r → answers_alike true mp mm n db r.
Proof.
  intros Hr. eapply wp_mono; [exact Hr|]. intros [a|e] n' db' [Hn H]; (split; [done|]); [done|].
  destruct H as [H|H]; [by left|right]. eapply mimics_mono; [|exact H]. by intros res r' ->.
Qed.

Lemma alike_refusals {A} (mp : M Database A) mm n db r :
  refines_refusals mp mm n db r → answers_alike false mp mm n db r.
Proof.
  intros Hr. eapply wp_mono; [exact Hr|]. intros [a|e] n' db' [Hn H]; (split; [done|]); [done|].
  destruct H as [H|H]; [by left|right]. eapply mimics_mono; [|exact H]. by intros res r' ?.
Qed.

Lemma alike_reply {A} exact f (mp : M Database A) mm n db r :
  answers_alike exact mp mm n db r → answers_alike exact (reply f mp) (λ E', reply f (mm E')) n db r.
Proof.
  intros Hr. apply wp_bind. eapply wp_mono; [exact Hr|]. intros [a|e] n' db' [Hn H].
  - apply wp_ret. split; [done|]. destruct H as (? & ? & L & p & Hp & HL & Hm). split_and!; [done..|].
    exists L, p. split_and!; [done..|]. intros g h Hg Hh. apply wp_bind. eapply wp_mono; [by apply Hm|].
    intros res m r' [-> Hrep]. by apply wp_ret.
  - split; [done|]. destruct H as [H|(L & p & Hp & HL & Hm)]; [by left|right]. exists L, p. split_and!; [done..|].
    intros g h Hg Hh. apply wp_bind. eapply wp_mono; [by apply Hm|].
    intros [b|e'] m r' [Hb He]; [done|]. split; [done|]. intros Hex. by apply He in Hex as [= ->].
Qed.

Lemma refines_get_asset i n db r : related n db r → refines (pg_get_asset i) (λ E', get_asset i) n db r.
Proof.
  intros [Hrep Hrows Hfresh Hwf]. unfold refines, pg_get_asset. apply wp_pg_load_asset.
  - intros row Hi. pose proof (lookup_row _ _ _ _ Hrep Hi) as Hri. split; [lia|]. split_and!; [done..|].
    apply mimics_pure; [lia|intros f g]. unfold get_asset. by mem_steps.
  - intros Hi%(lookup_no_row _ _ _ Hrep). mem_pure. unfold get_asset. by mem_steps.
Qed.

Lemma alike_ask `{!UuidFormat E} q n db r :
  stable q = true → (∀ i, q = Do (CallRecordRead i) → is_Some (db_assets db !! i)) → related n db r →
  answers_alike (negb (reserves q)) (pg_ask (r_alias_grace r) q) (λ E', @ask E' D q) n db r.
Proof.
  intros Hst Hread Hrel. destruct q as [[]| | | |]; try apply alike_reply;
    try (apply alike_refines; eauto using refines_commit_asset, refines_update_annotations, refines_expire_asset,
           refines_delete_asset, refines_set_eviction_policy, refines_set_bucket_quota, refines_lifecycle_update,
           refines_set_asset_ttl, refines_record_capability_issue, refines_recent_audit, refines_get_asset,
           refines_get_partition_quota, refines_get_bucket_quota, refines_query_assets); cbn in Hst.
  - apply alike_refusals, refines_reserve_asset; [by apply (stable_reserve space _ _ owner mime annotations policy ttl bytes)|done].
  - by apply refines_attach_alias, Hrel; apply stable_path_alias.
  - by apply refines_resolve_alias, Hrel; apply stable_path_alias.
  - by apply refines_detach_alias, Hrel; [apply stable_path_alias|].
  - by apply refines_detach_mutable_alias, Hrel; apply stable_path_alias.
  - by apply refines_rebind_alias, Hrel; apply stable_path_alias.
  - by apply refines_set_partition_quota, Hrel; apply stable_path_alias.
  - by apply refines_record_read; [apply Hread|].
Qed.
End Requests.

(** ** The environment the in-memory registry runs in *)

(** Exchanging [a] and [b]. *)
Definition swap (a b k : nat) : nat := if decide (k = a) then b else if decide (k = b) then a else k.

(** From the [n]-th draw on, the clock reads the times [L]; the identifier drawn
    [p] draws later is the one [E] draws at [n]. *)
Definition follow (E : Env) (n p : nat) (L : list Z) : Env :=
  reclock E (λ k, if decide (n <= k)%nat then default (@clock E k) (L !! (k - n)%nat) else @clock E k)
    (λ k, @new_uuid E (swap n (n + p) k)).

(** The times [L] are readings of the clock between two draws. *)
Definition read_between `{Env} (lo hi : nat) (L : list Z) : Prop :=
  Forall (λ t, ∃ j, (lo <= j < hi)%nat ∧ t = clock j) L.

Lemma swap_involutive a b k : swap a b (swap a b k) = k.
Proof. unfold swap. repeat case_decide; congruence. Qed.

#[export] Instance follow_fresh E n p L `{!FreshIds E} : FreshIds (follow E n p L).
Proof.
  intros a b H. apply (fresh_ids (E := E)) in H.
  by rewrite <- (swap_involutive n (n + p) a), H, swap_involutive.
Qed.

Lemma readings_window f (clk : nat → Z) n L :
  (∀ k, (n <= k)%nat → f k = default (clk k) (L !! (k - n)%nat)) → readings f n L.
Proof.
  revert n. induction L as [|t L IH]; intros n Hf; [done|]. split; [by rewrite Hf, Nat.sub_diag by lia|].
  apply IH. intros k Hk. rewrite Hf by lia. by replace (k - n)%nat with (S (k - S n)) by lia.
Qed.

Lemma follow_readings E n p L : readings (@clock (follow E n p L)) n L.
Proof. apply (readings_window _ (@clock E)). intros k Hk. cbn. by rewrite decide_True. Qed.

Lemma follow_uuid E n p L : @new_uuid (follow E n p L) (n + p) = @new_uuid E n.
Proof. cbn. f_equal. unfold swap. repeat case_decide; congruence || lia. Qed.

(** Well-formedness depends on the environment only through the identifiers. *)
Lemma registry_wf_env E E' n n' r :
  @registry_wf E n r → (∀ i, is_Some (r_assets r !! i) → ∃ m, (m < n')%nat ∧ i = @new_uuid E' m) →
  @registry_wf E' n' r.
Proof. intros [[_ Ha] Hl Ht Hk Hc] Hids. split; [by split|done..]. Qed.

Lemma follow_wf E n p L r : @registry_wf E n r → @registry_wf (follow E n p L) n r.
Proof.
  intros Hwf. eapply registry_wf_env; [exact Hwf|]. intros i Hi.
  destruct (asw_fresh _ _ (rw_assets _ _ Hwf) i Hi) as (m & Hm & ->). exists m. split; [done|].
  cbn. unfold swap. rewrite !decide_False by lia. done.
Qed.

Section Sound.
#[local] Set Default Proof Using "Type*".
Context {E : Env} {D : DumpFilters} `{!FreshIds E}.
Implicit Types (n : nat) (db : Database) (r : Registry).

Lemma reply_sound {A} (f : A → answer) (m : M Registry A) : sound m → sound (reply f m).
Proof.
  intros Hm n r Hwf. apply wp_bind. eapply wp_mono; [by apply Hm|]. intros [a|e] n' r' H; done.
Qed.

Lemma sound_same {A} (m : M Registry A) : (∀ n r, wp m (λ _ n' r', n' = n ∧ r' = r) n r) → sound m.
Proof.
  intros Hm n r Hwf. eapply wp_mono; [apply Hm|]. intros [a|e] n' r' [-> ->]; (split; [done|]); cbn.
  - reflexivity.
  - left. apply only_pruned_refl.
Qed.

Lemma ask_sound q : sound (ask q).
Proof.
  destruct q as [[]| | | |]; cbn; apply reply_sound;
    eauto using reserve_asset_sound, commit_asset_sound, update_annotations_sound,
      attach_alias_sound, resolve_alias_sound, detach_alias_sound, detach_mutable_alias_sound,
      rebind_alias_sound, expire_asset_sound, delete_asset_sound, set_eviction_policy_sound,
      set_partition_quota_sound, set_bucket_quota_sound, record_read_sound, lifecycle_update_sound,
      set_asset_ttl_sound, record_capability_issue_sound, recent_audit_sound.
  all: apply sound_same; intros n r; try done.
  apply wp_bind, wp_of_res. by destruct (AdminQuery.after query).
Qed.
End Sound.

Section Simulation.
#[local] Set Default Proof Using "Type*".
Context {E : Env} {D : DumpFilters} `{!FreshIds E, !UuidFormat E}.
Implicit Types (n : nat) (db : Database) (r : Registry).

(** In memory, under times read between the draws [n] and [n'], request [q] ends
    in [res] and [r']. *)
Definition mirrored (q : request) (n n' : nat) (r : Registry) (res : Errors.res answer) (r' : Registry) : Prop :=
  ∃ L p m, read_between n n' L ∧ (n + p <= n')%nat ∧ @ask (follow E n p L) D q n r = (res, m, r').

Lemma mimics_mirrored q n n' r Q :
  mimics (λ E', @ask E' D q) n r n' Q → ∃ res r', Q res r' ∧ mirrored q n n' r res r'.
Proof.
  intros (L & p & Hp & HL & Hm). specialize (Hm (@clock (follow E n p L)) (@new_uuid (follow E n p L))
    (follow_readings E n p L) (follow_uuid E n p L)).
  destruct (@ask (follow E n p L) D q n r) as [[res m] r'] eqn:Hrun. exists res, r'. split.
  - exact (wp_inv _ _ _ _ _ _ _ Hm Hrun).
  - by exists L, p, m.
Qed.

(** The state the in-memory registry ends in is well-formed, and its identifiers
    are those of the rows. *)
Lemma mirrored_wf q n n' db db' r a r' :
  related n db r → mirrored q n n' r (Ok a) r' → rows_fresh n' db' → represents db' r' →
  registry_wf n' r' ∧ r_alias_grace r' = r_alias_grace r.
Proof.
  intros Hrel (L & p & m & _ & _ & Hrun) Hfresh Hrep.
  pose proof (@ask_sound (follow E n p L) D (follow_fresh E n p L) q n r (follow_wf _ _ _ _ _ (rl_wf _ _ _ Hrel))) as Hs.
  apply (wp_inv _ _ _ _ _ _ _ Hs) in Hrun as [Hwf Hev]. split; [|apply Hev].
  eapply (registry_wf_env (follow E n p L)); [exact Hwf|]. intros i Hi. apply Hfresh.
  rewrite (rp_assets _ _ Hrep), lookup_fmap in Hi. by apply fmap_is_Some in Hi.
Qed.

(** The database and the registry correspond and have the same settings. *)
Record in_step (n : nat) (s : PostgresAssetRegistry) (r : Registry) : Prop := {
  is_related : related n (pg_db s) r;
  is_grace : r_alias_grace r = pg_alias_grace s;
  is_idle : pg_connection s = false
}.

Lemma related_mono n n' db r : (n <= n')%nat → related n db r → related n' db r.
Proof. intros Hn []. split; [done..|by eapply rows_fresh_mono|by eapply registry_wf_mono]. Qed.

(** The read of an asset without a row: the SQL updates no row, the in-memory
    registry refuses. *)
Definition unknown_read (q : request) (n n' : nat) (r : Registry) (a : answer) (r' : Registry) : Prop :=
  ∃ i, q = Do (CallRecordRead i) ∧ r_assets r !! i = None ∧ a = Done ∧ r' = r ∧
    mirrored q n n' r (Err AssetNotFoundError) r.

Definition outcome (q : request) (n : nat) (s : PostgresAssetRegistry) (r : Registry)
    (res : Errors.res answer) (n' : nat) (s' : PostgresAssetRegistry) : Prop :=
  match res with
  | Ok a => ∃ r', (mirrored q n n' r (Ok a) r' ∨ unknown_read q n n' r a r') ∧ in_step n' s' r'
  | Err e => pg_db s' = pg_db s ∧ in_step n' s' r ∧
      (infrastructure e ∨ ∃ e' r', mirrored q n n' r (Err e') r' ∧ (reserves q = false → e' = e))
  end.

Lemma read_cases db q :
  (∃ i, q = Do (CallRecordRead i) ∧ db_assets db !! i = None) ∨
  (∀ i, q = Do (CallRecordRead i) → is_Some (db_assets db !! i)).
Proof.
  destruct q as [c| | | |]; try by right. destruct c as [| | | | | | | | | | | | |i| | | |]; try by right.
  destruct (db_assets db !! i) eqn:Hi; [right; intros j [= <-]; by rewrite Hi|left; by exists i].
Qed.

(** The tables are as they were after the [UPDATE] of a missing row. *)
Lemma pg_read_missing i n db grace :
  db_assets db !! i = None → pg_ask grace (Do (CallRecordRead i)) n db = (Ok Done, Datatypes.S n, db).
Proof.
  intros Hi. unfold pg_ask, reply, pg_record_read, mbind, M_bind, update_assets, on_assets, execute. cbn.
  unfold mbind, res_bind, update_row. rewrite Hi. by destruct db.
Qed.

Lemma read_missing i n n' r :
  r_assets r !! i = None → (n <= n')%nat → mirrored (Do (CallRecordRead i)) n n' r (Err AssetNotFoundError) r.
Proof.
  intros Hi Hn. exists [], 0%nat, n. split; [by constructor|]. split; [lia|].
  unfold ask, reply, record_read, _get_asset, reads, find_asset, mbind, M_bind. by rewrite Hi.
Qed.

Lemma pg_call_outcome {P : ConnectionPool} q n s r res n' s' :
  in_step n s r → stable q = true → pg_call q n s = (res, n', s') → outcome q n s r res n' s'.
Proof.
  intros [Hrel Hgrace Hidle] Hst. unfold pg_call, _transactional, unit_of_work. rewrite Hidle.
  destruct (getconn_fails (pg_checkouts s)).
  { intros [= <- <- <-]. split; [done|]. split; [by split|]. left. by left. }
  rewrite zoom_run. cbn [pg_db replace_field replace_pg_connection replace_pg_checkouts]. rewrite <- Hgrace.
  destruct (read_cases (pg_db s) q) as [(i & -> & Hi)|Hrow].
  { rewrite pg_read_missing by done. intros [= <- <- <-]. exists r.
    pose proof (lookup_no_row _ _ _ (rl_rep _ _ _ Hrel) Hi) as Hri.
    split; [|split; [by apply (related_mono n); [lia|destruct s]|done..]]. right. exists i.
    split_and!; try done. apply read_missing; [done|lia]. }
  pose proof (alike_ask q n (pg_db s) r Hst Hrow Hrel) as Hw. unfold answers_alike, wp in Hw.
  destruct (pg_ask (r_alias_grace r) q n (pg_db s)) as [[res0 n0] db0]. destruct Hw as [Hn Hw].
  destruct res0 as [a|e]; intros [= <- <- <-].
  - destruct Hw as (Hrows & Hfresh & (res' & r' & [-> Hrep] & Hm)%mimics_mirrored). exists r'. split; [by left|].
    destruct (mirrored_wf _ _ _ _ db0 _ _ _ Hrel Hm Hfresh Hrep). split; [by split|by etrans|done].
  - split; [done|]. split; [split; [by apply (related_mono n)|done..]|].
    destruct Hw as [He|(res' & r' & [Hr Hexact] & Hm)%mimics_mirrored]; [by left|right].
    destruct res' as [a|e']; [done|]. exists e', r'. split; [done|]. intros Hres. rewrite Hres in Hexact.
    by injection (Hexact eq_refl).
Qed.
End Simulation.
