(* ===== verification/PgProps.v ===== *)
(** * What the Postgres registry guarantees

    For requests with stable names it answers like the in-memory registry, and its
    tables stay consistent; the requests of one unit of work happen together or not at
    all; and where the two registries differ. *)

From S2P Require Import Prelude Errors Python Effects Paths Models Retention Sha256 Registry AdminQuery RegistryInv RegistrySound Scenario GuardProps PgSchema PgRegistry PgRelation PgQuota PgMethods PgNames PgReserve PgQuery PgRefinement.

(** ** Units of work *)

Section Units.
Context {E : Env} {D : DumpFilters} {P : ConnectionPool}.
Implicit Types (n : nat) (s : PostgresAssetRegistry).

(** The requests [qs] one after the other, as one transaction on the tables. *)
Definition batch (grace : Z) (qs : list request) : M Database unit :=
  for_each qs (λ q, ignore (pg_ask grace q)).

(** The client's code: [with registry.unit_of_work(): ...] *)
Definition pg_batch (qs : list request) : M PostgresAssetRegistry unit :=
  unit_of_work (λ s, s) (λ s _, s) (for_each qs (λ q, ignore (pg_call q))).

(** Inside a unit of work a request runs on the connection already held. *)
Lemma pg_call_nested q n s :
  pg_connection s = true → pg_call q n s = zoom pg_db set_pg_db (pg_ask (pg_alias_grace s) q) n s.
Proof. unfold pg_call, _transactional, unit_of_work. by intros ->. Qed.

Lemma batch_nested qs n s :
  pg_connection s = true →
  for_each qs (λ q, ignore (pg_call q)) n s = zoom pg_db set_pg_db (batch (pg_alias_grace s) qs) n s.
Proof.
  unfold batch, ignore. revert n s. induction qs as [|q qs IH]; intros n s Hs; [by destruct s|].
  cbn [for_each]. unfold mbind, M_bind, mret, M_ret in *. rewrite pg_call_nested, !zoom_run by done.
  destruct (pg_ask (pg_alias_grace s) q n (pg_db s)) as [[[a|e] n1] db1]; [|done].
  rewrite IH by done. by rewrite zoom_run.
Qed.

(** The pool's accounts: every check-out ended in one way. *)
Definition balanced (s : PostgresAssetRegistry) : Prop :=
  pg_connection s = false ∧
  Z.of_nat (pg_checkouts s) = pg_committed s + pg_rolled_back s + pg_unavailable s.

Lemma pg_call_balanced q n s res n' s' :
  balanced s → pg_call q n s = (res, n', s') → balanced s' ∧ pg_alias_grace s' = pg_alias_grace s.
Proof.
  unfold balanced, pg_call, _transactional, unit_of_work. intros [Hc Hb]. rewrite Hc. destruct (getconn_fails _).
  - intros [= <- <- <-]. cbn. split; [split; [done|lia]|done].
  - rewrite zoom_run. destruct (pg_ask _ _ _ _) as [[[a|e] n1] db1]; intros [= <- <- <-]; cbn;
      (split; [split; [done|lia]|done]).
Qed.

(** ** Reachable states

    From an empty database, by any sequence of requests whose names and partitions
    are [stable]: a name that normalising does not bring to rest, such as the
    partition [/ p], takes the two registries apart. *)

Inductive pg_reachable : nat → PostgresAssetRegistry → Prop :=
  | pg_start n grace bootstrap s : new_postgres_registry empty_database grace bootstrap = Ok s → pg_reachable n s
  | pg_step n s q res n' s' :
      pg_reachable n s → stable q = true → pg_call q n s = (res, n', s') → pg_reachable n' s'.

Lemma new_registry_state db grace bootstrap s :
  new_postgres_registry db grace bootstrap = Ok s → balanced s ∧ pg_connection s = false ∧ pg_db s = db.
Proof.
  unfold new_postgres_registry, unit_of_work, mbind, res_bind. destruct (match grace with Some _ => _ | None => _ end); [|done].
  destruct bootstrap; cbn; [destruct (getconn_fails 0); [done|]|]; by intros [= <-].
Qed.

Lemma empty_related n grace : related n empty_database (mk_registry ∅ ∅ [] ∅ ∅ ∅ grace).
Proof.
  split.
  - by split.
  - split; cbn; intros *; by rewrite lookup_empty.
  - intros i. cbn. rewrite lookup_empty. by intros [].
  - destruct (new_registry_wf n (Some 0) (mk_registry ∅ ∅ [] ∅ ∅ ∅ 0) eq_refl). by split.
Qed.

Lemma pg_reachable_in_step `{!FreshIds E, !UuidFormat E} n s :
  pg_reachable n s → balanced s ∧ ∃ r, in_step n s r.
Proof.
  induction 1 as [n grace bootstrap s Hnew|n s q res n' s' _ [Hb (r & Hr)] Hst Hcall].
  - apply new_registry_state in Hnew as (Hb & Hc & Hdb). split; [done|].
    exists (mk_registry ∅ ∅ [] ∅ ∅ ∅ (pg_alias_grace s)). split; [rewrite Hdb; apply empty_related|done..].
  - split; [by eapply pg_call_balanced|]. pose proof (pg_call_outcome _ _ _ _ _ _ _ Hr Hst Hcall) as Ho.
    destruct res as [a|e]; [destruct Ho as (r' & _ & ?); by exists r'|destruct Ho as (_ & ? & _); by exists r].
Qed.
End Units.

(** ** Consistent tables *)

(** Rows of available assets, and their bytes. *)
Definition charged_row (space : string) (row : AssetRow) : bool :=
  bool_decide (row_state row = AVAILABLE) && bool_decide (row_space row = space).
Definition charged_in (space p : string) (row : AssetRow) : bool :=
  charged_row space row && bool_decide (row_partition_id row = p).
Definition size_column (row : AssetRow) : Z := default 0 (row_size_bytes row).

Record tables_consistent (db : Database) : Prop := {
  tc_partition : ∀ space p, partition_used (db_partition_quotas db) space p = sum_rows (charged_in space p) size_column db;
  tc_count : ∀ space p, partition_count (db_partition_quotas db) space p = sum_rows (charged_in space p) (λ _, 1) db;
  tc_bucket : ∀ space, bucket_used (db_bucket_quotas db) space = sum_rows (charged_row space) size_column db;
  tc_alias : ∀ space alias b i, db_aliases db !! (space, alias) = Some b → b_asset_id b = Some i →
    ∃ row, db_assets db !! i = Some row ∧ row_space row = space;
  tc_detached : ∀ key b, db_aliases db !! key = Some b → b_asset_id b = None → b_mutable b = true;
  tc_tombstone : ∀ space alias, space ∈ STORAGE_BUCKETS →
    is_Some (db_alias_tombstones db !! (space, alias)) → db_aliases db !! (space, alias) = None
}.

Lemma partition_used_row pqs space p : partition_used pqs space p = pq_used_bytes (partition_row pqs space p).
Proof. unfold partition_used, partition_row. by destruct (pqs !! _). Qed.
Lemma partition_count_row pqs space p : partition_count pqs space p = pq_used_asset_count (partition_row pqs space p).
Proof. unfold partition_count, partition_row. by destruct (pqs !! _). Qed.
Lemma bucket_used_row bqs space : bucket_used bqs space = bq_used_bytes (bucket_row bqs space).
Proof. unfold bucket_used, bucket_row. by destruct (bqs !! _). Qed.

Lemma sum_rows_ext (p q : AssetRow → bool) (f g : AssetRow → Z) (db : Database) :
  (∀ i row, db_assets db !! i = Some row → (if p row then f row else 0) = (if q row then g row else 0)) →
  sum_rows p f db = sum_rows q g db.
Proof. intros H. unfold sum_rows. by apply sum_map_ext. Qed.

Lemma related_consistent `{E : Env} n db r : related n db r → tables_consistent db.
Proof.
  intros Hrel. pose proof Hrel as [Hrep Hrows _ Hwf]. destruct (rw_accounts _ _ Hwf) as [A1 A2 A3].
  assert (Hin : ∀ space p i row, db_assets db !! i = Some row → in_partition space p (load_row db row) = charged_in space p row).
  { intros space p i row Hi. unfold in_partition, charged_in, charged_row. cbn.
    by destruct (dw_row _ Hrows _ _ Hi) as [_ ->]. }
  split.
  - intros space p. rewrite partition_used_row, <- (rp_partition _ _ Hrep), <- partition_used_row, A1, (sum_rows_assets db) by apply Hrep.
    apply sum_rows_ext. intros i row Hi. by rewrite (Hin space p i row Hi).
  - intros space p. rewrite partition_count_row, <- (rp_partition _ _ Hrep), <- partition_count_row, A2.
    unfold count_map. rewrite (rp_assets _ _ Hrep), sum_map_fmap. apply sum_map_ext.
    intros i row Hi. by rewrite (Hin space p i row Hi).
  - intros space. rewrite bucket_used_row, <- (rp_bucket _ _ Hrep), <- bucket_used_row, A3. by apply sum_rows_assets, Hrep.
  - intros space alias b i Hb Hi. by eapply bound_row.
  - intros [space alias] b Hb Hd. destruct (dw_alias _ Hrows _ _ _ Hb) as (_ & _ & Hs & _).
    rewrite <- (rp_aliases _ _ Hrep) in Hb by done. by eapply (lw_detached _ _ _ _ (rw_links _ _ Hwf)).
  - intros space alias Hs. rewrite <- (rp_aliases _ _ Hrep), <- (rp_tombstones _ _ Hrep) by done. apply (rw_tombstones _ _ Hwf).
Qed.

(** ** Properties *)

Section Properties.
#[local] Set Default Proof Using "Type*".
Context {E : Env} {D : DumpFilters} `{!FreshIds E, !UuidFormat E} {P : ConnectionPool}.

(** C4.  The Postgres registry refines the in-memory one, for requests whose names
    and partitions are [stable]: normalising them twice is normalising them once.
    From corresponding states, a request that returns is mirrored by the in-memory
    registry, under times read meanwhile: same answer, corresponding states; only
    [record_read] of an asset that does not exist returns, changing nothing, where
    the in-memory registry raises [AssetNotFoundError].  A request that raises
    leaves the tables alone, and either the connection, a key or the range of a
    [bigint] failed, or the in-memory registry refuses too, with the same error
    unless the request is a reservation. *)
Theorem pg_refines_memory (q : request) (n : nat) (s : PostgresAssetRegistry) (r : Registry)
    (res : Errors.res answer) (n' : nat) (s' : PostgresAssetRegistry) :
  in_step n s r → stable q = true → pg_call q n s = (res, n', s') →
  match res with
  | Ok a => ∃ r', (mirrored q n n' r (Ok a) r' ∨ unknown_read q n n' r a r') ∧ in_step n' s' r'
  | Err e => pg_db s' = pg_db s ∧ in_step n' s' r ∧
      (infrastructure e ∨ ∃ e' r', mirrored q n n' r (Err e') r' ∧ (reserves q = false → e' = e))
  end.
Proof. apply pg_call_outcome. Qed.

(** C5.  The tables of every registry reached by requests whose names and partitions
    are [stable] (normalising them twice is normalising them once) are consistent:
    usage counters are the bytes and the number of available rows, a bound alias points
    to a row in its bucket, detached aliases are mutable, tombstones are of free names.
    No connection is left checked out, and every check-out was committed, rolled back
    or refused. *)
Theorem pg_tables_consistent (n : nat) (s : PostgresAssetRegistry) :
  pg_reachable n s →
  tables_consistent (pg_db s) ∧ pg_connection s = false ∧
  Z.of_nat (pg_checkouts s) = pg_committed s + pg_rolled_back s + pg_unavailable s.
Proof.
  intros [[Hc Hb] (r & Hr)]%pg_reachable_in_step. split; [|done].
  by eapply related_consistent, is_related.
Qed.
End Properties.

(** C29.  The requests of one [unit_of_work] happen together or not at all: they run
    one after the other on one connection, as one transaction over the tables; the
    tables end as that transaction leaves them, or, when any request raises, as
    they were; nothing is committed in between.  Without a connection nothing runs. *)
Theorem unit_of_work_atomic `{E : Env} `{D : DumpFilters} `{P : ConnectionPool} (qs : list request) (n : nat)
    (s : PostgresAssetRegistry) :
  pg_connection s = false →
  let s1 := s <| pg_checkouts := S (pg_checkouts s) |> in
  pg_batch qs n s =
  if getconn_fails (pg_checkouts s) then
    (Err RegistryUnavailableError, n, s1 <| pg_unavailable := pg_unavailable s + 1 |>)
  else
    match batch (pg_alias_grace s) qs n (pg_db s) with
    | (Ok _, n', db) => (Ok tt, n', s1 <| pg_db := db |> <| pg_committed := pg_committed s + 1 |>)
    | (Err e, n', _) => (Err e, n', s1 <| pg_rolled_back := pg_rolled_back s + 1 |>)
    end.
Proof.
  intros Hc s1. unfold pg_batch, unit_of_work. rewrite Hc. destruct (getconn_fails _); [done|].
  rewrite batch_nested, zoom_run by done. cbn [pg_db pg_alias_grace replace_field replace_pg_connection replace_pg_checkouts].
  destruct (batch _ _ _ _) as [[[[]|e] n'] db]; unfold s1; destruct s; cbn in Hc; by subst.
Qed.

(** [record_read] of an asset that does not exist: the in-memory registry
    raises [AssetNotFoundError], the Postgres registry commits an [UPDATE] of no
    row and returns. *)
Theorem record_read_unknown_diverges `{E : Env} `{D : DumpFilters} `{P : ConnectionPool} (i : string) (n : nat)
    (s : PostgresAssetRegistry) (r : Registry) :
  in_step n s r → db_assets (pg_db s) !! i = None → getconn_fails (pg_checkouts s) = false →
  (∃ s', pg_call (Do (CallRecordRead i)) n s = (Ok Done, S n, s') ∧ pg_db s' = pg_db s) ∧
  ask (Do (CallRecordRead i)) n r = (Err AssetNotFoundError, n, r).
Proof.
  intros [[Hrep _ _ _] _ Hc] Hi Hf. split.
  - unfold pg_call, _transactional, unit_of_work. rewrite Hc, Hf, zoom_run. cbn. unfold reply, pg_record_read.
    cbn. unfold mbind, M_bind, update_assets, on_assets, execute. cbn. unfold mbind, res_bind, update_row. rewrite Hi.
    eexists. split; [reflexivity|]. cbn. by destruct (pg_db s).
  - apply (lookup_no_row _ _ _ Hrep) in Hi. unfold ask, reply, record_read, _get_asset, mbind, M_bind. cbn.
    unfold find_asset. by rewrite Hi.
Qed.

(** ** Executions *)

(** A pool that always has a connection. *)
#[export] Instance demo_pool : ConnectionPool := λ _, false.

Definition fresh_pg : PostgresAssetRegistry := mk_pg empty_database seven_days false 0 0 0 0.

Lemma fresh_in_step : in_step 0%nat fresh_pg empty_registry.
Proof. split; [apply empty_related|done..]. Qed.

(** Stable requests, one transaction each. *)
Fixpoint pg_run (qs : list request) (n : nat) (s : PostgresAssetRegistry) : nat * PostgresAssetRegistry :=
  match qs with
  | [] => (n, s)
  | q :: qs' =>
      if stable q then let '(_, n', s') := pg_call q n s in pg_run qs' n' s' else (n, s)
  end.

Lemma pg_run_reachable qs n s : pg_reachable n s → pg_reachable (pg_run qs n s).1 (pg_run qs n s).2.
Proof.
  revert n s. induction qs as [|q qs IH]; intros n s Hr; cbn; [done|].
  destruct (stable q) eqn:Hst; [|done]. destruct (pg_call q n s) as [[res n'] s'] eqn:Hc.
  apply IH. by eapply pg_step.
Qed.

Lemma fresh_reachable : pg_reachable 0%nat fresh_pg.
Proof. by apply (pg_start 0%nat None false). Qed.

Definition demo_reserve : request :=
  Do (CallReserve "cache" "p" (AliasNames ["a"; "b"]) "svc" None None INHERIT None (Some 10)).
Definition demo_requests : list request :=
  [demo_reserve; Do (CallCommit "id-0" 10 "abc" "svc" None None); Do (CallResolve "cache" "p/zzz");
   Do (CallDetach "cache" "p/a" "svc")].

Definition pg_demo : nat * PostgresAssetRegistry := pg_run demo_requests 0%nat fresh_pg.

Lemma pg_refines_memory_witness :
  is_Ok (pg_call demo_reserve 0%nat fresh_pg).1.1 = true ∧
  match pg_call demo_reserve 0%nat fresh_pg with
  | (Ok a, n', s') => ∃ r', (mirrored demo_reserve 0%nat n' empty_registry (Ok a) r' ∨ unknown_read demo_reserve 0%nat n' empty_registry a r') ∧
      in_step n' s' r'
  | _ => False
  end.
Proof.
  split; [vm_compute; reflexivity|].
  destruct (pg_call demo_reserve 0%nat fresh_pg) as [[[a|e] n'] s'] eqn:Hc.
  - exact (pg_refines_memory demo_reserve 0%nat fresh_pg empty_registry (Ok a) n' s' fresh_in_step eq_refl Hc).
  - revert Hc. assert (is_Ok (pg_call demo_reserve 0%nat fresh_pg).1.1 = true) as H by (vm_compute; reflexivity).
    intros Hc. rewrite Hc in H. discriminate H.
Defined.

Lemma pg_tables_consistent_witness :
  partition_used (db_partition_quotas (pg_db pg_demo.2)) "cache" "p" = 10 ∧
  db_alias_tombstones (pg_db pg_demo.2) !! ("cache", "p/a") ≠ None ∧ pg_rolled_back pg_demo.2 = 1 ∧
  tables_consistent (pg_db pg_demo.2).
Proof.
  split; [vm_compute; reflexivity|]. split; [vm_compute; discriminate|]. split; [vm_compute; reflexivity|].
  exact (proj1 (pg_tables_consistent pg_demo.1 pg_demo.2 (pg_run_reachable demo_requests 0%nat fresh_pg fresh_reachable))).
Defined.

(** Two requests, the second of which fails: the first is undone. *)
Definition doomed : list request := [demo_reserve; Do (CallResolve "cache" "p/zzz")].

Lemma unit_of_work_atomic_witness :
  is_Ok (pg_call demo_reserve 0%nat fresh_pg).1.1 = true ∧
  pg_batch doomed 0%nat fresh_pg =
    (Err AliasNotFoundError, (pg_batch doomed 0%nat fresh_pg).1.2,
     fresh_pg <| pg_checkouts := 1%nat |> <| pg_rolled_back := 1 |>).
Proof.
  split; [vm_compute; reflexivity|]. rewrite (unit_of_work_atomic doomed 0%nat fresh_pg eq_refl).
  vm_compute. reflexivity.
Defined.

Lemma record_read_unknown_diverges_witness :
  pg_call (Do (CallRecordRead "ghost")) 0%nat fresh_pg = (Ok Done, 1%nat, (pg_call (Do (CallRecordRead "ghost")) 0%nat fresh_pg).2) ∧
  ask (Do (CallRecordRead "ghost")) 0%nat empty_registry = (Err AssetNotFoundError, 0%nat, empty_registry).
Proof.
  split; [vm_compute; reflexivity|].
  exact (proj2 (record_read_unknown_diverges "ghost" 0%nat fresh_pg empty_registry fresh_in_step eq_refl eq_refl)).
Defined.

(** Two names that are one under the partition. *)
Definition twice_named : request :=
  Do (CallReserve "cache" "p" (AliasNames ["x"; "p/x"]) "svc" None None INHERIT None None).

(** Reserving under two names that are the same alias: the in-memory registry
    binds the one alias and records its creation twice, the Postgres registry runs
    into its primary key and raises the driver's error. *)
Theorem duplicate_names_diverge :
  (pg_call twice_named 0%nat fresh_pg).1.1 = Err PgUniqueViolation ∧
  is_Ok (ask twice_named 0%nat empty_registry).1.1 = true ∧
  size (r_aliases (ask twice_named 0%nat empty_registry).2) = 1%nat ∧
  ev_action <$> r_audit_events (ask twice_named 0%nat empty_registry).2 = ["alias.create"; "alias.create"].
Proof. vm_compute. repeat split. Qed.
