(* ===== verification/Normalize.v ===== *)
(** * Canonical URLs

    [fetcher_service/normalize.py]: two URLs of the same origin resource are given
    the same form. *)

From S2P Require Import Prelude Errors Python Codec IpAddress Urls.

Definition _ALLOWED_SCHEMES : list string := ["http"; "https"].
Definition _DEFAULT_PORTS : list (string * Z) := [("http", 80); ("https", 443)].

(** The port of a scheme in a table. *)
Fixpoint port_of (scheme : string) (ports : list (string * Z)) : option Z :=
  match ports with
  | [] => None
  | (s, p) :: rest => if decide (s = scheme) then Some p else port_of scheme rest
  end.

Record NormalizedUrl := mk_normalized {
  nu_scheme : string;
  nu_host : string;
  nu_port : option Z;
  nu_path : string;
  nu_query : string
}.

#[export] Instance normalized_eq_dec : EqDecision NormalizedUrl.
Proof. solve_decision. Defined.

(** The [canonical] property. *)
Definition canonical (u : NormalizedUrl) : string :=
  let authority := match nu_port u with
                   | None => nu_host u
                   | Some port => nu_host u +:+ ":" +:+ pretty port
                   end in
  let base := nu_scheme u +:+ "://" +:+ authority +:+ nu_path u in
  if decide (nu_query u = "") then base else base +:+ "?" +:+ nu_query u.

(** The [path_segments] property. *)
Definition path_segments (u : NormalizedUrl) : list string := filter (.≠ "") (split_on "/" (nu_path u)).

Definition normalize_path (text : string) : res string :=
  match unquote text with
  | None => Err OutsideModel
  | Some path =>
      let path := if decide (path = "") then "/" else path in
      mret (if (1 <? String.length path)%nat && endswith "/" path then rstrip_by is_slash path else path)
  end.

Definition normalize_url (raw : string) : res NormalizedUrl :=
  if decide (strip raw = "") then Err InvalidUrl else
  parts ← urlsplit (strip raw) "";
  let scheme := lower (sr_scheme parts) in
  if negb (mem scheme _ALLOWED_SCHEMES) then Err InvalidUrl else
  match hostname parts with
  | None => Err InvalidUrl
  | Some host =>
      given ← port parts;
      let port := match given with
                  | Some p => if decide (port_of scheme _DEFAULT_PORTS = Some p) then None else Some p
                  | None => None
                  end in
      path ← normalize_path (sr_path parts);
      mret (mk_normalized scheme (lower host) port path (sr_query parts))
  end.
