(* ===== verification/Rules.v ===== *)
(** * Rewrite rules

    [fetcher_service/rules.py]: which URLs are cached, and under which name.  A rule
    is what its [match] does with a URL.  A compiled regular expression is its groups
    and its [fullmatch]: the engine behind them is a parameter of the loader. *)

From S2P Require Import Prelude Errors Python Codec IpAddress Urls Normalize.

Definition _IIIF_QUALITY_ALIASES : list (string * string) := [("native", "default")].

(** [d.get(k, otherwise)] *)
Fixpoint table_get (k otherwise : string) (d : list (string * string)) : string :=
  match d with
  | [] => otherwise
  | (k', v) :: d' => if decide (k' = k) then v else table_get k otherwise d'
  end.

Record RuleMatch := mk_match { rm_mirror_id : string; rm_aliases : list string }.

#[export] Instance rule_match_eq_dec : EqDecision RuleMatch.
Proof. solve_decision. Defined.

(** [primary_alias] *)
Definition primary_alias (m : RuleMatch) : res string :=
  match rm_aliases m with alias :: _ => mret alias | [] => Err PyIndexError end.

(** The protocol of a rule: [match], a keyword here. *)
Record CacheRule := mk_rule { rule_match : NormalizedUrl → res (option RuleMatch) }.

Definition _host_matches (url : NormalizedUrl) (host : string) : bool :=
  bool_decide (nu_host url = host) || endswith ("." +:+ host) (nu_host url).

Definition _normalize_rotation (rotation : string) : string :=
  match rotation with
  | String "!" body => match py_int body with Some value => "!" +:+ pretty value | None => rotation end
  | _ => match py_int rotation with Some value => pretty value | None => rotation end
  end.

(** ** IIIF images *)

Record IIIFImageRule := mk_iiif { ii_host : string; ii_mirror_id : string; ii_path_prefix : list string }.

(** The name of an image from its parameters. *)
Definition iiif_tail (resource_id region size rotation quality fmt : string) : string :=
  let quality := table_get (lower quality) (lower quality) _IIIF_QUALITY_ALIASES in
  "iiif/" +:+ resource_id +:+ "/" +:+ lower region +:+ "/" +:+ lower size +:+ "/" +:+
  _normalize_rotation rotation +:+ "/" +:+ quality +:+ "." +:+ lower fmt.

(** The segments after the prefix: at least five, the last four being the
    parameters. *)
Definition iiif_alias (segments : list string) : option string :=
  if (length segments <? 5)%nat then None else
  match rev segments with
  | quality_format :: rotation :: size :: region :: identifier =>
      let '(quality, found, fmt) := rpartition_on "." quality_format in
      if negb found then None else
      let resource_id := join_with "/" (rev identifier) in
      if decide (resource_id = "") then None
      else Some (iiif_tail resource_id region size rotation quality fmt)
  | _ => None
  end.

Definition iiif_match (r : IIIFImageRule) (url : NormalizedUrl) : option RuleMatch :=
  if negb (_host_matches url (ii_host r)) then None else
  let segments := path_segments url in
  let n := length (ii_path_prefix r) in
  if decide (take n segments = ii_path_prefix r) then
    tail ← iiif_alias (drop n segments); Some (mk_match (ii_mirror_id r) [tail])
  else None.

(** ** Whole hosts *)

Record HostPassthroughRule := mk_passthrough { hp_host : string; hp_mirror_id : string }.

(** [f"{tail}?{url.query}"] if there is a query *)
Definition with_query (tail : string) (url : NormalizedUrl) : string :=
  if decide (nu_query url = "") then tail else tail +:+ "?" +:+ nu_query url.

Definition passthrough_match (r : HostPassthroughRule) (url : NormalizedUrl) : option RuleMatch :=
  if negb (_host_matches url (hp_host r)) then None else
  match path_segments url with
  | [] => None
  | segments => Some (mk_match (hp_mirror_id r) [with_query (join_with "/" segments) url])
  end.

(** ** Regular expressions *)

Record Pattern := mk_pattern {
  groupindex : list string;
  fullmatch : string → option (gmap string (option string))
}.

(** A template: literal text, each with the field that follows it: its name, its
    conversion and its format specification. *)
Record Field := mk_field { fd_name : string; fd_conversion : option ascii; fd_spec : string }.
Definition Template : Type := list (string * option Field).

(** A field name, the character that ends it and the rest; what is between square
    brackets belongs to it. *)
Fixpoint read_name (in_index : bool) (s : string) : option (string * ascii * string) :=
  match s with
  | EmptyString => None
  | String c s' =>
      let more in_index := '(name, stop, rest) ← read_name in_index s'; Some (String c name, stop, rest) in
      if in_index then more (negb (Ascii.eqb c "]"))
      else if Ascii.eqb c "{" then None
      else if Ascii.eqb c "}" || Ascii.eqb c ":" || Ascii.eqb c "!" then Some ("", c, s')
      else more (Ascii.eqb c "[")
  end.

(** A format specification up to its closing brace, [depth] braces being open in it. *)
Fixpoint read_spec (depth : nat) (s : string) : option (string * string) :=
  match s with
  | EmptyString => None
  | String c s' =>
      let more depth := '(spec, rest) ← read_spec depth s'; Some (String c spec, rest) in
      if Ascii.eqb c "{" then more (S depth)
      else if Ascii.eqb c "}" then match depth with O => Some ("", s') | S depth' => more depth' end
      else more depth
  end.

(** What follows an opening brace. *)
Definition read_field (s : string) : option (Field * string) :=
  '(name, stop, rest) ← read_name false s;
  if Ascii.eqb stop "}" then Some (mk_field name None "", rest)
  else if Ascii.eqb stop ":" then '(spec, rest) ← read_spec 0 rest; Some (mk_field name None spec, rest)
  else
    match rest with
    | String conversion (String "}" rest) => Some (mk_field name (Some conversion) "", rest)
    | String conversion (String ":" rest) =>
        '(spec, rest) ← read_spec 0 rest; Some (mk_field name (Some conversion) spec, rest)
    | _ => None
    end.

(** [Formatter().parse(template)]: what is read, and whether it ends well or in a
    [ValueError].  [fuel] bounds the characters. *)
Fixpoint parse_template (fuel : nat) (literal s : string) : Template * bool :=
  match fuel with
  | O => ([], false)
  | S fuel' =>
      match s with
      | EmptyString => (if decide (literal = "") then [] else [(literal, None)], true)
      | String "{" (String "{" s') => parse_template fuel' (literal +:+ "{") s'
      | String "}" (String "}" s') => parse_template fuel' (literal +:+ "}") s'
      | String "}" _ => ([], false)
      | String "{" s' =>
          match read_field s' with
          | Some (field, rest) =>
              let '(t, ok) := parse_template fuel' "" rest in ((literal, Some field) :: t, ok)
          | None => ([], false)
          end
      | String c s' => parse_template fuel' (literal +:+ String c "") s'
      end
  end.

Definition template_of (template : string) : Template * bool :=
  parse_template (S (String.length template)) "" template.

Definition is_name_end (c : ascii) : bool := Ascii.eqb c "." || Ascii.eqb c "[".

(** A field of [str.format]: a number or no name asks for a positional
    argument; the value of a plain field is printed as it is, [None] for a group that
    did not take part. *)
Definition format_field (groups : gmap string (option string)) (f : Field) : res string :=
  let '(first, attributes) := break_at is_name_end (fd_name f) in
  if all_chars is_digit first then
    if read_digits 0 first <? 2 ^ 63 then Err PyIndexError else Err PyValueError
  else
    match groups !! first with
    | None => Err PyKeyError
    | Some value =>
        if bool_decide (attributes = "" ∧ fd_conversion f = None ∧ fd_spec f = "")
        then mret (default "None" value) else Err OutsideModel
    end.

Fixpoint format_fields (groups : gmap string (option string)) (t : Template) (ok : bool) : res string :=
  match t with
  | [] => if ok then mret "" else Err PyValueError
  | (literal, field) :: t' =>
      value ← match field with Some f => format_field groups f | None => mret "" end;
      rest ← format_fields groups t' ok;
      mret (literal +:+ value +:+ rest)
  end.

(** [template.format] of the groups: the text is read as it is formatted, so an error
    in a field comes before a malformed brace after it. *)
Definition format_template (template : string) (groups : gmap string (option string)) : res string :=
  let '(t, ok) := template_of template in format_fields groups t ok.

Record RegexRule := mk_regex {
  rx_host : string;
  rx_mirror_id : string;
  rx_pattern : Pattern;
  rx_alias_template : string
}.

Definition regex_match (r : RegexRule) (url : NormalizedUrl) : res (option RuleMatch) :=
  if negb (_host_matches url (rx_host r)) then mret None else
  match fullmatch (rx_pattern r) (join_with "/" (path_segments url)) with
  | None => mret None
  | Some groups =>
      tail ← format_template (rx_alias_template r) groups;
      mret (Some (mk_match (rx_mirror_id r) [with_query tail url]))
  end.

(** ** Rule sets *)

Definition iiif_rule (r : IIIFImageRule) : CacheRule := mk_rule (λ url, mret (iiif_match r url)).
Definition passthrough_rule (r : HostPassthroughRule) : CacheRule := mk_rule (λ url, mret (passthrough_match r url)).
Definition regex_rule (r : RegexRule) : CacheRule := mk_rule (regex_match r).

Record RuleSet := mk_rules { rules : list CacheRule }.

Fixpoint first_match (l : list CacheRule) (url : NormalizedUrl) : res (option RuleMatch) :=
  match l with
  | [] => mret None
  | rule :: l' =>
      found ← rule_match rule url;
      match found with Some m => mret (Some m) | None => first_match l' url end
  end.

Definition evaluate (s : RuleSet) (url : NormalizedUrl) : res (option RuleMatch) := first_match (rules s) url.

Definition default_rule_set : RuleSet :=
  mk_rules [iiif_rule (mk_iiif "gallica.bnf.fr" "gallica" ["iiif"]);
            passthrough_rule (mk_passthrough "images.example.org" "example")].
