(* ===== verification/RuleConfig.v ===== *)
(** * The rule-set loader

    [fetcher_service/config.py]: rules written as an array of TOML tables.  The TOML
    reader and the engine that compiles a regular expression are parameters; TOML
    values are written as JSON ones. *)

From S2P Require Import Prelude Errors Python Codec IpAddress Urls Normalize Rules.

Definition RULES_FILE_ENV : string := "FETCHER_RULES_FILE".

(** [rule.get(key)] *)
Fixpoint item (key : string) (rule : list (string * json)) : option json :=
  match rule with
  | [] => None
  | (k, v) :: rule' => if decide (k = key) then Some v else item key rule'
  end.

Definition _require_str (rule : list (string * json)) (key : string) : res string :=
  match item key rule with
  | Some (JStr value) => if decide (value = "") then Err RuleConfigError else mret value
  | _ => Err RuleConfigError
  end.

(** [_UNSAFE_REGEX.search]: a backreference or a lookaround somewhere in the text. *)
Definition unsafe_here (s : string) : bool :=
  match s with
  | String "\" (String c s') =>
      (is_digit c && negb (Ascii.eqb c "0")) || (Ascii.eqb c "g" && startswith "<" s')
  | String "(" (String "?" s') =>
      let s' := removeprefix "<" s' in startswith "=" s' || startswith "!" s'
  | _ => false
  end.

Fixpoint unsafe_regex (s : string) : bool :=
  unsafe_here s || match s with EmptyString => false | String _ s' => unsafe_regex s' end.

Definition _template_fields (template : string) : res (list string) :=
  let '(t, ok) := template_of template in
  if ok then mret (omap (λ '(_, field), f ← field; if decide (fd_name f = "") then None else Some (fd_name f)) t)
  else Err RuleConfigError.

(** A list of strings. *)
Definition str_list (v : json) : res (list string) :=
  match v with
  | JArr l => mapM (λ x, match x with JStr s => mret s | _ => Err RuleConfigError end) l
  | _ => Err RuleConfigError
  end.

Section Loader.
(** [re.compile], [None] for [re.error]; [tomllib.loads], [None] for
    [TOMLDecodeError]; the text of a file, [None] for [OSError]. *)
Context (re_compile : string → option Pattern) (toml_loads : string → option (list (string * json)))
  (read_text : string → option string).

Definition _build_regex_rule (rule : list (string * json)) : res RegexRule :=
  host ← _require_str rule "host";
  mirror_id ← _require_str rule "mirror_id";
  path_match ← _require_str rule "path_match";
  alias_template ← _require_str rule "alias_template";
  if unsafe_regex path_match then Err RuleConfigError else
  match re_compile path_match with
  | None => Err RuleConfigError
  | Some pattern =>
      fields ← _template_fields alias_template;
      if forallb (λ field, mem field (groupindex pattern)) fields
      then mret (mk_regex host mirror_id pattern alias_template)
      else Err RuleConfigError
  end.

Definition _build_rule (rule : list (string * json)) : res CacheRule :=
  match item "type" rule with
  | Some (JStr rule_type) =>
      if decide (rule_type = "iiif") then
        host ← _require_str rule "host";
        mirror_id ← _require_str rule "mirror_id";
        path_prefix ← str_list (default (JArr [JStr "iiif"]) (item "path_prefix" rule));
        mret (iiif_rule (mk_iiif host mirror_id path_prefix))
      else if decide (rule_type = "passthrough") then
        host ← _require_str rule "host";
        mirror_id ← _require_str rule "mirror_id";
        mret (passthrough_rule (mk_passthrough host mirror_id))
      else if decide (rule_type = "regex") then
        rule ← _build_regex_rule rule;
        mret (regex_rule rule)
      else Err RuleConfigError
  | _ => Err RuleConfigError
  end.

Definition load_rule_set (text : string) : res RuleSet :=
  match toml_loads text with
  | None => Err RuleConfigError
  | Some document =>
      match default (JArr []) (item "rule" document) with
      | JArr raw_rules =>
          rules ← mapM (λ rule, match rule with JObj rule => _build_rule rule | _ => Err RuleConfigError end) raw_rules;
          mret (mk_rules rules)
      | _ => Err RuleConfigError
      end
  end.

Definition load_rule_set_file (path : string) : res RuleSet :=
  match read_text path with
  | None => Err RuleConfigError
  | Some text => load_rule_set text
  end.

Definition rule_set_from_env (env : gmap string string) : res (option RuleSet) :=
  match env !! RULES_FILE_ENV with
  | None => mret None
  | Some path => if decide (path = "") then mret None else s ← load_rule_set_file path; mret (Some s)
  end.
End Loader.
