(* ===== verification/Regex.v ===== *)
(** * Regular expressions

    The patterns a program writes down itself: [fullmatch] decides whether a text is
    in the language, by derivatives. *)

From S2P Require Import Prelude Errors Python Sha256 Codec IpAddress Urls.

Inductive regex :=
  | RNone
  | REmpty
  | RChar (p : ascii → bool)
  | RSeq (r s : regex)
  | RAlt (r s : regex)
  | RStar (r : regex).

(** ** Matching *)

Fixpoint nullable (r : regex) : bool :=
  match r with
  | RNone | RChar _ => false
  | REmpty | RStar _ => true
  | RSeq r s => nullable r && nullable s
  | RAlt r s => nullable r || nullable s
  end.

(** The smart constructors keep derivatives small. *)
Definition seq_of (r s : regex) : regex :=
  match r with RNone => RNone | REmpty => s | _ => RSeq r s end.
Definition alt_of (r s : regex) : regex :=
  match r, s with RNone, _ => s | _, RNone => r | _, _ => RAlt r s end.

Fixpoint derive (c : ascii) (r : regex) : regex :=
  match r with
  | RNone | REmpty => RNone
  | RChar p => if p c then REmpty else RNone
  | RSeq r s => if nullable r then alt_of (seq_of (derive c r) s) (derive c s) else seq_of (derive c r) s
  | RAlt r s => alt_of (derive c r) (derive c s)
  | RStar r' => seq_of (derive c r') (RStar r')
  end.

(** [pattern.fullmatch(text) is not None] *)
Fixpoint full_match (r : regex) (s : string) : bool :=
  match s with
  | EmptyString => nullable r
  | String c s' => full_match (derive c r) s'
  end.

(** ** Writing patterns *)

Definition rplus (r : regex) : regex := RSeq r (RStar r).
Definition ropt (r : regex) : regex := RAlt r REmpty.
Fixpoint rtext (s : string) : regex :=
  match s with EmptyString => REmpty | String c s' => RSeq (RChar (Ascii.eqb c)) (rtext s') end.
Fixpoint rany (l : list regex) : regex :=
  match l with [] => RNone | [r] => r | r :: l' => RAlt r (rany l') end.
Fixpoint rseq (l : list regex) : regex :=
  match l with [] => REmpty | [r] => r | r :: l' => RSeq r (rseq l') end.

(** * Lemmas *)

(** ** The language *)

Inductive in_language : regex → string → Prop :=
  | matches_empty : in_language REmpty ""
  | matches_char p c : p c = true → in_language (RChar p) (String c "")
  | matches_seq r s x y : in_language r x → in_language s y → in_language (RSeq r s) (x +:+ y)
  | matches_left r s x : in_language r x → in_language (RAlt r s) x
  | matches_right r s x : in_language s x → in_language (RAlt r s) x
  | matches_done r : in_language (RStar r) ""
  | matches_more r x y : in_language r x → in_language (RStar r) y → in_language (RStar r) (x +:+ y).

#[export] Hint Constructors in_language : core.

Lemma matches_seq_inv r s x : in_language (RSeq r s) x → ∃ y z, x = y +:+ z ∧ in_language r y ∧ in_language s z.
Proof. inversion 1; subst. eauto. Qed.

Lemma matches_alt_inv r s x : in_language (RAlt r s) x → in_language r x ∨ in_language s x.
Proof. inversion 1; subst; auto. Qed.

Lemma matches_star_cons r c x :
  in_language (RStar r) (String c x) → ∃ y z, x = y +:+ z ∧ in_language r (String c y) ∧ in_language (RStar r) z.
Proof.
  remember (RStar r) as star eqn:Hstar. remember (String c x) as s eqn:Hs. intros H. revert c x Hs.
  induction H as [| | | | | |r' y z Hy _ Hz IH]; intros c0 x0 Hs; simplify_eq.
  destruct y as [|d y]; cbn in Hs; [by apply IH|]. injection Hs as -> <-. eauto.
Qed.

Lemma nullable_matches r : nullable r = true ↔ in_language r "".
Proof.
  induction r as [| | |r IHr s IHs|r IHr s IHs|r IHr]; cbn.
  - split; [done|inversion 1].
  - by split.
  - split; [done|inversion 1].
  - rewrite andb_true_iff, IHr, IHs. split; [intros [H1 H2]; apply (matches_seq r s "" "" H1 H2)|].
    intros (y & z & Hyz & Hy & Hz)%matches_seq_inv. by destruct y, z.
  - rewrite orb_true_iff, IHr, IHs. split; [intros []; auto|apply matches_alt_inv].
  - by split.
Qed.

Lemma seq_matches r s x : in_language (seq_of r s) x ↔ in_language (RSeq r s) x.
Proof.
  destruct r; try done; cbn; split.
  - inversion 1.
  - intros (y & z & -> & Hy & _)%matches_seq_inv. inversion Hy.
  - intros H. apply (matches_seq REmpty s "" x); auto.
  - intros (y & z & -> & Hy & Hz)%matches_seq_inv. by inversion Hy; subst.
Qed.

Lemma alt_matches r s x : in_language (alt_of r s) x ↔ in_language (RAlt r s) x.
Proof.
  assert (Hnone : ∀ x, ¬ in_language RNone x) by (intros ?; inversion 1).
  split.
  - destruct r, s; cbn; auto; intros H; solve [by apply Hnone in H|auto].
  - intros [H|H]%matches_alt_inv; destruct r, s; cbn; auto; by apply Hnone in H.
Qed.

Lemma derive_matches c r x : in_language (derive c r) x ↔ in_language r (String c x).
Proof.
  revert x. induction r as [| |p|r IHr s IHs|r IHr s IHs|r IHr]; intros x; cbn [derive].
  - split; inversion 1.
  - split; inversion 1.
  - destruct (p c) eqn:Hp; (split; [inversion 1; subst; auto|]); inversion 1; subst; [constructor|congruence].
  - assert (Hseq : in_language (seq_of (derive c r) s) x ↔ ∃ y z, x = y +:+ z ∧ in_language r (String c y) ∧ in_language s z).
    { rewrite seq_matches. split.
      - intros (y & z & -> & Hy & Hz)%matches_seq_inv. exists y, z. by rewrite <- IHr.
      - intros (y & z & -> & Hy & Hz). constructor; [by apply IHr|done]. }
    assert (Hcons : in_language (RSeq r s) (String c x) ↔
      (∃ y z, x = y +:+ z ∧ in_language r (String c y) ∧ in_language s z) ∨ in_language r "" ∧ in_language s (String c x)).
    { split.
      - intros (y & z & Hyz & Hy & Hz)%matches_seq_inv. destruct y as [|d y]; cbn in Hyz; [subst z; auto|].
        injection Hyz as -> ->. left; eauto.
      - intros [(y & z & -> & Hy & Hz)|[Hr Hs]]; [by apply (matches_seq r s (String c y) z)|].
        by apply (matches_seq r s "" (String c x)). }
    rewrite Hcons. destruct (nullable r) eqn:Hn.
    + rewrite alt_matches. split.
      * intros [H|H]%matches_alt_inv; [left; by apply Hseq|right]. split; [by apply nullable_matches|by apply IHs].
      * intros [H|[_ H]]; [apply matches_left; by apply Hseq|apply matches_right; by apply IHs].
    + rewrite Hseq. split; [by left|]. intros [H|[H _]]; [done|]. apply nullable_matches in H. congruence.
  - rewrite alt_matches. split; intros [H|H]%matches_alt_inv.
    + apply matches_left. by apply IHr.
    + apply matches_right. by apply IHs.
    + apply matches_left. by apply IHr.
    + apply matches_right. by apply IHs.
  - rewrite seq_matches. split.
    + intros (y & z & -> & Hy & Hz)%matches_seq_inv. apply (matches_more r (String c y) z); [by apply IHr|done].
    + intros (y & z & -> & Hy & Hz)%matches_star_cons. constructor; [by apply IHr|done].
Qed.

(** [full_match] decides the language. *)
Lemma full_match_iff r x : full_match r x = true ↔ in_language r x.
Proof.
  revert r. induction x as [|c x IH]; intros r; cbn; [apply nullable_matches|].
  by rewrite IH, derive_matches.
Qed.

(** ** What every matched text keeps *)

(** Every character [q] accepts, [p] accepts. *)
Definition class_within (p q : ascii → bool) : bool :=
  forallb (λ n, implb (q (Ascii.ascii_of_nat n)) (p (Ascii.ascii_of_nat n))) (seq 0 256).

Fixpoint classes_within (p : ascii → bool) (r : regex) : bool :=
  match r with
  | RNone | REmpty => true
  | RChar q => class_within p q
  | RSeq r s | RAlt r s => classes_within p r && classes_within p s
  | RStar r => classes_within p r
  end.

Lemma class_within_spec p q c : class_within p q = true → q c = true → p c = true.
Proof.
  unfold class_within. rewrite forallb_forall. intros Hall Hq. specialize (Hall (Ascii.nat_of_ascii c)).
  rewrite Ascii.ascii_nat_embedding, Hq in Hall. apply Hall. apply in_seq.
  pose proof (Ascii.nat_ascii_bounded c). lia.
Qed.

(** A text matched by a pattern has only characters of the pattern's classes. *)
Lemma matches_all_chars (p : ascii → bool) r x : classes_within p r = true → in_language r x → all_chars p x = true.
Proof.
  intros Hr H. induction H as [|q c Hc|r s x y _ IH1 _ IH2|r s x _ IH|r s x _ IH| |r x y _ IH1 _ IH2]; cbn in Hr |- *.
  - done.
  - by rewrite (class_within_spec p q c).
  - apply andb_prop in Hr as [Hr Hs]. by rewrite all_chars_app, IH1, IH2.
  - apply andb_prop in Hr as [Hr Hs]. by apply IH.
  - apply andb_prop in Hr as [Hr Hs]. by apply IH.
  - done.
  - by rewrite all_chars_app, IH1, IH2.
Qed.

Lemma matches_rtext s x : in_language (rtext s) x ↔ x = s.
Proof.
  revert x. induction s as [|c s IH]; intros x; cbn.
  - split; [by inversion 1|by intros ->].
  - split.
    + intros (y & z & -> & Hy & Hz)%matches_seq_inv. apply IH in Hz as ->. inversion Hy; subst.
      by match goal with H : Ascii.eqb _ _ = true |- _ => apply Ascii.eqb_eq in H as -> end.
    + intros ->. apply (matches_seq (RChar (Ascii.eqb c)) (rtext s) (String c "") s); [|by apply IH].
      constructor. apply Ascii.eqb_refl.
Qed.

Lemma matches_text_seq s r x : in_language (RSeq (rtext s) r) x ↔ ∃ y, x = s +:+ y ∧ in_language r y.
Proof.
  split.
  - intros (y & z & -> & Hy & Hz)%matches_seq_inv. apply matches_rtext in Hy as ->. eauto.
  - intros (y & -> & Hy). constructor; [by apply matches_rtext|done].
Qed.

Lemma matches_opt r x : in_language (ropt r) x ↔ in_language r x ∨ x = "".
Proof.
  split; [intros [?|H]%matches_alt_inv; [by left|by inversion H; right]|].
  intros [?| ->]; [by apply matches_left|apply matches_right; constructor].
Qed.

(** A text of a choice of texts. *)
Lemma matches_rany_text l x : in_language (rany (rtext <$> l)) x ↔ x ∈ l.
Proof.
  induction l as [|s [|s' l] IH].
  - split; [inversion 1|by intros ?%elem_of_nil].
  - cbn. rewrite matches_rtext, list_elem_of_singleton. done.
  - change (rany (rtext <$> s :: s' :: l)) with (RAlt (rtext s) (rany (rtext <$> s' :: l))).
    rewrite elem_of_cons, <- IH, <- (matches_rtext s x). split; [apply matches_alt_inv|intros []; auto].
Qed.

(** The last of a sequence matches an end of the text. *)
Lemma matches_rseq_last l r x : in_language (rseq (l ++ [r])) x → ∃ y z, x = y +:+ z ∧ in_language r z.
Proof.
  revert x. induction l as [|r' l IH]; intros x; [by exists "", x|]. intros Hx.
  assert (in_language (RSeq r' (rseq (l ++ [r]))) x) as (y & z & -> & _ & Hz)%matches_seq_inv by by destruct l.
  apply IH in Hz as (y' & z' & -> & Hz). exists (y +:+ y'), z'. by rewrite app_str_assoc.
Qed.
