(* ===== verification/PilotPolicy.v ===== *)
(** * The pilot's policy

    [fetcher_service/pilot_policy.py]: which image URLs of Gallica may be preloaded
    and read, and the name each is cached under. *)

From S2P Require Import Prelude Errors Python Codec IpAddress Urls Normalize Rules Regex.

Definition HOST : string := "gallica.bnf.fr".
Definition PARTITION : string := "gallica-pilot".
Definition V3_HOST : string := "openapi.bnf.fr".
Definition IMAGE_MIMES : list string := ["image/jpeg"; "image/tiff"; "image/webp"].

(** ** Patterns *)

Definition digit : regex := RChar is_digit.
Definition digits1 : regex := rplus digit.
Definition nonzero : regex := RChar (λ c, is_digit c && negb (Ascii.eqb c "0")).

Definition _NUMBER : regex := RSeq digits1 (ropt (RSeq (rtext ".") digits1)).

Definition _REGION : regex :=
  rany [rtext "full"; rtext "square";
        rseq [ropt (rtext "pct:"); _NUMBER; rtext ","; _NUMBER; rtext ","; _NUMBER; rtext ","; _NUMBER]].

Definition _SIZE : regex :=
  rany [rtext "full"; rtext "max"; RSeq (rtext "pct:") _NUMBER;
        rseq [ropt (rtext "!"); digits1; rtext ","; RStar digit];
        rseq [ropt (rtext "!"); RStar digit; rtext ","; digits1]].

(** [ark:/12148/[A-Za-z0-9]+/f[1-9][0-9]*] *)
Definition ark : regex :=
  rseq [rtext "ark:/12148/"; rplus (RChar is_alnum); rtext "/f"; nonzero; RStar digit].

(** [!?NUMBER/quality.] *)
Definition rotation_quality : regex :=
  rseq [ropt (rtext "!"); _NUMBER; rtext "/";
        rany [rtext "native"; rtext "default"; rtext "color"; rtext "gray"; rtext "bitonal"]; rtext "."].

Definition image_at (prefix : string) (formats : list regex) : regex :=
  rseq [rtext prefix; ark; rtext "/"; _REGION; rtext "/"; _SIZE; rtext "/"; rotation_quality; rany formats].

Definition formats : list regex := [rtext "jpg"; rtext "jpeg"; rtext "tif"; rtext "tiff"].

Definition _IMAGE : regex := image_at "/iiif/" formats.
Definition _V3_IMAGE : regex := image_at "/iiif/image/v3/" (formats ++ [rtext "webp"]).

Definition legacy_suffix : string := "/full/full/0/native.jpg".
Definition _LEGACY_FULL : regex := rseq [rtext "/iiif/"; ark; rtext legacy_suffix].

Definition _POLICIES (host : string) : option regex :=
  if decide (host = HOST) then Some _IMAGE
  else if decide (host = V3_HOST) then Some _V3_IMAGE
  else None.

(** [_LEGACY_FULL.fullmatch(path)[1]]: what is between the two texts. *)
Definition legacy_ark (path : string) : option string :=
  if full_match _LEGACY_FULL path then
    Some (String.substring 6 (String.length path - 6 - String.length legacy_suffix) path)
  else None.

(** ** Targets *)

Record PilotTarget := mk_target { pt_origin_url : string; pt_path : string; pt_host : string }.

#[export] Instance pilot_target_eq_dec : EqDecision PilotTarget.
Proof. solve_decision. Defined.

(** The [fetch_url] property. *)
Definition fetch_url (t : PilotTarget) : string :=
  match (if decide (pt_host t = HOST) then legacy_ark (pt_path t) else None) with
  | Some ark => "https://" +:+ V3_HOST +:+ "/iiif/image/v3/" +:+ ark +:+ "/full/max/0/default.jpg"
  | None => pt_origin_url t
  end.

(** The [relative_alias] property. *)
Definition relative_alias (t : PilotTarget) : res string :=
  if decide (fetch_url t ≠ pt_origin_url t) then
    canonical ← urlsplit (fetch_url t) "";
    mret (PARTITION +:+ "/" +:+ V3_HOST +:+ "/" +:+ lstrip_by is_slash (sr_path canonical))
  else
    let prefix := if decide (pt_host t = HOST) then "" else pt_host t +:+ "/" in
    mret (PARTITION +:+ "/" +:+ prefix +:+ lstrip_by is_slash (pt_path t)).

(** ** The policy *)

Definition denied : error := FetchError PilotDeniedError.

Definition is_printable (c : ascii) : bool := (33 <=? byte_of c) && (byte_of c <=? 126).

(** The code points of the escapes of a text; [None] when a percent sign starts
    none. *)
Fixpoint escapes (s : string) : option (list Z) :=
  match s with
  | EmptyString => Some []
  | String c s' =>
      if Ascii.eqb c "%" then
        match s' with
        | String a (String b _) =>
            h ← hex_value a; l ← hex_value b; rest ← escapes s'; Some (16 * h + l :: rest)
        | _ => None
        end
      else escapes s'
  end.

Definition is_ambiguous (c : ascii) : bool :=
  Ascii.eqb c "/" || Ascii.eqb c "\" || Ascii.eqb c "%" || Ascii.eqb c "?" || Ascii.eqb c "#".

(** A text that decodes to a character above U+00FF matches no pattern. *)
Definition require (raw : string) : res PilotTarget :=
  if bool_decide (raw = "") || (2048 <? String.length raw)%nat || negb (all_chars is_printable raw) then Err denied else
  match urlsplit raw "" with
  | Err e => Err (if decide (e = PyValueError) then denied else e)
  | Ok parts =>
      let host := lower (sr_netloc parts) in
      match _POLICIES host with
      | None => Err denied
      | Some policy =>
          if bool_decide (sr_scheme parts ≠ "https") || contains_char "?" raw || contains_char "#" raw then Err denied else
          match escapes (sr_path parts) with
          | None => Err denied
          | Some codes =>
              if existsb (λ z, is_ambiguous (chr z)) codes then Err denied else
              match unquote (sr_path parts) with
              | Some path =>
                  if full_match policy path
                  then mret (mk_target ("https://" +:+ host +:+ path) path host)
                  else Err denied
              | None => Err denied
              end
          end
      end
  end.

(** [raw_path] and [query] are bytes. *)
Definition require_read (raw_path query : list Z) : res PilotTarget :=
  if negb (forallb (λ b, b <? 128) raw_path) then Err denied else
  let path := foldr (λ b s, String (chr b) s) "" raw_path in
  if negb (bool_decide (query = [])) ||
     negb (startswith ("/" +:+ HOST +:+ "/") path || startswith ("/" +:+ V3_HOST +:+ "/") path) then Err denied
  else require ("https:/" +:+ path).

(** [GallicaPolicy.match] *)
Definition gallica_match (url : NormalizedUrl) : res (option RuleMatch) :=
  target ← require (canonical url);
  alias ← relative_alias target;
  mret (Some (mk_match PARTITION [removeprefix (PARTITION +:+ "/") alias])).

Definition gallica_rule : CacheRule := mk_rule gallica_match.
