(* ===== verification/PilotPolicyProps.v ===== *)
(** * The pilot's policy: properties

    What the policy lets through, and that the name a preload stores an image under is
    the name a read looks up. *)

From S2P Require Import Prelude Errors Python Sha256 Codec IpAddress Urls Normalize Rules Regex PilotPolicy.

(** ** The texts a policy matches *)

(** The characters of an image path. *)
Definition is_image_char (c : ascii) : bool :=
  is_alnum c || Ascii.eqb c "/" || Ascii.eqb c ":" || Ascii.eqb c "." || Ascii.eqb c "," || Ascii.eqb c "!".

Lemma image_char_plain c :
  is_image_char c = true →
  is_printable c = true ∧ is_unsafe c = false ∧ is_path_stop c = false ∧ is_space c = false ∧ Ascii.eqb c "%" = false.
Proof. destruct c as [[] [] [] [] [] [] [] []]; vm_compute; intros [=]; auto. Qed.

Lemma policy_cases host policy :
  _POLICIES host = Some policy → host = HOST ∧ policy = _IMAGE ∨ host = V3_HOST ∧ policy = _V3_IMAGE.
Proof.
  unfold _POLICIES. destruct (decide (host = HOST)) as [->|]; [intros [= <-]; auto|].
  destruct (decide (host = V3_HOST)) as [->|]; [intros [= <-]; auto|done].
Qed.

Lemma policy_chars host policy path :
  _POLICIES host = Some policy → full_match policy path = true → all_chars is_image_char path = true.
Proof.
  intros Hp Hm%full_match_iff. apply (matches_all_chars _ policy); [|done].
  by destruct (policy_cases host policy Hp) as [[-> ->]|[-> ->]]; vm_compute.
Qed.

(** An image path starts with a slash and does not end with one. *)
Lemma image_at_shape prefix l path :
  in_language (image_at prefix (rtext <$> l)) path → ∃ y f, path = prefix +:+ y +:+ f ∧ f ∈ l.
Proof.
  unfold image_at. cbn [rseq]. intros (y & -> & Hy)%matches_text_seq.
  apply (matches_rseq_last [ark; rtext "/"; _REGION; rtext "/"; _SIZE; rtext "/"; rotation_quality]) in Hy
    as (z & f & -> & Hf). apply matches_rany_text in Hf. by exists z, f.
Qed.

Lemma policy_path_shape host policy path :
  _POLICIES host = Some policy → full_match policy path = true →
  (∃ p, path = "/" +:+ p) ∧ endswith "/" path = false ∧ (1 < String.length path)%nat.
Proof.
  intros Hp Hm%full_match_iff.
  assert (∃ p y f, path = ("/iiif/" +:+ p) +:+ y +:+ f ∧ f ∈ ["jpg"; "jpeg"; "tif"; "tiff"; "webp"]) as (p & y & f & -> & Hf).
  { destruct (policy_cases host policy Hp) as [[-> ->]|[-> ->]].
    - destruct (image_at_shape "/iiif/" ["jpg"; "jpeg"; "tif"; "tiff"] path Hm) as (y & f & -> & Hf).
      exists "", y, f. split; [done|]. set_solver.
    - destruct (image_at_shape "/iiif/image/v3/" ["jpg"; "jpeg"; "tif"; "tiff"; "webp"] path Hm) as (y & f & -> & Hf).
      exists "image/v3/", y, f. done. }
  split_and!.
  - eexists. reflexivity.
  - assert (Hlast : ∃ g d, f = g +:+ String d "" ∧ Ascii.eqb "/" d = false).
    { rewrite !elem_of_cons in Hf. destruct_or! Hf; try (by apply elem_of_nil in Hf); subst f.
      - by exists "jp", "g"%char. - by exists "jpe", "g"%char. - by exists "ti", "f"%char.
      - by exists "tif", "f"%char. - by exists "web", "p"%char. }
    destruct Hlast as (g & d & -> & Hd). by rewrite !app_str_assoc, endswith_last.
  - rewrite !length_app_str. cbn. lia.
Qed.

(** ** What passes the policy *)

Definition origin_of (host path : string) : string := "https://" +:+ host +:+ path.

Lemma require_inv raw t :
  require raw = Ok t → ∃ policy, _POLICIES (pt_host t) = Some policy ∧ full_match policy (pt_path t) = true ∧
    pt_origin_url t = origin_of (pt_host t) (pt_path t).
Proof.
  unfold require. destruct (_ || _); [done|]. destruct (urlsplit raw "") as [parts|]; [|done]. cbv zeta.
  destruct (_POLICIES (lower (sr_netloc parts))) as [policy|] eqn:Hp; [|done]. destruct (_ || _); [done|].
  destruct (escapes (sr_path parts)); [|done]. destruct (existsb _ _); [done|].
  destruct (unquote (sr_path parts)) as [path|]; [|done]. destruct (full_match policy path) eqn:Hm; [|done].
  intros [= <-]. by exists policy.
Qed.

Lemma escapes_plain s : contains_char "%" s = false → escapes s = Some [].
Proof. induction s as [|c s IH]; [done|]. cbn. intros [-> Hs]%orb_false_iff. by apply IH. Qed.

Lemma origin_split host policy path :
  _POLICIES host = Some policy → full_match policy path = true →
  urlsplit (origin_of host path) "" = Ok (mk_split "https" host path "" "").
Proof.
  intros Hp Hm. pose proof (policy_chars _ _ _ Hp Hm) as Hc. destruct (policy_path_shape _ _ _ Hp Hm) as ([p Hs] & _).
  pose proof (urlsplit_canonical "https" host path "") as Hsplit. cbn in Hsplit. rewrite app_str_nil_r in Hsplit.
  apply Hsplit; [by right|..|by right; exists p|done].
  - by destruct (policy_cases _ _ Hp) as [[-> _]|[-> _]].
  - eapply all_chars_impl; [|exact Hc]. intros c (_ & Hu & Hps & _)%image_char_plain. by rewrite Hu, Hps.
Qed.

(** A URL made of an approved host and an approved path passes as it is. *)
Lemma require_origin host policy path :
  _POLICIES host = Some policy → full_match policy path = true → (String.length (origin_of host path) <= 2048)%nat →
  require (origin_of host path) = Ok (mk_target (origin_of host path) path host).
Proof.
  intros Hp Hm Hlen. pose proof (policy_chars _ _ _ Hp Hm) as Hc. unfold require.
  assert (Hhost : all_chars is_image_char host = true) by (by destruct (policy_cases _ _ Hp) as [[-> _]|[-> _]]).
  assert (Hraw : all_chars is_image_char (origin_of host path) = true).
  { unfold origin_of. by rewrite !all_chars_app, Hhost, Hc. }
  assert (Hclean : ∀ d, is_image_char d = false → contains_char d (origin_of host path) = false).
  { intros d Hd. apply contains_char_all. eapply all_chars_impl; [|exact Hraw]. intros c Hic.
    destruct (Ascii.eqb_spec c d) as [->|]; [congruence|done]. }
  assert (Hpath : contains_char "%" path = false).
  { apply contains_char_all. eapply all_chars_impl; [|exact Hc]. by intros c (_ & _ & _ & _ & ->)%image_char_plain. }
  rewrite (all_chars_impl is_image_char is_printable _ (λ c Hic, proj1 (image_char_plain c Hic)) Hraw).
  replace (2048 <? _)%nat with false by (symmetry; apply Nat.ltb_ge; lia).
  replace (bool_decide _) with false by (symmetry; by apply bool_decide_eq_false). cbn [orb negb].
  rewrite (origin_split _ _ _ Hp Hm). cbn [sr_scheme sr_netloc sr_path]. cbv zeta.
  replace (lower host) with host by (by destruct (policy_cases _ _ Hp) as [[-> _]|[-> _]]).
  rewrite Hp, !Hclean, escapes_plain, unquote_plain, Hm by done. done.
Qed.

(** ** The legacy mapping *)

Lemma substring_middle p s q : String.substring (String.length p) (String.length s) (p +:+ s +:+ q) = s.
Proof.
  induction p as [|c p IH]; cbn; [|done]. induction s as [|c s IH]; cbn; [by destruct q|by rewrite IH].
Qed.

Lemma legacy_ark_inv path a :
  legacy_ark path = Some a → path = "/iiif/" +:+ a +:+ legacy_suffix ∧ in_language ark a.
Proof.
  unfold legacy_ark. destruct (full_match _LEGACY_FULL path) eqn:Hm; [|done].
  apply full_match_iff in Hm. unfold _LEGACY_FULL in Hm. cbn [rseq] in Hm.
  apply matches_text_seq in Hm as (y & -> & (b & z & -> & Hb & Hz)%matches_seq_inv).
  apply matches_rtext in Hz as ->.
  assert (Hlen : (String.length ("/iiif/" +:+ b +:+ legacy_suffix) - 6 - String.length legacy_suffix = String.length b)%nat).
  { rewrite !length_app_str. cbn. lia. }
  rewrite Hlen. change 6%nat with (String.length "/iiif/") at 1. rewrite substring_middle. by intros [= <-].
Qed.

Definition canonical_path (a : string) : string := "/iiif/image/v3/" +:+ a +:+ "/full/max/0/default.jpg".

Lemma canonical_path_approved a : in_language ark a → full_match _V3_IMAGE (canonical_path a) = true.
Proof.
  intros Ha. apply full_match_iff. unfold _V3_IMAGE, image_at. cbn [rseq].
  apply matches_text_seq. eexists. split; [reflexivity|].
  apply matches_seq; [done|]. apply full_match_iff. by vm_compute.
Qed.

Lemma fetch_url_cases raw t :
  require raw = Ok t →
  fetch_url t = pt_origin_url t ∨
  ∃ a, in_language ark a ∧ fetch_url t = origin_of V3_HOST (canonical_path a) ∧ pt_host t = HOST ∧ fetch_url t ≠ pt_origin_url t.
Proof.
  intros (policy & Hp & Hm & Ho)%require_inv. unfold fetch_url at 1 2 3.
  destruct (decide (pt_host t = HOST)) as [Hh|]; [|by left].
  destruct (legacy_ark (pt_path t)) as [a|] eqn:Ha; [|by left]. right.
  apply legacy_ark_inv in Ha as [_ Ha]. exists a. split_and!; [done..|].
  rewrite Ho, Hh. discriminate.
Qed.

(** Where an image is fetched, the policy lets through, and it stays there. *)
Lemma fetch_target raw t :
  require raw = Ok t → (String.length (fetch_url t) <= 2048)%nat →
  ∃ host policy path, _POLICIES host = Some policy ∧ full_match policy path = true ∧ fetch_url t = origin_of host path ∧
    require (fetch_url t) = Ok (mk_target (fetch_url t) path host) ∧
    fetch_url (mk_target (fetch_url t) path host) = fetch_url t ∧
    relative_alias (mk_target (fetch_url t) path host) = relative_alias t.
Proof.
  intros Hr Hlen. destruct (require_inv _ _ Hr) as (policy & Hp & Hm & Ho).
  destruct (fetch_url_cases _ _ Hr) as [Hf|(a & Ha & Hf & Hh & Hne)].
  - assert (t = mk_target (fetch_url t) (pt_path t) (pt_host t)) as Ht by (rewrite Hf; by destruct t).
    exists (pt_host t), policy, (pt_path t). split_and!; [done..|by rewrite Hf| |by rewrite <- Ht|by rewrite <- Ht].
    rewrite Hf, Ho in Hlen |- *. by apply (require_origin _ policy).
  - pose proof (canonical_path_approved a Ha) as Hca.
    assert (Hpv : _POLICIES V3_HOST = Some _V3_IMAGE) by done.
    exists V3_HOST, _V3_IMAGE, (canonical_path a). split_and!; [done..| | |].
    + rewrite Hf in Hlen |- *. by apply (require_origin _ _V3_IMAGE).
    + done.
    + unfold relative_alias at 2. rewrite decide_True by done. rewrite Hf, (origin_split _ _ _ Hpv Hca).
      unfold relative_alias. rewrite decide_False; [done|]. intros H. by apply H.
Qed.

(** ** Names *)

Definition alias_at (host path : string) : string :=
  PARTITION +:+ "/" +:+ (if decide (host = HOST) then "" else host +:+ "/") +:+ lstrip_by is_slash path.

(** What is fetched, and the name it is given. *)
Lemma fetch_place raw t :
  require raw = Ok t → ∃ host policy path, _POLICIES host = Some policy ∧ full_match policy path = true ∧
    fetch_url t = origin_of host path ∧ relative_alias t = Ok (alias_at host path).
Proof.
  intros Hr. destruct (require_inv _ _ Hr) as (policy & Hp & Hm & Ho).
  destruct (fetch_url_cases _ _ Hr) as [Hf|(a & Ha & Hf & Hh & Hne)].
  - exists (pt_host t), policy, (pt_path t). split_and!; [done..|by rewrite Hf|].
    unfold relative_alias. by rewrite decide_False by (intros H; by apply H).
  - exists V3_HOST, _V3_IMAGE, (canonical_path a). pose proof (canonical_path_approved a Ha) as Hca.
    split_and!; [done..|]. unfold relative_alias. rewrite decide_True by done.
    by rewrite Hf, (origin_split V3_HOST _V3_IMAGE).
Qed.

(** An image path after its leading slashes. *)
Lemma approved_lstrip host policy path :
  _POLICIES host = Some policy → full_match policy path = true →
  ∃ p, path = "/" +:+ p ∧ lstrip_by is_slash path = p ∧ ∃ q, p = String "i" q.
Proof.
  intros Hp Hm%full_match_iff.
  destruct (policy_cases host policy Hp) as [[-> ->]|[-> ->]].
  - destruct (image_at_shape "/iiif/" ["jpg"; "jpeg"; "tif"; "tiff"] path Hm) as (y & f & -> & _).
    exists ("iiif/" +:+ y +:+ f). split_and!; [done..|]. by eexists.
  - destruct (image_at_shape "/iiif/image/v3/" ["jpg"; "jpeg"; "tif"; "tiff"; "webp"] path Hm) as (y & f & -> & _).
    exists ("iiif/image/v3/" +:+ y +:+ f). split_and!; [done..|]. by eexists.
Qed.

Lemma app_str_inj p s t : p +:+ s = p +:+ t → s = t.
Proof. induction p as [|c p IH]; [done|]. intros H. injection H as H. by apply IH. Qed.

(** Names tell images apart. *)
Lemma alias_at_inj host policy path host' policy' path' :
  _POLICIES host = Some policy → full_match policy path = true →
  _POLICIES host' = Some policy' → full_match policy' path' = true →
  alias_at host path = alias_at host' path' → host = host' ∧ path = path'.
Proof.
  intros Hp Hm Hp' Hm' H. unfold alias_at in H. apply app_str_inj, app_str_inj in H.
  destruct (approved_lstrip _ _ _ Hp Hm) as (p & -> & Hs & q & ->). rewrite Hs in H.
  destruct (approved_lstrip _ _ _ Hp' Hm') as (p' & -> & Hs' & q' & ->). rewrite Hs' in H.
  assert (HH : ∀ s : string, (if decide (HOST = HOST) then "" else s) = "") by done.
  assert (HV : ∀ s : string, (if decide (V3_HOST = HOST) then "" else s) = s) by done.
  destruct (policy_cases _ _ Hp) as [[-> _]|[-> _]], (policy_cases _ _ Hp') as [[-> _]|[-> _]];
    rewrite ?HH, ?HV in H; try discriminate.
  - split; [done|]. change (String "i" q = String "i" q') in H. by rewrite H.
  - split; [done|]. apply app_str_inj in H. by rewrite H.
Qed.

(** ** Canonical form *)

Lemma normalize_origin host policy path :
  _POLICIES host = Some policy → full_match policy path = true →
  normalize_url (origin_of host path) = Ok (mk_normalized "https" host None path "").
Proof.
  intros Hp Hm. pose proof (policy_chars _ _ _ Hp Hm) as Hc. unfold normalize_url.
  assert (Hhost : all_chars is_image_char host = true) by (by destruct (policy_cases _ _ Hp) as [[-> _]|[-> _]]).
  assert (Hstrip : strip (origin_of host path) = origin_of host path).
  { apply strip_by_none. unfold origin_of. eapply (all_chars_impl is_image_char).
    - by intros c (_ & _ & _ & -> & _)%image_char_plain.
    - by rewrite !all_chars_app, Hhost, Hc. }
  rewrite Hstrip, decide_False by done. rewrite (origin_split _ _ _ Hp Hm).
  destruct (policy_path_shape _ _ _ Hp Hm) as ([p Hs] & He & Hl).
  assert (Hpath : normalize_path path = Ok path).
  { unfold normalize_path. rewrite unquote_plain.
    - rewrite decide_False by (by rewrite Hs). cbv zeta. by rewrite He, andb_false_r.
    - apply contains_char_all. eapply all_chars_impl; [|exact Hc]. by intros c (_ & _ & _ & _ & ->)%image_char_plain. }
  destruct (policy_cases _ _ Hp) as [[-> _]|[-> _]]; cbn -[normalize_path origin_of]; by rewrite Hpath.
Qed.

Lemma canonical_origin host path : canonical (mk_normalized "https" host None path "") = origin_of host path.
Proof. done. Qed.

(** The rule finds an approved image under its name. *)
Lemma gallica_match_origin host policy path :
  _POLICIES host = Some policy → full_match policy path = true → (String.length (origin_of host path) <= 2048)%nat →
  fetch_url (mk_target (origin_of host path) path host) = origin_of host path →
  gallica_match (mk_normalized "https" host None path "") =
    Ok (Some (mk_match PARTITION [removeprefix (PARTITION +:+ "/") (alias_at host path)])).
Proof.
  intros Hp Hm Hlen Hf. unfold gallica_match. rewrite canonical_origin, (require_origin _ policy) by done.
  cbn [mbind res_bind]. unfold relative_alias. rewrite Hf. by rewrite decide_False by (intros H; by apply H).
Qed.
