(* ===== verification/Transport.v ===== *)
(** * Outbound connections

    [fetcher_service/transport.py]: a name is resolved when it is connected to, the
    whole answer is checked, and only the addresses checked are dialled.  The
    resolver, the dialler and the monotonic clock are the world outside ([Net]).  The
    adapter to the HTTP libraries, [ValidatedTransport], hands their requests over and
    is not modelled. *)

From S2P Require Import Prelude Errors Python Effects Codec IpAddress.
From Stdlib Require Import SpecFloat.

(** ** Addresses that are refused *)

Definition _TRANSITION_NETWORKS : list Network :=
  [v6 [100; 65435] 96; v6 [100; 65435; 1] 48; v6 [8194] 16; v6 [8193] 32].

Definition blocked_v4 (ip : Z) : bool := negb (is_global (IPv4 ip)) || is_multicast (IPv4 ip).

Definition blocked_ip (a : IPAddress) : bool :=
  if negb (is_global a) || is_multicast a then true else
  match a with
  | IPv4 _ => false
  | IPv6 ip _ =>
      match ipv4_mapped ip with
      | Some mapped => blocked_v4 mapped
      | None => existsb (in_v6 ip) _TRANSITION_NETWORKS
      end
  end.

(** ** The world outside

    An entry of a resolver's answer: its address family and the text of its address.
    [getaddrinfo] returns [None] for an [OSError]. *)

Inductive Family := AF_INET | AF_INET6 | AF_OTHER.

Record AddrInfo := mk_addrinfo { ai_family : Family; ai_address : string }.

Class Net (N Stream : Type) := {
  getaddrinfo : string → Z → M N (option (list AddrInfo));
  dial : string → Z → option spec_float → M N Stream;
  monotonic : M N spec_float
}.

Definition upstream_error : error := FetchError UpstreamError.

(** The loop over the answer. *)
Fixpoint allowed_addresses (allow_private_hosts : bool) (infos : list AddrInfo) (addresses : list string)
    : res (list string) :=
  match infos with
  | [] => mret addresses
  | info :: infos' =>
      match ai_family info with
      | AF_OTHER => Err upstream_error
      | _ =>
          match ip_address (ai_address info) with
          | None => Err upstream_error
          | Some ip =>
              if negb allow_private_hosts && (contains_char "%" (ai_address info) || blocked_ip ip)
              then Err upstream_error
              else allowed_addresses allow_private_hosts infos'
                     (if mem (str_ip ip) addresses then addresses else addresses ++ [str_ip ip])
          end
      end
  end.

(** ** The backend

    Its setting, the counts of connections by outcome and the world it dials. *)

Record ValidatedNetworkBackend (N : Type) := mk_backend {
  bk_allow_private_hosts : bool;
  bk_connections : gmap string Z;
  bk_net : N
}.
Arguments mk_backend {N}.
Arguments bk_allow_private_hosts {N}.
Arguments bk_connections {N}.
Arguments bk_net {N}.

Section Transport.
Context {E : Env} {N Stream : Type} `{!Net N Stream}.

Abbreviation BM := (M (ValidatedNetworkBackend N)).

#[export] Instance replace_bk_connections : Replace (@bk_connections N) := λ v b,
  mk_backend (bk_allow_private_hosts b) v (bk_net b).
#[export] Instance replace_bk_net : Replace (@bk_net N) := λ v b,
  mk_backend (bk_allow_private_hosts b) (bk_connections b) v.

Definition set_bk_net (w : N) (b : ValidatedNetworkBackend N) : ValidatedNetworkBackend N := b <| bk_net := w |>.
Definition on_net {A} (m : M N A) : BM A := zoom bk_net set_bk_net m.

Definition resolve_allowed (host : string) (port : Z) (allow_private_hosts : bool) : M N (list string) :=
  infos ← getaddrinfo host port;
  match infos with
  | None => raise upstream_error
  | Some infos =>
      addresses ← of_res (allowed_addresses allow_private_hosts infos []);
      match addresses with
      | [] => raise upstream_error
      | _ => mret addresses
      end
  end.

(** [self.connections.labels(outcome).inc()] *)
Definition count_connection (outcome : string) : BM unit :=
  modify (λ b, b <| bk_connections := <[outcome := default 0 (bk_connections b !! outcome) + 1]> (bk_connections b) |>).

(** [timeout - (monotonic() - started)] *)
Definition remaining_time (timeout : option spec_float) (started : spec_float) : BM (option spec_float) :=
  match timeout with
  | None => mret None
  | Some timeout => now ← on_net monotonic; mret (Some (SFsub prec emax timeout (SFsub prec emax now started)))
  end.

Definition is_connect_failure (e : error) : bool :=
  match e with HttpError HttpcoreConnectError | HttpError HttpcoreConnectTimeout => true | _ => false end.

(** Each address in turn; [last_error] is raised when none is left. *)
Fixpoint dial_all (port : Z) (timeout : option spec_float) (started : spec_float) (last_error : error)
    (addresses : list string) : BM Stream :=
  match addresses with
  | [] => raise last_error
  | address :: rest =>
      remaining ← remaining_time timeout started;
      raise_if (match remaining with Some r => SFleb r (S754_zero false) | None => false end)
        (HttpError HttpcoreConnectTimeout) ;;
      attempt ← catch (stream ← on_net (dial address port remaining); mret (inl stream)) (λ e,
        if is_connect_failure e then count_connection "failed" ;; mret (inr e) else raise e);
      match attempt with
      | inl stream => count_connection "connected" ;; mret stream
      | inr e => dial_all port timeout started e rest
      end
  end.

Definition connect_tcp (host : string) (port : Z) (timeout : option spec_float) : BM Stream :=
  started ← on_net monotonic;
  b ← get_state;
  addresses ← catch (on_net (resolve_allowed host port (bk_allow_private_hosts b))) (λ e,
    (match e with
     | FetchError UpstreamError | FetchError UpstreamTimeoutError => count_connection "rejected"
     | _ => mret tt
     end) ;; raise e);
  dial_all port timeout started PyRuntimeError addresses.
End Transport.
