(* ===== verification/Fetcher.v ===== *)
(** * Fetching a URL

    [fetcher_service/fetcher.py]: what a fetcher offers ([UrlFetcher]), the one that
    makes content up and the one that asks the origin.  The HTTP client, which sends
    one request and streams the response, is the class [HttpClient]. *)

From S2P Require Import Prelude Errors Python Effects Models Sha256 Codec ObjectStore IpAddress Urls Transport.
From Stdlib Require Import SpecFloat.

Record FetchedContent := mk_content { fc_data : bytes; fc_mime : string }.

(** [mime] is [application/json] for the stub. *)
Class UrlFetcher (S : Type) := fetch : string → M S FetchedContent.

(** ** The stub *)

Section Synthetic.
Context {E : Env} {S : Type}.

(** [json.dumps] with sorted keys. *)
Definition synthetic_payload (url content_id fetched_at : string) : string :=
  "{" +:+ quoted "content_id" +:+ ": " +:+ quoted content_id +:+ ", " +:+
  quoted "fetched_at" +:+ ": " +:+ quoted fetched_at +:+ ", " +:+
  quoted "stub" +:+ ": true, " +:+ quoted "url" +:+ ": " +:+ quoted url +:+ "}".

Definition synthetic_fetch (url : string) : M S FetchedContent :=
  now ← utcnow;
  mret (mk_content (utf8_encode (synthetic_payload url (sha256_hexdigest (utf8_encode url)) (isoformat now)))
          "application/json").
End Synthetic.

(** ** The HTTP fetcher *)

Definition DEFAULT_MAX_BYTES : Z := 50 * 1024 * 1024.
Definition DEFAULT_MAX_REDIRECTS : Z := 5.
Definition _ALLOWED_SCHEMES : list string := ["http"; "https"].
Definition _DEFAULT_MIME : string := "application/octet-stream".

(** A response: its status line and headers, the chunks of its body, and the error
    the body ends with if it does. *)
Record HttpResponse := mk_response {
  hr_is_redirect : bool;
  hr_status_code : Z;
  hr_location : option string;
  hr_content_type : option string;
  hr_chunks : list bytes;
  hr_body_error : option error
}.

(** [client.stream("GET", url)] *)
Class HttpClient (N : Type) := http_get : string → M N HttpResponse.

Record HttpFetcher := mk_fetcher {
  hf_max_bytes : Z;
  hf_max_redirects : Z;
  hf_allow_private_hosts : bool
}.

(** [_read_capped] *)
Fixpoint read_capped (max_bytes : Z) (chunks : list bytes) (body_error : option error) (total : Z) (data : bytes)
    : res bytes :=
  match chunks with
  | [] => match body_error with Some e => Err e | None => mret data end
  | chunk :: chunks' =>
      let total := total + Z.of_nat (length chunk) in
      if max_bytes <? total then Err upstream_error
      else read_capped max_bytes chunks' body_error total (data ++ chunk)
  end.

(** The content type without its parameters. *)
Definition mime_of (content_type : option string) : string :=
  let mime := strip (split_first ";" (default _DEFAULT_MIME content_type)).1 in
  if decide (mime = "") then _DEFAULT_MIME else mime.

Section Http.
Context {E : Env} {N Stream : Type} `{!Net N Stream} `{!HttpClient N}.

(** [_validate] *)
Definition validate_url (f : HttpFetcher) (url : string) : M N unit :=
  parts ← of_res (urlsplit url "");
  raise_if (negb (mem (lower (sr_scheme parts)) _ALLOWED_SCHEMES)) upstream_error ;;
  match hostname parts with
  | None => raise upstream_error
  | Some host => resolve_allowed host 443 (hf_allow_private_hosts f) ;; mret tt
  end.

(** The two [except] clauses. *)
Definition translate_http_error (e : error) : error :=
  match e with
  | HttpError HttpxTimeoutException | HttpError HttpcoreTimeoutException | HttpError HttpcoreConnectTimeout =>
      FetchError UpstreamTimeoutError
  | HttpError HttpxHTTPError | HttpError HttpcoreNetworkError | HttpError HttpcoreConnectError
  | HttpError HttpcoreProtocolError => upstream_error
  | _ => e
  end.

(** The response: where to go next, or the content. *)
Definition handle_response (f : HttpFetcher) (current : string) (response : HttpResponse)
    : res (string + FetchedContent) :=
  if hr_is_redirect response then
    match hr_location response with
    | None => Err upstream_error
    | Some location =>
        if decide (location = "") then Err upstream_error
        else next ← urljoin current location; mret (inl next)
    end
  else if 400 <=? hr_status_code response then Err upstream_error
  else
    data ← read_capped (hf_max_bytes f) (hr_chunks response) (hr_body_error response) 0 [];
    mret (inr (mk_content data (mime_of (hr_content_type response)))).

(** One turn of the loop. *)
Definition fetch_hop (f : HttpFetcher) (validate : string → res unit) (current : string)
    : M N (string + FetchedContent) :=
  of_res (validate current) ;;
  validate_url f current ;;
  catch (response ← http_get current; of_res (handle_response f current response))
    (λ e, raise (translate_http_error e)).

Fixpoint fetch_hops (f : HttpFetcher) (validate : string → res unit) (hops : nat) (current : string)
    : M N FetchedContent :=
  match hops with
  | O => raise upstream_error
  | S hops' =>
      next ← fetch_hop f validate current;
      match next with
      | inl current' => fetch_hops f validate hops' current'
      | inr content => mret content
      end
  end.

Definition fetch_with_policy (f : HttpFetcher) (url : string) (validate : string → res unit) : M N FetchedContent :=
  fetch_hops f validate (Z.to_nat (hf_max_redirects f + 1)) url.

Definition http_fetch (f : HttpFetcher) (url : string) : M N FetchedContent :=
  fetch_with_policy f url (λ _, mret tt).
End Http.

(** ** Settings *)

(** A number in the environment; [default] when it is unset or empty. *)
Definition int_from_env (env : gmap string string) (name : string) (otherwise : Z) : res Z :=
  match env !! name with
  | Some raw =>
      if decide (raw = "") then mret otherwise
      else match py_int raw with Some z => mret z | None => Err PyValueError end
  | None => mret otherwise
  end.

(** [http_fetcher_from_env]; the two timeouts go to the HTTP client. *)
Definition http_fetcher_from_env (env : gmap string string) : res HttpFetcher :=
  max_bytes ← int_from_env env "FETCHER_HTTP_MAX_BYTES" DEFAULT_MAX_BYTES;
  max_redirects ← int_from_env env "FETCHER_HTTP_MAX_REDIRECTS" DEFAULT_MAX_REDIRECTS;
  mret (mk_fetcher max_bytes max_redirects
          (mem (lower (default "" (env !! "FETCHER_ALLOW_PRIVATE_HOSTS"))) ["1"; "true"; "yes"])).
