(* ===== verification/Client.v ===== *)
(** * The client of the asset store

    [fetcher_service/client.py]: resolve, mint, upload and download over HTTP.
    [AssetStoreClient] is what it offers the rest of the service; [HttpTransport] is
    what it uses: a request is answered, or the HTTP library raises.  A request
    carries its [Authorization] header and names its route as the server decodes it;
    [object_path] and [alias_of_path] are the two ends of a path. *)

From S2P Require Import Prelude Errors Python Effects Paths Models Retention Sha256 Registry Codec AdminQuery Admin Capabilities ObjectStore Guard Schemas App Api Urls.
From Stdlib Require Import SpecFloat.

Definition DEFAULT_SERVICE_ID : string := "fetcher".
Definition DEFAULT_CAPABILITY_TTL_SECONDS : Z := 3600.

(** ** What the client offers *)

Class AssetStoreClient (S : Type) := {
  client_resolve : string → string → M S (option AssetOut);
  mint_write_capability : string → Z → M S string;
  mint_read_capability : string → Z → M S string;
  client_put_object : string → string → bytes → option string → M S AssetOut;
  client_read_object : string → string → Z → M S bytes
}.

(** ** Over HTTP *)

(** The server reads the clock of its rate limiter while it serves a mint. *)
Inductive ClientRoute :=
  | CResolve (space alias : string)
  | CMint (body : CapabilityMintRequest)
  | CPutObject (path : string) (data : bytes) (mime expected_checksum : option string)
  | CGetObject (path : string).

Class HttpTransport (S : Type) := http_send : string → ClientRoute → M S Answer.

Record ClientSettings := mk_client { cs_service_id : string; cs_service_secret : string }.

(** The path of an object, and the alias a server reads from it; what follows a query or
    a fragment is not followed further. *)
Definition object_path (qualified_alias : string) : string := "/objects/" +:+ quote qualified_alias.
Definition alias_of_path (path : string) : option string :=
  rest ← drop_prefix "/objects/" path;
  if contains_char "?" rest || contains_char "#" rest then None else unquote rest.

Section Client.
Context {S : Type} `{!HttpTransport S} (client : ClientSettings).

Definition service_header : string := "Service " +:+ cs_service_id client +:+ ":" +:+ cs_service_secret client.
Definition capability_header (capability_id : string) : string := "Capability " +:+ capability_id.

(** [response.headers.get("Retry-After")] *)
Definition retry_after_of (answer : Answer) : option string :=
  match an_body answer with BProblem p => problem_retry_after p | _ => None end.

Definition call_failed {A} (answer : Answer) : M S A :=
  raise (ClientError (Some (an_status answer)) (retry_after_of answer)).

(** [response.json()] of an asset; a server that answers with another document is not
    followed further. *)
Definition asset_json (answer : Answer) : M S AssetOut :=
  match an_body answer with BAsset asset => mret asset | _ => raise OutsideModel end.

Definition http_resolve (space alias : string) : M S (option AssetOut) :=
  response ← http_send service_header (CResolve space alias);
  if an_status response =? 200 then asset ← asset_json response; mret (Some asset)
  else if an_status response =? 404 then mret None
  else call_failed response.

Definition _mint_capability (operation : Operation) (scope_prefix : string) (ttl_seconds : Z) : M S string :=
  response ← http_send service_header (CMint (mk_mint_request operation scope_prefix ttl_seconds false));
  if negb (an_status response =? 201) then call_failed response else
  match an_body response with
  | BCapability capability => mret (co_capability_id capability)
  | _ => raise OutsideModel
  end.

(** [if mime:]: an empty one sends no header. *)
Definition http_put_object (capability_id qualified_alias : string) (data : bytes) (mime : option string)
    : M S AssetOut :=
  response ← http_send (capability_header capability_id)
    (CPutObject (object_path qualified_alias) data (mime ≫= λ m, if decide (m = "") then None else Some m) None);
  if negb (an_status response =? 201) then call_failed response else asset_json response.

(** The loop over the chunks of the body. *)
Fixpoint read_limited (max_bytes : Z) (chunks : list bytes) (total : Z) (data : bytes) : res bytes :=
  match chunks with
  | [] => mret data
  | chunk :: chunks' =>
      let total := total + Z.of_nat (length chunk) in
      if max_bytes <? total then Err (ClientError (Some 413) None)
      else read_limited max_bytes chunks' total (data ++ chunk)
  end.

(** The server answers with the whole body. *)
Definition http_read_object (capability_id qualified_alias : string) (max_bytes : Z) : M S bytes :=
  response ← http_send (capability_header capability_id) (CGetObject (object_path qualified_alias));
  if negb (an_status response =? 200) then call_failed response else
  match an_body response with
  | BBytes data => of_res (read_limited max_bytes [data] 0 [])
  | _ => raise OutsideModel
  end.

#[export] Instance http_client : AssetStoreClient S := {
  client_resolve := http_resolve;
  mint_write_capability := _mint_capability WRITE;
  mint_read_capability := _mint_capability READ;
  client_put_object := http_put_object;
  client_read_object := http_read_object
}.
End Client.

(** ** The asset store behind it

    The transport that hands a request to [serve]: [ticks] are the readings of the
    server's monotonic clock.  An upload declares its length and comes in one piece. *)

Section Server.
Context {E : Env} {D : DumpFilters} {O : Type} `{!ObjectStoreBackend O} (ticks : nat → spec_float).

Definition route_of (now : spec_float) (route : ClientRoute) : option Route :=
  match route with
  | CResolve space alias => Some (GetResolve space alias)
  | CMint body => Some (PostCapabilities now body)
  | CPutObject path data mime expected_checksum =>
      alias ← alias_of_path path;
      Some (PutObject (mk_upload alias false expected_checksum None (Some (pretty (length data))) mime [Ok data]))
  | CGetObject path => alias ← alias_of_path path; Some (GetObject alias "proxy" DEFAULT_PRESIGN_TTL_SECONDS)
  end.

Definition serve_client (authorization : string) (route : ClientRoute) : M (App O) Answer := λ n x,
  match route_of (ticks n) route with
  | Some route =>
      let '(answer, n', x') := serve (mk_request authorization route) n x in (Ok answer, n', x')
  | None => (Err OutsideModel, n, x)
  end.
End Server.
