(* ===== verification/EnsureUrl.v ===== *)
(** * Materialising a URL

    [fetcher_service/service.py]: [ensure_url] over any client of the asset store and
    any fetcher. *)

From S2P Require Import Prelude Errors Python Effects Models Sha256 Codec ObjectStore Schemas IpAddress Urls Normalize Rules Fetcher Client.

Definition CACHE_BUCKET : string := "cache".
Definition TMP_BUCKET : string := "tmp".

Record EnsureUrlResult := mk_result {
  er_asset_id : string;
  er_qualified_alias : string;
  er_cache_hit : bool;
  er_bucket : string;
  er_partition_id : string
}.

(** The arguments of a call but its collaborators. *)
Record EnsureArgs := mk_args {
  ea_url : string;
  ea_no_cache : bool;
  ea_tmp_id : option string;
  ea_preferred_alias_suffix : option string;
  ea_capability_ttl_seconds : Z
}.

Definition _tmp_alias_tail (normalized : NormalizedUrl) (preferred_alias_suffix : option string) : string :=
  let digest := String.substring 0 32 (sha256_hexdigest (utf8_encode (canonical normalized))) in
  match preferred_alias_suffix with
  | Some suffix => if decide (suffix = "") then "fetched/" +:+ digest else strip_slashes suffix
  | None => "fetched/" +:+ digest
  end.

(** Where the bytes of a URL live: the bucket, the partition and the name in the
    bucket. *)
Record Placement := mk_placement { pl_bucket : string; pl_partition_id : string; pl_relative_alias : string }.

Definition pl_qualified (p : Placement) : string := pl_bucket p +:+ "/" +:+ pl_relative_alias p.

Definition placement (rules : RuleSet) (normalized : NormalizedUrl) (a : EnsureArgs) : res Placement :=
  found ← evaluate rules normalized;
  match found with
  | Some m =>
      alias ← primary_alias m;
      mret (mk_placement CACHE_BUCKET (rm_mirror_id m) (rm_mirror_id m +:+ "/" +:+ alias))
  | None =>
      match ea_tmp_id a with
      | Some tmp_id =>
          if decide (tmp_id = "") then Err (FetchError InvalidRequestError) else
          let partition_id := strip_slashes tmp_id in
          mret (mk_placement TMP_BUCKET partition_id
                  (partition_id +:+ "/" +:+ _tmp_alias_tail normalized (ea_preferred_alias_suffix a)))
      | None => Err (FetchError InvalidRequestError)
      end
  end.

(** The [try] around [normalize_url]: another [ValueError] passes. *)
Definition normalized_request (url : string) : res NormalizedUrl :=
  match normalize_url url with
  | Err InvalidUrl => Err (FetchError InvalidRequestError)
  | r => r
  end.

(** [f"sha256:{hashlib.sha256(data).hexdigest()}"] *)
Definition checksum_of (data : bytes) : string := "sha256:" +:+ sha256_hexdigest data.

Section EnsureUrl.
Context {S : Type} `{!AssetStoreClient S} `{!UrlFetcher S}.
Context (record_refetch : string → string → M S unit).

Definition result_at (p : Placement) (asset : AssetOut) (cache_hit : bool) : EnsureUrlResult :=
  mk_result (ao_asset_id asset) (pl_qualified p) cache_hit (pl_bucket p) (pl_partition_id p).

(** The bytes of an asset fetched again: the origin must not have changed them. *)
Definition check_refetch (p : Placement) (existing : AssetOut) (content : FetchedContent) : M S EnsureUrlResult :=
  let outcome := if decide (ao_checksum existing = Some (checksum_of (fc_data content))) then "match" else "mismatch" in
  record_refetch (pl_bucket p) outcome ;;
  raise_if (bool_decide (outcome = "mismatch")) (FetchError ContentMismatchError) ;;
  mret (result_at p existing false).

(** The bytes of a new asset: a capability for its partition, then the upload. *)
Definition store_content (p : Placement) (ttl_seconds : Z) (content : FetchedContent) : M S EnsureUrlResult :=
  capability_id ← mint_write_capability (pl_bucket p +:+ "/" +:+ pl_partition_id p) ttl_seconds;
  asset ← client_put_object capability_id (pl_qualified p) (fc_data content) (Some (fc_mime content));
  mret (result_at p asset false).

Definition ensure_at (p : Placement) (url : NormalizedUrl) (a : EnsureArgs) : M S EnsureUrlResult :=
  existing ← client_resolve (pl_bucket p) (pl_relative_alias p);
  match existing with
  | Some asset =>
      if negb (ea_no_cache a) then mret (result_at p asset true) else
      content ← fetch (canonical url);
      check_refetch p asset content
  | None =>
      content ← fetch (canonical url);
      store_content p (ea_capability_ttl_seconds a) content
  end.

Definition ensure_url (rules : RuleSet) (a : EnsureArgs) : M S EnsureUrlResult :=
  normalized ← of_res (normalized_request (ea_url a));
  p ← of_res (placement rules normalized a);
  ensure_at p normalized a.
End EnsureUrl.

(** ** What a call acts on

    The asset store behind the client, the network behind the fetcher, and the counter
    of forced refetches. *)

Record World (A N : Type) := mk_world {
  wd_store : A;
  wd_net : N;
  wd_checks : gmap (string * string) Z
}.
Arguments mk_world {A N}.
Arguments wd_store {A N}.
Arguments wd_net {A N}.
Arguments wd_checks {A N}.

(** [labels(...).inc()] *)
Definition bump_count {K} `{Countable K} (k : K) (m : gmap K Z) : gmap K Z := <[k := default 0 (m !! k) + 1]> m.

Section World.
Context {A N : Type} `{!AssetStoreClient A}.

Definition set_wd_store (a : A) (w : World A N) : World A N := mk_world a (wd_net w) (wd_checks w).
Definition set_wd_net (net : N) (w : World A N) : World A N := mk_world (wd_store w) net (wd_checks w).
Definition at_store {B} (m : M A B) : M (World A N) B := zoom wd_store set_wd_store m.
Definition at_net {B} (m : M N B) : M (World A N) B := zoom wd_net set_wd_net m.

#[export] Instance world_client : AssetStoreClient (World A N) := {
  client_resolve space alias := at_store (client_resolve space alias);
  mint_write_capability scope ttl := at_store (mint_write_capability scope ttl);
  mint_read_capability scope ttl := at_store (mint_read_capability scope ttl);
  client_put_object capability alias data mime := at_store (client_put_object capability alias data mime);
  client_read_object capability alias max_bytes := at_store (client_read_object capability alias max_bytes)
}.

(** [record_refetch] *)
Definition record_refetch (bucket outcome : string) : M (World A N) unit :=
  modify (λ w, mk_world (wd_store w) (wd_net w) (bump_count (bucket, outcome) (wd_checks w))).
End World.

#[export] Instance world_fetcher {A N} `{!UrlFetcher N} : UrlFetcher (World A N) := λ url, at_net (fetch url).
