(* ===== verification/Pilot.v ===== *)
(** * The pilot cache

    [fetcher_service/pilot.py]: [preload] fills the cache with an approved image,
    [read] serves it from the cache alone.  The state is the read capability the
    object keeps, beside the world its client and its fetcher act on; its lock makes
    [_read_token] one step. *)

From S2P Require Import Prelude Errors Python Effects Models Sha256 Codec ObjectStore Schemas IpAddress Urls Normalize Rules Transport Fetcher Client EnsureUrl Regex PilotPolicy.

Record CachedImage := mk_image { im_data : bytes; im_mime : string; im_checksum : string }.

(** A fetcher that can apply a policy before each connection; one that is not the
    HTTP fetcher ignores it. *)
Class PolicyFetcher (S : Type) := fetch_checked : string → (string → res unit) → M S FetchedContent.

#[export] Instance world_policy_fetcher {A N} `{!PolicyFetcher N} : PolicyFetcher (World A N) :=
  λ url check, at_net (fetch_checked url check).

Record PilotCache (S : Type) := mk_pilot { pc_read_capability : option string; pc_world : S }.
Arguments mk_pilot {S}.
Arguments pc_read_capability {S}.
Arguments pc_world {S}.

Definition cache_denied (status : Z) (retry_after : option string) : error :=
  FetchError (CacheBackendError status retry_after).

(** [retry_after.isdigit()] *)
Definition str_isdigit (s : string) : bool :=
  negb (bool_decide (s = "")) &&
  all_chars (λ c, is_digit c || (byte_of c =? 178) || (byte_of c =? 179) || (byte_of c =? 185)) s.

(** [_backend_error]: what a failed call of the client becomes. *)
Definition _backend_error (status : option Z) (retry_after : option string) : error :=
  match status with
  | Some 429 | Some 503 =>
      cache_denied 503 (Some match retry_after with
                             | Some after => if str_isdigit after then after else "1"
                             | None => "1"
                             end)
  | Some 409 | Some 410 => cache_denied 409 (Some "1")
  | Some 413 => cache_denied 413 None
  | _ => cache_denied 502 None
  end.

(** [exc.status in statuses] *)
Definition has_status (statuses : list Z) (e : error) : bool :=
  match e with ClientError (Some status) _ => existsb (Z.eqb status) statuses | _ => false end.

(** [isinstance(exc, httpx.HTTPError)] *)
Definition is_httpx_error (e : error) : bool :=
  match e with HttpError HttpxTimeoutException | HttpError HttpxHTTPError => true | _ => false end.

(** The two handlers at the end of a method: any other exception passes. *)
Definition backend_failure (e : error) : error :=
  match e with
  | ClientError status retry_after => _backend_error status retry_after
  | _ => if is_httpx_error e then cache_denied 503 (Some "1") else e
  end.

Section Pilot.
Context {S : Type} `{!AssetStoreClient S} `{!PolicyFetcher S} (max_bytes : Z).

Abbreviation PM := (M (PilotCache S)).

Definition set_pc_world (w : S) (p : PilotCache S) : PilotCache S := mk_pilot (pc_read_capability p) w.
Definition on_world {A} (m : M S A) : PM A := zoom pc_world set_pc_world m.

(** [_ApprovedFetcher.fetch] *)
Definition approved_fetch (url : string) : M S FetchedContent :=
  let check u := target ← require u; mret tt in
  of_res (check url) ;;
  content ← fetch_checked url check;
  raise_if (max_bytes <? Z.of_nat (length (fc_data content))) upstream_error ;;
  raise_if (negb (mem (fc_mime content) IMAGE_MIMES)) upstream_error ;;
  mret content.

#[local] Instance approved_fetcher : UrlFetcher S := approved_fetch.

Definition pilot_rules : RuleSet := mk_rules [gallica_rule].

Definition fresh_token : PM string :=
  token ← on_world (mint_read_capability ("cache/" +:+ PARTITION) 300);
  modify (λ p, mk_pilot (Some token) (pc_world p)) ;;
  mret token.

Definition _read_token (stale : option string) : PM string :=
  p ← get_state;
  match pc_read_capability p with
  | Some token => if decide (Some token = stale) then fresh_token else mret token
  | None => fresh_token
  end.

(** ** Preload *)

Definition preload_args (url : string) (no_cache : bool) : EnsureArgs := mk_args url no_cache None None 300.

(** After a conflict: a concurrent writer may have committed the name. *)
Definition concurrent_result (target : PilotTarget) (failure : error) : M S EnsureUrlResult :=
  alias ← of_res (relative_alias target);
  existing ← catch (client_resolve "cache" alias) (λ e, raise (backend_failure e));
  match existing with
  | Some asset => mret (mk_result (ao_asset_id asset) ("cache/" +:+ alias) true "cache" PARTITION)
  | None => raise failure
  end.

Definition preload (record_refetch : string → string → M S unit) (url : string) (no_cache : bool)
    : M S EnsureUrlResult :=
  target ← of_res (require url);
  catch (ensure_url record_refetch pilot_rules (preload_args (fetch_url target) no_cache)) (λ e,
    if has_status [409] e then concurrent_result target (backend_failure e) else raise (backend_failure e)).

(** ** Read *)

(** What the record says of the image: its size and its type. *)
Definition readable (asset : AssetOut) : res (Z * string) :=
  match ao_size_bytes asset with
  | None => Err (cache_denied 502 None)
  | Some size =>
      if size <? 0 then Err (cache_denied 502 None)
      else if max_bytes <? size then Err (cache_denied 413 None)
      else match ao_mime asset with
           | Some mime => if mem mime IMAGE_MIMES then mret (size, mime) else Err (cache_denied 502 None)
           | None => Err (cache_denied 502 None)
           end
  end.

(** The download; a refused capability is replaced once. *)
Definition download (alias : string) : PM bytes :=
  token ← _read_token None;
  catch (on_world (client_read_object token ("cache/" +:+ alias) max_bytes)) (λ e,
    if has_status [403] e then
      token' ← _read_token (Some token);
      on_world (client_read_object token' ("cache/" +:+ alias) max_bytes)
    else raise e).

Definition read_image (alias : string) : PM CachedImage :=
  existing ← on_world (client_resolve "cache" alias);
  match existing with
  | None => raise (FetchError CacheMissError)
  | Some asset =>
      '(size, mime) ← of_res (readable asset);
      data ← download alias;
      let checksum := checksum_of data in
      raise_if (bool_decide (Z.of_nat (length data) ≠ size ∨ ao_checksum asset ≠ Some checksum)) (cache_denied 502 None) ;;
      mret (mk_image data mime checksum)
  end.

(** [PilotCache.read] *)
Definition pilot_read (target : PilotTarget) : PM CachedImage :=
  alias ← of_res (relative_alias target);
  catch (read_image alias) (λ e,
    if has_status [404; 410] e then raise (FetchError CacheMissError) else raise (backend_failure e)).
End Pilot.
