(* ===== verification/FetcherApp.v ===== *)
(** * The fetcher service

    [fetcher_service/app.py]: the process [create_app] builds, the dispatcher's
    credential each route demands, one definition per endpoint, and [fetcher_serve],
    which answers a request.  Log lines and the metrics text are not modelled. *)

From S2P Require Import Prelude Errors Python Effects Models Codec ObjectStore Schemas Capabilities ServiceIdentity Admission IpAddress Urls Normalize Rules RuleConfig Transport Fetcher Client EnsureUrl Regex PilotPolicy Pilot.

Definition DEFAULT_ASSET_STORE_BASE_URL : string := "http://localhost:8080".
Definition DEFAULT_FETCHER_SECRET : string := "dev-secret:fetcher".

(** ** Bodies *)

Record EnsureUrlRequest := mk_ensure_request {
  eu_url : string;
  eu_mirror_id : option string;
  eu_no_cache : bool;
  eu_tmp_id : option string;
  eu_preferred_alias_suffix : option string;
  eu_ttl_seconds : Z
}.

Definition valid_ensure (body : EnsureUrlRequest) : bool :=
  (1 <=? String.length (eu_url body))%nat && (1 <=? eu_ttl_seconds body) && (eu_ttl_seconds body <=? 86400).

Record PreloadRequest := mk_preload_request { pq_url : string; pq_no_cache : bool }.

Definition valid_preload (body : PreloadRequest) : bool :=
  (1 <=? String.length (pq_url body))%nat && (String.length (pq_url body) <=? 2048)%nat.

(** [EnsureUrlResponse]: every field of the result. *)
Definition from_result (r : EnsureUrlResult) : EnsureUrlResult :=
  mk_result (er_asset_id r) (er_qualified_alias r) (er_cache_hit r) (er_bucket r) (er_partition_id r).

(** ** The process *)

Record FetcherApp (A N : Type) := mk_fetcher_app {
  fa_credentials : ServiceCredentialStore;
  fa_rules : RuleSet;
  fa_pilot_mode : bool;
  fa_max_bytes : Z;
  fa_jobs : WorkAdmission;
  fa_pilot : PilotCache (World A N);
  fa_ingress : gmap string Z;
  fa_cache_operations : gmap (string * string) Z
}.
Arguments mk_fetcher_app {A N}.
Arguments fa_credentials {A N}.
Arguments fa_rules {A N}.
Arguments fa_pilot_mode {A N}.
Arguments fa_max_bytes {A N}.
Arguments fa_jobs {A N}.
Arguments fa_pilot {A N}.
Arguments fa_ingress {A N}.
Arguments fa_cache_operations {A N}.

Section Fields.
Context {A N : Type}.
Implicit Types (x : FetcherApp A N).

#[export] Instance replace_fa_jobs : Replace (@fa_jobs A N) := λ v x,
  mk_fetcher_app (fa_credentials x) (fa_rules x) (fa_pilot_mode x) (fa_max_bytes x) v (fa_pilot x) (fa_ingress x)
    (fa_cache_operations x).
#[export] Instance replace_fa_pilot : Replace (@fa_pilot A N) := λ v x,
  mk_fetcher_app (fa_credentials x) (fa_rules x) (fa_pilot_mode x) (fa_max_bytes x) (fa_jobs x) v (fa_ingress x)
    (fa_cache_operations x).
#[export] Instance replace_fa_ingress : Replace (@fa_ingress A N) := λ v x,
  mk_fetcher_app (fa_credentials x) (fa_rules x) (fa_pilot_mode x) (fa_max_bytes x) (fa_jobs x) (fa_pilot x) v
    (fa_cache_operations x).
#[export] Instance replace_fa_cache_operations : Replace (@fa_cache_operations A N) := λ v x,
  mk_fetcher_app (fa_credentials x) (fa_rules x) (fa_pilot_mode x) (fa_max_bytes x) (fa_jobs x) (fa_pilot x)
    (fa_ingress x) v.
End Fields.

(** ** Start-up *)

(** [_client_from_env]: the base URL and the credential. *)
Definition client_from_env (env : gmap string string) : res (string * ClientSettings) :=
  let base_url := default DEFAULT_ASSET_STORE_BASE_URL (env !! "ASSET_STORE_BASE_URL") in
  let secret := default "" (env !! "FETCHER_SERVICE_SECRET") in
  secret ← (if decide (secret = "") then
              if truthy_dev_mode (default "" (env !! "ASSET_STORE_DEV_MODE")) then mret DEFAULT_FETCHER_SECRET
              else Err PyRuntimeError
            else mret secret);
  mret (base_url, mk_client (default DEFAULT_SERVICE_ID (env !! "FETCHER_SERVICE_ID")) secret).

(** [_rules_from_env], given what the loader returns. *)
Definition rules_from_env (loaded : option RuleSet) : RuleSet := default default_rule_set loaded.

(** [create_app] with its collaborators, which act on the asset store [a] and the
    network [w]. *)
Definition create_fetcher {A N} (env : gmap string string) (rules : RuleSet) (credentials : option ServiceCredentialStore)
    (a : A) (w : N) : res (FetcherApp A N) :=
  credentials ← match credentials with Some c => mret c | None => from_env env end;
  limit ← positive_limit_from_env (env !! "FETCHER_MAX_INFLIGHT_JOBS") 4;
  jobs ← new_admission limit;
  max_bytes ← positive_limit_from_env (env !! "FETCHER_HTTP_MAX_BYTES") (50 * 1024 * 1024);
  mret (mk_fetcher_app credentials rules (truthy_dev_mode (default "" (env !! "FETCHER_PILOT_MODE"))) max_bytes jobs
          (mk_pilot None (mk_world a w ∅)) ∅ ∅).

(** ** Requests *)

(** The routes with what FastAPI decodes for them; a read is its raw path and its
    query string. *)
Inductive FetcherRoute :=
  | FHealth
  | FReady
  | FEnsureUrl (body : EnsureUrlRequest)
  | FPreload (body : PreloadRequest)
  | FRead (raw_path query : list Z).

Record FetcherRequest := mk_fetcher_request { fr_authorization : string; fr_route : FetcherRoute }.

Inductive FetcherBody :=
  | FStatus (status : string)
  | FResult (result : EnsureUrlResult)
  | FImage (image : CachedImage) (etag : string)
  | FNotAllowed
  | FProblem (p : problem).

Record FetcherAnswer := mk_fetcher_answer { fn_status : Z; fn_body : FetcherBody }.

(** [_problem] *)
Definition _problem (status : Z) (title : string) (retry_after : option string) : problem :=
  mk_problem "about:blank" title status None retry_after.

(** [_fetcher_error] *)
Definition _fetcher_error (e : fetch_error) : problem :=
  match e with
  | PilotDeniedError => _problem 403 "Cache policy denied" None
  | CacheMissError => _problem 404 "Cache miss" None
  | CacheBackendError status retry_after =>
      _problem status "Cache backend error" (retry_after ≫= λ r, if decide (r = "") then None else Some r)
  | ContentMismatchError => _problem 409 "Cached content mismatch" None
  | InvalidRequestError => _problem 400 "Invalid request" None
  | UpstreamTimeoutError => _problem 504 "Upstream timeout" None
  | UpstreamError => _problem 502 "Upstream fetch failed" None
  end.

(** The handler of an exception: its own hierarchy's, its client's, those it shares
    with the asset store. *)
Definition fetcher_error_response (e : error) : problem :=
  match e with
  | FetchError e => _fetcher_error e
  | ClientError _ _ => _problem 502 "Asset-store call failed" None
  | _ => error_response e
  end.

(** The credential of a dispatcher. *)
Definition dispatcher_identity (credentials : ServiceCredentialStore) (authorization : string) : res string :=
  let '(scheme, _, token) := partition_on " " authorization in
  let '(service_id, sep, secret) := partition_on ":" token in
  if bool_decide (lower scheme ≠ "service") || negb sep then Err ServiceAuthError else
  caller ← authenticate credentials service_id secret;
  if mem caller ["task-api"; "admin"] then mret caller else Err CapabilityDeniedError.

Section Fetcher.
Context {A N : Type} `{!AssetStoreClient A} `{!PolicyFetcher N} `{!UrlFetcher N}.

Abbreviation FM := (M (FetcherApp A N)).

Definition count_ingress (outcome : string) : FM unit :=
  modify (λ x, x <| fa_ingress := bump_count outcome (fa_ingress x) |>).

Definition record_cache (operation outcome : string) : FM unit :=
  modify (λ x, x <| fa_cache_operations := bump_count (operation, outcome) (fa_cache_operations x) |>).

(** [require_dispatcher] *)
Definition require_dispatcher (authorization : string) : FM string :=
  x ← get_state;
  match dispatcher_identity (fa_credentials x) authorization with
  | Ok caller => count_ingress "granted" ;; mret caller
  | Err e => count_ingress "denied" ;; raise e
  end.

Definition set_fa_jobs (w : WorkAdmission) (x : FetcherApp A N) : FetcherApp A N := x <| fa_jobs := w |>.
Definition set_fa_pilot (p : PilotCache (World A N)) (x : FetcherApp A N) : FetcherApp A N := x <| fa_pilot := p |>.
Definition fa_world (x : FetcherApp A N) : World A N := pc_world (fa_pilot x).
Definition set_fa_world (w : World A N) (x : FetcherApp A N) : FetcherApp A N := set_fa_pilot (set_pc_world w (fa_pilot x)) x.

(** [with jobs.lease(): await run_work_until_complete(job)] *)
Definition job {B} (m : FM B) : FM B := lease fa_jobs set_fa_jobs m.

Definition invalid_unless (ok : bool) : FM unit := raise_if (negb ok) RequestValidationError.

Definition ensure_args (body : EnsureUrlRequest) : EnsureArgs :=
  mk_args (eu_url body) (eu_no_cache body) (eu_tmp_id body) (eu_preferred_alias_suffix body) (eu_ttl_seconds body).

Definition ensure_url_endpoint (authorization : string) (body : EnsureUrlRequest) : FM EnsureUrlResult :=
  require_dispatcher authorization ;;
  invalid_unless (valid_ensure body) ;;
  x ← get_state;
  result ← job (zoom fa_world set_fa_world (ensure_url record_refetch (fa_rules x) (ensure_args body)));
  mret (from_result result).

Definition preload_cache (authorization : string) (body : PreloadRequest) : FM EnsureUrlResult :=
  require_dispatcher authorization ;;
  invalid_unless (valid_preload body) ;;
  x ← get_state;
  catch (result ← job (zoom fa_world set_fa_world
                         (preload (fa_max_bytes x) record_refetch (pq_url body) (pq_no_cache body)));
         record_cache "preload" (if er_cache_hit result then "hit" else "stored") ;;
         mret (from_result result))
    (λ e, record_cache "preload" "error" ;; raise e).

(** The image and its [ETag]. *)
Definition read_cache (authorization : string) (raw_path query : list Z) : FM (CachedImage * string) :=
  require_dispatcher authorization ;;
  x ← get_state;
  catch (target ← of_res (require_read raw_path query);
         image ← job (zoom fa_pilot set_fa_pilot (pilot_read (fa_max_bytes x) target));
         record_cache "read" "hit" ;;
         mret (image, String (chr 34) (im_checksum image +:+ String (chr 34) "")))
    (λ e, record_cache "read" (if decide (e = FetchError CacheMissError) then "miss" else "error") ;; raise e).

Definition fetcher_dispatch (authorization : string) (route : FetcherRoute) : FM FetcherBody :=
  match route with
  | FHealth => mret (FStatus "ok")
  | FReady => mret (FStatus "ready")
  | FEnsureUrl body =>
      x ← get_state;
      if fa_pilot_mode x then mret FNotAllowed
      else result ← ensure_url_endpoint authorization body; mret (FResult result)
  | FPreload body => result ← preload_cache authorization body; mret (FResult result)
  | FRead raw_path query => '(image, etag) ← read_cache authorization raw_path query; mret (FImage image etag)
  end.

(** In pilot mode only the reads' [GET] route is at the path of [ensure_url]. *)
Definition fetcher_status (body : FetcherBody) : Z := match body with FNotAllowed => 405 | _ => 200 end.

(** The answer to a request, the count of draws and the process after it. *)
Definition fetcher_serve (rq : FetcherRequest) (n : nat) (x : FetcherApp A N) : FetcherAnswer * nat * FetcherApp A N :=
  let '(r, n', x') := fetcher_dispatch (fr_authorization rq) (fr_route rq) n x in
  (match r with
   | Ok body => mk_fetcher_answer (fetcher_status body) body
   | Err e => let p := fetcher_error_response e in mk_fetcher_answer (problem_status p) (FProblem p)
   end, n', x').
End Fetcher.
