(* ===== verification/StoreContract.v ===== *)
(** * What the fetcher relies on

    [StoreContract]: what the client of the asset store promises, as a class; and what
    [ensure_url] then guarantees, over any client that keeps it and any network. *)

From S2P Require Import Prelude Errors Python Effects Paths Models Sha256 Registry Codec IpAddress Urls Capabilities ObjectStore Schemas App Api Normalize Rules Fetcher Client EnsureUrl.

(** ** Names

    A name that is its own normal form, not under its partition once more: the asset
    store binds it as it is. *)

Definition is_fixed (f : string → res string) (s : string) : bool :=
  match f s with Ok t => bool_decide (t = s) | Err _ => false end.

Definition plain_name (space alias : string) : bool :=
  let '(partition, sep, rest) := partition_on "/" alias in
  is_fixed normalize_space space && sep && is_fixed normalize_partition_id partition &&
  is_fixed normalize_relative_alias rest && negb (is_path_or_child partition rest).

(** ** The contract

    [st_holds a space alias i data]: in the store [a] the name stands for the asset
    [i], whose bytes are [data].  A call may fail at any time; only an upload that
    succeeds adds a name, and no call takes one away. *)

(** The record of an asset describes its bytes. *)
Definition describes (out : AssetOut) (data : bytes) : Prop :=
  ao_size_bytes out = Some (Z.of_nat (length data)) ∧ ao_checksum out = Some (checksum_of data).

Class StoreContract (A : Type) `{!AssetStoreClient A} := {
  st_ok : nat → A → Prop;
  st_holds : A → string → string → string → bytes → Prop;
  st_mono n n' a : (n <= n')%nat → st_ok n a → st_ok n' a;
  st_unique a space alias i data i' data' :
    st_holds a space alias i data → st_holds a space alias i' data' → i = i' ∧ data = data';
  st_resolve space alias n a : st_ok n a → wp (client_resolve space alias) (λ res n' a', (n <= n')%nat ∧
    st_ok n' a' ∧ (∀ sp al i d, st_holds a sp al i d → st_holds a' sp al i d) ∧
    match res with
    | Ok (Some out) => ∃ data, st_holds a' space alias (ao_asset_id out) data ∧ describes out data
    | Ok None => ∀ i d, ¬ st_holds a space alias i d
    | Err _ => True
    end) n a;
  st_mint_write scope ttl n a : st_ok n a → wp (mint_write_capability scope ttl) (λ _ n' a', (n <= n')%nat ∧
    st_ok n' a' ∧ ∀ sp al i d, st_holds a sp al i d → st_holds a' sp al i d) n a;
  st_mint_read scope ttl n a : st_ok n a → wp (mint_read_capability scope ttl) (λ _ n' a', (n <= n')%nat ∧
    st_ok n' a' ∧ ∀ sp al i d, st_holds a sp al i d → st_holds a' sp al i d) n a;
  st_put capability space alias data mime n a : st_ok n a →
    wp (client_put_object capability (space +:+ "/" +:+ alias) data mime) (λ res n' a', (n <= n')%nat ∧
      st_ok n' a' ∧ (∀ sp al i d, st_holds a sp al i d → st_holds a' sp al i d) ∧
      match res with
      | Ok out => describes out data ∧
          (plain_name space alias = true → st_holds a' space alias (ao_asset_id out) data)
      | Err _ => True
      end) n a;
  st_read capability space alias max_bytes n a : st_ok n a →
    wp (client_read_object capability (space +:+ "/" +:+ alias) max_bytes) (λ res n' a', (n <= n')%nat ∧
      st_ok n' a' ∧ (∀ sp al i d, st_holds a sp al i d → st_holds a' sp al i d) ∧
      match res with
      | Ok data => plain_name space alias = true → ∃ i, st_holds a space alias i data
      | Err _ => True
      end) n a
}.

Section Ensure.
#[local] Set Default Proof Using "Type*".
Context {E : Env} {A N : Type} `{!AssetStoreClient A} `{!StoreContract A} `{!UrlFetcher N}.
Context (fetch_advances : ∀ url, advances (fetch url : M N FetchedContent)).
Implicit Types w : World A N.

(** What is held stays held. *)
Definition keeps_names (a a' : A) : Prop := ∀ sp al i d, st_holds a sp al i d → st_holds a' sp al i d.

#[export] Instance keeps_names_preorder : PreOrder keeps_names.
Proof. split; [by intros a sp al i d|]. intros a b c H1 H2 sp al i d H. by apply H2, H1. Qed.

(** How the asset of a call came about. *)
Inductive obtained (p : Placement) (u : NormalizedUrl) (a : EnsureArgs) (w : World A N) (r : EnsureUrlResult) (w' : World A N)
    : Prop :=
  | was_cached data :
      er_cache_hit r = true → ea_no_cache a = false → wd_net w' = wd_net w →
      st_holds (wd_store w') (pl_bucket p) (pl_relative_alias p) (er_asset_id r) data → obtained p u a w r w'
  | was_checked content n1 n2 data :
      er_cache_hit r = false → ea_no_cache a = true → fetch (canonical u) n1 (wd_net w) = (Ok content, n2, wd_net w') →
      st_holds (wd_store w') (pl_bucket p) (pl_relative_alias p) (er_asset_id r) data →
      checksum_of data = checksum_of (fc_data content) → obtained p u a w r w'
  | was_stored content n1 n2 :
      er_cache_hit r = false → fetch (canonical u) n1 (wd_net w) = (Ok content, n2, wd_net w') →
      (∀ i d, ¬ st_holds (wd_store w) (pl_bucket p) (pl_relative_alias p) i d) →
      (plain_name (pl_bucket p) (pl_relative_alias p) = true →
       st_holds (wd_store w') (pl_bucket p) (pl_relative_alias p) (er_asset_id r) (fc_data content)) →
      obtained p u a w r w'.

Definition placed (p : Placement) (r : EnsureUrlResult) : Prop :=
  er_qualified_alias r = pl_qualified p ∧ er_bucket r = pl_bucket p ∧ er_partition_id r = pl_partition_id p.

Lemma wp_at_store {B} (m : M A B) (Q : res B → nat → World A N → Prop) n w :
  wp m (λ r n' a', Q r n' (set_wd_store a' w)) n (wd_store w) → wp (at_store m) Q n w.
Proof using Type. apply wp_zoom. Qed.

(** The steps hold of any fetcher of the world that acts on the network alone. *)
Section Steps.
Context (F : UrlFetcher (World A N)) (F_at_net : ∀ url n w, F url n w = at_net (fetch url) n w).

Lemma wp_fetch url (Q : res FetchedContent → nat → World A N → Prop) n w :
  (∀ res n' net, (n <= n')%nat → fetch url n (wd_net w) = (res, n', net) → Q res n' (set_wd_net net w)) → wp (F url) Q n w.
Proof.
  intros HQ. unfold wp. rewrite F_at_net. unfold at_net, zoom. destruct (fetch url n (wd_net w)) as [[res n'] net] eqn:Hf.
  apply HQ; [exact (wp_inv _ _ _ _ _ _ _ (fetch_advances _ _ _) Hf)|done].
Qed.

Lemma wp_ensure_at p u a n w : st_ok n (wd_store w) →
  wp (ensure_at (UrlFetcher0:=F) record_refetch p u a) (λ res n' w', (n <= n')%nat ∧ st_ok n' (wd_store w') ∧
    keeps_names (wd_store w) (wd_store w') ∧ ∀ r, res = Ok r → placed p r ∧ obtained p u a w r w') n w.
Proof.
  intros Hok. unfold ensure_at. wp_step. cbn [client_resolve world_client]. apply wp_at_store.
  eapply wp_mono; [by apply st_resolve|]. intros [[out|]|e] n1 a1 (Hn1 & Hok1 & Hkeep1 & Hres); [| |by split_and!].
  - destruct Hres as (data & Hheld & Hdesc). destruct (negb (ea_no_cache a)) eqn:Hnc.
    + apply negb_true_iff in Hnc. wp_step. split_and!; [done..|]. intros r [= <-]. split; [done|].
      by eapply was_cached.
    + apply negb_false_iff in Hnc. wp_step. apply wp_fetch. intros [content|e] n2 net Hn2 Hf; [|split_and!; [lia|by eapply st_mono|done|done]].
      unfold check_refetch. set (outcome := if decide _ then _ else _). unfold record_refetch. wp_step. apply wp_modify.
      wp_step. apply wp_raise_if; intros Ho; [split_and!; [lia|by eapply st_mono|done|done]|].
      wp_step. split_and!; [lia|by eapply st_mono|done|]. intros r [= <-]. split; [done|].
      unfold outcome in Ho. destruct (decide _) as [Hck|]; [|by apply bool_decide_eq_false in Ho].
      destruct Hdesc as [_ Hdesc]. eapply was_checked; [done|done|exact Hf|exact Hheld|]. congruence.
  - wp_step. apply wp_fetch. intros [content|e] n2 net Hn2 Hf; [|split_and!; [lia|by eapply st_mono|done|done]].
    unfold store_content. wp_step. cbn [mint_write_capability world_client]. apply wp_at_store.
    eapply wp_mono; [apply st_mint_write; by eapply st_mono|].
    intros [token|e] n3 a3 (Hn3 & Hok3 & Hkeep3); [|split_and!; [lia|done|by etrans|done]].
    wp_step. cbn [client_put_object world_client]. apply wp_at_store. unfold pl_qualified.
    eapply wp_mono; [by apply st_put|]. intros res n4 a4 (Hn4 & Hok4 & Hkeep4 & Hput).
    assert (Hkeep : keeps_names (wd_store w) a4) by (intros sp al i d H; by apply Hkeep4, Hkeep3, Hkeep1).
    destruct res as [out|e]; [|split_and!; [lia|done|done|done]]. destruct Hput as (_ & Hheld). wp_step.
    split_and!; [lia|done|done|]. intros r [= <-]. split; [done|].
    eapply was_stored; [done|exact Hf|exact Hres|exact Hheld].
Qed.

Lemma wp_ensure_url rules a n w : st_ok n (wd_store w) →
  wp (ensure_url (UrlFetcher0:=F) record_refetch rules a) (λ res n' w', (n <= n')%nat ∧ st_ok n' (wd_store w') ∧
    keeps_names (wd_store w) (wd_store w') ∧
    ∀ r, res = Ok r → ∃ u p, normalized_request (ea_url a) = Ok u ∧ placement rules u a = Ok p ∧
      placed p r ∧ obtained p u a w r w') n w.
Proof.
  intros Hok. unfold ensure_url. wp_step. wp_step. destruct (normalized_request (ea_url a)) as [u|e]; [|by split_and!].
  wp_step. wp_step. destruct (placement rules u a) as [p|e] eqn:Hp; [|by split_and!].
  eapply wp_mono; [by apply wp_ensure_at|]. intros res n' w' (Hn & Hok' & Hkeep & H). split_and!; [done..|].
  intros r Hr. exists u, p. split; [done|]. split; [done|]. by apply H.
Qed.

(** A name the store holds is answered from it: the network is not touched. *)
Lemma wp_ensure_held rules a u p i data n w :
  st_ok n (wd_store w) → normalized_request (ea_url a) = Ok u → placement rules u a = Ok p → ea_no_cache a = false →
  st_holds (wd_store w) (pl_bucket p) (pl_relative_alias p) i data →
  wp (ensure_url (UrlFetcher0:=F) record_refetch rules a) (λ res _ w', wd_net w' = wd_net w ∧
    ∀ r, res = Ok r → r = mk_result i (pl_qualified p) true (pl_bucket p) (pl_partition_id p)) n w.
Proof.
  intros Hok Hu Hp Hnc Hheld. unfold ensure_url. rewrite Hu. do 4 wp_step. rewrite Hp.
  unfold ensure_at. wp_step. cbn [client_resolve world_client]. apply wp_at_store.
  eapply wp_mono; [by apply st_resolve|]. intros [[out|]|e] n1 a1 (_ & _ & Hkeep & Hres); [| |done].
  - rewrite Hnc. cbn [negb]. wp_step. split; [done|]. intros r [= <-]. destruct Hres as (data' & Hheld' & _).
    destruct (st_unique _ _ _ _ _ _ _ (Hkeep _ _ _ _ Hheld) Hheld') as [-> _]. done.
  - by destruct (Hres i data).
Qed.
End Steps.

Lemma world_at_net url n w : world_fetcher url n w = at_net (A:=A) (N:=N) (fetch url) n w.
Proof. done. Qed.

(** * Properties *)

(** C11.  [ensure_url] gives a URL its asset.  Whatever it ends in, the store stays in
    order and nothing it held is lost.  When it returns, the answer names the
    placement the rules give the canonical URL; the asset was in the cache and the
    network was not touched; or, its refetch being asked for, the origin was asked
    once and its bytes have the checksum on record; or nothing had the name, the
    origin was asked once for the canonical URL and its bytes were uploaded.  A name
    that is plain (its parts are their own normal forms and it does not repeat its
    partition) then stands for the answered asset with exactly those bytes; for
    another name only the placement and the single question to the origin are
    stated, as the store may bind it under a shorter name. *)
Theorem ensure_url_spec (rules : RuleSet) (a : EnsureArgs) (n : nat) (w : World A N) (res : res EnsureUrlResult)
    (n' : nat) (w' : World A N) :
  st_ok n (wd_store w) → ensure_url record_refetch rules a n w = (res, n', w') →
  st_ok n' (wd_store w') ∧ keeps_names (wd_store w) (wd_store w') ∧
  ∀ r, res = Ok r → ∃ u p, normalized_request (ea_url a) = Ok u ∧ placement rules u a = Ok p ∧
    placed p r ∧ obtained p u a w r w'.
Proof.
  intros Hok Hrun. destruct (wp_inv _ _ _ _ _ _ _ (wp_ensure_url _ world_at_net _ _ _ _ Hok) Hrun) as (_ & H). exact H.
Qed.

(** C12.  A resource with a plain name (its parts are their own normal forms and it
    does not repeat its partition) is fetched once.  After a call that returned, and
    whatever else the store has been asked since that loses no name, a call without
    [no_cache] for any URL that the rules give the same name is answered with the
    same asset, as a hit, or fails; either way the origin is not asked again. *)
Theorem ensure_url_once (rules : RuleSet) (a a2 : EnsureArgs) (u2 : NormalizedUrl) (p : Placement)
    (n : nat) (w : World A N) (r : EnsureUrlResult) (n1 : nat) (w1 : World A N)
    (n2 : nat) (w2 : World A N) (res2 : Errors.res EnsureUrlResult) (n3 : nat) (w3 : World A N) :
  st_ok n (wd_store w) → ensure_url record_refetch rules a n w = (Ok r, n1, w1) →
  (∀ u, normalized_request (ea_url a) = Ok u → placement rules u a = Ok p) →
  plain_name (pl_bucket p) (pl_relative_alias p) = true →
  st_ok n2 (wd_store w2) → keeps_names (wd_store w1) (wd_store w2) →
  normalized_request (ea_url a2) = Ok u2 → placement rules u2 a2 = Ok p → ea_no_cache a2 = false →
  ensure_url record_refetch rules a2 n2 w2 = (res2, n3, w3) →
  wd_net w3 = wd_net w2 ∧
  ∀ r2, res2 = Ok r2 → r2 = mk_result (er_asset_id r) (er_qualified_alias r) true (er_bucket r) (er_partition_id r).
Proof.
  intros Hok Hrun Hp1 Hplain Hok2 Hkeep Hu2 Hp2 Hnc Hrun2.
  destruct (wp_inv _ _ _ _ _ _ _ (wp_ensure_url _ world_at_net _ _ _ _ Hok) Hrun) as (_ & _ & _ & H).
  destruct (H r eq_refl) as (u & p' & Hu & Hp & (Hq & Hb & Hpt) & Hobt).
  rewrite (Hp1 _ Hu) in Hp. injection Hp as <-. rewrite Hq, Hb, Hpt.
  assert (∃ data, st_holds (wd_store w1) (pl_bucket p) (pl_relative_alias p) (er_asset_id r) data) as [data Hheld].
  { destruct Hobt as [data ? ? ? Hh|content m1 m2 data ? ? ? Hh ?|content m1 m2 ? ? ? Hh]; eauto. }
  eapply (wp_inv _ (λ res _ w', wd_net w' = wd_net w2 ∧ ∀ r, res = Ok r → _)); [|exact Hrun2].
  eapply (wp_ensure_held _ world_at_net); [done..|]. by apply Hkeep.
Qed.
End Ensure.

(** ** What a client relies on of the server

    [ServerContract]: what the asset store promises at the other end of HTTP, as a class
    over the requests clients make.  The client of the fetcher over any server that
    keeps it keeps [StoreContract]. *)

(** The object a path names. *)
Definition path_names (path space alias : string) : Prop :=
  alias_of_path path = Some (space +:+ "/" +:+ alias) ∧ plain_name space alias = true.

(** [sv_holds a space alias i data]: in the store [a] the name stands for the asset [i],
    whose bytes are [data].  A request may be refused at any time; no request of a
    client takes a name away, and one that is answered does what it says. *)
Class ServerContract (A : Type) `{!HttpTransport A} := {
  sv_ok : nat → A → Prop;
  sv_holds : A → string → string → string → bytes → Prop;
  sv_mono n n' a : (n <= n')%nat → sv_ok n a → sv_ok n' a;
  sv_unique a space alias i data i' data' :
    sv_holds a space alias i data → sv_holds a space alias i' data' → i = i' ∧ data = data';
  sv_send auth route n a : sv_ok n a → wp (http_send auth route) (λ res n' a', (n <= n')%nat ∧ sv_ok n' a' ∧
    (∀ sp al i d, sv_holds a sp al i d → sv_holds a' sp al i d) ∧
    ∀ answer, res = Ok answer →
      match route with
      | CResolve space alias =>
          (an_status answer = 200 → ∃ out data, an_body answer = BAsset out ∧
             sv_holds a' space alias (ao_asset_id out) data ∧ describes out data) ∧
          (an_status answer = 404 → ∀ i d, ¬ sv_holds a space alias i d)
      | CMint _ => an_status answer = 201 → ∃ capability, an_body answer = BCapability capability
      | CPutObject path data _ _ => an_status answer = 201 → ∃ out, an_body answer = BAsset out ∧ describes out data ∧
          ∀ space alias, path_names path space alias → sv_holds a' space alias (ao_asset_id out) data
      | CGetObject path => an_status answer = 200 → ∃ data, an_body answer = BBytes data ∧
          ∀ space alias, path_names path space alias → ∃ i, sv_holds a space alias i data
      end) n a
}.

Lemma object_path_roundtrip alias : alias_of_path (object_path alias) = Some alias.
Proof.
  unfold alias_of_path, object_path. rewrite drop_prefix_app. cbn [mbind option_bind]. rewrite quote_no_query. apply unquote_quote.
Qed.

Lemma object_path_names space alias : plain_name space alias = true → path_names (object_path (space +:+ "/" +:+ alias)) space alias.
Proof. split; [apply object_path_roundtrip|done]. Qed.

Section Server.
#[local] Set Default Proof Using "Type*".
Context {A : Type} `{!HttpTransport A} `{!ServerContract A} (client : ClientSettings).

Definition sv_keeps (a a' : A) : Prop := ∀ sp al i d, sv_holds a sp al i d → sv_holds a' sp al i d.

#[export] Instance sv_keeps_preorder : PreOrder sv_keeps.
Proof using Type. split; [by intros a sp al i d|]. intros a b c H1 H2 sp al i d H. by apply H2, H1. Qed.

#[local] Instance over_server : AssetStoreClient A := http_client client.

Lemma wp_mint_kept operation scope ttl n a : sv_ok n a →
  wp (_mint_capability client operation scope ttl) (λ _ n' a', (n <= n')%nat ∧ sv_ok n' a' ∧ sv_keeps a a') n a.
Proof.
  intros Hok. unfold _mint_capability. wp_step. eapply wp_mono; [by apply sv_send|].
  intros [answer|e] n' a' (Hn & Hok' & Hk & _); [|done]. unfold call_failed.
  destruct (negb _); [by wp_step|]. destruct (an_body answer); by wp_step.
Qed.

#[refine, export] Instance server_store_contract : StoreContract A := {
  st_ok := sv_ok;
  st_holds := sv_holds
}.
Proof.
  - apply sv_mono.
  - apply sv_unique.
  - intros space alias n a Hok. cbn [client_resolve over_server http_client]. unfold http_resolve. wp_step.
    eapply wp_mono; [by apply sv_send|]. intros [answer|e] n' a' (Hn & Hok' & Hk & H); [|by split_and!].
    destruct (H answer eq_refl) as [H200 H404]. unfold call_failed, asset_json.
    destruct (an_status answer =? 200) eqn:Hs; [|destruct (an_status answer =? 404) eqn:Hs4; wp_step; split_and!; try done; apply H404; lia].
    destruct H200 as (out & data & -> & Hh & Hd); [lia|]. wp_steps. split_and!; [done..|]. by exists data.
  - intros scope ttl n a Hok. by apply wp_mint_kept.
  - intros scope ttl n a Hok. by apply wp_mint_kept.
  - intros capability space alias data mime n a Hok. cbn [client_put_object over_server http_client]. unfold http_put_object. wp_step.
    eapply wp_mono; [by apply sv_send|]. intros [answer|e] n' a' (Hn & Hok' & Hk & H); [|by split_and!].
    specialize (H answer eq_refl). unfold call_failed, asset_json.
    destruct (an_status answer =? 201) eqn:Hs; cbn [negb]; [|wp_step; by split_and!].
    destruct H as (out & -> & Hd & Hh); [lia|]. wp_step. split_and!; [done..|]. intros Hplain. by apply Hh, object_path_names.
  - intros capability space alias max_bytes n a Hok. cbn [client_read_object over_server http_client]. unfold http_read_object. wp_step.
    eapply wp_mono; [by apply sv_send|]. intros [answer|e] n' a' (Hn & Hok' & Hk & H); [|by split_and!].
    specialize (H answer eq_refl). unfold call_failed.
    destruct (an_status answer =? 200) eqn:Hs; cbn [negb]; [|wp_step; by split_and!].
    destruct H as (data & -> & Hd); [lia|]. wp_step. unfold read_limited. destruct (max_bytes <? _); [by split_and!|].
    split_and!; [done..|]. intros Hplain. by apply Hd, object_path_names.
Defined.
End Server.
