(* ===== verification/FetchStore.v ===== *)
(** * The asset store keeps the contract

    The process that answers with [serve] is an instance of [ServerContract]; so the
    client of the fetcher, with it at the other end, keeps [StoreContract]. *)

From S2P Require Import Prelude Errors Python Effects Paths Models Retention Sha256 Registry RegistryInv RegistrySound RegistryNames RegistryPayload Codec AdminQuery Admin Capabilities ObjectStore Guard GuardProps GuardFlow ServiceIdentity Admission IssuanceRate Schemas App Api ApiInv ApiMint ApiAuthority ApiProps IpAddress Urls Normalize Rules Fetcher Client EnsureUrl StoreContract.
From Stdlib Require Import SpecFloat.

Section FetchStore.
#[local] Set Default Proof Using "Type*".
Context {E : Env} `{!FreshIds E} `{!UuidFormat E} {D : DumpFilters}.
Context {O : Type} `{!ObjectStoreBackend O} `{!ObjectStoreLaws O}.
Implicit Types (x : App O) (g : Guard Registry O).

(** ** What a name stands for *)

Definition held_in g (space alias i : string) (data : bytes) : Prop :=
  ∃ b a, find_binding (g_registry g) space alias = Ok b ∧ b_asset_id b = Some i ∧
    r_assets (g_registry g) !! i = Some a ∧ a_state a = AVAILABLE ∧ contents (g_store g) (location_of a) = Some data.

(** No name is taken away, no available asset withdrawn, no bytes of one changed. *)
Record keeps_held g g' : Prop := {
  kh_names : ∀ k b, r_aliases (g_registry g) !! k = Some b → r_aliases (g_registry g') !! k = Some b;
  kh_assets : ∀ i a, r_assets (g_registry g) !! i = Some a → a_state a = AVAILABLE →
    ∃ a', r_assets (g_registry g') !! i = Some a' ∧ a_state a' = AVAILABLE ∧ location_of a' = location_of a ∧
      contents (g_store g') (location_of a) = contents (g_store g) (location_of a)
}.

#[export] Instance keeps_held_preorder : PreOrder keeps_held.
Proof.
  split.
  - intros g. split; [done|]. intros i a Hi Hs. by exists a.
  - intros g1 g2 g3 [N1 A1] [N2 A2]. split; [auto|]. intros i a Hi Hs.
    destruct (A1 i a Hi Hs) as (a' & Hi' & Hs' & Hl' & Hc'). destruct (A2 i a' Hi' Hs') as (a2 & Hi2 & Hs2 & Hl2 & Hc2).
    exists a2. split_and!; [done|done|congruence|]. rewrite <- Hc', <- Hl'. done.
Qed.

Lemma keeps_held_same g g' :
  r_aliases (g_registry g') = r_aliases (g_registry g) → r_assets (g_registry g') = r_assets (g_registry g) →
  (∀ l, contents (g_store g') l = contents (g_store g) l) → keeps_held g g'.
Proof. intros Hn Ha Hc. split; rewrite ?Hn, ?Ha; [done|]. intros i a Hi Hs. exists a. by rewrite Hc. Qed.

Lemma find_binding_kept g g' space alias b :
  keeps_held g g' → find_binding (g_registry g) space alias = Ok b → find_binding (g_registry g') space alias = Ok b.
Proof.
  intros Hk. unfold find_binding. destruct (normalize_space space) as [s|]; [|done]. cbn.
  destruct (normalize_relative_alias alias) as [al|]; [|done]. cbn. destruct (qualified_alias s al) as [k|]; [|done]. cbn.
  destruct (r_aliases (g_registry g) !! k) as [b'|] eqn:Hb; [|done]. intros [= <-]. by rewrite (kh_names _ _ Hk _ _ Hb).
Qed.

Lemma held_kept g g' space alias i data : keeps_held g g' → held_in g space alias i data → held_in g' space alias i data.
Proof.
  intros Hk (b & a & Hb & Hi & Ha & Hs & Hc). destruct (kh_assets _ _ Hk i a Ha Hs) as (a' & Ha' & Hs' & Hl & Hc').
  exists b, a'. split_and!; [by eapply find_binding_kept|done..|]. by rewrite Hl, Hc'.
Qed.

Lemma held_unique g space alias i data i' data' :
  held_in g space alias i data → held_in g space alias i' data' → i = i' ∧ data = data'.
Proof.
  intros (b & a & Hb & Hi & Ha & _ & Hc) (b' & a' & Hb' & Hi' & Ha' & _ & Hc').
  assert (b' = b) as -> by congruence. assert (i' = i) as -> by congruence. split; [done|]. congruence.
Qed.

(** ** Reads change no name and no bytes *)

Lemma wp_record_read_held (g : Guard Registry O) i (Q : res unit → nat → Guard Registry O → Prop) n :
  (∀ res n' r', keeps_held g (set_registry r' g) → Q res n' (set_registry r' g)) →
  wp (on_registry (ar_record_read i)) Q n g.
Proof.
  intros HQ. apply wp_zoom. cbn [ar_record_read memory_registry]. unfold record_read. reg_steps.
  all: apply HQ; split; cbn; [done|]; intros j b Hj Hs; rewrite ?lookup_insert; try (by exists b).
  destruct (decide (i = j)) as [<-|]; [|by exists b]. simplify_eq. eexists. by split_and!.
Qed.

Lemma wp_read_bytes_held capability alias n g :
  guard_wf n g → wp (read_bytes capability alias) (λ res _ g', keeps_held g g') n g.
Proof.
  intros Hwf. unfold read_bytes. wp_step. apply wp_resolve_for_read; [done|intros; by apply keeps_held_same|].
  intros a i _ _ _ _ _. wp_step. apply wp_zoom. eapply wp_mono; [apply law_get|].
  intros res n1 o1 (_ & Hc & _). destruct res as [data|e]; [|by apply keeps_held_same].
  wp_step. apply wp_record_read_held. intros res n2 r2 Hk.
  assert (Hk' : ∀ l, keeps_held g (set_ledger l (set_registry r2 (set_store o1 (set_ledger (ledger_pruned (clock (S n)) (g_ledger g)) g))))).
  { intros l. destruct Hk as [Hn Ha]. split; [exact Hn|]. cbn in *. intros j b Hj Hs. destruct (Ha j b Hj Hs) as (b' & ? & ? & ? & ?).
    exists b'. split_and!; [done..|]. apply Hc. }
  destruct res as [[]|e]; [|by specialize (Hk' (ledger_pruned (clock (S n)) (g_ledger g)))].
  wp_step. unfold on_ledger. apply wp_zoom. unfold wp. destruct (record_successful_use _ _ _) as [[[[]|e] n3] l3]; apply Hk'.
Qed.

(** ** Plain names *)

Lemma plain_name_inv space alias :
  plain_name space alias = true → ∃ partition rest, alias = partition +:+ "/" +:+ rest ∧
    normalize_space space = Ok space ∧ contains_char "/" partition = false ∧
    normalize_relative_alias partition = Ok partition ∧ normalize_relative_alias rest = Ok rest ∧
    is_path_or_child partition rest = false.
Proof.
  unfold plain_name, is_fixed. destruct (partition_on "/" alias) as [[partition sep] rest] eqn:Hp.
  intros H. repeat apply andb_prop in H as [H ?]. destruct sep; [|done].
  apply partition_on_found in Hp as [-> Hc]. exists partition, rest.
  destruct (normalize_space space), (normalize_partition_id partition) eqn:Hpart, (normalize_relative_alias rest); try done.
  repeat match goal with H : bool_decide _ = true |- _ => apply bool_decide_eq_true in H as -> end.
  split_and!; try done. by apply negb_true_iff.
Qed.

Lemma plain_parse space alias :
  plain_name space alias = true → ∃ partition rest, alias = partition +:+ "/" +:+ rest ∧
    normalize_space space = Ok space ∧ normalize_relative_alias alias = Ok alias ∧
    is_path_or_child partition rest = false ∧ normalize_relative_alias rest = Ok rest ∧
    normalize_partition_id partition = Ok partition ∧
    _parse_alias (space +:+ "/" +:+ alias) = Ok (mk_parsed space alias partition rest (space +:+ String "/" alias)).
Proof.
  intros (partition & rest & -> & Hs & Hc & Hp & Hr & Hch)%plain_name_inv. exists partition, rest.
  pose proof (normalize_join _ _ Hp Hr) as Ha. split_and!; try done.
  pose proof (normalize_bucket_member _ _ Hs) as Hb.
  assert (Hq : normalize_relative_alias (space +:+ "/" +:+ partition +:+ "/" +:+ rest) = Ok (space +:+ "/" +:+ partition +:+ "/" +:+ rest)).
  { apply normalize_join; [|done]. revert Hb. unfold STORAGE_BUCKETS. rewrite !elem_of_cons, elem_of_nil.
    intros [->|[->|[->|[->|[]]]]]; by vm_compute. }
  apply normalize_relative_alias_Ok in Hq as [Hq _]. unfold _parse_alias. rewrite <- Hq.
  change (space +:+ "/" +:+ partition +:+ "/" +:+ rest) with (space +:+ String "/" (partition +:+ String "/" rest)) in *.
  rewrite (partition_on_app "/" space) by auto with paths. cbn [negb orb].
  assert (Hne : partition +:+ String "/" rest ≠ "") by by destruct partition.
  rewrite bool_decide_false by done. rewrite Hs. cbn [mbind res_bind].
  change (partition +:+ "/" +:+ rest) with (partition +:+ String "/" rest) in Ha. rewrite Ha. cbn [mbind res_bind].
  rewrite partition_on_app by done. cbn [negb orb].
  assert (Hrne : rest ≠ "") by (intros ->; by vm_compute in Hr).
  rewrite bool_decide_false by done. unfold normalize_partition_id. rewrite Hp, Hr. cbn [mbind res_bind].
  unfold qualified_alias. by rewrite Hs, Ha.
Qed.

(** The key an upload binds is the one the name is looked up by. *)
Lemma plain_bound space alias sp pt key :
  plain_name space alias = true → bound_name (space +:+ "/" +:+ alias) sp pt key →
  sp = space ∧ key = space +:+ String "/" alias.
Proof.
  intros (partition & rest & -> & Hs & Ha & Hch & Hr & Hp & Hparse)%plain_parse (parsed & name & m & Hp' & Hsp & Hpt & Hn & Hk).
  rewrite Hparse in Hp'. injection Hp' as <-. cbn in *. rewrite Hs in Hsp. injection Hsp as <-.
  rewrite Hp in Hpt. injection Hpt as <-. rewrite Hr in Hn. injection Hn as <-. split; [done|]. revert Hk.
  unfold spec_key, _alias_under_partition. cbn. rewrite Hr, Hp. cbn. rewrite Hch.
  unfold qualified_alias. rewrite Hs. cbn. rewrite Ha. cbn. by intros [= <-].
Qed.

Lemma plain_find r space alias b :
  plain_name space alias = true → r_aliases r !! (space +:+ String "/" alias) = Some b → find_binding r space alias = Ok b.
Proof.
  intros (partition & rest & -> & Hs & Ha & _)%plain_parse Hb. unfold find_binding, qualified_alias. rewrite Hs. cbn [mbind res_bind].
  rewrite Ha. cbn [mbind res_bind]. rewrite Hs, Ha. cbn [mbind res_bind mret res_ret]. by rewrite Hb.
Qed.

(** ** The routes the client calls *)

Definition holds x space alias i data : Prop := held_in (ap_guard x) space alias i data.
Definition keeps x x' : Prop := keeps_held (ap_guard x) (ap_guard x').

Lemma bucket_refusal caller bucket operation e :
  assert_service_bucket_allowed caller bucket operation = Err e → e = ValidationError ∨ e = CapabilityDeniedError.
Proof.
  unfold assert_service_bucket_allowed, buckets_for_service. cbv zeta. destruct (lookup_service _ _); cbn; [|by intros [= <-]; right].
  destruct (normalize_bucket bucket) as [b|e'] eqn:Hb; cbn; [destruct (mem _ _); [done|intros [= <-]; by right]|intros [= <-]; left].
  revert Hb. unfold normalize_bucket. repeat case_match; by intros [= <-].
Qed.

Lemma keeps_guard x x' : ap_guard x' = ap_guard x → keeps x x'.
Proof. unfold keeps. intros ->. reflexivity. Qed.

(** A lookup changes nothing, and answers 404 only for a name that is not held. *)
Lemma wp_resolve_route auth space alias n x : app_wf 0 n x →
  wp (route_resolve auth space alias) (λ res _ x', x' = x ∧
    match res with
    | Ok out => ∃ data, holds x space alias (ao_asset_id out) data ∧ describes out data
    | Err e => problem_status (error_response e) = 404 → ∀ i data, ¬ holds x space alias i data
    end) n x.
Proof.
  intros [[Hreg Hst] _ _ _]. unfold route_resolve. wp_step. apply wp_service; [intros _; by split|]. intros caller _. wp_step. wp_step.
  destruct (assert_service_bucket_allowed caller space READ) as [[]|e] eqn:Hb.
  2:{ split; [done|]. destruct (bucket_refusal _ _ _ _ Hb) as [-> | ->]; done. }
  wp_step. apply wp_zoom. unfold resolve_alias, _get_binding, raise_about, holds, held_in.
  change (g_registry (ap_guard x)) with (ap_registry x) in *. reg_steps; rewrite ?set_ap_registry_id.
  all: split; [done|]. all: try (intros He; discriminate He). all: try (intros _ i data (b & a' & Hfind & Hbi & Ha & Hs & _); simplify_eq/=; done).
  - apply negb_false_iff, bool_decide_eq_true in H0. pose proof (get_wf _ _ _ _ Hreg H) as Ha.
    destruct (Hst _ _ H ltac:(by rewrite H0) (aw_available _ _ Ha H0)) as (data & Hdata & Hsize & Hsum).
    exists data. split; [|by split]. exists a, a0. cbn. rewrite (aw_id _ _ Ha). by split_and!.
  - intros He i data (b & a' & Hfind & Hbi & Ha & Hs & _). simplify_eq/=. revert Heqr0 He. unfold require_live.
    rewrite Hs. cbn. destruct (match a_expires_at a0 with Some t => t <=? clock n | None => false end); [|done]. by intros [= <-].
Qed.

(** A grant changes no name and no bytes. *)
Lemma wp_mint_route auth now body n x :
  wp (route_mint_capability auth now body) (λ _ _ x', keeps x x') n x.
Proof.
  eapply wp_mono; [apply wp_mint|]. intros res n' x' (_ & events & [Hr Ho _ _ _ _] & _).
  apply keeps_held_same; change (g_registry (ap_guard x')) with (ap_registry x'); rewrite ?Hr, ?Ho; done.
Qed.

(** An upload that succeeds adds its name. *)
Lemma wp_upload_route auth data u n x : app_wf 0 n x →
  ul_stream u = [Ok data] →
  wp (route_write_object auth u) (λ res _ x', keeps x x' ∧ ∀ out, res = Ok out → describes out data ∧
    ∀ space alias, ul_alias u = space +:+ "/" +:+ alias → plain_name space alias = true →
      holds x' space alias (ao_asset_id out) data) n x.
Proof.
  intros Hwf Hstream. eapply wp_mono; [apply wp_upload|].
  intros res n' x' [_ [(e & l & -> & Hg)|(cap & d & m & l & r & n1 & n2 & _ & _ & Hdata & _ & Hn1 & Hrun & Hout)]].
  { split; [|done]. apply keeps_held_same; by rewrite Hg. }
  rewrite Hstream in Hdata. cbn in Hdata. destruct (_ <? _); [done|]. injection Hdata as ->.
  assert (Hg1 : guard_wf n1 (set_ledger l (ap_guard x))) by (eapply guard_wf_set_ledger, guard_wf_mono; [exact Hn1|apply Hwf]).
  destruct (wp_inv _ _ _ _ _ _ _ (wp_write_object _ _ _ _ _ _ _ _ _ Hg1) Hrun) as [_ Hkept Hothers Hnames _ Hres].
  cbn in Hkept, Hothers, Hnames. split.
  { split; [done|]. intros i b0 Hi0 Hs0. exists b0. split_and!; [by apply Hkept|done|done|by eapply Hothers]. }
  intros out Hr. destruct (Hout out Hr) as (a & -> & ->).
  destruct Hres as (_ & _ & Ha & Hs & _ & Hc & Hsize & Hsum & (k & b & Hname & Hb & Hbi)). split; [by split|].
  intros space alias Hal Hplain. rewrite Hal in Hname. destruct (plain_bound _ _ _ _ _ Hplain Hname) as [_ ->].
  exists b, a. split; [by apply plain_find|]. by split_and!.
Qed.

(** A download changes no name and no bytes, and answers with what the name holds. *)
Lemma wp_download_route auth name n x : app_wf 0 n x →
  wp (route_read_object auth name "proxy" DEFAULT_PRESIGN_TTL_SECONDS) (λ res _ x', keeps x x' ∧
    ∀ body, res = Ok body → ∃ data, body = inl data ∧ ∀ space alias, name = space +:+ "/" +:+ alias → plain_name space alias = true →
      ∃ i, holds x space alias i data) n x.
Proof.
  intros Hwf. unfold route_read_object. wp_step. apply wp_capability; [intros n' x' _ _ [-> | ->]; (split; [by apply keeps_guard|done])|].
  intros cap _. unfold validated. wp_step. apply wp_raise_if; intros _; [split; [by apply keeps_guard|done]|].
  destruct (decide ("proxy" = "presign")) as [Hmode|_]; [discriminate Hmode|]. wp_step.
  apply wp_raise_if; intros _; [split; [by apply keeps_guard|done]|]. wp_step. apply wp_zoom. change (ap_guard (pruned n x)) with (ap_guard x).
  assert (Hg : guard_wf (S n) (ap_guard x)) by (eapply guard_wf_mono; [|apply Hwf]; lia).
  eapply wp_mono; [apply wp_and; [by apply wp_read_bytes_held|]|].
  - apply (wp_read_bytes cap name (λ res _ _, ∀ data, res = Ok data → ∀ space alias, name = space +:+ "/" +:+ alias →
      plain_name space alias = true → ∃ i, holds x space alias i data)); [done|done|].
    intros data i a n' g' _ _ (parsed & Hp & Hn) Ha Hs _ Hc data' [= <-] space alias -> Hplain.
    destruct (plain_parse _ _ Hplain) as (partition & rest & -> & _ & _ & _ & _ & _ & Hp'). rewrite Hp' in Hp. injection Hp as <-.
    cbn in Hn. destruct (find_binding _ _ _) as [b|] eqn:Hb; [|done]. injection Hn as Hn.
    exists i, b, a. by split_and!.
  - intros res n' g' [Hk Hd]. destruct res as [data|e]; [wp_step|]; (split; [exact Hk|]); [|done]. intros body [= <-]. exists data. split; [done|]. by apply Hd.
Qed.

(** ** The contract *)

Context (ticks : nat → spec_float).

#[local] Instance store_transport : HttpTransport (App O) := serve_client ticks.

(** The answer to a route that ends in [r]. *)
Definition answer_of (route : Route) (r : res Body) : Answer :=
  match r with
  | Ok body => mk_answer (success_status route) body
  | Err e => mk_answer (problem_status (error_response e)) (BProblem (error_response e))
  end.

Lemma wp_send auth c route (Q : res Answer → nat → App O → Prop) (P : res Body → App O → Prop) n x :
  app_wf 0 n x → route_of (ticks n) c = Some route →
  wp (dispatch auth route) (λ r _ x', P r x') n x →
  (∀ r n' x', (n <= n')%nat → app_wf 0 n' x' → P r x' → Q (Ok (answer_of route r)) n' x') →
  wp (http_send auth c) Q n x.
Proof.
  intros Hwf Hr Hd HQ. unfold http_send, store_transport, serve_client, wp. rewrite Hr. unfold serve. cbn [rq_authorization rq_route].
  pose proof (wp_and _ _ _ _ _ (dispatch_app 0 auth route n x Hwf) Hd) as H. revert H. unfold wp.
  destruct (dispatch auth route n x) as [[r n'] x']. intros [(Hn & Hwf' & _) Hp]. by apply (HQ r n' x').
Qed.

(** What an answer to the request says. *)
Definition answered (route : ClientRoute) (answer : Answer) x x' : Prop :=
  match route with
  | CResolve space alias =>
      (an_status answer = 200 → ∃ out data, an_body answer = BAsset out ∧ holds x' space alias (ao_asset_id out) data ∧ describes out data) ∧
      (an_status answer = 404 → ∀ i d, ¬ holds x space alias i d)
  | CMint _ => an_status answer = 201 → ∃ capability, an_body answer = BCapability capability
  | CPutObject path data _ _ => an_status answer = 201 → ∃ out, an_body answer = BAsset out ∧ describes out data ∧
      ∀ space alias, path_names path space alias → holds x' space alias (ao_asset_id out) data
  | CGetObject path => an_status answer = 200 → ∃ data, an_body answer = BBytes data ∧
      ∀ space alias, path_names path space alias → ∃ i, holds x space alias i data
  end.

(** A status that only a body of the route has. *)
Lemma refused_status e : problem_status (error_response e) ≠ 200 ∧ problem_status (error_response e) ≠ 201.
Proof using Type. by destruct e. Qed.

Lemma wp_answered auth route n x : app_wf 0 n x →
  wp (http_send auth route) (λ res n' x', (n <= n')%nat ∧ app_wf 0 n' x' ∧ keeps x x' ∧
    ∀ answer, res = Ok answer → answered route answer x x') n x.
Proof.
  intros Hwf. destruct route as [space alias|body|path data mime expected|path].
  - eapply wp_send; [exact Hwf|done| |].
    { cbn [dispatch]. unfold fmap, M_fmap. apply wp_bind. eapply wp_mono; [by apply wp_resolve_route|].
      instantiate (1 := λ r x', x' = x ∧ match r with
        | Ok body => ∃ out data, body = BAsset out ∧ holds x space alias (ao_asset_id out) data ∧ describes out data
        | Err e => problem_status (error_response e) = 404 → ∀ i data, ¬ holds x space alias i data end).
      intros [out|e] n' x' [-> H]; [wp_step; split; [done|]|by split]. destruct H as (data & ? & ?). by exists out, data. }
    intros r n' x' Hn Hwf' [-> H]. split_and!; [done|done|by apply keeps_guard|]. intros answer [= <-]. cbn [answered].
    destruct r as [body|e]; cbn [answer_of an_status an_body]; [by split|]. split; [|exact H]. intros Hs. by destruct (refused_status e).
  - eapply wp_send; [exact Hwf|done| |].
    { cbn [dispatch]. unfold fmap, M_fmap. apply wp_bind. eapply wp_mono; [apply wp_mint_route|].
      instantiate (1 := λ r x', keeps x x' ∧ ∀ body, r = Ok body → ∃ capability, body = BCapability capability).
      intros [out|e] n' x' H; [wp_step|]; (split; [done|]); intros b [= <-]. by exists out. }
    intros r n' x' Hn Hwf' [Hk H]. split_and!; [done..|]. intros answer [= <-]. cbn [answered].
    destruct r as [b|e]; cbn [answer_of an_status an_body]; [intros _; by apply H|]. intros Hs. by destruct (refused_status e).
  - destruct (alias_of_path path) as [name|] eqn:Hname.
    2:{ unfold wp, http_send, store_transport, serve_client. cbn [route_of]. rewrite Hname. cbn. split_and!; [done|done|by apply keeps_guard|done]. }
    eapply wp_send; [exact Hwf|cbn [route_of]; by rewrite Hname| |].
    { cbn [dispatch]. unfold fmap, M_fmap. apply wp_bind. eapply wp_mono; [by eapply (wp_upload_route _ data)|].
      instantiate (1 := λ r x', keeps x x' ∧ ∀ body, r = Ok body → ∃ out, body = BAsset out ∧ describes out data ∧
        ∀ space alias, name = space +:+ "/" +:+ alias → plain_name space alias = true → holds x' space alias (ao_asset_id out) data).
      intros [out|e] n' x' [Hk H]; [wp_step|]; (split; [done|]); intros body [= <-]. exists out. by destruct (H out eq_refl). }
    intros r n' x' Hn Hwf' [Hk H]. split_and!; [done..|]. intros answer [= <-]. cbn [answered].
    destruct r as [b|e]; cbn [answer_of an_status an_body]; [|intros Hs; by destruct (refused_status e)]. intros _.
    destruct (H b eq_refl) as (out & -> & Hd & Hh). exists out. split; [done|]. split; [done|].
    intros space alias [Hal Hplain]. rewrite Hname in Hal. injection Hal as Hal. by apply Hh.
  - destruct (alias_of_path path) as [name|] eqn:Hname.
    2:{ unfold wp, http_send, store_transport, serve_client. cbn [route_of]. rewrite Hname. cbn. split_and!; [done|done|by apply keeps_guard|done]. }
    eapply wp_send; [exact Hwf|cbn [route_of]; by rewrite Hname| |].
    { cbn [dispatch]. apply wp_bind. eapply wp_mono; [by apply (wp_download_route _ name)|].
      instantiate (1 := λ r x', keeps x x' ∧ ∀ body, r = Ok body → ∃ data, body = BBytes data ∧
        ∀ space alias, name = space +:+ "/" +:+ alias → plain_name space alias = true → ∃ i, holds x space alias i data).
      intros [b|e] n' x' [Hk H]; [wp_step|]; (split; [done|]); intros body [= <-]. destruct (H b eq_refl) as (data & -> & Hd). by exists data. }
    intros r n' x' Hn Hwf' [Hk H]. split_and!; [done..|]. intros answer [= <-]. cbn [answered].
    destruct r as [b|e]; cbn [answer_of an_status an_body]; [|intros Hs; by destruct (refused_status e)]. intros _.
    destruct (H b eq_refl) as (data & -> & Hd). exists data. split; [done|].
    intros space alias [Hal Hplain]. rewrite Hname in Hal. injection Hal as Hal. by eapply Hd.
Qed.

#[refine, export] Instance store_server : ServerContract (App O) := {
  sv_ok := app_wf 0;
  sv_holds := holds
}.
Proof.
  - intros n n' a. by apply app_wf_mono.
  - intros a space alias i data i' data'. apply held_unique.
  - intros auth route n x Hwf. eapply wp_mono; [by apply wp_answered|]. intros res n' x' (Hn & Hwf' & Hk & H).
    split_and!; [done|done|intros sp al i d; by apply held_kept|exact H].
Defined.
End FetchStore.
