(* ===== verification/PilotProps.v ===== *)
(** * What the pilot cache guarantees

    An approved image has one name, the store binds it as it is, and a preload stores
    it where a read looks; what a preload returned is read back from the store, and
    reading never asks the origin. *)

From S2P Require Import Prelude Errors Python Effects Paths Models Sha256 Registry Codec ObjectStore Schemas IpAddress Urls Normalize Rules Transport Fetcher Client EnsureUrl Regex PilotPolicy PilotPolicyProps Pilot StoreContract.

(** ** Names of approved images are plain *)

(** The first character of a match, where there is one. *)
Fixpoint starts_within (p : ascii → bool) (r : regex) : bool :=
  match r with
  | RNone | REmpty => true
  | RChar c => class_within p c
  | RSeq r s => starts_within p r && (negb (nullable r) || starts_within p s)
  | RAlt r s => starts_within p r && starts_within p s
  | RStar r => starts_within p r
  end.

Definition head_in (p : ascii → bool) (x : string) : Prop := match x with String c _ => p c = true | EmptyString => True end.

Lemma starts_within_sound p r x : starts_within p r = true → in_language r x → head_in p x.
Proof.
  intros Hr H. induction H as [|q c Hc|r s x y Hx IH1 _ IH2|r s x _ IH|r s x _ IH| |r x y _ IH1 _ IH2]; cbn in Hr |- *; try done.
  - exact (class_within_spec _ _ _ Hr Hc).
  - apply andb_prop in Hr as [Hr Hs]. destruct x as [|c x]; [|by apply IH1].
    apply IH2. apply nullable_matches in Hx. by rewrite Hx in Hs.
  - apply andb_prop in Hr as [Hr _]. by apply IH.
  - apply andb_prop in Hr as [_ Hr]. by apply IH.
  - destruct x as [|c x]; [by apply IH2|by apply IH1].
Qed.

(** A pattern whose matches are segments of a path. *)
Definition no_slash (c : ascii) : bool := negb (Ascii.eqb c "/").
Definition no_dot (c : ascii) : bool := negb (Ascii.eqb c ".").
Definition segment_pattern (r : regex) : bool := classes_within no_slash r && starts_within no_dot r && negb (nullable r).

Lemma segment_valid r x : segment_pattern r = true → in_language r x → valid_path x.
Proof.
  unfold segment_pattern. intros [[Hc Hs]%andb_prop Hn%negb_true_iff]%andb_prop Hm.
  pose proof (matches_all_chars _ _ _ Hc Hm) as Hall. pose proof (starts_within_sound _ _ _ Hs Hm) as Hhead.
  assert (Hne : x ≠ "") by (intros ->; apply nullable_matches in Hm; congruence).
  assert (Hclean : contains_char "/" x = false).
  { apply contains_char_all. eapply all_chars_impl; [|exact Hall]. done. }
  split; [done|]. rewrite (split_on_clean _ _ Hclean). apply Forall_singleton. destruct x as [|c x]; [done|].
  split_and!; [done|..]; intros [= -> _]; by vm_compute in Hhead.
Qed.

Definition quality_format (formats : list string) : regex :=
  rseq [rany [rtext "native"; rtext "default"; rtext "color"; rtext "gray"; rtext "bitonal"]; rtext "."; rany (rtext <$> formats)].

(** The segments of an approved path. *)
Lemma image_segments prefix l path :
  in_language (image_at prefix (rtext <$> l)) path →
  ∃ a region size rotation file, path = prefix +:+ a +:+ String "/" (region +:+ String "/" (size +:+ String "/" (rotation +:+ String "/" file))) ∧
    in_language ark a ∧ in_language _REGION region ∧ in_language _SIZE size ∧
    in_language (RSeq (ropt (rtext "!")) _NUMBER) rotation ∧ in_language (quality_format l) file.
Proof.
  unfold image_at. cbn [rseq]. intros (y & -> & (a & y1 & -> & Ha & Hy1)%matches_seq_inv)%matches_text_seq.
  apply matches_text_seq in Hy1 as (y2 & -> & (region & y3 & -> & Hr & Hy3)%matches_seq_inv).
  apply matches_text_seq in Hy3 as (y4 & -> & (size & y5 & -> & Hs & Hy5)%matches_seq_inv).
  apply matches_text_seq in Hy5 as (y6 & -> & (rq & f & -> & Hrq & Hf)%matches_seq_inv).
  unfold rotation_quality in Hrq. cbn [rseq] in Hrq.
  apply matches_seq_inv in Hrq as (bang & y7 & -> & Hb & (num & y8 & -> & Hn & Hy8)%matches_seq_inv).
  apply matches_text_seq in Hy8 as (y9 & -> & (q & dot & -> & Hq & Hd)%matches_seq_inv).
  exists a, region, size, (bang +:+ num), (q +:+ dot +:+ f). split_and!; try done.
  - by rewrite <- !app_str_assoc.
  - by constructor.
  - unfold quality_format. cbn [rseq]. constructor; [done|]. by constructor.
Qed.

Lemma ark_valid a : in_language ark a → valid_path a.
Proof.
  unfold ark. cbn [rseq]. intros (y & -> & (x & y1 & -> & Hx & Hy1)%matches_seq_inv)%matches_text_seq.
  apply matches_text_seq in Hy1 as (y2 & -> & Hf).
  change ("ark:/12148/" +:+ x +:+ "/f" +:+ y2) with ("ark:" +:+ String "/" ("12148" +:+ String "/" (x +:+ String "/" ("f" +:+ y2)))).
  apply valid_path_app; [by apply (segment_valid (rtext "ark:")); [vm_compute|apply matches_rtext]|].
  apply valid_path_app; [by apply (segment_valid (rtext "12148")); [vm_compute|apply matches_rtext]|].
  apply valid_path_app; [by apply (segment_valid (rplus (RChar is_alnum)))|].
  apply (segment_valid (RSeq (rtext "f") (RSeq nonzero (RStar digit)))); [by vm_compute|].
  apply matches_text_seq. by eexists.
Qed.

(** The prefixes, after their slash. *)
Lemma image_valid prefix l path :
  valid_path prefix → segment_pattern (quality_format l) = true →
  in_language (image_at ("/" +:+ prefix +:+ "/") (rtext <$> l)) path → ∃ rest, path = String "/" rest ∧ valid_path rest.
Proof.
  intros Hprefix Hfmt (a & region & size & rotation & file & -> & Ha & Hr & Hs & Hrot & Hf)%image_segments.
  eexists. rewrite <- !app_str_assoc. split; [reflexivity|].
  apply valid_path_app; [done|]. repeat apply valid_path_app; [by apply ark_valid|by apply (segment_valid _REGION)|by apply (segment_valid _SIZE)| |].
  - by apply (segment_valid (RSeq (ropt (rtext "!")) _NUMBER)).
  - by apply (segment_valid (quality_format l)).
Qed.

(** The name in its partition. *)
Definition tail_at (host path : string) : string := (if decide (host = HOST) then "" else host +:+ "/") +:+ lstrip_by is_slash path.

Lemma tail_normal host policy path :
  _POLICIES host = Some policy → full_match policy path = true →
  normalize_relative_alias (tail_at host path) = Ok (tail_at host path) ∧ is_path_or_child PARTITION (tail_at host path) = false.
Proof.
  intros Hp Hm. pose proof (policy_chars _ _ _ Hp Hm) as Hc. destruct (approved_lstrip _ _ _ Hp Hm) as (p & Hpath & Hl & q & Hq).
  assert (Hv : valid_path p).
  { apply full_match_iff in Hm. destruct (policy_cases _ _ Hp) as [[-> ->]|[-> ->]].
    - destruct (image_valid "iiif" ["jpg"; "jpeg"; "tif"; "tiff"] path) as (rest & Hrest & Hv); [|by vm_compute|done|].
      + by apply (normalize_relative_alias_valid "iiif" "iiif").
      + rewrite Hpath in Hrest. by injection Hrest as ->.
    - destruct (image_valid "iiif/image/v3" ["jpg"; "jpeg"; "tif"; "tiff"; "webp"] path) as (rest & Hrest & Hv); [|by vm_compute|done|].
      + by apply (normalize_relative_alias_valid "iiif/image/v3" "iiif/image/v3").
      + rewrite Hpath in Hrest. by injection Hrest as ->. }
  assert (Hstrip : ∀ h, all_chars is_image_char h = true → strip (h +:+ p) = h +:+ p).
  { intros h Hh. apply strip_by_none. rewrite Hpath in Hc. eapply (all_chars_impl is_image_char).
    - by intros c (_ & _ & _ & -> & _)%image_char_plain.
    - rewrite all_chars_app, Hh. exact Hc. }
  unfold tail_at. rewrite Hl. destruct (policy_cases _ _ Hp) as [[-> _]|[-> _]].
  - rewrite decide_True by done. split; [|by rewrite Hq].
    apply normalize_relative_alias_fix; [done|]. by apply Hstrip.
  - rewrite decide_False by done. split; [|by rewrite Hq]. apply normalize_relative_alias_fix; [|by apply Hstrip].
    rewrite <- app_str_assoc. apply valid_path_app; [|done]. by apply (normalize_relative_alias_valid V3_HOST V3_HOST).
Qed.

(** The store binds the name of an approved image as it is. *)
Lemma alias_plain host policy path :
  _POLICIES host = Some policy → full_match policy path = true → plain_name "cache" (alias_at host path) = true.
Proof.
  intros Hp Hm. destruct (tail_normal _ _ _ Hp Hm) as [Hn Hch]. unfold plain_name.
  change (alias_at host path) with (PARTITION +:+ String "/" (tail_at host path)).
  rewrite partition_on_app by done. unfold is_fixed at 3. rewrite Hn, Hch, bool_decide_true by done. done.
Qed.

(** ** Where a preload puts an image *)

Lemma removeprefix_app p s : removeprefix p (p +:+ s) = s.
Proof. unfold removeprefix. by rewrite drop_prefix_app. Qed.

(** What is fetched for a URL that was accepted, and under which name. *)
Lemma approved_target raw t :
  require raw = Ok t → (String.length (fetch_url t) <= 2048)%nat →
  ∃ host policy path, _POLICIES host = Some policy ∧ full_match policy path = true ∧ fetch_url t = origin_of host path ∧
    require (fetch_url t) = Ok (mk_target (fetch_url t) path host) ∧
    fetch_url (mk_target (fetch_url t) path host) = fetch_url t ∧ relative_alias t = Ok (alias_at host path).
Proof.
  intros Hr Hlen. destruct (fetch_target _ _ Hr Hlen) as (host & policy & path & Hp & Hm & Hf & Hreq & Hfix & Hal).
  exists host, policy, path. split_and!; [done..|]. rewrite <- Hal. unfold relative_alias. rewrite Hfix.
  by rewrite decide_False by (intros H; by apply H).
Qed.

Lemma approved_placement raw t no_cache :
  require raw = Ok t → (String.length (fetch_url t) <= 2048)%nat →
  ∃ u alias, normalized_request (fetch_url t) = Ok u ∧ canonical u = fetch_url t ∧ relative_alias t = Ok alias ∧
    plain_name "cache" alias = true ∧
    placement pilot_rules u (preload_args (fetch_url t) no_cache) = Ok (mk_placement "cache" PARTITION alias).
Proof.
  intros Hr Hlen. destruct (approved_target _ _ Hr Hlen) as (host & policy & path & Hp & Hm & Hf & _ & Hfix & Hal).
  exists (mk_normalized "https" host None path ""), (alias_at host path). rewrite Hf in Hlen, Hfix |- *.
  unfold normalized_request. rewrite (normalize_origin _ _ _ Hp Hm). split_and!; [done|done|done|by apply (alias_plain _ policy)|].
  unfold placement, evaluate. cbn [rules pilot_rules first_match rule_match gallica_rule].
  rewrite (gallica_match_origin _ _ _ Hp Hm Hlen Hfix). cbn [mbind res_bind mret res_ret primary_alias rm_aliases rm_mirror_id].
  change (alias_at host path) with ((PARTITION +:+ "/") +:+ tail_at host path). by rewrite removeprefix_app.
Qed.

Lemma origin_of_inj host policy path host' policy' path' :
  _POLICIES host = Some policy → _POLICIES host' = Some policy' →
  full_match policy path = true → full_match policy' path' = true →
  origin_of host path = origin_of host' path' → host = host' ∧ path = path'.
Proof.
  intros Hp Hp' Hm Hm' H. unfold origin_of in H. apply app_str_inj in H.
  destruct (policy_cases _ _ Hp) as [[-> _]|[-> _]], (policy_cases _ _ Hp') as [[-> _]|[-> _]]; try discriminate H;
    (split; [done|by apply app_str_inj in H]).
Qed.

(** Two accepted URLs have the same name exactly if the same resource is fetched. *)
Lemma same_alias raw1 raw2 t1 t2 :
  require raw1 = Ok t1 → require raw2 = Ok t2 → relative_alias t1 = relative_alias t2 ↔ fetch_url t1 = fetch_url t2.
Proof.
  intros (h1 & pol1 & path1 & Hp1 & Hm1 & Hf1 & Ha1)%fetch_place (h2 & pol2 & path2 & Hp2 & Hm2 & Hf2 & Ha2)%fetch_place.
  rewrite Ha1, Ha2, Hf1, Hf2. split.
  - intros H. assert (alias_at h1 path1 = alias_at h2 path2) as H' by congruence. by destruct (alias_at_inj _ _ _ _ _ _ Hp1 Hm1 Hp2 Hm2 H') as [-> ->].
  - intros H. by destruct (origin_of_inj _ _ _ _ _ _ Hp1 Hp2 Hm1 Hm2 H) as [-> ->].
Qed.

(** ** Preload and read over a store that keeps its contract *)

Section Pilot.
#[local] Set Default Proof Using "Type*".
Context {E : Env} {A N : Type} `{!AssetStoreClient A} `{!StoreContract A} `{!PolicyFetcher N}.
Context (fetch_advances : ∀ url check, advances (fetch_checked url check : M N FetchedContent)).
Context (max_bytes : Z).
Implicit Types w : World A N.

(** The approved fetcher, on the network alone. *)
#[local] Instance net_fetcher : UrlFetcher N := approved_fetch max_bytes.
#[local] Instance pilot_fetcher : UrlFetcher (World A N) := approved_fetcher max_bytes.

Lemma net_advances url : advances (fetch url : M N FetchedContent).
Proof. unfold fetch, net_fetcher, approved_fetch. cbv zeta. pose proof fetch_advances. solve_advances. Qed.

Lemma pilot_at_net url n w : pilot_fetcher url n w = at_net (fetch url) n w.
Proof.
  unfold pilot_fetcher, approved_fetcher, fetch, net_fetcher, approved_fetch. cbv zeta.
  unfold at_net, zoom, mbind, M_bind, of_res, fetch_checked at 1, world_policy_fetcher, at_net, zoom, raise_if, raise, mret, M_ret.
  destruct (require url) as [t|e]; cbn; [|by destruct w].
  destruct (fetch_checked url _ n (wd_net w)) as [[[content|e] n'] net]; cbn; [|done].
  destruct (max_bytes <? _); [done|]. destruct (negb _); done.
Qed.

(** What a preload that returns has done. *)
Definition preloaded (alias : string) (w' : World A N) (r : EnsureUrlResult) : Prop :=
  er_qualified_alias r = "cache/" +:+ alias ∧ er_bucket r = "cache" ∧ er_partition_id r = PARTITION ∧
  ∃ data, st_holds (wd_store w') "cache" alias (er_asset_id r) data.

Lemma wp_preload url t alias no_cache n w :
  st_ok n (wd_store w) → require url = Ok t → (String.length (fetch_url t) <= 2048)%nat → relative_alias t = Ok alias →
  wp (preload max_bytes record_refetch url no_cache) (λ res n' w', (n <= n')%nat ∧ st_ok n' (wd_store w') ∧
    keeps_names (wd_store w) (wd_store w') ∧ ∀ r, res = Ok r → preloaded alias w' r ∧
      (no_cache = false → ∀ i d, st_holds (wd_store w) "cache" alias i d → er_cache_hit r = true)) n w.
Proof.
  intros Hok Hr Hlen Hal. destruct (approved_placement url t no_cache Hr Hlen) as (u & alias' & Hu & _ & Hal' & Hplain & Hp).
  rewrite Hal in Hal'. injection Hal' as <-. unfold preload. rewrite Hr. do 2 wp_step. apply wp_catch.
  eapply wp_mono; [by apply (wp_ensure_url net_advances pilot_fetcher pilot_at_net)|].
  intros [r|e] n1 w1 (Hn1 & Hok1 & Hk1 & H).
  - split_and!; [done..|]. intros r' [= <-]. destruct (H r eq_refl) as (u' & p & Hu' & Hp' & (Hq & Hb & Hpt) & Hobt).
    cbn in Hu'. rewrite Hu in Hu'. injection Hu' as <-. rewrite Hp in Hp'. injection Hp' as <-. split.
    + split_and!; [done..|]. destruct Hobt as [data ? ? ? Hh|content m1 m2 data ? ? ? Hh ?|content m1 m2 ? ? ? Hh]; eauto.
    + intros Hnc i d Hi. destruct Hobt as [? ?|? ? ? ? ? Hca|? ? ? ? ? Hnone ?]; [done| |by destruct (Hnone i d)].
      cbn in Hca. congruence.
  - clear H. assert (Hraise : ∀ e' (Q : EnsureUrlResult → Prop), (n <= n1)%nat ∧ st_ok n1 (wd_store w1) ∧
      keeps_names (wd_store w) (wd_store w1) ∧ ∀ r, Err e' = Ok r → Q r) by done.
    destruct (has_status [409] e); [|wp_step; apply Hraise].
    unfold concurrent_result. rewrite Hal. do 2 wp_step. cbv iota. wp_step. apply wp_catch. cbn [client_resolve world_client].
    apply wp_at_store. eapply wp_mono; [by apply st_resolve|]. intros [[out|]|e'] n2 a2 (Hn2 & Hok2 & Hk2 & H).
    + wp_step. split_and!; [lia|done|by etrans|]. intros r [= <-]. destruct H as (data & Hh & _).
      split; [|done]. split_and!; [done..|]. by exists data.
    + wp_step. split_and!; [lia|done|by etrans|done].
    + wp_step. split_and!; [lia|done|by etrans|done].
Qed.

(** ** Read *)

Implicit Types p : PilotCache (World A N).

(** A step of a read: the store stays in order and keeps its names, and the network
    is left alone. *)
Record read_step (n : nat) p (n' : nat) p' : Prop := {
  rd_le : (n <= n')%nat;
  rd_ok : st_ok n' (wd_store (pc_world p'));
  rd_net : wd_net (pc_world p') = wd_net (pc_world p);
  rd_keeps : keeps_names (wd_store (pc_world p)) (wd_store (pc_world p'))
}.

Lemma read_step_refl n p : st_ok n (wd_store (pc_world p)) → read_step n p n p.
Proof. by split. Qed.

Lemma read_step_trans n1 p1 n2 p2 n3 p3 : read_step n1 p1 n2 p2 → read_step n2 p2 n3 p3 → read_step n1 p1 n3 p3.
Proof. intros [] []. split; [lia|done|congruence|by etrans]. Qed.

Lemma wp_on_store {B} (m : M A B) (Q : res B → nat → PilotCache (World A N) → Prop) n p :
  wp m (λ r n' a', Q r n' (set_pc_world (set_wd_store a' (pc_world p)) p)) n (wd_store (pc_world p)) →
  wp (on_world (at_store m)) Q n p.
Proof. intros H. apply wp_zoom. by apply wp_at_store. Qed.

Lemma wp_token stale n p : st_ok n (wd_store (pc_world p)) →
  wp (_read_token stale) (λ _ n' p', read_step n p n' p') n p.
Proof.
  intros Hok.
  assert (Hfresh : wp (fresh_token (S:=World A N)) (λ _ n' p', read_step n p n' p') n p).
  { unfold fresh_token. wp_step. cbn [mint_read_capability world_client]. apply wp_on_store.
    eapply wp_mono; [by apply st_mint_read|]. intros [token|e] n1 a1 (Hn1 & Hok1 & Hk); wp_steps; by split. }
  unfold _read_token. wp_step. wp_step. destruct (pc_read_capability p) as [token|]; [|done].
  destruct (decide (Some token = stale)); [done|]. wp_step. by apply read_step_refl.
Qed.

Lemma wp_read_store capability alias n p : st_ok n (wd_store (pc_world p)) →
  wp (on_world (client_read_object capability ("cache/" +:+ alias) max_bytes)) (λ res n' p', read_step n p n' p' ∧
    ∀ data, res = Ok data → plain_name "cache" alias = true → ∃ i, st_holds (wd_store (pc_world p)) "cache" alias i data) n p.
Proof.
  intros Hok. cbn [client_read_object world_client]. apply wp_on_store.
  change ("cache/" +:+ alias) with ("cache" +:+ "/" +:+ alias).
  eapply wp_mono; [by apply st_read|]. intros res n1 a1 (Hn1 & Hok1 & Hk & H). split; [by split|]. by intros data ->.
Qed.

Lemma wp_download alias n p : st_ok n (wd_store (pc_world p)) → plain_name "cache" alias = true →
  wp (download max_bytes alias) (λ res n' p', read_step n p n' p' ∧
    ∀ data, res = Ok data → ∃ i, st_holds (wd_store (pc_world p')) "cache" alias i data) n p.
Proof.
  intros Hok Hplain. unfold download. wp_step. eapply wp_mono; [by apply wp_token|].
  intros [token|e] n1 p1 H1; [|by split]. apply wp_catch.
  eapply wp_mono; [apply wp_read_store, H1|]. intros res n2 p2 [H2 Hd]. pose proof (read_step_trans _ _ _ _ _ _ H1 H2) as H12.
  destruct res as [data|e].
  { split; [done|]. intros data' [= <-]. destruct (Hd data eq_refl Hplain) as [i Hi]. exists i. by apply H2. }
  destruct (has_status [403] e); [|wp_step; by split].
  wp_step. eapply wp_mono; [apply wp_token, H12|]. intros [token'|e'] n3 p3 H3; pose proof (read_step_trans _ _ _ _ _ _ H12 H3) as H13; [|by split].
  eapply wp_mono; [apply wp_read_store, H3|]. intros res n4 p4 [H4 Hd4]. split; [by eapply read_step_trans|].
  intros data ->. destruct (Hd4 data eq_refl Hplain) as [i Hi]. exists i. by apply H4.
Qed.

(** What a read that returns serves. *)
Definition served (alias : string) p' (img : CachedImage) : Prop :=
  (∃ i, st_holds (wd_store (pc_world p')) "cache" alias i (im_data img)) ∧ im_checksum img = checksum_of (im_data img) ∧
  im_mime img ∈ IMAGE_MIMES ∧ Z.of_nat (length (im_data img)) <= max_bytes.

Lemma readable_inv asset size mime :
  readable max_bytes asset = Ok (size, mime) → size <= max_bytes ∧ mime ∈ IMAGE_MIMES.
Proof.
  unfold readable. destruct (ao_size_bytes asset) as [z|]; [|done]. destruct (z <? 0); [done|].
  destruct (max_bytes <? z) eqn:Hz; [done|]. destruct (ao_mime asset) as [m|]; [|done].
  destruct (mem m IMAGE_MIMES) eqn:Hm; [|done]. intros [= <- <-]. split; [lia|by apply mem_true].
Qed.

Lemma wp_pilot_read t alias n p : st_ok n (wd_store (pc_world p)) → relative_alias t = Ok alias → plain_name "cache" alias = true →
  wp (pilot_read max_bytes t) (λ res n' p', read_step n p n' p' ∧ ∀ img, res = Ok img → served alias p' img) n p.
Proof.
  intros Hok Hal Hplain. unfold pilot_read. rewrite Hal. do 2 wp_step. apply wp_catch.
  assert (wp (read_image max_bytes alias) (λ res n' p', read_step n p n' p' ∧ ∀ img, res = Ok img → served alias p' img) n p) as Hread.
  { unfold read_image. wp_step. cbn [client_resolve world_client]. apply wp_on_store.
    eapply wp_mono; [by apply st_resolve|]. intros res n1 a1 (Hn1 & Hok1 & Hk & H).
    set (p1 := set_pc_world _ p). assert (H1 : read_step n p n1 p1) by by split.
    destruct res as [[asset|]|e]; [|by wp_step|done].
    wp_step. wp_step. destruct (readable max_bytes asset) as [[size mime]|e] eqn:Hs; [|done].
    apply readable_inv in Hs as [Hle Hmime]. wp_step. eapply wp_mono; [apply (wp_download alias n1 p1); [apply H1|done]|].
    intros [data|e] n2 p2 [H2 Hd]; pose proof (read_step_trans _ _ _ _ _ _ H1 H2) as H12; [|done].
    cbv zeta. wp_step. apply wp_raise_if; intros Hck; [done|]. apply bool_decide_eq_false in Hck.
    wp_step. split; [done|]. intros img [= <-]. destruct (Hd data eq_refl) as [i Hi]. split_and!; [by exists i|done|done|].
    cbn. destruct (decide (Z.of_nat (length data) = size)) as [->|]; [done|]. destruct Hck. by left. }
  eapply wp_mono; [exact Hread|]. intros [img|e] n1 p1 [H1 Hs]; [done|].
  destruct (has_status [404; 410] e); by wp_step.
Qed.

(** * Properties *)

(** C16.  What was preloaded is read back.  After a preload of an approved URL that
    returned, and whatever else the store has been asked since that loses no name, a
    read of any approved URL for the same image asks the origin nothing, and what it
    serves are the bytes of the asset the preload named, with their checksum, as an
    image within the byte limit. *)
Theorem preload_then_read (url raw : string) (no_cache : bool) (t t2 : PilotTarget)
    (n : nat) (w : World A N) (r : EnsureUrlResult) (n1 : nat) (w1 : World A N)
    (n2 : nat) (p : PilotCache (World A N)) (res : res CachedImage) (n3 : nat) (p' : PilotCache (World A N)) :
  st_ok n (wd_store w) → require url = Ok t → require raw = Ok t2 → fetch_url t2 = fetch_url t →
  (String.length (fetch_url t) <= 2048)%nat →
  preload max_bytes record_refetch url no_cache n w = (Ok r, n1, w1) →
  st_ok n2 (wd_store (pc_world p)) → keeps_names (wd_store w1) (wd_store (pc_world p)) →
  pilot_read max_bytes t2 n2 p = (res, n3, p') →
  wd_net (pc_world p') = wd_net (pc_world p) ∧
  ∀ img, res = Ok img → ∃ alias, relative_alias t = Ok alias ∧ er_qualified_alias r = "cache/" +:+ alias ∧
    st_holds (wd_store (pc_world p)) "cache" alias (er_asset_id r) (im_data img) ∧
    im_checksum img = checksum_of (im_data img) ∧ im_mime img ∈ IMAGE_MIMES ∧ Z.of_nat (length (im_data img)) <= max_bytes.
Proof.
  intros Hok Hr Hr2 Hsame Hlen Hrun Hok2 Hk Hread.
  destruct (approved_placement url t no_cache Hr Hlen) as (_ & alias & _ & _ & Hal & Hplain & _).
  assert (Hsame_alias : relative_alias t2 = Ok alias).
  { destruct (same_alias raw url t2 t Hr2 Hr) as [_ H]. by rewrite H. }
  destruct (wp_inv _ _ _ _ _ _ _ (wp_preload url t alias no_cache n w Hok Hr Hlen Hal) Hrun) as (_ & _ & _ & H).
  destruct (H r eq_refl) as [(Hq & _ & _ & data & Hheld) _].
  destruct (wp_inv _ _ _ _ _ _ _ (wp_pilot_read t2 alias n2 p Hok2 Hsame_alias Hplain) Hread) as [[_ _ Hnet Hkeep] Hs].
  split; [done|]. intros img ->. destruct (Hs img eq_refl) as ((i & Hi) & Hck & Hm & Hl). exists alias. split_and!; [done|done| |done..].
  apply Hk in Hheld. destruct (st_unique _ _ _ _ _ _ _ (Hkeep _ _ _ _ Hheld) Hi) as [_ ->]. done.
Qed.
End Pilot.

(** C17.  An approved image has one name.  For two URLs the policy accepts: their names
    are equal exactly if the same resource is fetched for both; and for each whose
    fetched URL is at most 2048 characters long, that URL is canonical and accepted
    itself, the rules place it under the very name a read looks up, and the store
    binds that name as it is.  A translated URL can be longer than that: then the
    policy denies it, although it accepted the URL it stands for. *)
Theorem approved_name (raw1 raw2 : string) (t1 t2 : PilotTarget) :
  require raw1 = Ok t1 → require raw2 = Ok t2 →
  (relative_alias t1 = relative_alias t2 ↔ fetch_url t1 = fetch_url t2) ∧
  ((String.length (fetch_url t1) <= 2048)%nat → ∃ alias u t, relative_alias t1 = Ok alias ∧
     normalize_url (fetch_url t1) = Ok u ∧ canonical u = fetch_url t1 ∧
     require (fetch_url t1) = Ok t ∧ relative_alias t = Ok alias ∧ fetch_url t = fetch_url t1 ∧
     placement pilot_rules u (preload_args (fetch_url t1) false) = Ok (mk_placement "cache" PARTITION alias) ∧
     plain_name "cache" alias = true) ∧
  ((2048 < String.length (fetch_url t1))%nat → require (fetch_url t1) = Err denied).
Proof.
  intros H1 H2. split; [by apply (same_alias raw1 raw2)|]. split; intros Hlen.
  2:{ unfold require. rewrite (proj2 (Nat.ltb_lt _ _) Hlen). by rewrite orb_true_r. }
  destruct (approved_placement raw1 t1 false H1 Hlen) as (u & alias & Hu & Hc & Hal & Hplain & Hp).
  destruct (fetch_target _ _ H1 Hlen) as (host & policy & path & _ & _ & _ & Hreq & Hfix & Hal2).
  exists alias, u, (mk_target (fetch_url t1) path host). split_and!; try done; [|by rewrite Hal2].
  unfold normalized_request in Hu. destruct (normalize_url _) as [u'|e]; [by injection Hu as ->|by destruct e].
Qed.

Lemma approved_name_witness :
  match require "https://gallica.bnf.fr/iiif/ark:/12148/bpt6k1/f1/full/full/0/native.jpg",
        require "https://openapi.bnf.fr/iiif/image/v3/ark:/12148/bpt6k1/f1/full/max/0/default.jpg" with
  | Ok t1, Ok t2 => t1 ≠ t2 ∧ relative_alias t1 = relative_alias t2
  | _, _ => False
  end.
Proof.
  destruct (require "https://gallica.bnf.fr/iiif/ark:/12148/bpt6k1/f1/full/full/0/native.jpg") as [t1|] eqn:H1;
    [|vm_compute in H1; discriminate H1].
  destruct (require "https://openapi.bnf.fr/iiif/image/v3/ark:/12148/bpt6k1/f1/full/max/0/default.jpg") as [t2|] eqn:H2;
    [|vm_compute in H2; discriminate H2].
  destruct (approved_name _ _ _ _ H1 H2) as [[_ Hiff] _].
  assert (Hne : t1 ≠ t2 ∧ fetch_url t1 = fetch_url t2).
  { vm_compute in H1, H2. injection H1 as <-. injection H2 as <-. split; [discriminate|vm_compute; reflexivity]. }
  destruct Hne as [Hne Hf]. split; [exact Hne|exact (Hiff Hf)].
Defined.
