(* ===== verification/AddressProps.v ===== *)
(** * Addresses the fetcher refuses

    The ranges of addresses that lead inside, written out by their leading bytes, and
    that [blocked_ip] refuses every one of them. *)

From S2P Require Import Prelude Errors Python Effects Codec IpAddress Transport.

(** ** Addresses that lead inside

    By their leading bytes: this host, private, link-local, shared, multicast and
    reserved IPv4 addresses; the loopback, unique-local and link-local IPv6 addresses,
    and those an IPv4 address hides in. *)

Definition internal_v4 (ip : Z) : bool :=
  let a := ip / 2 ^ 24 in
  let b := ip / 2 ^ 16 mod 256 in
  (a =? 0) || (a =? 10) || (a =? 127) || ((a =? 169) && (b =? 254)) || ((a =? 172) && (16 <=? b) && (b <=? 31)) ||
  ((a =? 192) && (b =? 168)) || ((a =? 100) && (64 <=? b) && (b <=? 127)) || ((224 <=? a) && (a <=? 255)).

Definition internal_v6 (ip : Z) : bool :=
  (ip =? 0) || (ip =? 1) || (ip / 2 ^ 121 =? 126) || (ip / 2 ^ 118 =? 1018) || (ip / 2 ^ 120 =? 255) ||
  (ip / 2 ^ 112 =? 8194) || (ip / 2 ^ 96 =? 536936448) || (ip / 2 ^ 32 =? 6619035 * 2 ^ 64).

Definition internal (a : IPAddress) : bool :=
  match a with
  | IPv4 ip => internal_v4 ip
  | IPv6 ip _ => internal_v6 ip || match ipv4_mapped ip with Some mapped => internal_v4 mapped | None => false end
  end.

(** An address is in a network when its leading bits are. *)
Lemma in_network_at width ip n k q :
  width - net_prefixlen n = k → 0 <= k → net_address n / 2 ^ k = q → in_network width ip n = (ip / 2 ^ k =? q).
Proof. intros <- Hk <-. unfold in_network. by rewrite !Z.shiftr_div_pow2. Qed.

Lemma in_network_host width ip n q : width - net_prefixlen n = 0 → net_address n = q → in_network width ip n = (ip =? q).
Proof. intros Hk <-. rewrite (in_network_at _ _ _ 0 (net_address n / 2 ^ 0)) by (done || lia). by rewrite !Z.div_1_r. Qed.

(** [lia] with the powers of two as numerals and division by its equations. *)
Ltac plia :=
  repeat match goal with
  | |- context [2 ^ ?k] => let v := eval vm_compute in (2 ^ k) in change (2 ^ k) with v
  | H : context [2 ^ ?k] |- _ => let v := eval vm_compute in (2 ^ k) in change (2 ^ k) with v in H
  end; Z.to_euclidean_division_equations; lia.

Ltac in_host q := rewrite (in_network_host _ _ _ q) by reflexivity.
Ltac in_net k q := rewrite (in_network_at _ _ _ k q) by (reflexivity || lia).

Lemma blocked_private_v4 ip n :
  n ∈ v4_private_networks → in_v4 ip n = true → ip / 2 ^ 16 ≠ 49152 → blocked_v4 ip = true.
Proof.
  intros Hn Hin Hne. unfold blocked_v4, is_global, v4_is_private.
  replace (existsb (in_v4 ip) v4_private_networks) with true.
  2:{ symmetry. apply existsb_exists. exists n. split; [by apply list_elem_of_In|done]. }
  replace (forallb _ v4_private_exceptions) with true; [by rewrite andb_false_r|].
  symmetry. cbn [forallb v4_private_exceptions]. unfold in_v4. in_host 3221225481. in_host 3221225482.
  rewrite !(proj2 (Z.eqb_neq _ _)); [done|plia..].
Qed.

Lemma blocked_internal_v4 ip : internal_v4 ip = true → blocked_v4 ip = true.
Proof.
  assert (Hprivate : ∀ n, n ∈ v4_private_networks → in_v4 ip n = true → ip / 2 ^ 16 ≠ 49152 → blocked_v4 ip = true)
    by (intros n; apply blocked_private_v4).
  unfold internal_v4. cbv zeta. intros H.
  repeat (apply orb_prop in H as [H|H]).
  - apply (Hprivate (v4 0 0 0 0 8)); [set_solver|unfold in_v4; in_net 24 0; plia|plia].
  - apply (Hprivate (v4 10 0 0 0 8)); [set_solver|unfold in_v4; in_net 24 10; plia|plia].
  - apply (Hprivate (v4 127 0 0 0 8)); [set_solver|unfold in_v4; in_net 24 127; plia|plia].
  - apply (Hprivate (v4 169 254 0 0 16)); [set_solver|unfold in_v4; in_net 16 43518; plia|plia].
  - apply (Hprivate (v4 172 16 0 0 12)); [set_solver|unfold in_v4; in_net 20 2753; plia|plia].
  - apply (Hprivate (v4 192 168 0 0 16)); [set_solver|unfold in_v4; in_net 16 49320; plia|plia].
  - unfold blocked_v4, is_global. replace (in_v4 ip v4_public_network) with true; [done|].
    symmetry. unfold in_v4. in_net 22 401. plia.
  - destruct (decide (ip / 2 ^ 24 < 240)).
    + unfold blocked_v4, is_multicast. replace (in_v4 ip v4_multicast_network) with true; [by rewrite orb_true_r|].
      symmetry. unfold in_v4. in_net 28 14. plia.
    + apply (Hprivate (v4 240 0 0 0 4)); [set_solver|unfold in_v4; in_net 28 15; plia|plia].
Qed.

Lemma blocked_private_v6 ip scope n :
  n ∈ v6_private_networks → in_v6 ip n = true → ipv4_mapped ip = None → ip / 2 ^ 112 ≠ 8193 → blocked_ip (IPv6 ip scope) = true.
Proof.
  intros Hn Hin Hm Hne. unfold blocked_ip, is_global, v6_is_private. rewrite Hm.
  replace (existsb (in_v6 ip) v6_private_networks) with true.
  2:{ symmetry. apply existsb_exists. exists n. split; [by apply list_elem_of_In|done]. }
  replace (forallb _ v6_private_exceptions) with true; [done|].
  symmetry. cbn [forallb v6_private_exceptions]. unfold in_v6.
  in_host 42540488241204005274814694018844196865. in_host 42540488241204005274814694018844196866.
  in_net 96 536936451. in_net 80 35188667318546. in_net 100 33558530. in_net 100 33558531.
  rewrite !(proj2 (Z.eqb_neq _ _)); [done|plia..].
Qed.

Lemma blocked_transition ip scope n :
  n ∈ _TRANSITION_NETWORKS → in_v6 ip n = true → ipv4_mapped ip = None → blocked_ip (IPv6 ip scope) = true.
Proof.
  intros Hn Hin Hm. unfold blocked_ip. rewrite Hm. destruct (_ || _); [done|].
  apply existsb_exists. exists n. split; [by apply list_elem_of_In|done].
Qed.

Lemma not_mapped ip : ip / 2 ^ 32 ≠ 65535 → ipv4_mapped ip = None.
Proof. intros H. unfold ipv4_mapped. rewrite Z.shiftr_div_pow2 by lia. by rewrite (proj2 (Z.eqb_neq _ _) H). Qed.

Lemma blocked_internal_v6 ip scope : internal_v6 ip = true → blocked_ip (IPv6 ip scope) = true.
Proof.
  unfold internal_v6. intros H. assert (Hm : ipv4_mapped ip = None).
  { apply not_mapped. repeat (apply orb_prop in H as [H|H]); plia. }
  repeat (apply orb_prop in H as [H|H]).
  - apply (blocked_private_v6 _ _ (v6 [] 128)); [set_solver|unfold in_v6; in_host 0; plia|done|plia].
  - apply (blocked_private_v6 _ _ (v6 [0; 0; 0; 0; 0; 0; 0; 1] 128)); [set_solver|unfold in_v6; in_host 1; plia|done|plia].
  - apply (blocked_private_v6 _ _ (v6 [64512] 7)); [set_solver|unfold in_v6; in_net 121 126; plia|done|plia].
  - apply (blocked_private_v6 _ _ (v6 [65152] 10)); [set_solver|unfold in_v6; in_net 118 1018; plia|done|plia].
  - unfold blocked_ip, is_multicast. replace (in_v6 ip v6_multicast_network) with true; [by rewrite orb_true_r|].
    symmetry. unfold in_v6. in_net 120 255. plia.
  - apply (blocked_transition _ _ (v6 [8194] 16)); [set_solver|unfold in_v6; in_net 112 8194; plia|done].
  - apply (blocked_transition _ _ (v6 [8193] 32)); [set_solver|unfold in_v6; in_net 96 536936448; plia|done].
  - apply (blocked_transition _ _ (v6 [100; 65435] 96)); [set_solver|unfold in_v6; in_net 32 122099644659926101980610560; plia|done].
Qed.

(** No address that leads inside passes. *)
Lemma blocked_internal a : internal a = true → blocked_ip a = true.
Proof.
  destruct a as [ip|ip scope]; cbn [internal].
  - intros H%blocked_internal_v4. revert H. unfold blocked_v4, blocked_ip. by intros ->.
  - intros [H|H]%orb_prop; [by apply blocked_internal_v6|]. destruct (ipv4_mapped ip) as [m|] eqn:Hm; [|done].
    unfold blocked_ip. destruct (_ || _); [done|]. rewrite Hm. by apply blocked_internal_v4.
Qed.
