(* ===== verification/NetworkProps.v ===== *)
(** * What the fetcher asks of the network

    A connection resolves its host once; only addresses of that answer that were checked
    are dialled, and none of them leads inside; a
    fetch makes a bounded number of requests, each for a URL the caller's policy lets
    through, and never returns more than its limit. *)

From S2P Require Import Prelude Errors Python Effects Codec IpAddress Urls Transport AddressProps Fetcher.
From Stdlib Require Import SpecFloat.

(** A computation that takes [J] to [I] of its result, and one that keeps [I]. *)
Definition taking {S A} (J : S → Prop) (I : res A → S → Prop) (m : M S A) : Prop := ∀ n s, J s → wp m (λ r _ s', I r s') n s.
Definition keeping {S A} (I : S → Prop) (m : M S A) : Prop := taking I (λ _, I) m.

(** ** What is dialled *)

(** Every entry of a resolver's answer is an address, and none leads inside unless
    that is allowed. *)
Definition vetted (allow_private_hosts : bool) (infos : list AddrInfo) : Prop :=
  ∀ info, info ∈ infos → ∃ ip, ip_address (ai_address info) = Some ip ∧ (allow_private_hosts = false → internal ip = false).

(** The text of an address of the answer. *)
Definition address_of (infos : list AddrInfo) (address : string) : Prop :=
  ∃ info ip, info ∈ infos ∧ ip_address (ai_address info) = Some ip ∧ address = str_ip ip.

Lemma allowed_spec allow infos addresses l :
  allowed_addresses allow infos addresses = Ok l →
  vetted allow infos ∧ ∀ address, address ∈ l → address ∈ addresses ∨ address_of infos address.
Proof.
  revert addresses. induction infos as [|info infos IH]; intros addresses; cbn.
  { intros [= ->]. split; [by intros ? ?%elem_of_nil|auto]. }
  assert (Hcase : ∀ ip, ip_address (ai_address info) = Some ip →
    (if negb allow && (contains_char "%" (ai_address info) || blocked_ip ip) then Err upstream_error
     else allowed_addresses allow infos (if mem (str_ip ip) addresses then addresses else addresses ++ [str_ip ip])) = Ok l →
    vetted allow (info :: infos) ∧ ∀ address, address ∈ l → address ∈ addresses ∨ address_of (info :: infos) address).
  { intros ip Hip. destruct (_ && _) eqn:Hb; [done|]. intros [Hvet Hl]%IH. split.
    - intros info' [->|Hin]%elem_of_cons; [|by apply Hvet]. exists ip. split; [done|]. intros ->.
      cbn in Hb. apply orb_false_iff in Hb as [_ Hb]. destruct (internal ip) eqn:Hint; [|done].
      apply blocked_internal in Hint. congruence.
    - intros address Ha. destruct (Hl address Ha) as [Hin|(info' & ip' & Hi & ? & ?)].
      2:{ right. exists info', ip'. split_and!; [by right|done..]. }
      assert (address ∈ addresses ∨ address = str_ip ip) as [?| ->]; [|by left|].
      { destruct (mem _ _); [by left|]. apply elem_of_app in Hin as [?|Hin%list_elem_of_singleton]; auto. }
      right. exists info, ip. split_and!; [by left|done..]. }
  destruct (ai_family info); [| |done].
  all: destruct (ip_address (ai_address info)) as [ip|]; [by apply Hcase|done].
Qed.

Section Transport.
#[local] Set Default Proof Using "Type*".
Context {N Stream : Type} `{!Net N Stream}.
Context (host : string) (port : Z) (allow : bool).

(** The stages of a connection: [J], nothing was asked; [F], the resolver gave no
    answer; [I answer], it gave one; [C answer address stream], a dial to an address of
    the answer succeeded.  A stage is left only by the call that leads to the next. *)
Context (J F : N → Prop) (I : list AddrInfo → N → Prop) (C : list AddrInfo → string → Stream → N → Prop).
Context (resolve_takes : taking J (λ r s, match r with Ok (Some infos) => I infos s | _ => F s end) (getaddrinfo host port)).
Context (clock_keeps : keeping J monotonic) (clock_keeps_answer : ∀ infos, keeping (I infos) monotonic).
Context (dial_takes : ∀ infos address timeout, vetted allow infos → address_of infos address →
  taking (I infos) (λ r s, match r with Ok stream => C infos address stream s | Err _ => I infos s end)
    (dial address port timeout)).

(** How a connection ends. *)
Definition dialled (r : res Stream) (s : N) : Prop :=
  match r with
  | Ok stream => ∃ infos address, vetted allow infos ∧ address_of infos address ∧ C infos address stream s
  | Err _ => J s ∨ F s ∨ ∃ infos, I infos s
  end.

Lemma wp_resolve_allowed n s : J s →
  wp (resolve_allowed host port allow) (λ r _ s', match r with
    | Ok l => l ≠ [] ∧ ∃ infos, I infos s' ∧ vetted allow infos ∧ Forall (address_of infos) l
    | Err _ => F s' ∨ ∃ infos, I infos s'
    end) n s.
Proof.
  intros Hs. unfold resolve_allowed. wp_step. eapply wp_mono; [by apply resolve_takes|].
  intros [[infos|]|e] n1 s1 H1; [|wp_step; by left|by left].
  wp_step. wp_step. destruct (allowed_addresses allow infos []) as [l|e] eqn:Hl; [|right; by exists infos].
  apply allowed_spec in Hl as [Hvet Hl]. destruct l as [|a l]; wp_step; [right; by exists infos|].
  split; [done|]. exists infos. split_and!; [done..|].
  apply Forall_forall. intros address Ha. by destruct (Hl address Ha) as [?%elem_of_nil|?].
Qed.

Lemma wp_dial_all infos timeout started last_error addresses n b :
  I infos (bk_net b) → vetted allow infos → Forall (address_of infos) addresses →
  wp (dial_all port timeout started last_error addresses) (λ r _ b', dialled r (bk_net b')) n b.
Proof.
  intros Hb Hvet. revert last_error n b Hb. induction addresses as [|a l IH]; intros last_error n b Hb Hall; cbn [dial_all].
  { wp_step. right; right. by exists infos. }
  apply Forall_cons in Hall as [Ha Hall]. wp_step.
  assert (Hrest : wp (remaining_time timeout started) (λ _ _ b', I infos (bk_net b')) n b).
  { unfold remaining_time. destruct timeout; [|by wp_step]. wp_step. apply wp_zoom.
    eapply wp_mono; [by apply clock_keeps_answer|]. intros [now|e] n1 s1 H1; [by wp_step|done]. }
  eapply wp_mono; [exact Hrest|]. clear Hrest n b Hb. intros [remaining|e] n b Hb; [|right; right; by exists infos].
  wp_step. apply wp_raise_if; intros _; [right; right; by exists infos|]. wp_step. apply wp_catch. wp_step. apply wp_zoom.
  eapply wp_mono; [by apply (dial_takes infos a remaining Hvet Ha)|]. intros [stream|e] n1 s1 H1.
  - wp_step. unfold count_connection. wp_steps. by exists infos, a.
  - destruct (is_connect_failure e); [|wp_step; right; right; by exists infos]. unfold count_connection. wp_steps. by apply IH.
Qed.

Lemma wp_connect timeout n b : J (bk_net b) → bk_allow_private_hosts b = allow →
  wp (connect_tcp host port timeout) (λ r _ b', dialled r (bk_net b')) n b.
Proof.
  intros Hb Hallow. unfold connect_tcp. wp_step. apply wp_zoom. eapply wp_mono; [by apply clock_keeps|].
  intros [started|e] n1 s1 H1; [|by left]. wp_step. wp_step. cbn [bk_allow_private_hosts set_bk_net].
  wp_step. apply wp_catch, wp_zoom.
  change (bk_allow_private_hosts _) with (bk_allow_private_hosts b). rewrite Hallow.
  eapply wp_mono; [by apply wp_resolve_allowed|]. intros [l|e] n2 s2 H2.
  - destruct H2 as (_ & infos & HI & Hvet & Hall). by apply (wp_dial_all infos).
  - unfold count_connection. assert (∀ e, dialled (Err e) s2) by (by right). wp_step. wp_steps; done.
Qed.
End Transport.

(** ** What is requested *)

Lemma urlsplit_error url scheme e : urlsplit url scheme = Err e → e = PyValueError.
Proof.
  unfold urlsplit. cbv zeta. destruct (split_scheme _ _) as [s u]. destruct (match drop_prefix "//" u with Some _ => _ | None => _ end) as [netloc u'].
  destruct (negb _); [by intros [= <-]|]. destruct (split_first "#" u') as [u2 f]. by destruct (split_first "?" u2).
Qed.

Lemma urlparse_error url scheme e : urlparse url scheme = Err e → e = PyValueError.
Proof.
  unfold urlparse. destruct (urlsplit url scheme) as [r|e'] eqn:H; cbn; [|intros [= <-]; by eapply urlsplit_error].
  destruct (mem _ _); [|done]. by destruct (split_params _).
Qed.

Lemma urljoin_error base url e : urljoin base url = Err e → e = PyValueError.
Proof.
  unfold urljoin. repeat (destruct (decide _); [done|]).
  destruct (urlparse base "") as [[b bp]|e'] eqn:Hb; cbn; [|intros [= <-]; by eapply urlparse_error].
  destruct (urlparse url _) as [[r rp]|e'] eqn:Hr; cbn; [|intros [= <-]; by eapply urlparse_error].
  repeat case_match; done.
Qed.

(** A URL a request may be made for: the policy lets it through, its scheme is web and
    it names a host. *)
Definition requestable (validate : string → res unit) (url : string) : Prop :=
  validate url = Ok tt ∧ ∃ parts, urlsplit url "" = Ok parts ∧ lower (sr_scheme parts) ∈ ["http"; "https"] ∧ is_Some (hostname parts).

(** What becomes of an exception of the client: a timeout and any other error of the
    HTTP libraries end as errors of the origin, everything else passes. *)
Definition surfaces (raised e : error) : Prop :=
  match raised with
  | HttpError HttpxTimeoutException | HttpError HttpcoreTimeoutException | HttpError HttpcoreConnectTimeout =>
      e = FetchError UpstreamTimeoutError
  | HttpError _ => e = FetchError UpstreamError
  | _ => e = raised
  end.

(** How a fetch fails: as an error of the origin, as a refusal of the policy, with the
    [ValueError] of a malformed URL, with an exception of the resolver, or as one of
    the client surfaces. *)
Definition fetch_failure (validate : string → res unit) (resolver client : error → Prop) (e : error) : Prop :=
  e = FetchError UpstreamError ∨ (∃ url, validate url = Err e) ∨ e = PyValueError ∨ resolver e ∨
  ∃ raised, client raised ∧ surfaces raised e.

(** The exceptions of a client: what it raises, and what the body of a response may
    end with. *)
Definition http_failure (client : error → Prop) (r : res HttpResponse) : Prop :=
  match r with
  | Err e => client e
  | Ok response => ∀ e, hr_body_error response = Some e → client e
  end.

Lemma read_capped_spec max chunks body_error total data r :
  total = Z.of_nat (length data) → total <= max → read_capped max chunks body_error total data = r →
  match r with
  | Ok data' => data' = data ++ concat chunks ∧ Z.of_nat (length data') <= max
  | Err e => e = upstream_error ∨ body_error = Some e
  end.
Proof.
  revert total data. induction chunks as [|chunk chunks IH]; intros total data -> Hle; cbn.
  - destruct body_error as [e|]; intros <-; [by right|]. by rewrite app_nil_r.
  - destruct (max <? _) eqn:Hm; [intros <-; by left|]. intros <-.
    specialize (IH (Z.of_nat (length data) + Z.of_nat (length chunk)) (data ++ chunk) ltac:(rewrite length_app; lia) ltac:(lia) eq_refl). revert IH.
    destruct (read_capped _ _ _ _ _); [|done]. by rewrite <- app_assoc.
Qed.

Section Http.
#[local] Set Default Proof Using "Type*".
Context {N Stream : Type} `{!Net N Stream} `{!HttpClient N}.
Context (f : HttpFetcher) (validate : string → res unit) (max_nonneg : 0 <= hf_max_bytes f).

(** [K k]: [k] requests were made.  [resolver] and [client] are the exceptions that the
    resolver and the client raise, whatever they are. *)
Context (K : nat → N → Prop) (resolver client : error → Prop).
Context (resolve_keeps : ∀ k host port, taking (K k) (λ r s, K k s ∧ ∀ e, r = Err e → resolver e) (getaddrinfo host port)).
Context (get_counts : ∀ k url, requestable validate url → taking (K k) (λ r s, K (S k) s ∧ http_failure client r) (http_get url)).

#[local] Abbreviation failure := (fetch_failure validate resolver client).

Lemma wp_resolve_host k host n s : K k s →
  wp (resolve_allowed host 443 (hf_allow_private_hosts f)) (λ r _ s', K k s' ∧ ∀ e, r = Err e → e = upstream_error ∨ resolver e) n s.
Proof.
  intros Hs. unfold resolve_allowed. wp_step. eapply wp_mono; [by apply resolve_keeps|].
  intros [[infos|]|e] n1 s1 [H1 He]; [| |split; [done|intros e' [= <-]; right; by apply He]].
  - wp_step. wp_step.
    assert (Herr : ∀ l e, allowed_addresses (hf_allow_private_hosts f) infos l = Err e → e = upstream_error).
    { clear. induction infos as [|info infos IH]; intros l e; cbn; [done|].
      destruct (ai_family info), (ip_address (ai_address info)); try (by intros [= <-]); destruct (_ && _); try (by intros [= <-]); apply IH. }
    destruct (allowed_addresses _ infos []) as [[|a l]|e] eqn:Hl.
    + wp_step. split; [done|]. intros e [= <-]. by left.
    + wp_step. by split.
    + split; [done|]. intros e' [= <-]. left. by eapply Herr.
  - wp_step. split; [done|]. intros e [= <-]. by left.
Qed.

Lemma wp_validate_url k url n s : K k s →
  wp (validate_url f url) (λ r _ s', K k s' ∧
    match r with
    | Ok _ => ∃ parts, urlsplit url "" = Ok parts ∧ lower (sr_scheme parts) ∈ ["http"; "https"] ∧ is_Some (hostname parts)
    | Err e => e = upstream_error ∨ e = PyValueError ∨ resolver e
    end) n s.
Proof.
  intros Hs. unfold validate_url. wp_step. wp_step. destruct (urlsplit url "") as [parts|e] eqn:Hp.
  2:{ split; [done|]. right. left. by eapply urlsplit_error. }
  wp_step. apply wp_raise_if; intros Hm; [by split; [|left]|]. apply negb_false_iff, mem_true in Hm.
  destruct (hostname parts) as [host|] eqn:Hh; [|wp_step; by split; [|left]].
  wp_step. eapply wp_mono; [by apply wp_resolve_host|]. intros [l|e] n1 s1 [H1 He]; [|split; [done|destruct (He e eq_refl); auto]].
  wp_step. split; [done|]. exists parts. by rewrite Hh.
Qed.

Lemma handle_response_spec current response r :
  http_failure client (Ok response) → handle_response f current response = r →
  match r with
  | Ok (inl _) => True
  | Ok (inr content) => Z.of_nat (length (fc_data content)) <= hf_max_bytes f
  | Err e => e = upstream_error ∨ e = PyValueError ∨ client e
  end.
Proof.
  intros Hbody. unfold handle_response. destruct (hr_is_redirect response).
  - destruct (hr_location response) as [location|]; [|by intros <-; left]. destruct (decide _); [by intros <-; left|].
    destruct (urljoin current location) as [next|e] eqn:Hj; cbn; intros <-; [done|]. right. left. by eapply urljoin_error.
  - destruct (400 <=? _); [by intros <-; left|].
    destruct (read_capped _ _ _ _ _) as [data|e] eqn:Hr; cbn; intros <-; apply read_capped_spec in Hr; try done; [by destruct Hr|].
    destruct Hr as [->|Hr]; [by left|]. right. right. by apply Hbody.
Qed.

Lemma translate_surfaces e : surfaces e (translate_http_error e).
Proof. destruct e; try done. cbn. by case_match. Qed.

Lemma translated_failure e :
  e = upstream_error ∨ e = PyValueError ∨ client e → failure (translate_http_error e).
Proof.
  unfold fetch_failure. intros [->|[->|He]]; cbn; auto. do 4 right. exists e. split; [done|apply translate_surfaces].
Qed.

Lemma wp_hop k current n s : K k s →
  wp (fetch_hop f validate current) (λ r _ s',
    match r with
    | Ok next => K (S k) s' ∧ match next with inl _ => True | inr content => Z.of_nat (length (fc_data content)) <= hf_max_bytes f end
    | Err e => (K k s' ∨ K (S k) s') ∧ failure e
    end) n s.
Proof.
  intros Hs. unfold fetch_hop. wp_step. wp_step. destruct (validate current) as [[]|e] eqn:Hv.
  2:{ split; [by left|]. right. left. by exists current. }
  wp_step. eapply wp_mono; [by apply (wp_validate_url k)|]. intros [[]|e] n1 s1 [H1 Hurl].
  2:{ split; [by left|]. destruct Hurl as [->|[->|?]]; unfold fetch_failure; auto 6. }
  apply wp_catch. wp_step. eapply wp_mono; [by apply (get_counts k current)|]. intros [response|e] n2 s2 [H2 Hf].
  - wp_step. destruct (handle_response f current response) as [next|e] eqn:Hh; pose proof (handle_response_spec _ _ _ Hf Hh) as Hspec.
    + by destruct next.
    + wp_step. split; [by right|]. by apply translated_failure.
  - wp_step. split; [by right|]. apply translated_failure. by right; right.
Qed.

Lemma wp_hops hops k current n s : K k s →
  wp (fetch_hops f validate hops current) (λ r _ s', ∃ k', (k <= k' <= k + hops)%nat ∧ K k' s' ∧
    match r with
    | Ok content => Z.of_nat (length (fc_data content)) <= hf_max_bytes f
    | Err e => failure e
    end) n s.
Proof.
  revert k current n s. induction hops as [|hops IH]; intros k current n s Hs; cbn [fetch_hops].
  { wp_step. exists k. split; [lia|]. split; [done|by left]. }
  wp_step. eapply wp_mono; [by apply wp_hop|]. intros [[current'|content]|e] n1 s1 H1.
  - destruct H1 as [H1 _]. eapply wp_mono; [by apply (IH (S k))|]. intros r n2 s2 (k' & Hk & H2 & Hr). exists k'. split; [lia|]. by split.
  - destruct H1 as [H1 Hl]. wp_step. exists (S k). split; [lia|]. by split.
  - destruct H1 as [[H1|H1] He]; [exists k|exists (S k)]; (split; [lia|by split]).
Qed.

(** * Properties *)

(** C14.  A fetch is bounded and answers for itself.  For a byte limit that is not
    negative, it makes at most one request more than the redirects allowed, each for a
    web URL that names a host and that the caller's policy let through, also after a
    redirect, and content it returns is within the limit.  It fails only as an error of
    the origin, as a refusal of the policy, with the [ValueError] of a malformed URL,
    with whatever the resolver raised, or with what the client raised: a timeout of the
    HTTP libraries as [UpstreamTimeoutError], another of their errors as
    [UpstreamError], and anything else unchanged. *)
Theorem fetch_bounded (url : string) (n : nat) (s : N) (r : res FetchedContent) (n' : nat) (s' : N) :
  K 0 s → fetch_with_policy f url validate n s = (r, n', s') →
  ∃ k, (k <= Z.to_nat (hf_max_redirects f + 1))%nat ∧ K k s' ∧
    match r with
    | Ok content => Z.of_nat (length (fc_data content)) <= hf_max_bytes f
    | Err e => fetch_failure validate resolver client e
    end.
Proof.
  intros Hs Hrun. destruct (wp_inv _ _ _ _ _ _ _ (wp_hops _ 0%nat url _ _ Hs) Hrun) as (k & Hk & H). exists k. split; [lia|exact H].
Qed.
End Http.

(** C13.  Only checked addresses are dialled, after one resolution.  Take any account of a
    connection's stages in which nothing is known to hold after a call but this: the
    clock changes no stage; resolving the host takes [J], the start, to [I answer] or,
    without an answer, to [F]; and a dial takes [I answer] to [C], or back if it fails,
    if it is to an address of that answer and every entry of the answer is an address
    that, unless private hosts are allowed, lies outside.  Then a stream is returned
    only in stage [C] of such an address, and a failure ends in one of the other
    stages: the host is resolved at most once, no other address is dialled, and
    nothing follows the dial that succeeds. *)
Theorem connect_validated {N Stream : Type} `{!Net N Stream} (J F : N → Prop) (I : list AddrInfo → N → Prop)
    (C : list AddrInfo → string → Stream → N → Prop)
    (host : string) (port : Z) (timeout : option spec_float) (n : nat) (b : ValidatedNetworkBackend N)
    (r : res Stream) (n' : nat) (b' : ValidatedNetworkBackend N) :
  taking J (λ r s, match r with Ok (Some infos) => I infos s | _ => F s end) (getaddrinfo host port) →
  keeping J monotonic → (∀ infos, keeping (I infos) monotonic) →
  (∀ infos address timeout, vetted (bk_allow_private_hosts b) infos → address_of infos address →
     taking (I infos) (λ r s, match r with Ok stream => C infos address stream s | Err _ => I infos s end)
       (dial address port timeout)) →
  J (bk_net b) → connect_tcp host port timeout n b = (r, n', b') →
  match r with
  | Ok stream => ∃ infos address, vetted (bk_allow_private_hosts b) infos ∧ address_of infos address ∧
      C infos address stream (bk_net b')
  | Err _ => J (bk_net b') ∨ F (bk_net b') ∨ ∃ infos, I infos (bk_net b')
  end.
Proof.
  intros Hres Hclock Hclock2 Hdial Hb Hrun.
  exact (wp_inv _ _ _ _ _ _ _ (wp_connect host port _ J F I C Hres Hclock Hclock2 Hdial timeout n b Hb eq_refl) Hrun).
Qed.

(** * Concrete networks

    A network that logs the addresses dialled, at which the first address of the
    answer does not respond; and one that counts requests, whose origin redirects
    once. *)

Module Dialled.
Definition answer : list AddrInfo := [mk_addrinfo AF_INET "93.184.216.34"; mk_addrinfo AF_INET6 "2606:2800:220:1::5"].

#[local] Instance logging_net : Net (list string) unit := {
  getaddrinfo host port n s := (Ok (Some answer), n, s ++ ["resolve " +:+ host]);
  dial address port timeout n s :=
    ((if decide (address = "93.184.216.34") then Err (HttpError HttpcoreConnectError) else Ok tt), n, s ++ [address]);
  monotonic n s := (Ok (S754_zero false), n, s)
}.

(** One resolution of [host], and then addresses that do not lead inside. *)
Definition resolved_then (host : string) (s : list string) : Prop :=
  ∃ dials, s = ("resolve " +:+ host) :: dials ∧ ∀ address, address ∈ dials → ∃ ip, address = str_ip ip ∧ internal ip = false.

Definition connected : res unit * nat * ValidatedNetworkBackend (list string) :=
  connect_tcp "images.example.org" 443 None 0%nat (mk_backend false ∅ []).

Lemma connect_validated_witness :
  bk_net connected.2 = ["resolve images.example.org"; "93.184.216.34"; "2606:2800:220:1::5"] ∧
  resolved_then "images.example.org" (bk_net connected.2).
Proof.
  split; [vm_compute; reflexivity|].
  assert (Hok : is_Ok connected.1.1 = true) by (vm_compute; reflexivity).
  destruct connected as [[r n'] b'] eqn:Hrun. destruct r as [stream|e]; [|discriminate Hok].
  destruct (connect_validated (λ s, s = []) (λ _, False) (λ _, resolved_then "images.example.org")
    (λ _ _ _, resolved_then "images.example.org") "images.example.org" 443 None 0%nat (mk_backend false ∅ [])
    (Ok stream) n' b') as (_ & _ & _ & _ & H); [..|exact H].
  - intros n s ->. exists []. split; [reflexivity|]. intros address Hin. apply elem_of_nil in Hin. destruct Hin.
  - intros n s Hs. exact Hs.
  - intros infos n s Hs. exact Hs.
  - intros infos address t Hvet Haddr n s (dials & -> & Hdials).
    assert (resolved_then "images.example.org" ((("resolve " +:+ "images.example.org") :: dials) ++ [address])) as Hnew.
    { exists (dials ++ [address]). split; [reflexivity|]. intros address' Hin. apply elem_of_app in Hin as [Hin|Hin]; [exact (Hdials address' Hin)|].
      apply list_elem_of_singleton in Hin as ->. destruct Haddr as (info & ip & Hi & Hip & ->).
      destruct (Hvet info Hi) as (ip' & Hip' & Hout). rewrite Hip in Hip'. injection Hip' as <-.
      exists ip. split; [reflexivity|exact (Hout eq_refl)]. }
    unfold wp. cbn [dial logging_net]. destruct (decide _); exact Hnew.
  - reflexivity.
  - exact Hrun.
Defined.
End Dialled.

Module Counted.
#[local] Instance counting_net : Net nat unit := {
  getaddrinfo host port n s := (Ok (Some [mk_addrinfo AF_INET "93.184.216.34"]), n, s);
  dial address port timeout n s := (Ok tt, n, s);
  monotonic n s := (Ok (S754_zero false), n, s)
}.

#[local] Instance redirecting_origin : HttpClient nat := λ url n s,
  (Ok (if endswith "/a" url then mk_response true 302 (Some "../b?q") None [] None
       else mk_response false 200 None (Some "image/jpeg; q=1") [[1; 2]; [3]] None), n, S s).

Definition fetched : res FetchedContent * nat * nat :=
  fetch_with_policy (mk_fetcher 4 1 false) "https://images.example.org/x/a" (λ _, mret tt) 0%nat 0%nat.

Lemma fetch_bounded_witness :
  fetched.1.1 = Ok (mk_content [1; 2; 3] "image/jpeg") ∧ (fetched.2 <= 2)%nat ∧
  ∀ content, fetched.1.1 = Ok content → Z.of_nat (length (fc_data content)) <= 4.
Proof.
  split; [vm_compute; reflexivity|]. destruct fetched as [[r n'] s'] eqn:Hrun.
  assert (Hmax : 0 <= hf_max_bytes (mk_fetcher 4 1 false)) by (cbn; lia).
  assert (Hres : ∀ k host port, taking (λ s, s = k) (λ (r : res (option (list AddrInfo))) s, s = k ∧ ∀ e, r = Err e → False)
    (getaddrinfo host port)).
  { intros k host port n s H. split; [exact H|]. intros e He. discriminate He. }
  assert (Hget : ∀ k url, requestable (λ _, mret tt) url → taking (λ s, s = k) (λ r s, s = S k ∧ http_failure (λ _, False) r) (http_get url)).
  { intros k url _ n s H. split; [rewrite H; reflexivity|]. intros e. destruct (endswith "/a" url); discriminate. }
  unfold fetched in Hrun.
  destruct (fetch_bounded (mk_fetcher 4 1 false) (λ _, mret tt) Hmax (λ k s, s = k) (λ _, False) (λ _, False) Hres Hget _ _ _ _ _ _ eq_refl Hrun) as (k & Hk & Hs & Hr).
  subst s'.
  split; [exact Hk|]. cbn [fst]. intros content ->. exact Hr.
Defined.
End Counted.
