(* ===== verification/FetcherAppProps.v ===== *)
(** * What the fetcher service guarantees

    The routes that do something demand a dispatcher's credential; a request without
    it changes nothing; no job is started beyond the limit and every slot is given
    back. *)

From S2P Require Import Prelude Errors Python Effects Models Codec ObjectStore Schemas Capabilities ServiceIdentity Admission ApiInv IpAddress Urls Normalize Rules RuleConfig Transport Fetcher Client EnsureUrl Regex PilotPolicy Pilot FetcherApp.

(** The header names a dispatcher with its secret. *)
Definition dispatcher (credentials : ServiceCredentialStore) (authorization caller : string) : Prop :=
  ∃ scheme service_id secret, authorization = scheme +:+ " " +:+ service_id +:+ ":" +:+ secret ∧
    contains_char " " scheme = false ∧ contains_char ":" service_id = false ∧
    lower scheme = "service" ∧ caller = strip service_id ∧ (caller = "task-api" ∨ caller = "admin") ∧
    credentials !! caller = Some secret.

Lemma dispatcher_identity_iff credentials authorization caller :
  dispatcher_identity credentials authorization = Ok caller ↔ dispatcher credentials authorization caller.
Proof.
  unfold dispatcher_identity. split.
  - destruct (partition_on " " authorization) as [[scheme sp] token] eqn:Hs.
    destruct (partition_on ":" token) as [[service_id sep] secret] eqn:Ht.
    destruct (_ || _) eqn:Hb; [done|]. apply orb_false_iff in Hb as [Hscheme%bool_decide_eq_false Hsep%negb_false_iff].
    apply dec_stable in Hscheme. subst sep. apply partition_on_found in Ht as [-> Hid].
    destruct sp.
    2:{ assert (token_empty : service_id +:+ String ":" secret = "") by (clear -Hs; revert Hs; generalize (service_id +:+ String ":" secret);
          revert scheme; induction authorization as [|c s IH]; intros scheme t; cbn; [by intros [= _ <-]|];
          destruct (Ascii.eqb c " "); [done|]; destruct (partition_on " " s) as [[h f] t'] eqn:Hp; intros [= _ -> <-]; by eapply IH).
        by destruct service_id. }
    apply partition_on_found in Hs as [-> Hsp]. rewrite authenticate_run. case_decide as Hsec; [|done]. cbn [mbind res_bind].
    destruct (mem _ _) eqn:Hm; [|done]. intros [= <-]. apply mem_true in Hm.
    exists scheme, service_id, secret. split_and!; try done. set_solver.
  - intros (scheme & service_id & secret & -> & Hsp & Hid & Hscheme & -> & Hcaller & Hsec).
    change (scheme +:+ " " +:+ service_id +:+ ":" +:+ secret) with (scheme +:+ String " " (service_id +:+ String ":" secret)).
    rewrite partition_on_app, partition_on_app by done. rewrite bool_decide_false by (intros H; by apply H). cbn [negb orb].
    rewrite authenticate_run, decide_True by done. cbn [mbind res_bind].
    replace (mem _ _) with true; [done|]. symmetry. apply mem_true. destruct Hcaller as [-> | ->]; set_solver.
Qed.

Lemma dispatcher_refusal credentials authorization e :
  dispatcher_identity credentials authorization = Err e → e = ServiceAuthError ∨ e = CapabilityDeniedError.
Proof.
  unfold dispatcher_identity. destruct (partition_on " " authorization) as [[scheme sp] token].
  destruct (partition_on ":" token) as [[service_id sep] secret]. destruct (_ || _); [intros [= <-]; by left|].
  rewrite authenticate_run. case_decide; cbn [mbind res_bind]; [|intros [= <-]; by left].
  destruct (mem _ _); [done|intros [= <-]; by right].
Qed.

Create HintDb fetcher.

Section FetcherApp.
#[local] Set Default Proof Using "Type*".
Context {A N : Type} `{!AssetStoreClient A} `{!PolicyFetcher N} `{!UrlFetcher N}.
Implicit Types x : FetcherApp A N.

(** The routes behind the credential. *)
Definition guarded x (route : FetcherRoute) : bool :=
  match route with
  | FHealth | FReady => false
  | FEnsureUrl _ => negb (fa_pilot_mode x)
  | FPreload _ | FRead _ _ => true
  end.

(** The one trace of a refusal. *)
Definition denied_ingress x : FetcherApp A N := x <| fa_ingress := bump_count "denied" (fa_ingress x) |>.

(** What a request leaves alone, and what it gives back. *)
Record bounded_step x x' : Prop := {
  bs_credentials : fa_credentials x' = fa_credentials x;
  bs_rules : fa_rules x' = fa_rules x;
  bs_mode : fa_pilot_mode x' = fa_pilot_mode x;
  bs_limit : wa_limit (fa_jobs x') = wa_limit (fa_jobs x);
  bs_active : wa_active (fa_jobs x') = wa_active (fa_jobs x);
  bs_full : wa_limit (fa_jobs x) <= wa_active (fa_jobs x) → fa_pilot x' = fa_pilot x
}.

#[export] Instance bounded_preorder : PreOrder bounded_step.
Proof.
  split; [by intros x; split|]. intros x1 x2 x3 [C1 R1 M1 L1 A1 F1] [C2 R2 M2 L2 A2 F2].
  split; try (by etrans). intros Hfull. rewrite F2, F1; [done|done|]. by rewrite L1, A1.
Qed.

Definition steps {B} (m : M (FetcherApp A N) B) : Prop := ∀ n x, wp m (λ _ _ x', bounded_step x x') n x.

Lemma steps_same {B} (m : M (FetcherApp A N) B) : (∀ n x, wp m (λ _ _ x', x' = x) n x) → steps m.
Proof. intros H n x. eapply wp_mono; [apply H|]. by intros r n' x' ->. Qed.

Lemma steps_ret {B} (b : B) : steps (mret b). Proof. by apply steps_same. Qed.
Lemma steps_raise {B} e : steps (raise e : M _ B). Proof. by apply steps_same. Qed.
Lemma steps_of_res {B} (r : res B) : steps (of_res r). Proof. by apply steps_same. Qed.
Lemma steps_get : steps get_state. Proof. by apply steps_same. Qed.
Lemma steps_raise_if b e : steps (raise_if b e). Proof. by destruct b; apply steps_same. Qed.

Lemma steps_bind {B C} (m : M (FetcherApp A N) B) (k : B → M (FetcherApp A N) C) :
  steps m → (∀ b, steps (k b)) → steps (m ≫= k).
Proof.
  intros Hm Hk n x. wp_step. eapply wp_mono; [apply Hm|]. intros [b|e] n1 x1 H1; [|done].
  eapply wp_mono; [apply Hk|]. intros r n2 x2 H2. by etrans.
Qed.

Lemma steps_catch {B} (m : M (FetcherApp A N) B) (h : error → M (FetcherApp A N) B) :
  steps m → (∀ e, steps (h e)) → steps (catch m h).
Proof.
  intros Hm Hh n x. apply wp_catch. eapply wp_mono; [apply Hm|]. intros [b|e] n1 x1 H1; [done|].
  eapply wp_mono; [apply Hh|]. intros r n2 x2 H2. by etrans.
Qed.

Lemma steps_count_ingress outcome : steps (count_ingress outcome).
Proof. intros n x. unfold count_ingress. wp_step. by split. Qed.
Lemma steps_record_cache operation outcome : steps (record_cache operation outcome).
Proof. intros n x. unfold record_cache. wp_step. by split. Qed.

(** A job changes what it works on only, and only when there is a slot for it. *)
Lemma steps_job {B} (body : M (FetcherApp A N) B) :
  (∀ n x, wp body (λ _ _ x', x' = set_fa_pilot (fa_pilot x') x) n x) → steps (job body).
Proof.
  intros Hbody n x. unfold job, lease. wp_step. apply wp_zoom. unfold wp at 1. rewrite acquire_run.
  destruct (wa_active (fa_jobs x) <? wa_limit (fa_jobs x)) eqn:Hlt; cbn [negb].
  - apply wp_finally. wp_step. apply wp_zoom. unfold count_attempt. wp_step. set (x1 := set_fa_jobs _ _).
    eapply wp_mono; [apply Hbody|]. intros r n' x' Hx. apply wp_zoom. unfold release. apply wp_modify.
    rewrite Hx. split; cbn; [done..|lia|]. intros Hfull. apply Z.ltb_lt in Hlt. cbn in Hfull. lia.
  - wp_step. apply wp_zoom. unfold count_attempt. wp_steps. by split.
Qed.

Lemma pilot_only {B} (m : M (PilotCache (World A N)) B) n x :
  wp (zoom fa_pilot set_fa_pilot m) (λ _ _ x', x' = set_fa_pilot (fa_pilot x') x) n x.
Proof. apply wp_zoom. unfold wp. by destruct (m n (fa_pilot x)) as [[r n'] p]. Qed.

Lemma world_only {B} (m : M (World A N) B) n x :
  wp (zoom fa_world set_fa_world m) (λ _ _ x', x' = set_fa_pilot (fa_pilot x') x) n x.
Proof. apply wp_zoom. unfold wp. by destruct (m n (fa_world x)) as [[r n'] w]. Qed.

Lemma steps_dispatcher authorization : steps (require_dispatcher authorization).
Proof.
  unfold require_dispatcher. apply steps_bind; [apply steps_get|]. intros x.
  destruct (dispatcher_identity _ _); apply steps_bind; try apply steps_count_ingress; intros []; [apply steps_ret|apply steps_raise].
Qed.

#[local] Hint Resolve steps_ret steps_raise steps_of_res steps_get steps_raise_if steps_count_ingress steps_record_cache
  steps_dispatcher steps_job pilot_only world_only : fetcher.

Ltac solve_steps :=
  repeat lazymatch goal with
  | |- steps (_ ≫= _) => apply steps_bind; [|intros ?]
  | |- steps (catch _ _) => apply steps_catch; [|intros ?]
  | |- steps (if ?b then _ else _) => destruct b
  | |- steps (let '(_, _) := ?p in _) => destruct p
  | |- steps _ => solve [auto with fetcher]
  end.

Lemma dispatch_steps authorization route : steps (fetcher_dispatch authorization route).
Proof.
  unfold fetcher_dispatch. destruct route; unfold ensure_url_endpoint, preload_cache, read_cache, invalid_unless; solve_steps.
Qed.

(** A refused request. *)
Lemma wp_refused_dispatcher {B} authorization (k : string → M (FetcherApp A N) B) n x :
  (∀ caller, ¬ dispatcher (fa_credentials x) authorization caller) →
  wp (require_dispatcher authorization ≫= k)
     (λ r _ x', (r = Err ServiceAuthError ∨ r = Err CapabilityDeniedError) ∧ x' = denied_ingress x) n x.
Proof.
  intros Hno. unfold require_dispatcher. wp_step. wp_step. wp_step.
  destruct (dispatcher_identity (fa_credentials x) authorization) as [caller|e] eqn:Hd.
  { by destruct (Hno caller); apply dispatcher_identity_iff. }
  unfold count_ingress. wp_steps. split; [|done]. destruct (dispatcher_refusal _ _ _ Hd) as [-> | ->]; auto.
Qed.

Lemma wp_refused_route authorization route n x :
  guarded x route = true → (∀ caller, ¬ dispatcher (fa_credentials x) authorization caller) →
  wp (fetcher_dispatch authorization route)
     (λ r _ x', (r = Err ServiceAuthError ∨ r = Err CapabilityDeniedError) ∧ x' = denied_ingress x) n x.
Proof.
  intros Hg Hno. destruct route; try done; cbn [fetcher_dispatch].
  - wp_step. wp_step. cbn [guarded] in Hg. apply negb_true_iff in Hg. rewrite Hg. unfold ensure_url_endpoint.
    wp_step. eapply wp_mono; [by apply wp_refused_dispatcher|]. by intros r n' x' [[-> | ->] ->]; cbn; auto.
  - unfold preload_cache. wp_step. eapply wp_mono; [by apply wp_refused_dispatcher|]. by intros r n' x' [[-> | ->] ->]; cbn; auto.
  - unfold read_cache. wp_step. eapply wp_mono; [by apply wp_refused_dispatcher|]. by intros r n' x' [[-> | ->] ->]; cbn; auto.
Qed.

(** * Properties *)

(** C15.  The fetcher works for dispatchers only.  A request to a route that materialises,
    preloads or reads, without the credential of [task-api] or [admin], is answered
    401 or 403 and changes nothing but the count of refusals; a route that is not
    guarded changes nothing at all.  Whatever a request ends in, the slot of its job is
    given back; and with no slot free nothing is fetched or stored for it. *)
Theorem dispatcher_required (authorization : string) (route : FetcherRoute) (n : nat) (x : FetcherApp A N)
    (answer : FetcherAnswer) (n' : nat) (x' : FetcherApp A N) :
  fetcher_serve (mk_fetcher_request authorization route) n x = (answer, n', x') →
  (guarded x route = true → (∀ caller, ¬ dispatcher (fa_credentials x) authorization caller) →
     (fn_status answer = 401 ∨ fn_status answer = 403) ∧ x' = denied_ingress x) ∧
  (guarded x route = false → x' = x) ∧
  bounded_step x x'.
Proof.
  unfold fetcher_serve. cbn [fr_authorization fr_route].
  destruct (fetcher_dispatch authorization route n x) as [[r n1] x1] eqn:Hrun. intros [= Ha _ ->].
  split_and!.
  - intros Hg Hno. destruct (wp_inv _ _ _ _ _ _ _ (wp_refused_route _ _ _ _ Hg Hno) Hrun) as [[-> | ->] Hx]; subst answer; cbn; auto.
  - intros Hg. destruct route; try discriminate Hg; cbn in Hrun; [by injection Hrun as _ _ <-..|].
    cbn in Hg. apply negb_false_iff in Hg. revert Hrun. unfold mbind, M_bind, get_state. rewrite Hg. by intros [= _ _ <-].
  - exact (wp_inv _ _ _ _ _ _ _ (dispatch_steps authorization route n x) Hrun).
Qed.
End FetcherApp.
