(* ===== verification/RulesProps.v ===== *)
(** * What the rules guarantee

    A rule set that loads never fails to name a resource but for an unnamed field, and
    two image requests share a name exactly if they ask for the same rendition. *)

From S2P Require Import Prelude Errors Python Sha256 RegistrySound Scenario Codec IpAddress Urls Normalize Rules RuleConfig.

(** ** Rule sets that load *)

(** A name a group may have. *)
Definition is_identifier (s : string) : bool :=
  match s with
  | String c _ => negb (is_digit c) && all_chars (λ c, is_alnum c || Ascii.eqb c "_" || (128 <=? byte_of c)) s
  | EmptyString => false
  end.

(** What the engine of regular expressions documents: the names of groups are
    identifiers, and [groupdict] has one entry for each. *)
Definition engine_ok (re_compile : string → option Pattern) : Prop := ∀ text p,
  re_compile text = Some p →
  (∀ g, g ∈ groupindex p → is_identifier g = true) ∧
  ∀ s groups g, fullmatch p s = Some groups → g ∈ groupindex p → is_Some (groups !! g).

(** A result of a rule: one name, in a partition that has a name; or the two ways a
    template may still fail. *)
Definition sound_result (r : res (option RuleMatch)) : Prop :=
  match r with
  | Ok (Some m) => rm_mirror_id m ≠ "" ∧ ∃ alias, rm_aliases m = [alias]
  | Ok None => True
  | Err e => e = PyIndexError ∨ e = OutsideModel
  end.

Definition sound_rule (rule : CacheRule) : Prop := ∀ url, sound_result (rule_match rule url).

Lemma format_field_sound (groups : gmap string (option string)) (f : Field) (names : list string) (e : error) :
  fd_name f = "" ∨ fd_name f ∈ names → (∀ g, g ∈ names → is_identifier g = true ∧ is_Some (groups !! g)) →
  format_field groups f = Err e → e = PyIndexError ∨ e = OutsideModel.
Proof.
  intros Hf Hnames. unfold format_field. destruct Hf as [Hf|Hf].
  - rewrite Hf. cbn. intros [= <-]. by left.
  - destruct (Hnames _ Hf) as [Hid [value Hv]].
    assert (Hbreak : break_at is_name_end (fd_name f) = (fd_name f, "")).
    { rewrite <- (app_str_nil_r (fd_name f)) at 1. apply break_at_app; [|done]. unfold is_identifier in Hid. destruct (fd_name f) as [|c s]; [done|].
      apply andb_prop in Hid as [_ Hid]. eapply all_chars_impl; [|exact Hid]. clear.
      intros c Hc. destruct c as [[] [] [] [] [] [] [] []]; vm_compute in Hc |- *; congruence. }
    rewrite Hbreak. replace (all_chars is_digit (fd_name f)) with false.
    2:{ symmetry. unfold is_identifier in Hid. destruct (fd_name f) as [|c s]; [done|]. cbn.
        apply andb_prop in Hid as [Hid%negb_true_iff _]. by rewrite Hid. }
    rewrite Hv. destruct (bool_decide _); [done|]. intros [= <-]. by right.
Qed.

Lemma format_fields_sound (groups : gmap string (option string)) (t : Template) (names : list string) (e : error) :
  (∀ literal f, (literal, Some f) ∈ t → fd_name f = "" ∨ fd_name f ∈ names) →
  (∀ g, g ∈ names → is_identifier g = true ∧ is_Some (groups !! g)) →
  format_fields groups t true = Err e → e = PyIndexError ∨ e = OutsideModel.
Proof.
  intros Ht Hnames. induction t as [|[literal field] t IH]; cbn; [done|].
  destruct field as [f|].
  - destruct (format_field groups f) as [value|e'] eqn:Hf; cbn.
    + destruct (format_fields groups t true) as [rest|e'] eqn:Hr; cbn; [done|]. intros [= <-]. apply IH; [|done].
      intros l' f' Hin. apply (Ht l'). by right.
    + intros [= <-]. eapply format_field_sound; [apply (Ht literal); by left|exact Hnames|exact Hf].
  - destruct (format_fields groups t true) as [rest|e'] eqn:Hr; cbn; [done|]. intros [= <-]. apply IH; [|done].
    intros l' f' Hin. apply (Ht l'). by right.
Qed.

Lemma require_str_inv rule key value : _require_str rule key = Ok value → value ≠ "".
Proof. unfold _require_str. destruct (item key rule) as [[]|]; try done. destruct (decide _); [done|]. by intros [= <-]. Qed.

Section Loaded.
#[local] Set Default Proof Using "Type*".
Context (re_compile : string → option Pattern) (engine : engine_ok re_compile).

Lemma iiif_sound host mirror prefix : mirror ≠ "" → sound_rule (iiif_rule (mk_iiif host mirror prefix)).
Proof.
  intros Hm url. cbn. unfold iiif_match. destruct (negb _); [done|]. destruct (decide _); [|done].
  destruct (iiif_alias _) as [tail|]; cbn; [|done]. split; [done|by eexists].
Qed.

Lemma passthrough_sound host mirror : mirror ≠ "" → sound_rule (passthrough_rule (mk_passthrough host mirror)).
Proof.
  intros Hm url. cbn. unfold passthrough_match. destruct (negb _); [done|]. destruct (path_segments url); [done|].
  cbn. split; [done|by eexists].
Qed.

Lemma regex_sound rule r : _build_regex_rule re_compile rule = Ok r → sound_rule (regex_rule r).
Proof.
  unfold _build_regex_rule. intros H.
  apply res_bind_Ok in H as (host & _ & H). apply res_bind_Ok in H as (mirror & Hm%require_str_inv & H).
  apply res_bind_Ok in H as (path & _ & H). apply res_bind_Ok in H as (template & _ & H).
  destruct (unsafe_regex path); [done|]. destruct (re_compile path) as [p|] eqn:Hp; [|done].
  destruct (engine _ _ Hp) as [Hid Hdict]. apply res_bind_Ok in H as (fields & Hfields & H).
  destruct (forallb _ fields) eqn:Hall; [|done]. injection H as <-. intros url. cbn. unfold regex_match. cbn.
  destruct (negb _); [done|]. destruct (fullmatch p _) as [groups|] eqn:Hmatch; [|done].
  unfold format_template. revert Hfields. unfold _template_fields. destruct (template_of template) as [t ok].
  destruct ok; [|done]. intros [= Hfields].
  destruct (format_fields groups t true) as [tail|e] eqn:Hf; cbn; [split; [done|by eexists]|].
  apply (format_fields_sound groups t (groupindex p)); [| |exact Hf].
  - intros literal f Hin. destruct (decide (fd_name f = "")) as [|Hne]; [by left|]. right.
    rewrite forallb_forall in Hall. apply mem_true. apply Hall. rewrite <- Hfields. apply list_elem_of_In.
    apply list_elem_of_omap. exists (literal, Some f). split; [done|]. cbn. by rewrite decide_False.
  - intros g Hg. split; [by apply Hid|by eapply Hdict].
Qed.

Lemma build_sound rule r : _build_rule re_compile rule = Ok r → sound_rule r.
Proof.
  unfold _build_rule. destruct (item "type" rule) as [[]|]; try done.
  destruct (decide _); [|destruct (decide _); [|destruct (decide _); [|done]]]; intros H.
  - apply res_bind_Ok in H as (host & _ & H). apply res_bind_Ok in H as (mirror & Hm%require_str_inv & H).
    apply res_bind_Ok in H as (prefix & _ & [= <-]). by apply iiif_sound.
  - apply res_bind_Ok in H as (host & _ & H). apply res_bind_Ok in H as (mirror & Hm%require_str_inv & [= <-]).
    by apply passthrough_sound.
  - apply res_bind_Ok in H as (r' & Hr & [= <-]). by eapply regex_sound.
Qed.

Lemma evaluate_sound l url : Forall sound_rule l → sound_result (first_match l url).
Proof.
  induction l as [|rule l IH]; [done|]. intros [Hr Hl]%Forall_cons. cbn. specialize (Hr url).
  destruct (rule_match rule url) as [[m|]|e]; cbn; [exact Hr|by apply IH|exact Hr].
Qed.
End Loaded.

(** ** Renditions *)

(** A text without a slash. *)
Definition slashless (s : string) : Prop := contains_char "/" s = false.

Lemma slashless_app s t : slashless (s +:+ t) ↔ slashless s ∧ slashless t.
Proof. unfold slashless. by rewrite contains_char_app, orb_false_iff. Qed.

Lemma slashless_lower s : slashless s → slashless (lower s).
Proof.
  unfold slashless. induction s as [|c s IH]; [done|]. cbn. intros [Hc Hs]%orb_false_iff. rewrite IH by done. rewrite orb_false_r.
  revert Hc. clear. destruct c as [[] [] [] [] [] [] [] []]; vm_compute; congruence.
Qed.

Lemma word_slashless s : all_chars word_char s = true → slashless s.
Proof.
  intros H. apply contains_char_all. eapply all_chars_impl; [|exact H]. unfold word_char. by intros c [_ Hc]%andb_prop.
Qed.

Lemma slashless_pretty (z : Z) : slashless (pretty z).
Proof.
  destruct z as [|p|p]; [done|..]; unfold pretty, pretty_Z.
  - apply word_slashless. unfold pretty, pretty_positive, pretty, pretty_N. case_decide; [done|]. by apply pretty_N_go_word.
  - apply slashless_app. split; [done|]. apply word_slashless. unfold pretty, pretty_positive, pretty, pretty_N.
    case_decide; [done|]. by apply pretty_N_go_word.
Qed.

Lemma slashless_rotation s : slashless s → slashless (_normalize_rotation s).
Proof.
  intros Hs. assert (Hint : slashless (match py_int s with Some z => pretty z | None => s end)) by (destruct (py_int s); [apply slashless_pretty|done]).
  unfold _normalize_rotation. destruct s as [|c body]; [exact Hint|].
  destruct (decide (c = "!"%char)) as [->|Hc].
  - destruct (py_int body); [|done]. apply slashless_app. split; [done|apply slashless_pretty].
  - destruct c as [[] [] [] [] [] [] [] []]; exact Hint || done.
Qed.

(** ** Rotations

    Printing a number that [int] read and reading it again gives the number. *)

Lemma digit_value_bound c d : digit_value c = Some d → 0 <= d < 10.
Proof. unfold digit_value. destruct (_ && _) eqn:H; [|done]. intros [= <-]. lia. Qed.

Lemma digit_value_pretty x : (x < 10)%N → digit_value (pretty_N_char x) = Some (Z.of_N x).
Proof.
  intros Hx. assert (x = 0 ∨ x = 1 ∨ x = 2 ∨ x = 3 ∨ x = 4 ∨ x = 5 ∨ x = 6 ∨ x = 7 ∨ x = 8 ∨ x = 9)%N as Hc by lia.
  by destruct Hc as [->|[->|[->|[->|[->|[->|[->|[->|[->| ->]]]]]]]]].
Qed.

Lemma count_digits_nonneg s : 0 <= count_digits s.
Proof. induction s as [|c s IH]; cbn; [lia|]. destruct (digit_value c); lia. Qed.

Lemma int_digits_bound acc after s z :
  0 <= acc → int_digits acc after s = Some z → 0 <= z < (acc + 1) * 10 ^ count_digits s.
Proof.
  revert acc after. induction s as [|c s IH]; intros acc after Hacc; cbn.
  - destruct after; [|done]. intros [= <-]. lia.
  - pose proof (count_digits_nonneg s). destruct (digit_value c) as [d|] eqn:Hd.
    + intros Hz. apply digit_value_bound in Hd. apply IH in Hz; [|lia].
      rewrite Z.pow_add_r, Z.pow_1_r by lia. pose proof (Z.pow_pos_nonneg 10 (count_digits s)). nia.
    + destruct (_ && _); [|done]. intros Hz. apply IH in Hz; [|done]. by rewrite Z.add_0_l.
Qed.

(** A number that [int] reads has at most 4300 digits. *)
Definition within_digits (z : Z) : Prop := ∃ k, 0 <= k <= 4300 ∧ Z.abs z < 10 ^ k.

Lemma py_int_bound s z : py_int s = Some z → within_digits z.
Proof.
  assert (Hle : ∀ t y, count_digits t <= 4300 → int_digits 0 false t = Some y → 0 <= y ∧ within_digits y).
  { intros t y Ht Hy. apply int_digits_bound in Hy; [|done]. split; [lia|].
    exists (count_digits t). pose proof (count_digits_nonneg t). lia. }
  unfold py_int. destruct (Z.ltb_spec 4300 (count_digits (strip s))) as [|Hc]; [done|]. revert Hc. generalize (strip s). clear s.
  intros t Hc H. destruct t as [|c t]; [done|].
  assert (count_digits t <= 4300) as Hc' by (cbn in Hc; pose proof (count_digits_nonneg t); destruct (digit_value c); lia).
  destruct (decide (c = "-"%char)) as [->|Hm].
  - destruct (int_digits 0 false t) as [y|] eqn:Hy; [|done]. injection H as <-.
    destruct (Hle _ _ Hc' Hy) as (_ & k & Hk & Hb). exists k. by rewrite Z.abs_opp.
  - destruct (decide (c = "+"%char)) as [->|Hp]; [by apply (Hle t)|]. apply (Hle (String c t)); [done|].
    destruct c as [[] [] [] [] [] [] [] []]; first [exact H|by destruct Hm|by destruct Hp].
Qed.

(** A number above zero from its last digit and the rest. *)
Lemma last_digit x : (0 < x)%N → ∃ q d, (x / 10 = q)%N ∧ (x mod 10 = d)%N ∧ (q < x)%N ∧ (d < 10)%N ∧
  Z.of_N x = 10 * Z.of_N q + Z.of_N d.
Proof.
  intros Hx. exists (x / 10)%N, (x mod 10)%N. pose proof (N.div_mod x 10 ltac:(done)) as H.
  split_and!; [done|done|by apply N.div_lt|by apply N.mod_lt|]. revert H. generalize (x / 10)%N (x mod 10)%N. lia.
Qed.

Lemma int_digits_pretty x after s : (0 < x)%N →
  int_digits 0 after (pretty_N_go x s) = int_digits (Z.of_N x) true s.
Proof.
  revert after s. induction (N.lt_wf_0 x) as [x _ IH]. intros after s Hx. rewrite pretty_N_go_step by done.
  destruct (last_digit x Hx) as (q & d & -> & -> & Hq & Hd%digit_value_pretty & ->).
  destruct (decide (q = 0)%N) as [->|Hz]; [rewrite pretty_N_go_0|rewrite IH by lia]; cbn; by rewrite Hd.
Qed.

Lemma count_digits_pretty x s : (0 < x)%N →
  ∃ k, 0 <= k ∧ count_digits (pretty_N_go x s) = k + 1 + count_digits s ∧ 10 ^ k <= Z.of_N x.
Proof.
  revert s. induction (N.lt_wf_0 x) as [x _ IH]. intros s Hx. rewrite pretty_N_go_step by done.
  destruct (last_digit x Hx) as (q & d & -> & -> & Hq & Hd%digit_value_pretty & Hsum).
  destruct (decide (q = 0)%N) as [->|Hz].
  - exists 0. rewrite pretty_N_go_0. cbn. rewrite Hd. split_and!; lia.
  - destruct (IH q Hq (String (pretty_N_char d) s) ltac:(lia)) as (k & Hk & Hc & Hp).
    exists (k + 1). rewrite Hc. cbn [count_digits]. rewrite Hd. split_and!; [lia|lia|]. rewrite Z.pow_add_r, Z.pow_1_r by lia. lia.
Qed.

Lemma strip_word s : all_chars word_char s = true → strip s = s.
Proof.
  intros H. unfold strip, strip_by. assert (Hl : lstrip_by is_space s = s).
  { apply lstrip_by_fix. destruct s as [|c s]; [done|]. cbn in H. apply andb_prop in H as [[H _]%andb_prop _].
    by apply negb_true_iff. }
  rewrite Hl. clear Hl. induction s as [|c s IH]; [done|]. cbn in H. apply andb_prop in H as [[Hc _]%andb_prop Hs].
  rewrite rstrip_by_cons, (IH Hs). apply negb_true_iff in Hc. destruct s; [by rewrite Hc|done].
Qed.

Lemma py_int_unsigned x : within_digits (Z.of_N x) → (0 < x)%N →
  count_digits (pretty_N_go x "") <= 4300 ∧ int_digits 0 false (pretty_N_go x "") = Some (Z.of_N x).
Proof.
  intros (b & Hb & Hx') Hx. split; [|by rewrite int_digits_pretty]. destruct (count_digits_pretty x "" Hx) as (k & Hk & -> & Hp). cbn.
  destruct (Z.le_gt_cases b k) as [H|H]; [|lia]. pose proof (Z.pow_le_mono_r 10 b k ltac:(lia) H). lia.
Qed.

Lemma py_int_pretty z : within_digits z → py_int (pretty z) = Some z.
Proof.
  intros Hb. destruct z as [|p|p]; [done|..].
  all: destruct (py_int_unsigned (N.pos p) Hb ltac:(lia)) as [Hc Hi].
  all: assert (Hw : all_chars word_char (pretty_N_go (N.pos p) "") = true) by by apply pretty_N_go_word.
  - change (pretty (Z.pos p)) with (pretty_N_go (N.pos p) ""). unfold py_int. rewrite strip_word by done.
    apply Z.ltb_ge in Hc. rewrite Hc. destruct (pretty_N_go (N.pos p) "") as [|c t] eqn:Ht; [done|].
    destruct (decide (c = "-"%char)) as [->|Hm]; [done|]. destruct (decide (c = "+"%char)) as [->|Hp]; [done|].
    destruct c as [[] [] [] [] [] [] [] []]; first [exact Hi|by destruct Hm|by destruct Hp].
  - change (pretty (Z.neg p)) with (String "-" (pretty_N_go (N.pos p) "")). unfold py_int.
    rewrite strip_word by exact Hw. change (count_digits (String "-" ?s)) with (count_digits s).
    apply Z.ltb_ge in Hc. rewrite Hc, Hi. done.
Qed.

Lemma py_int_read s z : py_int s = Some z → py_int (pretty z) = Some z.
Proof. intros H. by eapply py_int_pretty, py_int_bound. Qed.

Lemma py_int_bang s : py_int (String "!" s) = None.
Proof.
  unfold py_int, strip, strip_by. change (lstrip_by is_space (String "!" s)) with (String "!" s). rewrite rstrip_by_cons.
  destruct (rstrip_by is_space s); cbn; by destruct (_ <? _).
Qed.

(** Two spellings of a rotation: the same text, or the same number, both mirrored (with
    an exclamation mark before it) or both not. *)
Definition same_rotation (s1 s2 : string) : Prop :=
  s1 = s2 ∨ ∃ z, (py_int s1 = Some z ∧ py_int s2 = Some z) ∨
    ∃ b1 b2, s1 = String "!" b1 ∧ s2 = String "!" b2 ∧ py_int b1 = Some z ∧ py_int b2 = Some z.

(** What the code makes of a rotation. *)
Lemma normalize_rotation_cases s :
  (∃ z, py_int s = Some z ∧ _normalize_rotation s = pretty z) ∨
  (∃ b z, s = String "!" b ∧ py_int b = Some z ∧ _normalize_rotation s = String "!" (pretty z)) ∨
  (_normalize_rotation s = s ∧ py_int s = None ∧ ∀ b, s = String "!" b → py_int b = None).
Proof.
  unfold _normalize_rotation. destruct s as [|c b]; [right; by right|].
  destruct (decide (c = "!"%char)) as [->|Hc].
  - right. destruct (py_int b) as [z|] eqn:Hb; [left; by exists b, z|right]. split_and!; [done|apply py_int_bang|by intros ? [= <-]].
  - destruct (py_int (String c b)) as [z|] eqn:Hs.
    + left. exists z. split; [done|]. destruct c as [[] [] [] [] [] [] [] []]; done || by destruct Hc.
    + right. right. split_and!; [|done|by intros ? [= -> _]]. destruct c as [[] [] [] [] [] [] [] []]; done || by destruct Hc.
Qed.

Lemma normalize_rotation_iff s1 s2 : _normalize_rotation s1 = _normalize_rotation s2 ↔ same_rotation s1 s2.
Proof.
  unfold same_rotation. split.
  - destruct (normalize_rotation_cases s1) as [(z1 & H1 & ->)|[(b1 & z1 & -> & H1 & ->)|(-> & H1 & N1)]],
      (normalize_rotation_cases s2) as [(z2 & H2 & ->)|[(b2 & z2 & -> & H2 & ->)|(-> & H2 & N2)]]; intros H.
    + apply (inj pretty) in H as <-. right. exists z1. by left.
    + pose proof (py_int_read _ _ H1) as Hr. by rewrite H, py_int_bang in Hr.
    + pose proof (py_int_read _ _ H1). congruence.
    + pose proof (py_int_read _ _ H2) as Hr. by rewrite <- H, py_int_bang in Hr.
    + injection H as H. apply (inj pretty) in H as <-. right. exists z1. right. by exists b1, b2.
    + pose proof (py_int_read _ _ H1) as Hr. by rewrite (N2 _ (eq_sym H)) in Hr.
    + pose proof (py_int_read _ _ H2). congruence.
    + pose proof (py_int_read _ _ H2) as Hr. by rewrite (N1 _ H) in Hr.
    + by left.
  - intros [->|(z & [[H1 H2]|(b1 & b2 & -> & -> & H1 & H2)])]; [done|..].
    + destruct (normalize_rotation_cases s1) as [(z1 & H1' & ->)|[(b1 & z1 & -> & _)|(_ & H1' & _)]];
        [|by rewrite py_int_bang in H1|congruence].
      destruct (normalize_rotation_cases s2) as [(z2 & H2' & ->)|[(b2 & z2 & -> & _)|(_ & H2' & _)]];
        [congruence|by rewrite py_int_bang in H2|congruence].
    + unfold _normalize_rotation. by rewrite H1, H2.
Qed.

(** The quality under its current name. *)
Definition same_quality (q1 q2 : string) : Prop :=
  lower q1 = lower q2 ∨ (lower q1 ∈ ["native"; "default"] ∧ lower q2 ∈ ["native"; "default"]).

Definition quality_name (q : string) : string := table_get (lower q) (lower q) _IIIF_QUALITY_ALIASES.

Lemma quality_name_iff q1 q2 : quality_name q1 = quality_name q2 ↔ same_quality q1 q2.
Proof.
  unfold quality_name, same_quality, _IIIF_QUALITY_ALIASES. cbn [table_get].
  assert (Hin : ∀ x, x ∈ ["native"; "default"] ↔ x = "native" ∨ x = "default") by (intros x; set_solver).
  rewrite !Hin. destruct (decide ("native" = lower q1)) as [<-|], (decide ("native" = lower q2)) as [<-|];
    split; intros H; try (destruct H as [H|[[H|H] [H'|H']]]); try congruence; intuition congruence.
Qed.

Lemma slashless_quality q : slashless q → slashless (quality_name q).
Proof.
  intros Hq%slashless_lower. unfold quality_name, _IIIF_QUALITY_ALIASES. cbn [table_get]. by destruct (decide _).
Qed.

(** Two renditions of an image: identifier, region, size, rotation, quality, format. *)
Record Rendition := mk_rendition {
  rn_identifier : list string;
  rn_region : string;
  rn_size : string;
  rn_rotation : string;
  rn_quality : string;
  rn_format : string
}.

(** The segments of a request for it. *)
Definition rendition_segments (r : Rendition) : list string :=
  rn_identifier r ++ [rn_region r; rn_size r; rn_rotation r; rn_quality r +:+ "." +:+ rn_format r].

Definition same_rendition (r1 r2 : Rendition) : Prop :=
  rn_identifier r1 = rn_identifier r2 ∧ lower (rn_region r1) = lower (rn_region r2) ∧ lower (rn_size r1) = lower (rn_size r2) ∧
  same_rotation (rn_rotation r1) (rn_rotation r2) ∧ same_quality (rn_quality r1) (rn_quality r2) ∧
  lower (rn_format r1) = lower (rn_format r2).

Lemma iiif_alias_inv segments tail :
  iiif_alias segments = Some tail → ∃ r, segments = rendition_segments r ∧ rn_identifier r ≠ [] ∧
    contains_char "." (rn_format r) = false ∧
    tail = iiif_tail (join_with "/" (rn_identifier r)) (rn_region r) (rn_size r) (rn_rotation r) (rn_quality r) (rn_format r).
Proof.
  unfold iiif_alias. destruct (_ <? 5)%nat; [done|]. destruct (rev segments) as [|qf [|rotation [|size [|region identifier]]]] eqn:Hrev; try done.
  destruct (rpartition_on "." qf) as [[quality found] fmt] eqn:Hqf. destruct found; cbn [negb]; [|done].
  destruct (decide (_ = "")) as [|Hne]; [done|]. intros [= <-]. apply rpartition_on_found in Hqf as [-> Hdot].
  exists (mk_rendition (rev identifier) region size rotation quality fmt). split_and!; try done.
  - rewrite <- (rev_involutive segments), Hrev. cbn. by rewrite <- !app_assoc.
  - by intros Hid; cbn in Hid; rewrite Hid in Hne.
Qed.

(** The segments of a name. *)
Definition tail_segments (r : Rendition) : list string :=
  "iiif" :: rn_identifier r ++ [lower (rn_region r); lower (rn_size r); _normalize_rotation (rn_rotation r);
    quality_name (rn_quality r) +:+ "." +:+ lower (rn_format r)].

Lemma tail_split r :
  rn_identifier r ≠ [] → Forall slashless (rendition_segments r) →
  split_on "/" (iiif_tail (join_with "/" (rn_identifier r)) (rn_region r) (rn_size r) (rn_rotation r) (rn_quality r) (rn_format r)) =
    tail_segments r.
Proof.
  intros Hne [Hid Hrest]%Forall_app. rewrite !Forall_cons in Hrest. destruct Hrest as (Hr & Hs & Ht & Hqf & _).
  apply slashless_app in Hqf as [Hq [_ Hf]%slashless_app].
  unfold iiif_tail. fold (quality_name (rn_quality r)). cbv zeta.
  set (region := lower (rn_region r)). set (size := lower (rn_size r)). set (rotation := _normalize_rotation (rn_rotation r)).
  set (file := quality_name (rn_quality r) +:+ "." +:+ lower (rn_format r)).
  change (split_on "/" ("iiif" +:+ String "/" (join_with "/" (rn_identifier r) +:+ String "/" (region +:+ String "/" (size +:+ String "/" (rotation +:+ String "/" file))))) = tail_segments r).
  rewrite !split_on_app, split_join by done. unfold tail_segments. fold region size rotation file.
  rewrite (split_on_clean "/" region), (split_on_clean "/" size), (split_on_clean "/" rotation), (split_on_clean "/" file); [done|..].
  - apply slashless_app. split; [by apply slashless_quality|]. apply slashless_app. split; [done|by apply slashless_lower].
  - by apply slashless_rotation.
  - by apply slashless_lower.
  - by apply slashless_lower.
Qed.

Lemma lower_dotless s : contains_char "." s = false → contains_char "." (lower s) = false.
Proof.
  induction s as [|c s IH]; [done|]. cbn. intros [Hc Hs]%orb_false_iff. rewrite IH by done. rewrite orb_false_r.
  revert Hc. clear. destruct c as [[] [] [] [] [] [] [] []]; vm_compute; congruence.
Qed.

Lemma dot_file_inj q1 f1 q2 f2 :
  contains_char "." f1 = false → contains_char "." f2 = false → q1 +:+ "." +:+ f1 = q2 +:+ "." +:+ f2 → q1 = q2 ∧ f1 = f2.
Proof.
  intros H1 H2 H. change (q1 +:+ String "." f1 = q2 +:+ String "." f2) in H.
  apply (f_equal (rpartition_on ".")) in H. rewrite !rpartition_on_app in H by done. by injection H.
Qed.

Lemma same_tail r1 r2 :
  contains_char "." (rn_format r1) = false → contains_char "." (rn_format r2) = false →
  tail_segments r1 = tail_segments r2 ↔ same_rendition r1 r2.
Proof.
  intros Hd1 Hd2. unfold tail_segments, same_rendition. split.
  - intros H. injection H as H. apply app_inj_2 in H as [Hid Hrest]; [|done]. injection Hrest as Hr Hs Ht Hqf.
    apply dot_file_inj in Hqf as [Hq Hf]; [|by apply lower_dotless..]. apply quality_name_iff in Hq.
    apply normalize_rotation_iff in Ht. by split_and!.
  - intros (-> & -> & -> & ->%normalize_rotation_iff & Hq%quality_name_iff & ->). by rewrite Hq.
Qed.

(** The URL asks the image server of the rule for the rendition. *)
Record image_request (rule : IIIFImageRule) (url : NormalizedUrl) (r : Rendition) : Prop := {
  ir_host : _host_matches url (ii_host rule) = true;
  ir_segments : path_segments url = ii_path_prefix rule ++ rendition_segments r;
  ir_identifier : rn_identifier r ≠ [];
  ir_format : contains_char "." (rn_format r) = false
}.

Lemma path_segments_proper url : Forall (λ s, slashless s ∧ s ≠ "") (path_segments url).
Proof.
  apply Forall_forall. intros s Hs. unfold path_segments in Hs. apply list_elem_of_filter in Hs as [Hne Hs]. split; [|done].
  pose proof (split_on_segments "/" (nu_path url)) as H. rewrite Forall_forall in H. by apply H.
Qed.

Lemma image_request_proper rule url r :
  image_request rule url r → Forall slashless (rendition_segments r) ∧ join_with "/" (rn_identifier r) ≠ "".
Proof.
  intros [_ Hs Hid _]. pose proof (path_segments_proper url) as H. rewrite Hs in H. apply Forall_app in H as [_ H].
  split; [eapply Forall_impl; [exact H|]; by intros s [Hsl _]|]. apply Forall_app in H as [H _].
  destruct (rn_identifier r) as [|x l]; [done|]. apply Forall_cons in H as [[_ Hx] _]. destruct l; [done|].
  rewrite join_cons by done. by destruct x.
Qed.

Lemma iiif_alias_segments r :
  contains_char "." (rn_format r) = false → rn_identifier r ≠ [] → join_with "/" (rn_identifier r) ≠ "" →
  iiif_alias (rendition_segments r) =
    Some (iiif_tail (join_with "/" (rn_identifier r)) (rn_region r) (rn_size r) (rn_rotation r) (rn_quality r) (rn_format r)).
Proof.
  intros Hf Hid Hne. unfold iiif_alias, rendition_segments. rewrite length_app. cbn [length].
  replace (_ <? 5)%nat with false by (symmetry; apply Nat.ltb_ge; destruct (rn_identifier r); [done|cbn; lia]).
  rewrite rev_app_distr. cbn [rev app].
  change (rn_quality r +:+ "." +:+ rn_format r) with (rn_quality r +:+ String "." (rn_format r)).
  rewrite rpartition_on_app by done. cbn [negb].
  rewrite rev_involutive. by rewrite decide_False.
Qed.

Lemma image_request_match rule url r :
  image_request rule url r →
  iiif_match rule url = Some (mk_match (ii_mirror_id rule)
    [iiif_tail (join_with "/" (rn_identifier r)) (rn_region r) (rn_size r) (rn_rotation r) (rn_quality r) (rn_format r)]).
Proof.
  intros H. destruct (image_request_proper _ _ _ H) as [_ Hne]. destruct H as [Hh Hs Hid Hf]. unfold iiif_match.
  rewrite Hh, Hs. cbn [negb]. rewrite take_app_length, drop_app_length, decide_True by done.
  by rewrite iiif_alias_segments.
Qed.

Lemma match_image_request rule url m : iiif_match rule url = Some m → ∃ r, image_request rule url r.
Proof.
  unfold iiif_match. destruct (_host_matches _ _) eqn:Hh; [|done]. cbn [negb]. case_decide as Hp; [|done].
  destruct (iiif_alias _) as [tail|] eqn:Ha; [|done]. intros _. apply iiif_alias_inv in Ha as (r & Hs & Hid & Hf & _).
  exists r. split; try done. rewrite <- Hs. by rewrite <- (take_drop (length (ii_path_prefix rule)) (path_segments url)) at 1; rewrite Hp.
Qed.

(** ** The rules of a loaded set *)

Section LoadedSet.
#[local] Set Default Proof Using "Type*".
Context (re_compile : string → option Pattern) (toml_loads : string → option (list (string * json))).
Context (engine : engine_ok re_compile).

Lemma loaded_sound text s : load_rule_set re_compile toml_loads text = Ok s → Forall sound_rule (rules s).
Proof.
  unfold load_rule_set. destruct (toml_loads text) as [document|]; [|done]. destruct (default _ _) as [| | | | |raw|]; try done.
  intros H. apply res_bind_Ok in H as (l & Hl & [= <-]). apply Forall_forall. intros rule Hin.
  destruct (mapM_res_inv _ _ _ Hl rule Hin) as ([| | | | | |fields] & _ & Hb); try done. by eapply build_sound.
Qed.
End LoadedSet.

(** * Properties *)

(** C18.  A rule set that loads is sound.  For an engine of regular expressions that
    keeps its promises about groups, whatever the URL, the rule set either does not
    match, or gives one name in a partition with a name; its evaluation fails only for
    a template with an unnamed field, or with a field that asks for more than the
    text of a group. *)
Theorem loaded_rules_sound (re_compile : string → option Pattern) (toml_loads : string → option (list (string * json)))
    (text : string) (s : RuleSet) (url : NormalizedUrl) :
  engine_ok re_compile → load_rule_set re_compile toml_loads text = Ok s → sound_result (evaluate s url).
Proof. intros He Hl. apply evaluate_sound. by eapply loaded_sound. Qed.

(** An engine that knows one expression, and a reader that knows one document. *)
Definition one_pattern : Pattern :=
  mk_pattern ["id"] (λ s, if startswith "img/" s then Some {["id" := Some (removeprefix "img/" s)]} else None).
Definition one_engine (text : string) : option Pattern :=
  if decide (text = "img/(?P<id>.*)") then Some one_pattern else None.
Definition one_document (text : string) : option (list (string * json)) :=
  Some [("rule", JArr [JObj [("type", JStr "regex"); ("host", JStr "images.example.org"); ("mirror_id", JStr "example");
    ("path_match", JStr "img/(?P<id>.*)"); ("alias_template", JStr text)]])].
Definition one_url : NormalizedUrl := mk_normalized "https" "images.example.org" None "/img/a/b.jpg" "".

Lemma loaded_rules_sound_witness :
  match load_rule_set one_engine one_document "pictures/{id}" with
  | Ok s => sound_result (evaluate s one_url) ∧ evaluate s one_url = Ok (Some (mk_match "example" ["pictures/a/b.jpg"]))
  | Err _ => False
  end.
Proof.
  destruct (load_rule_set one_engine one_document "pictures/{id}") as [s|e] eqn:Hl; [|vm_compute in Hl; discriminate Hl]. split.
  - apply (loaded_rules_sound one_engine one_document "pictures/{id}" s one_url); [|exact Hl].
    intros text p Hp. unfold one_engine in Hp. destruct (decide _); [|discriminate Hp]. injection Hp as <-. split.
    + intros g Hg. apply list_elem_of_singleton in Hg as ->. reflexivity.
    + intros path groups g Hm Hg. apply list_elem_of_singleton in Hg as ->. unfold one_pattern in Hm. cbn [fullmatch] in Hm.
      destruct (startswith "img/" path); [|discriminate Hm]. injection Hm as <-. rewrite lookup_singleton_eq. by eexists.
  - vm_compute in Hl. injection Hl as <-. vm_compute. reflexivity.
Defined.

(** C19.  Two image URLs share a name exactly if they ask for the same rendition.  The
    rule of an image server matches precisely the URLs that spell a rendition after its
    prefix, and two of them get one name if and only if they agree on the identifier, on
    the region, the size and the format but for case, on the rotation, and on the
    quality but for case and the old name of the default one.  Rotations agree when they
    are the same text, or when [int] reads the same number from both, with or without
    the mark of mirroring on both: [090] and [90] are one name; [90.0], which [int] does
    not read, is another. *)
Theorem iiif_dedup (rule : IIIFImageRule) (url1 url2 : NormalizedUrl) :
  (is_Some (iiif_match rule url1) ↔ ∃ r, image_request rule url1 r) ∧
  ∀ r1 r2, image_request rule url1 r1 → image_request rule url2 r2 →
    iiif_match rule url1 = iiif_match rule url2 ↔ same_rendition r1 r2.
Proof.
  split.
  - split; [intros [m Hm]; by eapply match_image_request|]. intros [r Hr%image_request_match]. by eexists.
  - intros r1 r2 H1 H2. rewrite (image_request_match _ _ _ H1), (image_request_match _ _ _ H2).
    destruct (image_request_proper _ _ _ H1) as [Hs1 _], (image_request_proper _ _ _ H2) as [Hs2 _], H1 as [_ _ Hid1 Hf1], H2 as [_ _ Hid2 Hf2].
    split; intros H.
    + apply same_tail; [done..|]. rewrite <- (tail_split r1), <- (tail_split r2) by done. apply (f_equal (split_on "/")).
      exact (f_equal (λ m, match m with Some (mk_match _ [tail]) => tail | _ => "" end) H).
    + apply same_tail in H; [|done..]. do 3 f_equal. apply (split_on_inj "/"). by rewrite !tail_split.
Qed.

(** The default rule, and two spellings of one rendition. *)
Definition gallica_iiif : IIIFImageRule := mk_iiif "gallica.bnf.fr" "gallica" ["iiif"].
Definition spelled (tail : list string) : Rendition :=
  match tail with
  | [identifier; region; size; rotation; quality; fmt] => mk_rendition [identifier] region size rotation quality fmt
  | _ => mk_rendition [] "" "" "" "" ""
  end.

Lemma iiif_dedup_witness :
  iiif_match gallica_iiif (mk_normalized "https" "gallica.bnf.fr" None "/iiif/b1/Full/full/000/native.JPG" "") =
  iiif_match gallica_iiif (mk_normalized "https" "gallica.bnf.fr" None "/iiif/b1/full/full/0/default.jpg" "").
Proof.
  apply (proj2 (iiif_dedup gallica_iiif _ _) (spelled ["b1"; "Full"; "full"; "000"; "native"; "JPG"])
    (spelled ["b1"; "full"; "full"; "0"; "default"; "jpg"])).
  - split; [reflexivity|vm_compute; reflexivity|discriminate|reflexivity].
  - split; [reflexivity|vm_compute; reflexivity|discriminate|reflexivity].
  - split_and!; try reflexivity; right; [exists 0; left; split; vm_compute; reflexivity|].
    split; vm_compute; [left|right; left].
Defined.
