(* ===== verification/FetchDemo.v ===== *)
(** * A fetcher before a concrete asset store

    The properties of the fetcher at work: its client talks to the process of
    [ApiProps], its network answers every request with the same two bytes and counts
    them. *)

From S2P Require Import Prelude Errors Python Effects Paths Models Retention Sha256 Registry RegistryInv RegistrySound Scenario Codec AdminQuery Admin Capabilities ObjectStore Guard GuardProps ServiceIdentity Admission IssuanceRate Schemas App Api ApiInv ApiProps IpAddress Urls Normalize Rules Transport Fetcher Client EnsureUrl Regex PilotPolicy Pilot StoreContract FetchStore PilotProps FetcherApp FetcherAppProps.
From Stdlib Require Import SpecFloat.

Definition demo_ticks (n : nat) : spec_float := demo_instant.
Definition demo_settings : ClientSettings := mk_client "fetcher" "s2".

#[local] Instance demo_transport : HttpTransport (App LocalObjectStore) := serve_client demo_ticks.
#[local] Instance demo_server : ServerContract (App LocalObjectStore) := store_server demo_ticks.
#[local] Instance demo_client : AssetStoreClient (App LocalObjectStore) := http_client demo_settings.
#[local] Instance demo_contract : StoreContract (App LocalObjectStore) := server_store_contract demo_settings.

(** The network: the number of requests it has answered. *)
#[local] Instance demo_fetcher : UrlFetcher nat := λ url n k, (Ok (mk_content [104; 105] "image/jpeg"), n, S k).
#[local] Instance demo_policy_fetcher : PolicyFetcher nat := λ url check n k,
  match check url with
  | Ok _ => (Ok (mk_content [104; 105] "image/jpeg"), n, S k)
  | Err e => (Err e, n, k)
  end.

Lemma demo_fetch_advances url : advances (fetch url : M nat FetchedContent).
Proof. intros n k. unfold wp, fetch, demo_fetcher. lia. Qed.

Lemma demo_checked_advances url check : advances (fetch_checked url check : M nat FetchedContent).
Proof. intros n k. unfold wp, fetch_checked, demo_policy_fetcher. destruct (check url); lia. Qed.

Definition demo_world : World (App LocalObjectStore) nat := mk_world demo_app 0%nat ∅.

Definition demo_args (url : string) : EnsureArgs := mk_args url false None None 3600.
Definition first_url : string := "https://images.example.org/p/x.jpg".
Definition same_url : string := "HTTPS://Images.Example.org:443/p//x.jpg/#top".

Lemma demo_ok : st_ok 0 (wd_store demo_world).
Proof. by destruct (create_app_inv _ _ _ _ _ 0%nat demo_start_ok). Qed.

(** The first call, and the world after it. *)
Definition first_call : res EnsureUrlResult * nat * World (App LocalObjectStore) nat :=
  ensure_url record_refetch default_rule_set (demo_args first_url) 0%nat demo_world.

Definition first_result : EnsureUrlResult := mk_result "id-10" "cache/example/p/x.jpg" false "cache" "example".
Definition example_place : Placement := mk_placement "cache" "example" "example/p/x.jpg".

Lemma first_call_result : first_call.1.1 = Ok first_result.
Proof. vm_compute. reflexivity. Qed.

Lemma ensure_url_spec_witness :
  ∃ n w, first_call = (Ok first_result, n, w) ∧ st_ok n (wd_store w) ∧
    ∃ u p, placement default_rule_set u (demo_args first_url) = Ok p ∧ placed p first_result ∧
      obtained p u (demo_args first_url) demo_world first_result w.
Proof.
  destruct first_call as [[res n] w] eqn:Hrun. pose proof first_call_result as Hres. rewrite Hrun in Hres. cbn in Hres.
  subst res. exists n, w. split; [reflexivity|].
  destruct (ensure_url_spec demo_fetch_advances _ _ _ _ _ _ _ demo_ok Hrun) as (Hok & _ & H). split; [exact Hok|].
  destruct (H first_result eq_refl) as (u & p & _ & Hp & Hpl & Hobt). exists u, p. split; [exact Hp|]. split; [exact Hpl|exact Hobt].
Defined.

(** The same resource written another way, after the first call. *)
Definition second_call : res EnsureUrlResult * nat * World (App LocalObjectStore) nat :=
  ensure_url record_refetch default_rule_set (demo_args same_url) first_call.1.2 first_call.2.

Lemma ensure_url_once_witness :
  wd_net second_call.2 = 1%nat ∧ ∀ r, second_call.1.1 = Ok r → r = mk_result "id-10" "cache/example/p/x.jpg" true "cache" "example".
Proof.
  destruct first_call as [[res n] w] eqn:Hrun. pose proof first_call_result as Hres. rewrite Hrun in Hres. cbn in Hres. subst res.
  assert (Hnet : wd_net first_call.2 = 1%nat) by (vm_compute; reflexivity). rewrite Hrun in Hnet. cbn in Hnet.
  unfold second_call. rewrite Hrun. cbn [fst snd].
  destruct (ensure_url record_refetch default_rule_set (demo_args same_url) n w) as [[res3 n3] w3] eqn:Hrun2. cbn [fst snd].
  destruct (wp_inv _ _ _ _ _ _ _ (wp_ensure_url demo_fetch_advances _ (world_at_net demo_fetch_advances) _ _ _ _ demo_ok) Hrun) as (_ & Hok & _).
  destruct (normalized_request same_url) as [u2|] eqn:Hu2; [|vm_compute in Hu2; discriminate Hu2].
  assert (Hp2 : placement default_rule_set u2 (demo_args same_url) = Ok example_place).
  { vm_compute in Hu2. injection Hu2 as <-. vm_compute. reflexivity. }
  rewrite <- Hnet.
  apply (ensure_url_once demo_fetch_advances default_rule_set (demo_args first_url) (demo_args same_url) u2 example_place
    0%nat demo_world first_result n w n w res3 n3 w3).
  - exact demo_ok.
  - exact Hrun.
  - intros u Hu. vm_compute in Hu. injection Hu as <-. vm_compute. reflexivity.
  - vm_compute. reflexivity.
  - exact Hok.
  - reflexivity.
  - exact Hu2.
  - exact Hp2.
  - reflexivity.
  - exact Hrun2.
Defined.

(** A preload of a legacy URL, and a read of the current one. *)
Definition legacy_url : string := "https://gallica.bnf.fr/iiif/ark:/12148/bpt6k1/f1/full/full/0/native.jpg".
Definition current_url : string := "https://openapi.bnf.fr/iiif/image/v3/ark:/12148/bpt6k1/f1/full/max/0/default.jpg".
Definition preload_call : res EnsureUrlResult * nat * World (App LocalObjectStore) nat :=
  preload 4 record_refetch legacy_url false 0%nat demo_world.
Definition preload_result : EnsureUrlResult :=
  mk_result "id-10" "cache/gallica-pilot/openapi.bnf.fr/iiif/image/v3/ark:/12148/bpt6k1/f1/full/max/0/default.jpg" false
    "cache" PARTITION.

Lemma preload_call_result : preload_call.1.1 = Ok preload_result.
Proof. vm_compute. reflexivity. Qed.

(** The read of the current URL after the preload of the legacy one. *)
Definition read_call (t : PilotTarget) : res CachedImage * nat * PilotCache (World (App LocalObjectStore) nat) :=
  pilot_read 4 t preload_call.1.2 (mk_pilot None preload_call.2).

Lemma preload_then_read_witness :
  match require current_url with
  | Ok t => wd_net (pc_world (read_call t).2) = 1%nat ∧
      ∃ img, (read_call t).1.1 = Ok img ∧ im_checksum img = checksum_of (im_data img) ∧ im_data img = [104; 105]
  | Err _ => False
  end.
Proof.
  destruct (require current_url) as [t2|] eqn:Hr2; [|vm_compute in Hr2; discriminate Hr2].
  destruct (require legacy_url) as [t|] eqn:Hr; [|vm_compute in Hr; discriminate Hr].
  assert (Hf : fetch_url t2 = fetch_url t ∧ (String.length (fetch_url t) <= 2048)%nat).
  { vm_compute in Hr, Hr2. injection Hr as <-. injection Hr2 as <-. split; [vm_compute; reflexivity|].
    apply Nat.leb_le. vm_compute. reflexivity. }
  destruct Hf as [Hf Hlen].
  destruct preload_call as [[res n] w] eqn:Hrun. pose proof preload_call_result as Hres. rewrite Hrun in Hres. cbn in Hres. subst res.
  assert (Hnet : wd_net preload_call.2 = 1%nat) by (vm_compute; reflexivity). rewrite Hrun in Hnet. cbn in Hnet.
  assert (Himg : (λ img, im_data img) <$> (match (read_call t2).1.1 with Ok img => Some img | Err _ => None end) = Some [104; 105]).
  { vm_compute in Hr2. injection Hr2 as <-. vm_compute. reflexivity. }
  unfold read_call in *. rewrite Hrun in *. cbn [fst snd] in *.
  destruct (pilot_read 4 t2 n (mk_pilot None w)) as [[res3 n3] p3] eqn:Hread. cbn [fst snd] in *.
  assert (Hok : st_ok n (wd_store w)).
  { destruct (approved_placement legacy_url t false Hr Hlen) as (_ & alias & _ & _ & Hal & _).
    destruct (wp_inv _ _ _ _ _ _ _ (wp_preload demo_checked_advances 4 legacy_url t alias false _ _ demo_ok Hr Hlen Hal) Hrun) as (_ & Hok & _).
    exact Hok. }
  destruct (preload_then_read demo_checked_advances 4 legacy_url current_url false t t2 0%nat demo_world preload_result n w n
    (mk_pilot None w) res3 n3 p3 demo_ok Hr Hr2 Hf Hlen Hrun Hok (reflexivity _) Hread) as [Hn H].
  split; [rewrite Hn; exact Hnet|]. destruct res3 as [img|e]; [|discriminate Himg]. exists img. split; [reflexivity|].
  destruct (H img eq_refl) as (alias & _ & _ & _ & Hck & _ & _). split; [exact Hck|]. injection Himg as Himg. exact Himg.
Defined.

(** A fetcher process that knows a dispatcher and another service. *)
Definition fetcher_start : res (FetcherApp (App LocalObjectStore) nat) :=
  create_fetcher ∅ default_rule_set (Some {["task-api" := "s1"; "fetcher" := "s2"]}) demo_app 0%nat.

Definition preload_as {A N} `{!AssetStoreClient A} `{!PolicyFetcher N} `{!UrlFetcher N} (authorization : string) (x : FetcherApp A N) :
    FetcherAnswer * nat * FetcherApp A N :=
  fetcher_serve (mk_fetcher_request authorization (FPreload (mk_preload_request legacy_url false))) 0%nat x.

(** What is true of a process that starts. *)
Definition started {X} (r : res X) (p : X → bool) : bool := match r with Ok x => p x | Err _ => false end.

Lemma dispatcher_required_witness :
  match fetcher_start with
  | Ok x =>
      (fn_status (preload_as "Service fetcher:s2" x).1.1 =? 403) = true ∧ (preload_as "Service fetcher:s2" x).2 = denied_ingress x ∧
      (fn_status (preload_as "Service task-api:s1" x).1.1 =? 200) = true
  | Err _ => False
  end.
Proof.
  assert (H1 : started fetcher_start (λ x, fn_status (preload_as "Service fetcher:s2" x).1.1 =? 403) = true) by (vm_compute; reflexivity).
  assert (H2 : started fetcher_start (λ x, fn_status (preload_as "Service task-api:s1" x).1.1 =? 200) = true) by (vm_compute; reflexivity).
  assert (H3 : started fetcher_start (λ x, match dispatcher_identity (fa_credentials x) "Service fetcher:s2" with
    Err CapabilityDeniedError => true | _ => false end) = true) by (vm_compute; reflexivity).
  destruct fetcher_start as [x|e]; [|discriminate H1]. cbn [started] in H1, H2, H3. split; [exact H1|]. split; [|exact H2].
  unfold preload_as. destruct (fetcher_serve _ 0%nat x) as [[answer n'] x'] eqn:Hrun. cbn [snd].
  destruct (dispatcher_required "Service fetcher:s2" (FPreload (mk_preload_request legacy_url false)) 0%nat x answer n' x' Hrun) as [H _].
  apply (H eq_refl). intros caller Hd. apply dispatcher_identity_iff in Hd. rewrite Hd in H3. discriminate H3.
Defined.
