(* ===== verification/S3Store.v ===== *)
(** * The S3 adapter

    [asset_store_core/s3_object_store.py]: [S3ObjectStore] over a client of an
    S3-compatible service.  The client is a class, its documented behaviour another;
    over any client that keeps it, and objects whose checksum metadata is true, the
    adapter is an object store that keeps [ObjectStoreLaws]. *)

From S2P Require Import Prelude Errors Python Effects Paths Models Sha256 ObjectStore.

Definition _CHECKSUM_META_KEY : string := "checksum".
Definition _DEFAULT_MULTIPART_THRESHOLD : Z := 8 * 1024 * 1024.
Definition _DEFAULT_PART_SIZE : Z := 8 * 1024 * 1024.

Abbreviation Metadata := (gmap string string).

(** What [head_object] answers. *)
Record HeadObject := mk_head { hd_content_length : Z; hd_metadata : option Metadata }.

(** An entry of [MultipartUpload]'s [Parts]. *)
Record UploadedPart := mk_part { up_etag : string; up_part_number : Z }.

(** ** The client

    A download is the call and the reading of its body. *)

Class S3Client (C : Type) := {
  client_s3_put : ObjectStoreLocation → bytes → Metadata → M C unit;
  client_s3_get : ObjectStoreLocation → M C bytes;
  client_s3_head : ObjectStoreLocation → M C HeadObject;
  client_s3_delete : ObjectStoreLocation → M C unit;
  client_s3_presign : ObjectStoreLocation → Z → M C string;
  create_multipart_upload : ObjectStoreLocation → Metadata → M C string;
  upload_part : ObjectStoreLocation → string → Z → bytes → M C string;
  complete_multipart_upload : ObjectStoreLocation → string → list UploadedPart → M C unit;
  abort_multipart_upload : ObjectStoreLocation → string → M C unit
}.

(** [_is_not_found] of the response of a [ClientError]. *)
Definition _is_not_found (code : option string) (status : option Z) : bool :=
  mem (default "" code) ["NoSuchKey"; "NoSuchBucket"; "404"] || (default 0 status =? 404).

(** [range(0, stop, step)] *)
Definition range_step (stop step : Z) : res (list Z) :=
  if step =? 0 then Err PyValueError
  else if step <? 0 then mret []
  else mret ((λ i, Z.of_nat i * step) <$> seq 0 (Z.to_nat ((stop + step - 1) / step))).

(** [payload[start : start + size]] *)
Definition part_at (payload : bytes) (size start : Z) : bytes :=
  take (Z.to_nat size) (drop (Z.to_nat start) payload).

(** ** The adapter *)

Record S3ObjectStore (C : Type) := mk_s3 {
  ss_client : C;
  ss_multipart_threshold : Z;
  ss_part_size : Z
}.
Arguments mk_s3 {C}.
Arguments ss_client {C}.
Arguments ss_multipart_threshold {C}.
Arguments ss_part_size {C}.

Section Adapter.
Context {C : Type} `{!S3Client C}.

Abbreviation SM := (M (S3ObjectStore C)).

Definition set_ss_client (c : C) (s : S3ObjectStore C) : S3ObjectStore C :=
  mk_s3 c (ss_multipart_threshold s) (ss_part_size s).
Definition on_s3 {A} (m : M C A) : SM A := zoom ss_client set_ss_client m.

(** The loop over the parts. *)
Fixpoint upload_parts (location : ObjectStoreLocation) (upload_id : string) (payload : bytes) (size : Z)
    (part_number : Z) (starts : list Z) (parts : list UploadedPart) : SM (list UploadedPart) :=
  match starts with
  | [] => mret parts
  | start :: starts' =>
      etag ← on_s3 (upload_part location upload_id part_number (part_at payload size start));
      upload_parts location upload_id payload size (part_number + 1) starts' (parts ++ [mk_part etag part_number])
  end.

Definition _put_multipart (location : ObjectStoreLocation) (payload : bytes) (metadata : Metadata) : SM unit :=
  upload_id ← on_s3 (create_multipart_upload location metadata);
  catch
    (s ← get_state;
     starts ← of_res (range_step (Z.of_nat (length payload)) (ss_part_size s));
     parts ← upload_parts location upload_id payload (ss_part_size s) 1 starts [];
     on_s3 (complete_multipart_upload location upload_id parts))
    (λ e, on_s3 (abort_multipart_upload location upload_id) ;; raise e).

Definition s3_put (location : ObjectStoreLocation) (data : bytes) : SM StoredObjectStat :=
  let checksum := compute_checksum data in
  let metadata := {[_CHECKSUM_META_KEY := checksum]} in
  s ← get_state;
  (if ss_multipart_threshold s <=? Z.of_nat (length data) then _put_multipart location data metadata
   else on_s3 (client_s3_put location data metadata)) ;;
  mret (mk_stat (Z.of_nat (length data)) checksum CHECKSUM_ALGO).

(** [except ClientError]: [h] for a missing key, the error otherwise. *)
Definition unless_missing {A} (m h : SM A) : SM A :=
  catch m (λ e,
    match e with
    | BotoClientError code status => if _is_not_found code status then h else raise e
    | _ => raise e
    end).

Definition s3_get (location : ObjectStoreLocation) : SM bytes :=
  unless_missing (on_s3 (client_s3_get location)) (raise ObjectNotFoundError).

Definition s3_stat (location : ObjectStoreLocation) : SM (option StoredObjectStat) :=
  response ← unless_missing (response ← on_s3 (client_s3_head location); mret (Some response)) (mret None);
  match response with
  | None => mret None
  | Some response =>
      checksum ← match default ∅ (hd_metadata response) !! _CHECKSUM_META_KEY with
        | Some checksum => mret checksum
        | None => data ← s3_get location; mret (compute_checksum data)
        end;
      mret (Some (mk_stat (hd_content_length response) checksum CHECKSUM_ALGO))
  end.

Definition s3_delete (location : ObjectStoreLocation) : SM unit := on_s3 (client_s3_delete location).
Definition s3_presign (location : ObjectStoreLocation) (expires_in : Z) : SM string :=
  on_s3 (client_s3_presign location expires_in).

#[export] Instance s3_object_store : ObjectStoreBackend (S3ObjectStore C) := {
  put_object := s3_put;
  get_object := s3_get;
  stat_object := s3_stat;
  delete_object := s3_delete;
  presign_get_url := s3_presign
}.
End Adapter.

(** ** What the service documents

    Objects with their metadata; uploads in progress with their key and metadata, and
    the parts of each, with their tags.  A call that fails may have been carried out.
    Completing assembles the parts listed, of which there must be one. *)

Class S3Spec (C : Type) := {
  s3_object : C → ObjectStoreLocation → option (bytes * Metadata);
  s3_upload : C → string → option (ObjectStoreLocation * Metadata);
  s3_part : C → string → Z → option (string * bytes)
}.

Definition assembled {C} `{!S3Spec C} (c : C) (l : ObjectStoreLocation) (upload_id : string) (parts : list UploadedPart)
    (object : option (bytes * Metadata)) : Prop :=
  ∃ metadata bodies, s3_upload c upload_id = Some (l, metadata) ∧ parts ≠ [] ∧
    Forall2 (λ p body, s3_part c upload_id (up_part_number p) = Some (up_etag p, body)) parts bodies ∧
    object = Some (concat bodies, metadata).

Class S3Laws (C : Type) `{!S3Client C, !S3Spec C} : Prop := {
  law_s3_put l body metadata n c : wp (client_s3_put l body metadata) (λ r n' c', (n <= n')%nat ∧
    (∀ l', l' ≠ l → s3_object c' l' = s3_object c l') ∧
    (s3_object c' l = s3_object c l ∨ s3_object c' l = Some (body, metadata)) ∧
    (r = Ok tt → s3_object c' l = Some (body, metadata))) n c;
  law_s3_get l n c : wp (client_s3_get l) (λ r n' c', (n <= n')%nat ∧ (∀ l', s3_object c' l' = s3_object c l') ∧
    ∀ data, r = Ok data → fst <$> s3_object c l = Some data) n c;
  law_s3_head l n c : wp (client_s3_head l) (λ r n' c', (n <= n')%nat ∧ (∀ l', s3_object c' l' = s3_object c l') ∧
    (∀ head, r = Ok head → ∃ data, s3_object c l = Some (data, default ∅ (hd_metadata head)) ∧
       hd_content_length head = Z.of_nat (length data)) ∧
    ∀ code status, r = Err (BotoClientError code status) → _is_not_found code status = true → s3_object c l = None) n c;
  law_s3_delete l n c : wp (client_s3_delete l) (λ r n' c', (n <= n')%nat ∧
    (∀ l', l' ≠ l → s3_object c' l' = s3_object c l') ∧
    (s3_object c' l = s3_object c l ∨ s3_object c' l = None) ∧ (r = Ok tt → s3_object c' l = None)) n c;
  law_s3_presign l ttl n c : wp (client_s3_presign l ttl) (λ _ n' c', (n <= n')%nat ∧
    ∀ l', s3_object c' l' = s3_object c l') n c;
  law_s3_create l metadata n c : wp (create_multipart_upload l metadata) (λ r n' c', (n <= n')%nat ∧
    (∀ l', s3_object c' l' = s3_object c l') ∧ ∀ i, r = Ok i → s3_upload c' i = Some (l, metadata)) n c;
  law_s3_part l i number body n c : wp (upload_part l i number body) (λ r n' c', (n <= n')%nat ∧
    (∀ l', s3_object c' l' = s3_object c l') ∧ s3_upload c' i = s3_upload c i ∧
    (∀ k, k ≠ number → s3_part c' i k = s3_part c i k) ∧
    ∀ etag, r = Ok etag → s3_part c' i number = Some (etag, body)) n c;
  law_s3_complete l i parts n c : wp (complete_multipart_upload l i parts) (λ r n' c', (n <= n')%nat ∧
    (∀ l', l' ≠ l → s3_object c' l' = s3_object c l') ∧
    (s3_object c' l = s3_object c l ∨ assembled c l i parts (s3_object c' l)) ∧
    (r = Ok tt → assembled c l i parts (s3_object c' l))) n c;
  law_s3_abort l i n c : wp (abort_multipart_upload l i) (λ _ n' c', (n <= n')%nat ∧
    ∀ l', s3_object c' l' = s3_object c l') n c
}.

(** ** Parts *)

Lemma concat_parts (size : Z) (payload : bytes) (m : nat) : 0 < size →
  concat (part_at payload size <$> ((λ i, Z.of_nat i * size) <$> seq 0 m)) = take (m * Z.to_nat size) payload.
Proof.
  intros Hs. induction m as [|m IH]; [done|]. rewrite seq_S, !fmap_app, concat_app, IH. cbn. rewrite app_nil_r. unfold part_at.
  replace (Z.to_nat (Z.of_nat m * size)) with (m * Z.to_nat size)%nat by lia.
  rewrite take_take_drop. f_equal. lia.
Qed.

Lemma parts_enough (size len : Z) : 0 < size → 0 <= len →
  len <= Z.of_nat (Z.to_nat ((len + size - 1) / size)) * size < len + size.
Proof.
  intros Hs Hl. rewrite Z2Nat.id by (apply Z.div_pos; lia). pose proof (Z.div_mod (len + size - 1) size ltac:(lia)).
  pose proof (Z.mod_pos_bound (len + size - 1) size Hs). lia.
Qed.

Lemma range_step_parts (payload : bytes) (size : Z) (starts : list Z) :
  range_step (Z.of_nat (length payload)) size = Ok starts → starts ≠ [] →
  concat (part_at payload size <$> starts) = payload.
Proof.
  unfold range_step. destruct (size =? 0) eqn:H0; [done|]. destruct (size <? 0) eqn:H1; [by intros [= <-]|].
  intros [= <-] _. rewrite concat_parts by lia. apply take_ge.
  pose proof (parts_enough size (Z.of_nat (length payload)) ltac:(lia) ltac:(lia)). lia.
Qed.

Section Laws.
#[local] Set Default Proof Using "Type*".
Context {C : Type} `{!S3Client C, !S3Spec C, !S3Laws C}.
Implicit Types (c : C) (s : S3ObjectStore C) (l : ObjectStoreLocation).

Definition object_at s l : option (bytes * Metadata) := s3_object (ss_client s) l.

(** Only [l] may have changed, and only to [new]. *)
Definition writes l (new : option (bytes * Metadata)) s s' : Prop :=
  (∀ l', l' ≠ l → object_at s' l' = object_at s l') ∧ (object_at s' l = object_at s l ∨ object_at s' l = new).

Lemma writes_same l new s s' : (∀ l', object_at s' l' = object_at s l') → writes l new s s'.
Proof. intros H. split; [done|by left]. Qed.

Lemma writes_then l new s s1 s2 : (∀ l', object_at s1 l' = object_at s l') → writes l new s1 s2 → writes l new s s2.
Proof. intros H [Ho Hl]. split; [intros l' Hne; rewrite Ho by done; apply H|]. by rewrite <- (H l). Qed.

Lemma writes_upto l new s s1 s2 : writes l new s s1 → (∀ l', object_at s2 l' = object_at s1 l') → writes l new s s2.
Proof. intros [Ho Hl] H. split; [intros l' Hne; rewrite H; by apply Ho|]. by rewrite H. Qed.

(** The parts sent so far, with the bodies the service holds for them. *)
Definition sent c (i : string) (parts : list UploadedPart) (bodies : list bytes) : Prop :=
  Forall2 (λ p body, s3_part c i (up_part_number p) = Some (up_etag p, body)) parts bodies.

Lemma sent_unique c i parts bodies1 bodies2 : sent c i parts bodies1 → sent c i parts bodies2 → bodies1 = bodies2.
Proof.
  intros H. revert bodies2. induction H as [|p body parts bodies Hp _ IH]; intros bodies2 H2.
  - by apply Forall2_nil_inv_l in H2.
  - apply Forall2_cons_inv_l in H2 as (body2 & bodies2' & Hp2 & H2 & ->). f_equal; [congruence|by apply IH].
Qed.

Lemma wp_upload_parts l i metadata payload size (starts : list Z) n s number parts bodies :
  s3_upload (ss_client s) i = Some (l, metadata) → sent (ss_client s) i parts bodies →
  Forall (λ p, up_part_number p < number) parts →
  wp (upload_parts l i payload size number starts parts) (λ r n' s', (n <= n')%nat ∧
    ss_part_size s' = ss_part_size s ∧ (∀ l', object_at s' l' = object_at s l') ∧
    ∀ parts', r = Ok parts' → s3_upload (ss_client s') i = Some (l, metadata) ∧
      sent (ss_client s') i parts' (bodies ++ (part_at payload size <$> starts)) ∧
      length parts' = (length parts + length starts)%nat) n s.
Proof.
  revert n s number parts bodies. induction starts as [|start starts IH]; intros n s number parts bodies Hu Hsent Hlt; cbn [upload_parts fmap list_fmap length].
  - wp_step. split_and!; [done..|]. intros parts' [= <-]. rewrite app_nil_r. split_and!; [done..|lia].
  - wp_step. apply wp_zoom. eapply wp_mono; [apply law_s3_part|]. intros r n1 c1 (Hn & Ho & Hup & Hkeep & Htag).
    destruct r as [etag|e]; [|by split_and!].
    eapply wp_mono; [apply (IH _ _ _ _ (bodies ++ [part_at payload size start]))|].
    + cbn. by rewrite Hup.
    + cbn. apply Forall2_app; [|by repeat constructor; cbn; apply Htag].
      apply Forall2_same_length_lookup. split; [by apply Forall2_length in Hsent|]. intros k p body Hp Hb.
      rewrite Hkeep; [by eapply Forall2_lookup_lr in Hsent|]. rewrite Forall_lookup in Hlt. specialize (Hlt _ _ Hp). lia.
    + apply Forall_app. split; [eapply Forall_impl; [exact Hlt|]; cbn; intros; lia|]. repeat constructor. cbn. lia.
    + intros r' n2 s2 (Hn2 & Hs2 & Ho2 & Hr). split_and!; [lia|done|intros l'; rewrite Ho2; apply Ho|].
      intros parts' Hp. destruct (Hr parts' Hp) as (H1 & H2 & H3). rewrite <- app_assoc in H2. split_and!; [done..|].
      rewrite H3, length_app. cbn. lia.
Qed.

Lemma wp_put_multipart l payload metadata n s :
  wp (_put_multipart l payload metadata) (λ r n' s', (n <= n')%nat ∧
    writes l (Some (payload, metadata)) s s' ∧ (r = Ok tt → object_at s' l = Some (payload, metadata))) n s.
Proof.
  unfold _put_multipart. wp_step. apply wp_zoom. eapply wp_mono; [apply law_s3_create|].
  intros r n1 c1 (Hn1 & Ho1 & Hup). destruct r as [i|e]; [|split_and!; [done|by apply writes_same|done]].
  set (s1 := set_ss_client c1 s). specialize (Hup i eq_refl).
  assert (H1 : ∀ l', object_at s1 l' = object_at s l') by done.
  enough (Hbody : wp (s0 ← get_state; starts ← of_res (range_step (Z.of_nat (length payload)) (ss_part_size s0));
      parts ← upload_parts l i payload (ss_part_size s0) 1 starts [];
      on_s3 (complete_multipart_upload l i parts))
    (λ r n' s', (n <= n')%nat ∧ writes l (Some (payload, metadata)) s s' ∧ (r = Ok tt → object_at s' l = Some (payload, metadata))) n1 s1).
  { apply wp_catch. eapply wp_mono; [exact Hbody|]. intros [[]|e] n2 s2 (Hn2 & Hw & Hok); [by split_and!|].
    wp_step. apply wp_zoom. eapply wp_mono; [apply law_s3_abort|]. intros r n3 c3 (Hn3 & Ho3).
    assert (Hw3 : writes l (Some (payload, metadata)) s (set_ss_client c3 s2)) by by eapply writes_upto.
    destruct r as [[]|e']; [wp_step|]; (split_and!; [lia|done|done]). }
  wp_step. wp_step. wp_step. wp_step. destruct (range_step _ _) as [starts|e] eqn:Hr; [|split_and!; [done|by apply writes_same|done]].
  wp_step. eapply wp_mono.
  { apply (wp_upload_parts l i metadata payload (ss_part_size s1) starts n1 s1 1 [] []); [exact Hup|constructor|constructor]. }
  intros r n2 s2 (Hn2 & _ & Ho2 & Hsent). destruct r as [parts|e].
  2:{ split_and!; [lia|apply writes_same; intros l'; by rewrite Ho2|done]. }
  assert (Ho : ∀ l', object_at s2 l' = object_at s l') by (intros l'; by rewrite Ho2).
  destruct (Hsent parts eq_refl) as (Hup2 & Hparts & Hlen). cbn in Hparts, Hlen.
  apply wp_zoom. eapply wp_mono; [apply law_s3_complete|]. intros r n3 c3 (Hn3 & Ho3 & Hl3 & Hok).
  assert (Hnew : ∀ o, assembled (ss_client s2) l i parts o → o = Some (payload, metadata)).
  { intros o (metadata' & bodies & Hup' & Hne & Hbodies & ->). rewrite Hup2 in Hup'. injection Hup' as <-.
    assert (bodies = part_at payload (ss_part_size s1) <$> starts) as ->.
    { by eapply sent_unique. }
    do 2 f_equal. apply range_step_parts; [done|]. intros ->. by destruct parts. }
  split_and!.
  - lia.
  - split; [intros l' Hne; rewrite <- (Ho l'); by apply Ho3|].
    destruct Hl3 as [Hl3|Hl3]; [left; rewrite <- (Ho l); exact Hl3|right; exact (Hnew _ Hl3)].
  - intros Hres. exact (Hnew _ (Hok Hres)).
Qed.

(** The metadata the adapter gives what it writes. *)
Definition checked (data : bytes) : Metadata := {[_CHECKSUM_META_KEY := compute_checksum data]}.

Lemma wp_s3_put l data n s :
  wp (s3_put l data) (λ r n' s', (n <= n')%nat ∧ writes l (Some (data, checked data)) s s' ∧
    ∀ st, r = Ok st → st = stat_of data ∧ object_at s' l = Some (data, checked data)) n s.
Proof.
  unfold s3_put. wp_step. wp_step. wp_step.
  eapply (wp_mono _ (λ r n' s', (n <= n')%nat ∧ writes l (Some (data, checked data)) s s' ∧
    (r = Ok tt → object_at s' l = Some (data, checked data)))).
  - destruct (_ <=? _); [apply wp_put_multipart|]. apply wp_zoom. eapply wp_mono; [apply law_s3_put|].
    intros r n' c' (Hn & Ho & Hl & Hok). split_and!; [done|by split|done].
  - intros [[]|e] n' s' (Hn & Hw & Hok); [wp_step|]; split_and!; try done. intros st [= <-]. split; [done|by apply Hok].
Qed.

Lemma wp_unless_missing {A} (m h : M (S3ObjectStore C) A) Q n s :
  wp m (λ r n' s', match r with
    | Ok a => Q (Ok a) n' s'
    | Err e => (∀ code status, e = BotoClientError code status → _is_not_found code status = true → wp h Q n' s') ∧ Q (Err e) n' s'
    end) n s →
  wp (unless_missing m h) Q n s.
Proof.
  intros H. apply wp_catch. eapply wp_mono; [exact H|]. intros [a|e] n' s'; [done|]. intros [Hh HQ].
  destruct e; try exact HQ. destruct (_is_not_found _ _) eqn:Hnf; [by eapply Hh|exact HQ].
Qed.

Lemma wp_s3_get l n s :
  wp (s3_get l) (λ r n' s', (n <= n')%nat ∧ (∀ l', object_at s' l' = object_at s l') ∧
    ∀ data, r = Ok data → fst <$> object_at s l = Some data) n s.
Proof.
  unfold s3_get. apply wp_unless_missing. apply wp_zoom. eapply wp_mono; [apply law_s3_get|].
  intros [data|e] n' c' (Hn & Ho & Hd); [by split_and!|]. split; [intros code status -> _; wp_step|]; by split_and!.
Qed.

(** The checksum among an object's metadata, if any, is that of its bytes. *)
Definition honest s : Prop := ∀ l data metadata, object_at s l = Some (data, metadata) →
  default (compute_checksum data) (metadata !! _CHECKSUM_META_KEY) = compute_checksum data.

Lemma wp_s3_stat l n s : honest s →
  wp (s3_stat l) (λ r n' s', (n <= n')%nat ∧ (∀ l', object_at s' l' = object_at s l') ∧
    ∀ st, r = Ok st → st = stat_of <$> (fst <$> object_at s l)) n s.
Proof.
  intros Hh. unfold s3_stat. wp_step. apply wp_unless_missing. wp_step. apply wp_zoom. eapply wp_mono; [apply law_s3_head|].
  intros [head|e] n1 c1 (Hn1 & Ho1 & Hhead & Hmiss).
  - wp_step. destruct (Hhead head eq_refl) as (data & Hd & Hlen). specialize (Hh l data _ Hd).
    wp_step. destruct (default ∅ (hd_metadata head) !! _CHECKSUM_META_KEY) as [checksum|]; cbn in Hh.
    + wp_step. wp_step. split_and!; [done..|]. intros st [= <-]. unfold object_at. rewrite Hd. cbn. by rewrite Hlen, Hh.
    + wp_step. eapply wp_mono; [apply wp_s3_get|]. intros [data'|e] n2 s2 (Hn2 & Ho2 & Hd2).
      * wp_step. wp_step. assert (Heq : object_at s l = Some (data, default ∅ (hd_metadata head))) by done.
        specialize (Hd2 data' eq_refl). unfold object_at in Hd2. cbn in Hd2. rewrite Ho1, Hd in Hd2. injection Hd2 as <-.
        split_and!; [lia|intros l'; rewrite Ho2; apply Ho1|]. intros st [= <-]. rewrite Heq. cbn. by rewrite Hlen.
      * split_and!; [lia|intros l'; rewrite Ho2; apply Ho1|done].
  - split; [|by split_and!]. intros code status -> Hnf. wp_step. wp_step. split_and!; [done..|]. intros st [= <-].
    unfold object_at. by rewrite (Hmiss _ _ eq_refl Hnf).
Qed.

Lemma wp_s3_delete l n s :
  wp (s3_delete l) (λ r n' s', (n <= n')%nat ∧ writes l None s s' ∧ (r = Ok tt → object_at s' l = None)) n s.
Proof.
  apply wp_zoom. eapply wp_mono; [apply law_s3_delete|]. intros r n' c' (Hn & Ho & Hl & Hok). by split_and!.
Qed.

Lemma wp_s3_presign l ttl n s :
  wp (s3_presign l ttl) (λ _ n' s', (n <= n')%nat ∧ ∀ l', object_at s' l' = object_at s l') n s.
Proof. apply wp_zoom. eapply wp_mono; [apply law_s3_presign|]. intros r n' c' (Hn & Ho). by split. Qed.

(** ** An object store

    The adapter's operations over stores whose metadata is honest, which they keep. *)

Record HonestStore := mk_honest { hs_store : S3ObjectStore C; hs_honest : honest hs_store }.

Definition keeps_honest {A} (m : M (S3ObjectStore C) A) : Prop :=
  ∀ n s, honest s → ∀ r n' s', m n s = (r, n', s') → honest s'.

Lemma honest_same s s' : (∀ l, object_at s' l = object_at s l) → honest s → honest s'.
Proof. intros H Hs l data metadata. rewrite H. apply Hs. Qed.

Lemma honest_writes l new s s' : writes l new s s' → honest s →
  (∀ data metadata, new = Some (data, metadata) → metadata = checked data) → honest s'.
Proof.
  intros [Ho Hl] Hs Hnew l' data metadata Hd. destruct (decide (l' = l)) as [->|Hne]; [|rewrite Ho in Hd by done; by eapply Hs].
  destruct Hl as [Hl|Hl]; rewrite Hl in Hd; [by eapply Hs|]. rewrite (Hnew _ _ Hd). unfold checked. by rewrite lookup_singleton_eq.
Qed.

Lemma put_honest l data : keeps_honest (s3_put l data).
Proof.
  intros n s Hs r n' s' Hrun. destruct (wp_inv _ _ _ _ _ _ _ (wp_s3_put l data n s) Hrun) as (_ & Hw & _).
  eapply honest_writes; [exact Hw|exact Hs|]. by intros data' metadata [= <- <-].
Qed.

Lemma get_honest l : keeps_honest (s3_get l).
Proof. intros n s Hs r n' s' Hrun. destruct (wp_inv _ _ _ _ _ _ _ (wp_s3_get l n s) Hrun) as (_ & Ho & _). by eapply honest_same. Qed.

Lemma stat_honest l : keeps_honest (s3_stat l).
Proof. intros n s Hs r n' s' Hrun. destruct (wp_inv _ _ _ _ _ _ _ (wp_s3_stat l n s Hs) Hrun) as (_ & Ho & _). by eapply honest_same. Qed.

Lemma delete_honest l : keeps_honest (s3_delete l).
Proof.
  intros n s Hs r n' s' Hrun. destruct (wp_inv _ _ _ _ _ _ _ (wp_s3_delete l n s) Hrun) as (_ & Hw & _).
  by eapply honest_writes.
Qed.

Lemma presign_honest l ttl : keeps_honest (s3_presign l ttl).
Proof. intros n s Hs r n' s' Hrun. destruct (wp_inv _ _ _ _ _ _ _ (wp_s3_presign l ttl n s) Hrun) as (_ & Ho). by eapply honest_same. Qed.

Lemma triple_eta {A B D} (p : A * B * D) : p = (p.1.1, p.1.2, p.2).
Proof using Type. by destruct p as [[] ?]. Qed.

Definition lift_honest {A} (m : M (S3ObjectStore C) A) (H : keeps_honest m) : M HonestStore A := λ n h,
  let p := m n (hs_store h) in
  (p.1.1, p.1.2, mk_honest p.2 (H n (hs_store h) (hs_honest h) p.1.1 p.1.2 p.2 (triple_eta p))).

Lemma wp_lift {A} (m : M (S3ObjectStore C) A) H Q n h :
  wp m (λ r n' s', ∀ Hs, Q r n' (mk_honest s' Hs)) n (hs_store h) → wp (lift_honest m H) Q n h.
Proof.
  unfold wp, lift_honest. cbv zeta. match goal with |- context [mk_honest _ ?kept] => generalize kept end.
  destruct (m n (hs_store h)) as [[r n'] s']. cbn. auto.
Qed.

#[export] Instance honest_object_store : ObjectStoreBackend HonestStore := {
  put_object l data := lift_honest (s3_put l data) (put_honest l data);
  get_object l := lift_honest (s3_get l) (get_honest l);
  stat_object l := lift_honest (s3_stat l) (stat_honest l);
  delete_object l := lift_honest (s3_delete l) (delete_honest l);
  presign_get_url l ttl := lift_honest (s3_presign l ttl) (presign_honest l ttl)
}.

#[refine, export] Instance honest_object_store_laws : ObjectStoreLaws HonestStore := {
  contents h l := fst <$> object_at (hs_store h) l
}.
Proof.
  - intros l data n h. apply wp_lift. eapply wp_mono; [apply wp_s3_put|]. intros r n' s' (Hn & [Ho _] & Hok) Hs. cbn.
    split_and!; [done|intros l' Hl'; by rewrite Ho|]. intros st Hst. destruct (Hok st Hst) as [-> ->]. done.
  - intros l n h. apply wp_lift. eapply wp_mono; [apply wp_s3_get|]. intros r n' s' (Hn & Ho & Hok) Hs. cbn.
    split_and!; [done|intros l'; by rewrite Ho|done].
  - intros l n h. apply wp_lift. eapply wp_mono; [apply wp_s3_stat, hs_honest|]. intros r n' s' (Hn & Ho & Hok) Hs. cbn.
    split_and!; [done|intros l'; by rewrite Ho|done].
  - intros l n h. apply wp_lift. eapply wp_mono; [apply wp_s3_delete|]. intros r n' s' (Hn & [Ho _] & Hok) Hs. cbn.
    split_and!; [done|intros l' Hl'; by rewrite Ho|]. intros Hr. by rewrite Hok.
  - intros l ttl n h. apply wp_lift. eapply wp_mono; [apply wp_s3_presign|]. intros r n' s' (Hn & Ho) Hs. cbn.
    split_and!; [done|intros l'; by rewrite Ho].
Defined.

(** * Properties *)

(** C20.  An upload to S3 is whole or not at all, in one request or in parts.  Whatever
    fails on the way, no other object changes and the object itself is as it was or has
    all the bytes with their checksum; an upload that returns reports their size and
    checksum, and what is then described is what was uploaded, and what is then
    downloaded are its bytes. *)
Theorem s3_upload_whole (l : ObjectStoreLocation) (data : bytes) (n : nat) (s : S3ObjectStore C)
    (r : res StoredObjectStat) (n' : nat) (s' : S3ObjectStore C) :
  honest s → s3_put l data n s = (r, n', s') →
  honest s' ∧ (∀ l', l' ≠ l → object_at s' l' = object_at s l') ∧
  (object_at s' l = object_at s l ∨ object_at s' l = Some (data, checked data)) ∧
  ∀ st, r = Ok st → st = stat_of data ∧ object_at s' l = Some (data, checked data) ∧
    ∀ m, (∀ st', (s3_stat l m s').1.1 = Ok st' → st' = Some (stat_of data)) ∧
         (∀ data', (s3_get l m s').1.1 = Ok data' → data' = data).
Proof.
  intros Hs Hrun. pose proof (put_honest _ _ _ _ Hs _ _ _ Hrun) as Hs'.
  destruct (wp_inv _ _ _ _ _ _ _ (wp_s3_put l data n s) Hrun) as (_ & [Ho Hl] & Hok). split_and!; [done..|].
  intros st Hst. destruct (Hok st Hst) as [Hstat Hobj]. split_and!; [done..|]. intros m. split.
  - intros st'. pose proof (wp_s3_stat l m s' Hs') as H. unfold wp in H. destruct (s3_stat l m s') as [[r2 n2] s2].
    destruct H as (_ & _ & H). intros Hr. rewrite (H st' Hr), Hobj. done.
  - intros data'. pose proof (wp_s3_get l m s') as H. unfold wp in H. destruct (s3_get l m s') as [[r2 n2] s2].
    destruct H as (_ & _ & H). intros Hr. specialize (H data' Hr). rewrite Hobj in H. by injection H.
Qed.
End Laws.

(** The parts of an upload are its bytes cut up.  For a positive part size there are
    as many parts as it takes, they start one after the other, every part but the last
    has exactly that size and the last is not empty, and put together they are the
    payload; a part size of zero is the [ValueError] of [range]. *)
Theorem parts_cover (payload : bytes) (size : Z) :
  (0 < size → ∃ starts, range_step (Z.of_nat (length payload)) size = Ok starts ∧
     concat (part_at payload size <$> starts) = payload ∧
     ∀ i start, starts !! i = Some start → start = Z.of_nat i * size ∧
       (if (S i <? length starts)%nat then Z.of_nat (length (part_at payload size start)) = size
        else 0 < Z.of_nat (length (part_at payload size start)) <= size)) ∧
  range_step (Z.of_nat (length payload)) 0 = Err PyValueError.
Proof.
  split; [|done]. intros Hs. unfold range_step. rewrite (proj2 (Z.eqb_neq size 0)), (proj2 (Z.ltb_ge size 0)) by lia.
  pose proof (parts_enough size (Z.of_nat (length payload)) Hs ltac:(lia)) as Hm. set (m := Z.to_nat _) in *.
  eexists. split; [done|]. split; [rewrite concat_parts by lia; apply take_ge; lia|].
  intros i start. rewrite list_lookup_fmap, length_fmap, length_seq. intros (k & Hk & ->)%fmap_Some_1.
  apply lookup_seq in Hk as [-> Hi]. rewrite Nat.add_0_l. split; [done|]. unfold part_at. rewrite length_take, length_drop.
  set (len := Z.of_nat (length payload)) in *.
  assert (Hk : 0 <= Z.of_nat i * size) by (apply Z.mul_nonneg_nonneg; lia). destruct (S i <? m)%nat eqn:Hlast; [apply Nat.ltb_lt in Hlast|apply Nat.ltb_ge in Hlast].
  - assert ((Z.of_nat i + 2) * size <= Z.of_nat m * size) by (apply Z.mul_le_mono_nonneg_r; lia). lia.
  - assert (Z.of_nat i * size + size = Z.of_nat m * size) by (replace m with (S i) by lia; lia). lia.
Qed.

Lemma parts_cover_witness :
  ∃ starts, range_step 7 3 = Ok starts ∧ concat (part_at [1; 2; 3; 4; 5; 6; 7] 3 <$> starts) = [1; 2; 3; 4; 5; 6; 7] ∧
    starts !! 2%nat = Some 6 ∧ 0 < Z.of_nat (length (part_at [1; 2; 3; 4; 5; 6; 7] 3 6)) <= 3.
Proof.
  destruct (proj1 (parts_cover [1; 2; 3; 4; 5; 6; 7] 3) eq_refl) as (starts & Hstarts & Hcat & Hall).
  assert (Heq : starts = [0; 3; 6]) by (vm_compute in Hstarts; injection Hstarts as <-; reflexivity). subst starts.
  exists [0; 3; 6]. split; [exact Hstarts|]. split; [exact Hcat|]. split; [reflexivity|].
  exact (proj2 (Hall 2%nat 6 eq_refl)).
Defined.

(** ** An S3 service in memory

    Objects, uploads in progress and their parts as finite maps; the part with the
    number [ms_broken] is refused.  It keeps the laws, so uploads over it are whole. *)

Record MemS3 := mk_mem_s3 {
  ms_objects : gmap ObjectStoreLocation (bytes * Metadata);
  ms_uploads : gmap string (ObjectStoreLocation * Metadata);
  ms_parts : gmap (string * Z) (string * bytes);
  ms_broken : option Z
}.

Definition set_objects (o : gmap ObjectStoreLocation (bytes * Metadata)) (c : MemS3) : MemS3 :=
  mk_mem_s3 o (ms_uploads c) (ms_parts c) (ms_broken c).
Definition refused (code : string) (status : Z) : error := BotoClientError (Some code) (Some status).

Definition mem_get (l : ObjectStoreLocation) : M MemS3 (bytes * Metadata) :=
  c ← get_state;
  match ms_objects c !! l with Some o => mret o | None => raise (refused "NoSuchKey" 404) end.

Definition mem_create (l : ObjectStoreLocation) (metadata : Metadata) : M MemS3 string :=
  c ← get_state;
  let upload_id := "upload-" +:+ pretty (Z.of_nat (size (ms_uploads c))) in
  modify (λ c, mk_mem_s3 (ms_objects c) (<[upload_id := (l, metadata)]> (ms_uploads c)) (ms_parts c) (ms_broken c)) ;;
  mret upload_id.

Definition mem_part (l : ObjectStoreLocation) (upload_id : string) (number : Z) (body : bytes) : M MemS3 string :=
  c ← get_state;
  raise_if (bool_decide (ms_broken c = Some number)) (refused "SlowDown" 503) ;;
  let etag := "etag-" +:+ pretty number in
  modify (λ c, mk_mem_s3 (ms_objects c) (ms_uploads c) (<[(upload_id, number) := (etag, body)]> (ms_parts c)) (ms_broken c)) ;;
  mret etag.

(** The body of a part that is listed with its tag. *)
Definition listed (c : MemS3) (upload_id : string) (p : UploadedPart) : option bytes :=
  '(etag, body) ← ms_parts c !! (upload_id, up_part_number p);
  if decide (etag = up_etag p) then Some body else None.

Definition mem_complete (l : ObjectStoreLocation) (upload_id : string) (parts : list UploadedPart) : M MemS3 unit :=
  c ← get_state;
  match ms_uploads c !! upload_id with
  | Some (l', metadata) =>
      raise_if (bool_decide (l' ≠ l)) (refused "NoSuchUpload" 404) ;;
      raise_if (bool_decide (parts = [])) (refused "MalformedXML" 400) ;;
      match mapM (listed c upload_id) parts with
      | Some bodies => modify (λ c, set_objects (<[l := (concat bodies, metadata)]> (ms_objects c)) c)
      | None => raise (refused "InvalidPart" 400)
      end
  | None => raise (refused "NoSuchUpload" 404)
  end.

#[export] Instance uploaded_part_eq_dec : EqDecision UploadedPart.
Proof. solve_decision. Defined.

#[export] Instance mem_s3 : S3Client MemS3 := {
  client_s3_put l data metadata := modify (λ c, set_objects (<[l := (data, metadata)]> (ms_objects c)) c);
  client_s3_get l := o ← mem_get l; mret o.1;
  client_s3_head l := o ← mem_get l; mret (mk_head (Z.of_nat (length o.1)) (Some o.2));
  client_s3_delete l := modify (λ c, set_objects (delete l (ms_objects c)) c);
  client_s3_presign l ttl := mret ("https://" +:+ loc_bucket l +:+ "/" +:+ loc_key l +:+ "?X-Amz-Expires=" +:+ pretty ttl);
  create_multipart_upload := mem_create;
  upload_part := mem_part;
  complete_multipart_upload := mem_complete;
  abort_multipart_upload l upload_id :=
    modify (λ c, mk_mem_s3 (ms_objects c) (delete upload_id (ms_uploads c)) (ms_parts c) (ms_broken c))
}.

#[export] Instance mem_s3_spec : S3Spec MemS3 := {
  s3_object c l := ms_objects c !! l;
  s3_upload c i := ms_uploads c !! i;
  s3_part c i number := ms_parts c !! (i, number)
}.

Lemma listed_sent c i parts bodies :
  mapM (listed c i) parts = Some bodies →
  Forall2 (λ p body, s3_part c i (up_part_number p) = Some (up_etag p, body)) parts bodies.
Proof.
  intros H%mapM_Some. eapply Forall2_impl; [exact H|]. intros p body. cbn. unfold listed.
  destruct (ms_parts c !! _) as [[etag b]|]; [|done]. cbn. case_decide as He; [|done]. intros [= <-]. by rewrite He.
Qed.

#[export] Instance mem_s3_laws : S3Laws MemS3.
Proof.
  split; intros *; cbn.
  - wp_steps. cbn. split_and!; [done|intros l' Hl; by rewrite lookup_insert_ne|right; apply lookup_insert_eq|intros _; apply lookup_insert_eq].
  - unfold wp, mem_get, mbind, M_bind, get_state. destruct (ms_objects c !! l) as [[data metadata]|] eqn:Ho; cbn; rewrite ?Ho; split_and!; try done. by intros data' [= <-].
  - unfold wp, mem_get, mbind, M_bind, get_state. destruct (ms_objects c !! l) as [[data metadata]|] eqn:Ho; cbn; split_and!; try done.
    intros head [= <-]. by exists data.
  - wp_steps. cbn. split_and!; [done|intros l' Hl; by rewrite lookup_delete_ne|right; apply lookup_delete_eq|intros _; apply lookup_delete_eq].
  - wp_steps. by split.
  - unfold mem_create. wp_steps. cbn. split_and!; [done..|]. intros i [= <-]. apply lookup_insert_eq.
  - unfold mem_part. wp_steps; cbn; split_and!; try done.
    + intros k Hk. rewrite lookup_insert_ne; [done|]. congruence.
    + intros etag [= <-]. apply lookup_insert_eq.
  - unfold mem_complete. wp_step. wp_step. destruct (ms_uploads c !! i) as [[l' metadata]|] eqn:Hu; [|wp_step; split_and!; try done; by left].
    wp_step. apply wp_raise_if; [intros _; split_and!; try done; by left|]. intros Hl%bool_decide_eq_false. apply dec_stable in Hl as ->.
    wp_step. apply wp_raise_if; [intros _; split_and!; try done; by left|]. intros Hne%bool_decide_eq_false.
    destruct (mapM _ _) as [bodies|] eqn:Hb; [|wp_step; split_and!; try done; by left]. wp_step. apply listed_sent in Hb.
    assert (Hnew : assembled c l i parts (Some (concat bodies, metadata))) by by exists metadata, bodies.
    split_and!; cbn; [done|intros l' Hl; by rewrite lookup_insert_ne|right|intros _]; by rewrite lookup_insert_eq.
  - wp_steps. by split.
Qed.

Definition demo_location : ObjectStoreLocation := mk_location "cache" "p/assets/a".
Definition demo_objects : gmap ObjectStoreLocation (bytes * Metadata) := {[demo_location := ([9], checked [9])]}.
Definition demo_store (broken : option Z) : S3ObjectStore MemS3 :=
  mk_s3 (mk_mem_s3 demo_objects ∅ ∅ broken) 4 3.
Definition demo_upload (broken : option Z) : res StoredObjectStat * nat * S3ObjectStore MemS3 :=
  s3_put demo_location [1; 2; 3; 4; 5; 6; 7] 0%nat (demo_store broken).

(** The second of three parts is refused: the upload is given up and the object is as
    it was. *)
Lemma s3_upload_whole_witness :
  (demo_upload (Some 2)).1.1 = Err (refused "SlowDown" 503) ∧
  object_at (demo_upload (Some 2)).2 demo_location = object_at (demo_store (Some 2)) demo_location ∧
  ∀ st, (demo_upload None).1.1 = Ok st → st = stat_of [1; 2; 3; 4; 5; 6; 7] ∧
    object_at (demo_upload None).2 demo_location = Some ([1; 2; 3; 4; 5; 6; 7], checked [1; 2; 3; 4; 5; 6; 7]).
Proof.
  assert (Hh : ∀ broken, honest (demo_store broken)).
  { intros broken l data metadata Hl. change (demo_objects !! l = Some (data, metadata)) in Hl.
    unfold demo_objects in Hl. apply lookup_singleton_Some in Hl as [_ Hl]. apply pair_equal_spec in Hl as [Hd Hm]. rewrite <- Hd, <- Hm. unfold checked.
    rewrite lookup_singleton_eq. reflexivity. }
  split; [vm_compute; reflexivity|]. split.
  - destruct (demo_upload (Some 2)) as [[r n] s] eqn:Hrun.
    destruct (s3_upload_whole _ _ _ _ _ _ _ (Hh (Some 2)) Hrun) as (_ & _ & [Hl|Hl] & _); [exact Hl|].
    assert (Hs : fst <$> object_at (demo_upload (Some 2)).2 demo_location = Some [9]) by (vm_compute; reflexivity).
    rewrite Hrun in Hs. cbn [snd] in Hs. rewrite Hl in Hs. discriminate Hs.
  - destruct (demo_upload None) as [[r n] s] eqn:Hrun. cbn [fst snd]. intros st ->.
    destruct (s3_upload_whole _ _ _ _ _ _ _ (Hh None) Hrun) as (_ & _ & _ & H). destruct (H st eq_refl) as (H1 & H2 & _).
    split; [exact H1|exact H2].
Defined.
