(* ===== verification/Csv.v ===== *)
(** * Comma-separated values

    What the bulk loader uses of the standard library: [str.splitlines], [csv.reader]
    over lines, [csv.DictReader], and [csv.writer], all with the dialect [excel]. *)

From S2P Require Import Prelude Errors Python Sha256 Codec IpAddress Urls.

Definition comma : ascii := ",".
Definition quote_char : ascii := "034".
Definition carriage_return : ascii := "013".
Definition line_feed : ascii := "010".

(** ** Lines *)

(** A character that ends a line. *)
Definition is_line_break (c : ascii) : bool :=
  let n := byte_of c in ((10 <=? n) && (n <=? 13)) || ((28 <=? n) && (n <=? 30)) || (n =? 133).

(** [s.splitlines()]: a carriage return and a line feed end one line, and nothing after
    the last break is no line. *)
Fixpoint splitlines (s : string) : list string :=
  match s with
  | EmptyString => []
  | String c s' =>
      if is_line_break c then
        match s' with
        | String c' s'' => if Ascii.eqb c carriage_return && Ascii.eqb c' line_feed then "" :: splitlines s'' else "" :: splitlines s'
        | EmptyString => [""]
        end
      else match splitlines s' with [] => [String c ""] | line :: lines => String c line :: lines end
  end.

(** ** The reader

    A line has no line break, so the state that skips them is not reached. *)

Inductive CsvState := START_RECORD | START_FIELD | IN_FIELD | IN_QUOTED_FIELD | QUOTE_IN_QUOTED_FIELD.

#[export] Instance csv_state_eq_dec : EqDecision CsvState.
Proof. solve_decision. Defined.

Record CsvReader := mk_reader { cr_state : CsvState; cr_field : string; cr_fields : list string }.
Definition new_reader : CsvReader := mk_reader START_RECORD "" [].

Definition field_size_limit : Z := 131072.

Definition save_field (state : CsvState) (r : CsvReader) : CsvReader :=
  mk_reader state "" (cr_fields r ++ [cr_field r]).
Definition add_char (c : ascii) (state : CsvState) (r : CsvReader) : res CsvReader :=
  if field_size_limit <=? Z.of_nat (String.length (cr_field r)) then Err (ToolError CsvError)
  else mret (mk_reader state (cr_field r +:+ String c "") (cr_fields r)).
Definition to_state (state : CsvState) (r : CsvReader) : CsvReader := mk_reader state (cr_field r) (cr_fields r).

Definition start_field (c : ascii) (r : CsvReader) : res CsvReader :=
  if Ascii.eqb c quote_char then mret (to_state IN_QUOTED_FIELD r)
  else if Ascii.eqb c comma then mret (save_field START_FIELD r)
  else add_char c IN_FIELD r.

(** [parse_process_char] of a character. *)
Definition process_char (c : ascii) (r : CsvReader) : res CsvReader :=
  match cr_state r with
  | START_RECORD | START_FIELD => start_field c r
  | IN_FIELD => if Ascii.eqb c comma then mret (save_field START_FIELD r) else add_char c IN_FIELD r
  | IN_QUOTED_FIELD =>
      if Ascii.eqb c quote_char then mret (to_state QUOTE_IN_QUOTED_FIELD r) else add_char c IN_QUOTED_FIELD r
  | QUOTE_IN_QUOTED_FIELD =>
      if Ascii.eqb c quote_char then add_char c IN_QUOTED_FIELD r
      else if Ascii.eqb c comma then mret (save_field START_FIELD r)
      else add_char c IN_FIELD r
  end.

(** And of the end of a line. *)
Definition end_line (r : CsvReader) : CsvReader :=
  match cr_state r with
  | START_RECORD | IN_QUOTED_FIELD => r
  | START_FIELD | IN_FIELD | QUOTE_IN_QUOTED_FIELD => save_field START_RECORD r
  end.

Fixpoint process_line (s : string) (r : CsvReader) : res CsvReader :=
  match s with
  | EmptyString => mret r
  | String c s' => r ← process_char c r; process_line s' r
  end.

(** The records of the lines, and whether they end well or in an error. *)
Fixpoint records (lines : list string) (r : CsvReader) : list (list string) * bool :=
  match lines with
  | [] => (if decide (cr_state r = IN_QUOTED_FIELD) then [cr_fields r ++ [cr_field r]] else [], true)
  | line :: lines' =>
      match process_line line r with
      | Err _ => ([], false)
      | Ok r =>
          let r := end_line r in
          if decide (cr_state r = START_RECORD)
          then let '(rest, ok) := records lines' new_reader in (cr_fields r :: rest, ok)
          else records lines' r
      end
  end.

Definition csv_reader (lines : list string) : list (list string) * bool := records lines new_reader.

(** ** [DictReader]

    The value of a column, empty when the row does not have it: the last one of its
    name counts. *)
Fixpoint dict_get (key : string) (names row : list string) (value : string) : string :=
  match names with
  | [] => value
  | name :: names' =>
      dict_get key names' (tail row) (if decide (name = key) then hd "" row else value)
  end.

(** ** The writer *)

Definition needs_quotes (s : string) : bool :=
  contains_char comma s || contains_char quote_char s || contains_char carriage_return s || contains_char line_feed s.

Fixpoint double_quotes (s : string) : string :=
  match s with
  | EmptyString => ""
  | String c s' => if Ascii.eqb c quote_char then String c (String c (double_quotes s')) else String c (double_quotes s')
  end.

Definition in_quotes (s : string) : string := String quote_char (double_quotes s +:+ String quote_char "").
Definition write_field (s : string) : string := if needs_quotes s then in_quotes s else s.

Definition line_terminator : string := String carriage_return (String line_feed "").

(** [writer.writerow(fields)]: a row that would be an empty line is quoted. *)
Definition write_row (fields : list string) : string :=
  (if decide (fields = [""]) then in_quotes "" else join_with "," (write_field <$> fields)) +:+ line_terminator.

Definition write_rows (rows : list (list string)) : string := foldr (λ row s, write_row row +:+ s) "" rows.

(** * Reading what was written *)

(** A text on one line, within the limit. *)
Definition is_cell (s : string) : bool := all_chars (λ c, negb (is_line_break c)) s && (Z.of_nat (String.length s) <=? field_size_limit).

Definition fits (f : string) : Prop := Z.of_nat (String.length f) <= field_size_limit.

Lemma process_line_app s t r : process_line (s +:+ t) r = process_line s r ≫= process_line t.
Proof. revert r. induction s as [|c s IH]; intros r; cbn; [done|]. destruct (process_char c r); cbn; [apply IH|done]. Qed.

Lemma add_char_room c state f fs st :
  Z.of_nat (String.length f) < field_size_limit → add_char c state (mk_reader st f fs) = Ok (mk_reader state (f +:+ String c "") fs).
Proof. intros H. unfold add_char. cbn [cr_field cr_fields]. by rewrite (proj2 (Z.leb_gt _ _)). Qed.

(** A field in quotes, and one without, up to its end. *)
Lemma read_doubled f p fs :
  fits (p +:+ f) → process_line (double_quotes f) (mk_reader IN_QUOTED_FIELD p fs) = Ok (mk_reader IN_QUOTED_FIELD (p +:+ f) fs).
Proof.
  unfold fits. revert p. induction f as [|c f IH]; intros p Hlen; cbn [double_quotes]; [by rewrite app_str_nil_r|].
  rewrite length_app_str in Hlen. cbn [String.length] in Hlen.
  assert (Hp : p +:+ String c f = (p +:+ String c "") +:+ f) by by rewrite <- app_str_assoc.
  assert (Hlen' : Z.of_nat (String.length ((p +:+ String c "") +:+ f)) <= field_size_limit).
  { rewrite <- Hp, length_app_str. cbn [String.length]. lia. }
  destruct (Ascii.eqb c quote_char) eqn:Hq; cbn [process_line process_char cr_state]; rewrite Hq; cbn [mbind res_bind mret res_ret].
  - unfold to_state. cbn [process_char cr_state cr_field cr_fields]. rewrite ?Hq, add_char_room by lia. cbn [mbind res_bind]. rewrite Hp. by apply IH.
  - rewrite add_char_room by lia. cbn [mbind res_bind]. rewrite Hp. by apply IH.
Qed.

Lemma read_plain f p fs :
  contains_char comma f = false → fits (p +:+ f) →
  process_line f (mk_reader IN_FIELD p fs) = Ok (mk_reader IN_FIELD (p +:+ f) fs).
Proof.
  unfold fits. revert p. induction f as [|c f IH]; intros p Hc Hlen; cbn [process_line]; [by rewrite app_str_nil_r|].
  cbn in Hc. apply orb_false_iff in Hc as [Hc Hf]. rewrite length_app_str in Hlen. cbn [String.length] in Hlen.
  assert (Hp : p +:+ String c f = (p +:+ String c "") +:+ f) by by rewrite <- app_str_assoc.
  cbn [process_char cr_state]. rewrite Hc, add_char_room by lia. cbn [mbind res_bind]. rewrite Hp. apply IH; [done|].
  rewrite <- Hp, length_app_str. cbn [String.length]. lia.
Qed.

(** What a reader is like after a field: a comma or the end of the line saves it. *)
Definition holds_field (r : CsvReader) (fs : list string) (f : string) : Prop :=
  process_char comma r = Ok (mk_reader START_FIELD "" (fs ++ [f])) ∧
  (cr_state r ≠ START_RECORD → end_line r = mk_reader START_RECORD "" (fs ++ [f])).

Lemma read_in_quotes f st fs : fits f → st = START_RECORD ∨ st = START_FIELD →
  process_line (in_quotes f) (mk_reader st "" fs) = Ok (mk_reader QUOTE_IN_QUOTED_FIELD f fs).
Proof.
  intros Hf Hst. unfold in_quotes. cbn [process_line].
  assert (Hc : process_char quote_char (mk_reader st "" fs) = Ok (mk_reader IN_QUOTED_FIELD "" fs)) by by destruct Hst as [-> | ->].
  rewrite Hc. cbn [mbind res_bind]. rewrite process_line_app, read_doubled by done. done.
Qed.

Lemma read_field f st fs : fits f → st = START_RECORD ∨ st = START_FIELD →
  ∃ r, process_line (write_field f) (mk_reader st "" fs) = Ok r ∧ holds_field r fs f ∧ (st = START_FIELD ∨ f ≠ "" → cr_state r ≠ START_RECORD).
Proof.
  intros Hf Hst. unfold write_field. destruct (needs_quotes f) eqn:Hq.
  - eexists. split; [by apply read_in_quotes|]. by split; [split|].
  - unfold needs_quotes in Hq. apply orb_false_iff in Hq as [[[Hcomma Hquote]%orb_false_iff _]%orb_false_iff _].
    destruct f as [|c f].
    + exists (mk_reader st "" fs). split; [done|]. split; [by destruct Hst as [-> | ->]; split|]. destruct Hst as [-> | ->]; [by intros [|]|done].
    + exists (mk_reader IN_FIELD (String c f) fs). split; [|by split].
      cbn in Hcomma, Hquote. apply orb_false_iff in Hcomma as [Hc1 Hcomma]. apply orb_false_iff in Hquote as [Hc2 _].
      cbn [process_line].
      assert (Hc : process_char c (mk_reader st "" fs) = Ok (mk_reader IN_FIELD (String c "") fs)).
      { destruct Hst as [-> | ->]; cbn [process_char cr_state]; unfold start_field; rewrite Hc1, Hc2; by rewrite add_char_room by (cbn; unfold field_size_limit; lia). }
      rewrite Hc. cbn [mbind res_bind]. by rewrite read_plain.
Qed.

Lemma read_row row st fs : Forall fits row → row ≠ [] → st = START_RECORD ∨ st = START_FIELD → (st = START_RECORD → row ≠ [""]) →
  ∃ r, process_line (join_with "," (write_field <$> row)) (mk_reader st "" fs) = Ok r ∧
    end_line r = mk_reader START_RECORD "" (fs ++ row).
Proof.
  revert st fs. induction row as [|f row IH]; intros st fs Hfits Hne Hst Hrow; [done|]. apply Forall_cons in Hfits as [Hf Hfits].
  destruct (read_field f st fs Hf Hst) as (r & Hr & [Hcomma Hend] & Hstate).
  destruct row as [|g row].
  - exists r. split; [done|]. apply Hend, Hstate. destruct Hst as [-> | ->]; [right; intros ->; by apply Hrow|by left].
  - destruct (IH START_FIELD (fs ++ [f]) Hfits ltac:(done) ltac:(by right) ltac:(done)) as (r' & Hr' & Hend').
    exists r'. split; [|by rewrite Hend', <- app_assoc].
    cbn [fmap list_fmap]. cbn [fmap list_fmap] in Hr'. rewrite join_cons by done. rewrite process_line_app, Hr. cbn [mbind res_bind process_line]. change ","%char with comma.
    rewrite Hcomma. exact Hr'.
Qed.

Lemma splitlines_line line rest :
  all_chars (λ c, negb (is_line_break c)) line = true →
  splitlines (line +:+ line_terminator +:+ rest) = line :: splitlines rest.
Proof.
  induction line as [|c line IH]; [done|]. cbn [all_chars String.append]. intros [Hc%negb_true_iff Hline]%andb_prop.
  cbn [splitlines]. rewrite Hc. cbn [String.append] in IH. by rewrite IH.
Qed.

Lemma double_quotes_line f :
  all_chars (λ c, negb (is_line_break c)) f = true → all_chars (λ c, negb (is_line_break c)) (double_quotes f) = true.
Proof.
  induction f as [|c f IH]; [done|]. cbn. intros [Hc Hf]%andb_prop. destruct (Ascii.eqb c quote_char); cbn; by rewrite ?Hc, IH.
Qed.

Lemma written_line row :
  Forall (λ f, is_cell f = true) row → row ≠ [] →
  ∃ line, write_row row = line +:+ line_terminator ∧ all_chars (λ c, negb (is_line_break c)) line = true ∧
    ∃ r, process_line line new_reader = Ok r ∧ end_line r = mk_reader START_RECORD "" row.
Proof.
  intros Hcells Hne. unfold write_row. eexists. split; [reflexivity|].
  assert (Hfits : Forall fits row).
  { eapply Forall_impl; [exact Hcells|]. intros f [_ Hf]%andb_prop. by apply Z.leb_le. }
  destruct (decide (row = [""])) as [->|Hrow].
  - split; [done|]. eexists. split; [by apply read_in_quotes; [|left]|]. done.
  - split; [|by destruct (read_row row START_RECORD [] Hfits Hne ltac:(by left) ltac:(done)) as (r & Hr & He); exists r].
    clear Hfits Hne Hrow. induction Hcells as [|f row Hf _ IH]; [done|].
    assert (Hw : all_chars (λ c, negb (is_line_break c)) (write_field f) = true).
    { apply andb_prop in Hf as [Hf _]. unfold write_field. destruct (needs_quotes f); [|done]. unfold in_quotes. cbn.
      rewrite all_chars_app, double_quotes_line by done. done. }
    cbn [fmap list_fmap] in *. destruct row as [|g row]; [done|]. rewrite join_cons by done. rewrite all_chars_app, Hw. exact IH.
Qed.

(** What is written is read.  The reader gives back the rows that were written,
    whatever commas and quotes are in their fields, as long as no row is empty and no
    field spans lines or exceeds the reader's limit. *)
Lemma read_written (rows : list (list string)) :
  Forall (λ row, row ≠ [] ∧ Forall (λ f, is_cell f = true) row) rows →
  csv_reader (splitlines (write_rows rows)) = (rows, true).
Proof.
  unfold csv_reader. induction 1 as [|row rows [Hne Hcells] _ IH]; [done|]. cbn [write_rows foldr] in *. fold (write_rows rows) in *.
  destruct (written_line row Hcells Hne) as (line & Hline & Hbreaks & r & Hr & Hend).
  rewrite Hline, <- app_str_assoc. rewrite splitlines_line by done. cbn [records]. rewrite Hr, Hend. cbn [cr_state cr_fields].
  rewrite decide_True by done. by rewrite IH.
Qed.
