(* ===== verification/BulkLoader.v ===== *)
(** * The bulk loader

    [tools/bulk-loader/bulk_loader.py]: a manifest of files, uploaded one by one under
    one capability.  The files are a function from the path of a row to its bytes;
    texts of errors and elapsed time, which go to the screen, are left out. *)

From S2P Require Import Prelude Errors Python Effects Paths Models Codec ObjectStore Capabilities Admin Guard Schemas App Api IpAddress Urls Client Csv.

Definition CACHE_BUCKET_NAME : string := "cache".
Definition BULK_TTL_SECONDS : Z := 3600.
Definition DEFAULT_MAX_RETRIES : Z := 2.
Definition MANIFEST_COLUMNS : list string := ["alias"; "mime"; "path"].

Record ManifestRow := mk_row { mr_alias : string; mr_mime : string; mr_path : string }.

#[export] Instance manifest_row_eq_dec : EqDecision ManifestRow.
Proof. solve_decision. Defined.

(** What a row failed of. *)
Inductive RowError := UnknownError | CannotReadFile | TransportError | HttpStatus (status : Z).

Record RowResult := mk_row_result {
  rr_row : ManifestRow;
  rr_ok : bool;
  rr_error : option RowError;
  rr_size_bytes : Z
}.

Definition failed_row (row : ManifestRow) (e : RowError) : RowResult := mk_row_result row false (Some e) 0.

(** ** The report *)

Record BulkLoadReport := mk_report { br_results : list RowResult }.

Definition ok_rows (report : BulkLoadReport) : list RowResult := filter rr_ok (br_results report).
Definition failed_rows (report : BulkLoadReport) : list RowResult := filter (λ r, Is_true (negb (rr_ok r))) (br_results report).
Definition total_bytes (report : BulkLoadReport) : Z := foldr (λ r n, rr_size_bytes r + n) 0 (ok_rows report).
Definition any_failed (report : BulkLoadReport) : bool := existsb (λ r, negb (rr_ok r)) (br_results report).

(** ** The manifest *)

(** A row of the reader; an empty one is skipped. *)
Definition manifest_row (columns row : list string) : res ManifestRow :=
  let alias := strip_slashes (strip (dict_get "alias" columns row "")) in
  let mime := strip (dict_get "mime" columns row "") in
  let path := strip (dict_get "path" columns row "") in
  if decide (alias = "" ∨ path = "") then Err (ToolError BulkLoadError) else mret (mk_row alias mime path).

(** The loop over the rows, in which an error of the reader comes last. *)
Fixpoint manifest_rows (columns : list string) (rows : list (list string)) (ok : bool) : res (list ManifestRow) :=
  match rows with
  | [] => if ok then mret [] else Err (ToolError CsvError)
  | row :: rows' =>
      if decide (row = []) then manifest_rows columns rows' ok else
      r ← manifest_row columns row;
      rest ← manifest_rows columns rows' ok;
      mret (r :: rest)
  end.

(** The text of the manifest, [None] for an [OSError]. *)
Definition read_manifest (text : option string) : res (list ManifestRow) :=
  match text with
  | None => Err (ToolError BulkLoadError)
  | Some text =>
      match csv_reader (splitlines text) with
      | ([], ok) => if ok then Err (ToolError BulkLoadError) else Err (ToolError CsvError)
      | (columns :: rows, ok) =>
          if forallb (λ column, mem column columns) MANIFEST_COLUMNS then manifest_rows columns rows ok
          else Err (ToolError BulkLoadError)
      end
  end.

(** [qualified_alias] of the loader. *)
Definition manifest_alias (mirror_id row_alias : string) : string :=
  CACHE_BUCKET_NAME +:+ "/" +:+ strip_slashes (strip mirror_id) +:+ "/" +:+ strip_slashes (strip row_alias).

(** ** The run *)

(** [isinstance(exc, httpx.HTTPError)] *)
Definition is_transport_error (e : error) : bool :=
  match e with HttpError HttpxTimeoutException | HttpError HttpxHTTPError => true | _ => false end.

Section BulkLoader.
Context {S : Type} `{!HttpTransport S} (read_bytes : string → option bytes).

Definition bulk_mint (service_id service_secret scope_prefix : string) : M S string :=
  response ← http_send ("Service " +:+ service_id +:+ ":" +:+ service_secret)
    (CMint (mk_mint_request WRITE scope_prefix BULK_TTL_SECONDS false));
  if negb (an_status response =? 201) then raise (ToolError BulkLoadError) else
  match an_body response with
  | BCapability capability => mret (co_capability_id capability)
  | _ => raise OutsideModel
  end.

(** One attempt: a result, or the error to try again after and whether to. *)
Definition attempt_row (capability_id mirror_id : string) (row : ManifestRow) (data : bytes) : M S (RowResult + RowError * bool) :=
  response ← catch (S := S) (A := option Answer)
    (response ← http_send ("Capability " +:+ capability_id)
       (CPutObject ("/objects/" +:+ manifest_alias mirror_id (mr_alias row)) data
          (if decide (mr_mime row = "") then None else Some (mr_mime row)) None);
     mret (Some response))
    (λ e, if is_transport_error e then mret None else raise e);
  match response with
  | None => mret (inr (TransportError, true))
  | Some response =>
      if an_status response =? 201 then
        match an_body response with
        | BAsset asset =>
            let committed := match ao_size_bytes asset with
              | Some size => if size =? 0 then Z.of_nat (length data) else size
              | None => Z.of_nat (length data)
              end in
            mret (inl (mk_row_result row true None committed))
        | _ => raise OutsideModel
        end
      else mret (inr (HttpStatus (an_status response), negb (an_status response <? 500)))
  end.

(** The loop over the attempts that are left. *)
Fixpoint attempts (n : nat) (capability_id mirror_id : string) (row : ManifestRow) (data : bytes) (last_error : RowError)
    : M S RowResult :=
  match n with
  | O => mret (failed_row row last_error)
  | Datatypes.S n' =>
      outcome ← attempt_row capability_id mirror_id row data;
      match outcome : RowResult + RowError * bool with
      | inl result => mret result
      | inr (e, again) => if again then attempts n' capability_id mirror_id row data e else mret (failed_row row e)
      end
  end.

Definition upload_row (capability_id mirror_id : string) (row : ManifestRow) (max_retries : Z) : M S RowResult :=
  match read_bytes (mr_path row) with
  | None => mret (failed_row row CannotReadFile)
  | Some data => attempts (Z.to_nat (max_retries + 1)) capability_id mirror_id row data UnknownError
  end.

Fixpoint upload_rows (capability_id mirror_id : string) (rows : list ManifestRow) (fail_fast : bool) (max_retries : Z)
    : M S (list RowResult) :=
  match rows with
  | [] => mret []
  | row :: rows' =>
      result ← upload_row capability_id mirror_id row max_retries;
      if negb (rr_ok result) && fail_fast then mret [result] else
      results ← upload_rows capability_id mirror_id rows' fail_fast max_retries;
      mret (result :: results)
  end.

Definition run_bulk_load (mirror_id : string) (rows : list ManifestRow) (service_id service_secret : string)
    (fail_fast : bool) (max_retries : Z) : M S BulkLoadReport :=
  capability_id ← bulk_mint service_id service_secret (CACHE_BUCKET_NAME +:+ "/" +:+ strip_slashes (strip mirror_id));
  results ← upload_rows capability_id mirror_id rows fail_fast max_retries;
  mret (mk_report results).

(** [write_failure_report]: the text of the file, with what an error reads like. *)
Definition write_failure_report (describe : RowError → string) (report : BulkLoadReport) : string :=
  write_rows (["alias"; "path"; "error"] ::
    ((λ r, [mr_alias (rr_row r); mr_path (rr_row r); match rr_error r with Some e => describe e | None => "" end])
       <$> failed_rows report)).

(** [main]: the status the process exits with and the report of failures it leaves,
    if one is asked for. *)
Definition bulk_main (describe : RowError → string) (manifest : option string) (mirror_id service_id service_secret : string)
    (fail_fast : bool) (report_path : bool) (max_retries : Z) : M S (Z * option string) :=
  match read_manifest manifest with
  | Err e => if decide (e = ToolError BulkLoadError) then mret (1, None) else raise e
  | Ok rows =>
      catch
        (report ← run_bulk_load mirror_id rows service_id service_secret fail_fast max_retries;
         let written := if report_path && any_failed report then Some (write_failure_report describe report) else None in
         mret (if any_failed report then 1 else 0, written))
        (λ e, if decide (e = ToolError BulkLoadError) then mret (1, None) else raise e)
  end.
End BulkLoader.
