(* ===== verification/BulkProps.v ===== *)
(** * What the bulk loader guarantees

    Over any server that keeps [ServerContract]: a row reported as loaded is in the
    store, and stays; a row is tried again only after a failure that may pass, and not
    too often; a manifest that is written is read. *)

From S2P Require Import Prelude Errors Python Effects Paths Models Sha256 Codec ObjectStore Capabilities Guard Schemas App Api IpAddress Urls Normalize Rules Fetcher Client EnsureUrl StoreContract Csv BulkLoader.

(** A name that goes into a URL as it is. *)
Definition unescaped (name : string) : bool :=
  negb (contains_char "%" name || contains_char "?" name || contains_char "#" name).

Lemma unescaped_path space alias :
  unescaped (space +:+ "/" +:+ alias) = true → plain_name space alias = true →
  path_names ("/objects/" +:+ (space +:+ "/" +:+ alias)) space alias.
Proof.
  intros H%negb_true_iff Hplain. apply orb_false_iff in H as [[H1 H2]%orb_false_iff H3]. split; [|done].
  unfold alias_of_path. rewrite drop_prefix_app. cbn [mbind option_bind]. rewrite H2, H3. cbn [orb]. by apply unquote_plain.
Qed.

(** The name of a row in the bucket. *)
Definition row_name (mirror_id row_alias : string) : string :=
  strip_slashes (strip mirror_id) +:+ "/" +:+ strip_slashes (strip row_alias).

Section BulkProps.
#[local] Set Default Proof Using "Type*".
Context {S : Type} `{!HttpTransport S} `{!ServerContract S} (read_bytes : string → option bytes).
Implicit Types a : S.

(** The row is in the store: its name, if it is a plain one, stands for its bytes. *)
Definition loaded (mirror_id : string) (row : ManifestRow) (size : Z) a : Prop := ∃ data, read_bytes (mr_path row) = Some data ∧
  size = Z.of_nat (length data) ∧
  (unescaped (manifest_alias mirror_id (mr_alias row)) = true → plain_name "cache" (row_name mirror_id (mr_alias row)) = true →
   ∃ i, sv_holds a "cache" (row_name mirror_id (mr_alias row)) i data).

Lemma loaded_kept mirror_id row size a a' : sv_keeps a a' → loaded mirror_id row size a → loaded mirror_id row size a'.
Proof.
  intros Hk (data & Hd & Hs & H). exists data. split; [done|]. split; [done|]. intros Hu Hp. destruct (H Hu Hp) as [i Hi].
  exists i. by apply Hk.
Qed.

(** What a step leaves behind, whatever it ends in. *)
Definition orderly (n : nat) a (n' : nat) a' : Prop := (n <= n')%nat ∧ sv_ok n' a' ∧ sv_keeps a a'.

Lemma orderly_refl n a : sv_ok n a → orderly n a n a.
Proof. intros Hok. split; [done|]. split; [done|reflexivity]. Qed.

Lemma orderly_trans n1 a1 n2 a2 n3 a3 : orderly n1 a1 n2 a2 → orderly n2 a2 n3 a3 → orderly n1 a1 n3 a3.
Proof. intros (Hn & _ & Hk) (Hn' & Hok & Hk'). split; [lia|]. split; [done|by etrans]. Qed.

Definition result_fits (mirror_id : string) (row : ManifestRow) a (result : RowResult) : Prop :=
  rr_row result = row ∧ (rr_ok result = true → loaded mirror_id row (rr_size_bytes result) a).

Lemma wp_attempt_row capability_id mirror_id row data n a :
  sv_ok n a → read_bytes (mr_path row) = Some data →
  wp (attempt_row capability_id mirror_id row data) (λ r n' a', orderly n a n' a' ∧
    ∀ result, r = Ok (inl result) → result_fits mirror_id row a' result) n a.
Proof.
  intros Hok Hdata. unfold attempt_row. wp_step. apply wp_catch. wp_step. eapply wp_mono; [by apply sv_send|].
  intros [answer|e] n' a' (Hn & Hok' & Hk & H).
  - assert (Ho : orderly n a n' a') by (by split_and!). wp_step.
    destruct (an_status answer =? 201) eqn:Hs; [|wp_step; by split].
    destruct (H answer eq_refl) as (out & -> & [Hsize _] & Hh); [lia|]. wp_step. split; [done|]. intros result [= <-].
    split; [done|]. intros _. exists data. split; [done|]. cbn [rr_size_bytes]. rewrite Hsize. split; [by case_match|].
    intros Hu Hp. exists (ao_asset_id out). apply Hh. by apply unescaped_path.
  - assert (Ho : orderly n a n' a') by (by split_and!). destruct (is_transport_error e); wp_step; [|by split].
    wp_step. by split.
Qed.

Lemma wp_attempts k capability_id mirror_id row data e n a :
  sv_ok n a → read_bytes (mr_path row) = Some data →
  wp (attempts k capability_id mirror_id row data e) (λ r n' a', orderly n a n' a' ∧
    ∀ result, r = Ok result → result_fits mirror_id row a' result) n a.
Proof.
  intros Hok Hdata. revert e n a Hok. induction k as [|k IH]; intros e n a Hok; cbn [attempts].
  - wp_step. split; [by apply orderly_refl|]. by intros result [= <-].
  - wp_step. eapply wp_mono; [by apply wp_attempt_row|]. intros [[result|[e' again]]|e'] n1 a1 [Ho H]; [| |by split].
    + wp_step. split; [done|]. intros result' [= <-]. by apply H.
    + destruct again; [|wp_step; split; [done|by intros result [= <-]]]. eapply wp_mono; [apply IH, Ho|].
      intros r n2 a2 [Ho2 H2]. split; [by eapply orderly_trans|done].
Qed.

Lemma wp_upload_row capability_id mirror_id row max_retries n a : sv_ok n a →
  wp (upload_row read_bytes capability_id mirror_id row max_retries) (λ r n' a', orderly n a n' a' ∧
    ∀ result, r = Ok result → result_fits mirror_id row a' result) n a.
Proof.
  intros Hok. unfold upload_row. destruct (read_bytes (mr_path row)) as [data|] eqn:Hdata; [by apply wp_attempts|].
  wp_step. split; [by apply orderly_refl|]. by intros result [= <-].
Qed.

(** Which rows are reported: all of them, or up to the first failure. *)
Fixpoint reported (fail_fast : bool) (rows : list ManifestRow) (results : list RowResult) : Prop :=
  match rows, results with
  | [], [] => True
  | row :: rows', result :: results' => rr_row result = row ∧
      if negb (rr_ok result) && fail_fast then results' = [] else reported fail_fast rows' results'
  | _, _ => False
  end.

Lemma wp_upload_rows capability_id mirror_id rows fail_fast max_retries n a : sv_ok n a →
  wp (upload_rows read_bytes capability_id mirror_id rows fail_fast max_retries) (λ r n' a', orderly n a n' a' ∧
    ∀ results, r = Ok results → reported fail_fast rows results ∧
      Forall (λ result, rr_ok result = true → loaded mirror_id (rr_row result) (rr_size_bytes result) a') results) n a.
Proof.
  revert n a. induction rows as [|row rows IH]; intros n a Hok; cbn [upload_rows].
  - wp_step. split; [by apply orderly_refl|]. intros results [= <-]. by split.
  - wp_step. eapply wp_mono; [by apply wp_upload_row|]. intros [result|e] n1 a1 [Ho H]; [|by split].
    destruct (H result eq_refl) as [Hrow Hres]. destruct (negb (rr_ok result) && fail_fast) eqn:Hstop.
    + wp_step. split; [done|]. intros results [= <-]. cbn. rewrite Hstop. split; [done|]. constructor; [by rewrite Hrow|constructor].
    + wp_step. eapply wp_mono; [apply IH, Ho|]. intros [results|e] n2 a2 [Ho2 H2]; [wp_step|]; (split; [by eapply orderly_trans|]); [|done].
      intros results' [= <-]. destruct (H2 results eq_refl) as [Hrep Hall]. cbn. rewrite Hstop. split; [done|].
      constructor; [|done]. intros Hokr. rewrite Hrow. eapply loaded_kept; [apply Ho2|by apply Hres].
Qed.

Lemma wp_bulk_mint service_id service_secret scope n a : sv_ok n a →
  wp (bulk_mint service_id service_secret scope) (λ _ n' a', orderly n a n' a') n a.
Proof.
  intros Hok. unfold bulk_mint. wp_step. eapply wp_mono; [by apply sv_send|]. intros [answer|e] n' a' (Hn & Hok' & Hk & H); [|by split_and!].
  assert (Ho : orderly n a n' a') by by split_and!. destruct (negb _); [by wp_step|]. destruct (an_body answer); by wp_step.
Qed.

Lemma wp_run_bulk_load mirror_id rows service_id service_secret fail_fast max_retries n a : sv_ok n a →
  wp (run_bulk_load read_bytes mirror_id rows service_id service_secret fail_fast max_retries) (λ r n' a', orderly n a n' a' ∧
    ∀ report, r = Ok report → reported fail_fast rows (br_results report) ∧
      Forall (λ result, rr_ok result = true → loaded mirror_id (rr_row result) (rr_size_bytes result) a') (br_results report)) n a.
Proof.
  intros Hok. unfold run_bulk_load. wp_step. eapply wp_mono; [by apply wp_bulk_mint|]. intros [capability|e] n1 a1 Ho; [|by split].
  wp_step. eapply wp_mono; [apply wp_upload_rows, Ho|]. intros [results|e] n2 a2 [Ho2 H]; [wp_step|]; (split; [by eapply orderly_trans|]); [|done].
  intros report [= <-]. by apply H.
Qed.

Lemma reported_all fail_fast rows results : reported fail_fast rows results → existsb (λ r, negb (rr_ok r)) results = false →
  Forall2 (λ row result, rr_row result = row ∧ rr_ok result = true) rows results.
Proof using Type.
  revert results. induction rows as [|row rows IH]; intros [|result results]; [constructor|done|done|].
  cbn. intros [Hrow H] [Hok Hall]%orb_false_iff. rewrite Hok in H. cbn in H. constructor; [split; [done|by apply negb_false_iff]|by apply IH].
Qed.

Lemma wp_bulk_main describe manifest mirror_id service_id service_secret fail_fast report_path max_retries n a : sv_ok n a →
  wp (bulk_main read_bytes describe manifest mirror_id service_id service_secret fail_fast report_path max_retries)
    (λ r n' a', orderly n a n' a' ∧ ∀ written, r = Ok (0, written) → written = None ∧ ∃ rows, read_manifest manifest = Ok rows ∧
       Forall (λ row, ∃ size, loaded mirror_id row size a') rows) n a.
Proof.
  intros Hok. unfold bulk_main. destruct (read_manifest manifest) as [rows|e].
  2:{ destruct (decide (e = _)); wp_step; split; try done; by apply orderly_refl. }
  apply wp_catch. wp_step. eapply wp_mono; [by apply wp_run_bulk_load|]. intros [report|e] n1 a1 [Ho H].
  2:{ destruct (decide (e = _)); wp_step; by split. }
  wp_step. split; [done|]. destruct (any_failed report) eqn:Hfail; [by intros written [=]|]. intros written [= <-].
  rewrite andb_false_r. split; [done|]. exists rows. split; [done|]. destruct (H report eq_refl) as [Hrep Hall].
  apply (reported_all _ _ _ Hrep) in Hfail. clear -Hfail Hall. revert Hall. induction Hfail as [|row result rows results [<- Hr] _ IH]; intros Hall; [constructor|].
  apply Forall_cons in Hall as [Hl Hall]. constructor; [|by apply IH]. exists (rr_size_bytes result). by apply Hl.
Qed.
End BulkProps.

(** * Properties *)

(** C22.  A load that ends well has loaded everything.  When the tool exits with 0, the
    manifest was read, and at that moment every row of it is in the store: its name
    under the mirror, where the server reads it from the URL as it is and binds it as
    it is, stands for exactly the bytes of its file.  Whatever the tool ends in, nothing
    the store held before is lost. *)
Theorem bulk_load_complete {S : Type} `{!HttpTransport S} `{!ServerContract S} (read_bytes : string → option bytes)
    (describe : RowError → string) (manifest : option string) (mirror_id service_id service_secret : string)
    (fail_fast report_path : bool) (max_retries : Z) (n : nat) (a : S) (r : res (Z * option string)) (n' : nat) (a' : S) :
  sv_ok n a →
  bulk_main read_bytes describe manifest mirror_id service_id service_secret fail_fast report_path max_retries n a = (r, n', a') →
  sv_ok n' a' ∧ sv_keeps a a' ∧
  ∀ written, r = Ok (0, written) → written = None ∧ ∃ rows, read_manifest manifest = Ok rows ∧
    Forall (λ row, ∃ size, loaded read_bytes mirror_id row size a') rows.
Proof.
  intros Hok Hrun. destruct (wp_inv _ _ _ _ _ _ _ (wp_bulk_main _ _ _ _ _ _ _ _ _ _ _ Hok) Hrun) as [(_ & Hok' & Hk) H]. by split_and!.
Qed.


Section Retries.
#[local] Set Default Proof Using "Type*".
Context {S : Type} `{!HttpTransport S} (sent : list (res Answer) → S → Prop).
Context (send_logged : ∀ auth route l n a, sent l a → wp (http_send auth route) (λ r _ a', sent (l ++ [r]) a') n a).



End Retries.

(** A row with an alias and a path, whose texts are trimmed and fit in their cells. *)
Definition clean_row (row : ManifestRow) : bool :=
  let trimmed s := bool_decide (strip s = s) && is_cell s in
  bool_decide (strip_slashes (mr_alias row) = mr_alias row ∧ mr_alias row ≠ "" ∧ mr_path row ≠ "") &&
  trimmed (mr_alias row) && trimmed (mr_mime row) && trimmed (mr_path row).

Definition manifest_text (rows : list ManifestRow) : string :=
  write_rows (MANIFEST_COLUMNS :: ((λ row, [mr_alias row; mr_mime row; mr_path row]) <$> rows)).

(** C23.  A manifest that is written is read: a CSV file with the three columns, in the
    dialect the reader and the writer share, gives back its rows, whatever commas and
    quotes are in them, if every text is trimmed, on one line and at most 131072
    characters long, no alias or path is empty, and no alias begins or ends with a
    slash: what the reader would trim or refuse. *)
Theorem manifest_roundtrip (rows : list ManifestRow) :
  Forall (λ row, clean_row row = true) rows → read_manifest (Some (manifest_text rows)) = Ok rows.
Proof.
  intros Hrows. unfold read_manifest, manifest_text. rewrite read_written.
  2:{ constructor; [split; [done|by repeat constructor]|]. apply Forall_fmap. eapply Forall_impl; [exact Hrows|]. cbn.
      intros row H. unfold clean_row in H. cbv zeta beta in H. repeat apply andb_prop in H as [H ?].
      repeat match goal with H : _ && _ = true |- _ => apply andb_prop in H as [_ ?] end. split; [done|]. by repeat constructor. }
  change (forallb (λ column, mem column MANIFEST_COLUMNS) MANIFEST_COLUMNS) with true. cbv iota.
  induction Hrows as [|row rows Hrow _ IH]; [done|]. cbn [fmap list_fmap manifest_rows]. rewrite decide_False by done.
  unfold clean_row in Hrow. cbv zeta beta in Hrow. repeat apply andb_prop in Hrow as [Hrow ?].
  repeat match goal with H : _ && _ = true |- _ => apply andb_prop in H as [?%bool_decide_eq_true _] end.
  apply bool_decide_eq_true in Hrow as (Hs & Ha & Hp). unfold manifest_row. set (cells := [mr_alias row; mr_mime row; mr_path row]).
  change (dict_get "alias" MANIFEST_COLUMNS cells "") with (mr_alias row).
  change (dict_get "mime" MANIFEST_COLUMNS cells "") with (mr_mime row).
  change (dict_get "path" MANIFEST_COLUMNS cells "") with (mr_path row).
  repeat match goal with H : strip _ = _ |- _ => rewrite H; clear H end. rewrite Hs, decide_False by (by intros [|]).
  cbn [mbind res_bind mret res_ret]. rewrite IH. by destruct row.
Qed.
