(* ===== verification/WorkerSim.v ===== *)
(** * The simulated worker

    [tools/worker-sim/worker_sim.py]: read the inputs of a task by their aliases, verify
    their checksums, copy them to results, publish a manifest of the copies.  Times
    measured for the report are left out. *)

From S2P Require Import Prelude Errors Python Effects Paths Models Sha256 Codec ObjectStore Capabilities Admin Guard Schemas App Api IpAddress Urls Client EnsureUrl.

Definition MAX_INPUT_BYTES : Z := 50 * 1024 * 1024.

(** ** Tasks *)

Definition _canonical_path (value : string) : res string :=
  match normalized ← normalize_relative_alias value; normalize_bucket (hd "" (split_on "/" normalized)) ≫= λ _, mret normalized with
  | Err e => if decide (e = ValidationError) then Err PyValueError else Err e
  | Ok normalized =>
      if bool_decide (normalized ≠ value) || (length (split_on "/" value) <? 3)%nat then Err PyValueError else mret value
  end.

Record InputAsset := mk_input { ia_alias : string; ia_checksum : string }.

Definition is_hex_lower (c : ascii) : bool := is_digit c || ((97 <=? byte_of c) && (byte_of c <=? 102)).

(** The pattern of a checksum. *)
Definition is_checksum (s : string) : bool :=
  match drop_prefix "sha256:" s with
  | Some hex => (String.length hex =? 64)%nat && all_chars is_hex_lower hex
  | None => false
  end.

Definition validate_alias (input : InputAsset) : bool := is_checksum (ia_checksum input) && is_Ok (_canonical_path (ia_alias input)).

Record Task := mk_task { tk_inputs : list InputAsset; tk_result_prefix : option string }.

Definition validate_result_prefix (value : string) : bool :=
  is_Ok (_canonical_path value) && startswith "results/" value && (length (split_on "/" value) =? 5)%nat.

(** What pydantic accepts. *)
Definition valid_task (task : Task) : bool :=
  (1 <=? length (tk_inputs task))%nat && forallb validate_alias (tk_inputs task) &&
  match tk_result_prefix task with Some prefix => validate_result_prefix prefix | None => true end.

(** ** The report *)

Record RunReport := mk_run_report {
  rp_correlation_id : string;
  rp_status : string;
  rp_reads : Z;
  rp_writes : Z;
  rp_bytes_read : Z;
  rp_bytes_written : Z;
  rp_manifest_written : bool;
  rp_error : option string
}.

(** One more input read, one more result written. *)
Definition count_read (n : Z) (r : RunReport) : RunReport :=
  mk_run_report (rp_correlation_id r) (rp_status r) (rp_reads r + 1) (rp_writes r) (rp_bytes_read r + n) (rp_bytes_written r)
    (rp_manifest_written r) (rp_error r).
Definition count_written (n : Z) (r : RunReport) : RunReport :=
  mk_run_report (rp_correlation_id r) (rp_status r) (rp_reads r) (rp_writes r + 1) (rp_bytes_read r) (rp_bytes_written r + n)
    (rp_manifest_written r) (rp_error r).
Definition manifest_done (r : RunReport) : RunReport :=
  mk_run_report (rp_correlation_id r) (rp_status r) (rp_reads r) (rp_writes r) (rp_bytes_read r) (rp_bytes_written r) true (rp_error r).
Definition run_failed (message : string) (r : RunReport) : RunReport :=
  mk_run_report (rp_correlation_id r) "failed" (rp_reads r) (rp_writes r) (rp_bytes_read r) (rp_bytes_written r)
    (rp_manifest_written r) (Some message).

(** An entry of the manifest. *)
Record OutputEntry := mk_output {
  oe_alias : string;
  oe_asset_id : string;
  oe_size_bytes : Z;
  oe_checksum : string;
  oe_source_alias : string
}.

(** [json.dumps(..., sort_keys=True)] of an entry and of the manifest. *)
Definition json_member (key value : string) : string := quoted key +:+ ": " +:+ value.
Definition dump_output (o : OutputEntry) : string :=
  "{" +:+ json_member "alias" (quoted (oe_alias o)) +:+ ", " +:+ json_member "asset_id" (quoted (oe_asset_id o)) +:+ ", " +:+
  json_member "checksum" (quoted (oe_checksum o)) +:+ ", " +:+ json_member "size_bytes" (pretty (oe_size_bytes o)) +:+ ", " +:+
  json_member "source_alias" (quoted (oe_source_alias o)) +:+ "}".
Fixpoint dump_outputs (l : list OutputEntry) : string :=
  match l with
  | [] => ""
  | [o] => dump_output o
  | o :: l' => dump_output o +:+ ", " +:+ dump_outputs l'
  end.
Definition dump_manifest (outputs : list OutputEntry) : string :=
  "{" +:+ json_member "outputs" ("[" +:+ dump_outputs outputs +:+ "]") +:+ ", " +:+ json_member "version" "1" +:+ "}".

(** [f"{index:04d}"] of a positive number *)
Definition pad4 (index : Z) : string :=
  let s := pretty index in String.substring 0 (4 - String.length s) "0000" +:+ s.

Definition output_alias (prefix : string) (index : Z) : string := prefix +:+ "/output-" +:+ pad4 index +:+ ".bin".
Definition manifest_name (prefix : string) : string := prefix +:+ "/manifest.json".

(** The loop over the chunks of a body. *)
Fixpoint read_chunks (chunks : list bytes) (data : bytes) : res bytes :=
  match chunks with
  | [] => mret data
  | chunk :: chunks' =>
      if MAX_INPUT_BYTES <? Z.of_nat (length data) + Z.of_nat (length chunk)
      then Err (ToolError (WorkerError "input exceeds simulator's 50 MiB limit"))
      else read_chunks chunks' (data ++ chunk)
  end.

(** ** The run

    What a run acts on: the server, its report, its stage and the events emitted. *)

Record WorkerRun (S : Type) := mk_run {
  wk_server : S;
  wk_report : RunReport;
  wk_stage : string;
  wk_events : list (string * string)
}.
Arguments mk_run {S}.
Arguments wk_server {S}.
Arguments wk_report {S}.
Arguments wk_stage {S}.
Arguments wk_events {S}.

Section Worker.
Context {E : Env} {S : Type} `{!HttpTransport S} (service_secret : string).

Abbreviation WM := (M (WorkerRun S)).

Definition set_wk_server (a : S) (w : WorkerRun S) : WorkerRun S := mk_run a (wk_report w) (wk_stage w) (wk_events w).
Definition worker_send (authorization : string) (route : ClientRoute) : WM Answer :=
  zoom wk_server set_wk_server (http_send authorization route).
Definition update_report (f : RunReport → RunReport) : WM unit :=
  modify (λ w, mk_run (wk_server w) (f (wk_report w)) (wk_stage w) (wk_events w)).
Definition set_stage (stage : string) : WM unit := modify (λ w, mk_run (wk_server w) (wk_report w) stage (wk_events w)).
Definition event (outcome : string) : WM unit :=
  modify (λ w, mk_run (wk_server w) (wk_report w) (wk_stage w) (wk_events w ++ [(wk_stage w, outcome)])).

Definition worker_error {A} (message : string) : WM A := raise (ToolError (WorkerError message)).

Definition _check (response : Answer) (expected : Z) : WM unit :=
  if negb (an_status response =? expected) then worker_error ("HTTP " +:+ pretty (an_status response)) else mret tt.

Definition _mint (operation : Operation) (scope : string) : WM string :=
  response ← worker_send ("Service worker:" +:+ service_secret) (CMint (mk_mint_request operation scope 3600 false));
  _check response 201 ;;
  match an_body response with
  | BCapability capability => mret (co_capability_id capability)
  | _ => raise PyKeyError
  end.

(** [_put] with the source the caller adds to its entry. *)
Definition _put (alias : string) (data : bytes) (mime token source_alias : string) : WM OutputEntry :=
  let checksum := checksum_of data in
  response ← worker_send ("Capability " +:+ token) (CPutObject (object_path alias) data (Some mime) (Some checksum));
  _check response 201 ;;
  match an_body response with
  | BAsset asset =>
      if bool_decide (ao_checksum asset ≠ Some checksum ∨ ao_size_bytes asset ≠ Some (Z.of_nat (length data)))
      then worker_error "committed output metadata does not match payload"
      else mret (mk_output alias (ao_asset_id asset) (Z.of_nat (length data)) checksum source_alias)
  | _ => raise PyKeyError
  end.

Definition read_input (token alias : string) : WM bytes :=
  response ← worker_send ("Capability " +:+ token) (CGetObject (object_path alias));
  _check response 200 ;;
  match an_body response with
  | BBytes data => of_res (read_chunks [data] [])
  | _ => raise OutsideModel
  end.

(** The body of the loop: one input, and its copy if results are asked for. *)
Definition run_input (publish : option (string * string)) (index : Z) (item : InputAsset) : WM (option OutputEntry) :=
  set_stage "worker.read" ;;
  token ← _mint READ (ia_alias item);
  data ← read_input token (ia_alias item);
  (if decide (checksum_of data = ia_checksum item) then mret tt else worker_error "input checksum mismatch") ;;
  update_report (count_read (Z.of_nat (length data))) ;;
  event "success" ;;
  match publish with
  | None => mret None
  | Some (prefix, write_token) =>
      set_stage "worker.write" ;;
      output ← _put (output_alias prefix index) data "application/octet-stream" write_token (ia_alias item);
      update_report (count_written (Z.of_nat (length data))) ;;
      event "success" ;;
      mret (Some output)
  end.

Fixpoint run_inputs (publish : option (string * string)) (index : Z) (inputs : list InputAsset) : WM (list OutputEntry) :=
  match inputs with
  | [] => mret []
  | item :: inputs' =>
      output ← run_input publish index item;
      outputs ← run_inputs publish (index + 1) inputs';
      mret (match output with Some o => o :: outputs | None => outputs end)
  end.

Definition publish_manifest (prefix write_token : string) (outputs : list OutputEntry) : WM unit :=
  set_stage "worker.manifest" ;;
  _put (manifest_name prefix) (utf8_encode (dump_manifest outputs)) "application/json" write_token "" ;;
  update_report manifest_done ;;
  event "success".

(** The [try] block. *)
Definition run_body (task : Task) : WM unit :=
  publish ← match tk_result_prefix task with
    | None => mret None
    | Some prefix => token ← _mint WRITE prefix; mret (Some (prefix, token))
    end;
  outputs ← run_inputs publish 1 (tk_inputs task);
  match publish with
  | None => mret tt
  | Some (prefix, write_token) => publish_manifest prefix write_token outputs
  end.

(** Its handlers. *)
Definition fail_run (message : string) : WM unit := update_report (run_failed message) ;; event "failure".
Definition run_handler (e : error) : WM unit :=
  match e with
  | ToolError (WorkerError message) => fail_run message
  | HttpError HttpxTimeoutException | HttpError HttpxHTTPError => fail_run "HTTP transport failure"
  | PyKeyError | PyValueError => fail_run "invalid asset-store response"
  | _ => raise e
  end.

(** The report, and the events emitted on the way. *)
Definition run_task (task : Task) : M S (RunReport * list (string * string)) := λ n a,
  let report := mk_run_report (uuid_hex (new_uuid n)) "ok" 0 0 0 0 false None in
  let '(r, n', w) := catch (run_body task) run_handler (Datatypes.S n) (mk_run a report "worker.dispatch" []) in
  (match r with Ok _ => Ok (wk_report w, wk_events w) | Err e => Err e end, n', wk_server w).

(** [main]: the status the process exits with; a task that cannot be read or is not
    valid is refused before anything is sent. *)
Definition worker_main (task : option Task) : M S Z :=
  if decide (service_secret = "") then mret 1 else
  match task with
  | Some task =>
      if valid_task task then
        outcome ← run_task task;
        mret (if decide (rp_status outcome.1 = "ok") then 0 else 1)
      else mret 1
  | None => mret 1
  end.
End Worker.
