(* ===== verification/WorkerProps.v ===== *)
(** * What the worker guarantees

    Over any server that keeps [ServerContract]: a run that ends well has read inputs
    with the checksums of the task, and its results are copies of them, listed in the
    manifest; however a run ends, the manifest is uploaded after everything it lists, as
    its last request, or not at all. *)

From S2P Require Import Prelude Errors Python Effects Paths Models Sha256 Codec ObjectStore Capabilities Admin Guard Schemas App Api IpAddress Urls Normalize Rules Fetcher Client EnsureUrl StoreContract WorkerSim.

Section WorkerProps.
#[local] Set Default Proof Using "Type*".
Context {E : Env} {S : Type} `{!HttpTransport S} `{!ServerContract S} (service_secret : string).
Implicit Types (w : WorkerRun S) (a : S).

(** ** What is asked of the server

    [L log a]: the requests of [log], each with the server it was put to, have led to
    the server [a]. *)
Abbreviation Log := (list (ClientRoute * S)).
Context (L : Log → S → Prop).
Context (send_logs : ∀ authorization route log n a, L log a →
  wp (http_send authorization route) (λ _ _ a', L (log ++ [(route, a)]) a') n a).
Context (results : option string).

(** An upload of the manifest of the results. *)
Definition manifest_upload (route : ClientRoute) : Prop :=
  match route with
  | CPutObject path _ _ _ => ∃ prefix, results = Some prefix ∧ path = object_path (manifest_name prefix)
  | _ => False
  end.

Definition ordinary (sent : Log) : Prop := Forall (λ e, ¬ manifest_upload e.1) sent.

(** Only requests that [P] holds of lead from [a] to [a']. *)
Definition sends (P : Log → Prop) (a a' : S) : Prop := ∀ log, L log a → ∃ sent, L (log ++ sent) a' ∧ P sent.

Lemma sends_none a : sends ordinary a a.
Proof. intros log Hl. exists []. rewrite app_nil_r. split; [done|constructor]. Qed.

Lemma sends_app (P Q : Log → Prop) a1 a2 a3 :
  (∀ l1 l2, ordinary l1 → P l2 → Q (l1 ++ l2)) → sends ordinary a1 a2 → sends P a2 a3 → sends Q a1 a3.
Proof.
  intros HQ H1 H2 log Hl. destruct (H1 log Hl) as (l1 & Hl1 & Ho). destruct (H2 _ Hl1) as (l2 & Hl2 & HP).
  exists (l1 ++ l2). rewrite app_assoc. auto.
Qed.

Lemma ordinary_app l1 l2 : ordinary l1 → ordinary l2 → ordinary (l1 ++ l2).
Proof. intros H1 H2. by apply Forall_app. Qed.

(** An output is not the manifest. *)
Lemma output_ordinary prefix index data mime checksum :
  results = Some prefix → ¬ manifest_upload (CPutObject (object_path (output_alias prefix index)) data mime checksum).
Proof.
  intros Hr (prefix' & Hp & Heq). rewrite Hr in Hp. injection Hp as <-. apply (f_equal alias_of_path) in Heq.
  rewrite !object_path_roundtrip in Heq. injection Heq as Heq. unfold output_alias, manifest_name in Heq.
  by apply (inj (String.append prefix)) in Heq.
Qed.

(** What the name stands for, if it is a plain one. *)
Definition stands_for a (name : string) (data : bytes) : Prop := ∀ space alias,
  name = space +:+ "/" +:+ alias → plain_name space alias = true → ∃ i, sv_holds a space alias i data.

Lemma stands_for_kept a a' name data : sv_keeps a a' → stands_for a name data → stands_for a' name data.
Proof. intros Hk H space alias Hn Hp. destruct (H space alias Hn Hp) as [i Hi]. exists i. by apply Hk. Qed.

(** The server stays in order, and the verdict of the run is not touched. *)
Record going (n : nat) w (n' : nat) w' : Prop := {
  go_draws : (n <= n')%nat;
  go_ok : sv_ok n' (wk_server w');
  go_keeps : sv_keeps (wk_server w) (wk_server w');
  go_status : rp_status (wk_report w') = rp_status (wk_report w);
  go_error : rp_error (wk_report w') = rp_error (wk_report w)
}.

(** And no manifest is marked as written, nor uploaded. *)
Definition before_manifest (n : nat) w (n' : nat) w' : Prop :=
  going n w n' w' ∧ rp_manifest_written (wk_report w') = rp_manifest_written (wk_report w) ∧
  sends ordinary (wk_server w) (wk_server w').

Lemma before_refl n w : sv_ok n (wk_server w) → before_manifest n w n w.
Proof. intros Hok. split; [split; try done; reflexivity|]. split; [done|apply sends_none]. Qed.

Lemma going_trans n1 w1 n2 w2 n3 w3 : going n1 w1 n2 w2 → going n2 w2 n3 w3 → going n1 w1 n3 w3.
Proof. intros [] []. split; try done; [lia|by etrans|congruence|congruence]. Qed.

Lemma before_trans n1 w1 n2 w2 n3 w3 : before_manifest n1 w1 n2 w2 → before_manifest n2 w2 n3 w3 → before_manifest n1 w1 n3 w3.
Proof.
  intros (G1 & H1 & S1) (G2 & H2 & S2). split; [by eapply going_trans|]. split; [congruence|].
  eapply sends_app; [apply ordinary_app|exact S1|exact S2].
Qed.

(** What is reported on the way leaves the verdict alone. *)
Lemma before_report n w n' w' w2 :
  before_manifest n w n' w' → wk_server w2 = wk_server w' → rp_status (wk_report w2) = rp_status (wk_report w') →
  rp_error (wk_report w2) = rp_error (wk_report w') → rp_manifest_written (wk_report w2) = rp_manifest_written (wk_report w') →
  before_manifest n w n' w2.
Proof. intros ([] & H & Hsent) Hs H1 H2 H3. split; [split|split; [congruence|]]; rewrite ?Hs; try done; congruence. Qed.

(** Nor does the stage. *)
Lemma before_start n w0 w n' w' :
  wk_server w0 = wk_server w → wk_report w0 = wk_report w → before_manifest n w0 n' w' → before_manifest n w n' w'.
Proof. intros Hs Hr ([] & H & Hsent). split; [split|split; [congruence|]]; rewrite <- ?Hs, <- ?Hr; done. Qed.

Lemma wp_worker_send authorization route (Q : res Answer → nat → WorkerRun S → Prop) n w :
  sv_ok n (wk_server w) →
  (∀ r n' a', going n w n' (set_wk_server a' w) → (∀ log, L log (wk_server w) → L (log ++ [(route, wk_server w)]) a') →
     (∀ sp al i d, sv_holds (wk_server w) sp al i d → sv_holds a' sp al i d) →
     (∀ answer, r = Ok answer → match route with
        | CPutObject path data _ _ => an_status answer = 201 → ∃ out, an_body answer = BAsset out ∧ describes out data ∧
            ∀ space alias, path_names path space alias → sv_holds a' space alias (ao_asset_id out) data
        | CGetObject path => an_status answer = 200 → ∃ data, an_body answer = BBytes data ∧
            ∀ space alias, path_names path space alias → ∃ i, sv_holds (wk_server w) space alias i data
        | _ => True end) → Q r n' (set_wk_server a' w)) →
  wp (worker_send authorization route) Q n w.
Proof.
  intros Hok HQ. apply wp_zoom. pose proof (sv_send authorization route n _ Hok) as Hsend.
  assert (Hlogs : ∀ log, L log (wk_server w) →
    wp (http_send authorization route) (λ _ _ a', L (log ++ [(route, wk_server w)]) a') n (wk_server w)) by (intros; by apply send_logs).
  unfold wp in *. destruct (http_send authorization route n (wk_server w)) as [[r n'] a'].
  destruct Hsend as (Hn & Hok' & Hk & H).
  apply HQ; [by split|exact Hlogs|exact Hk|]. intros answer Hr. specialize (H answer Hr). by destruct route.
Qed.

(** A request that is not the upload of the manifest. *)
Lemma sent_before n w n' a' route :
  going n w n' (set_wk_server a' w) → (∀ log, L log (wk_server w) → L (log ++ [(route, wk_server w)]) a') →
  ¬ manifest_upload route → before_manifest n w n' (set_wk_server a' w).
Proof.
  intros Hg Hl Hm. split; [done|]. split; [done|]. intros log H. exists [(route, wk_server w)].
  split; [by apply Hl|by repeat constructor].
Qed.

Lemma wp_check {B} response expected (k : () → M (WorkerRun S) B) (Q : res B → nat → WorkerRun S → Prop) n w :
  (∀ e, Q (Err e) n w) → (an_status response = expected → wp (k tt) Q n w) → wp (_check response expected ≫= k) Q n w.
Proof.
  intros He Hk. unfold _check, worker_error. wp_step. destruct (an_status response =? expected) eqn:Hs; cbn [negb]; wp_step; [apply Hk; lia|apply He].
Qed.

Lemma wp_worker_mint operation scope n w : sv_ok n (wk_server w) →
  wp (_mint service_secret operation scope) (λ _ n' w', before_manifest n w n' w') n w.
Proof.
  intros Hok. unfold _mint. wp_step. apply wp_worker_send; [done|]. intros r n' a' Hg Hl _ _.
  assert (Hb : before_manifest n w n' (set_wk_server a' w)) by (eapply sent_before; [done..|intros []]).
  destruct r as [answer|e]; [|done].
  apply wp_check; [done|]. intros _. destruct (an_body answer); by wp_step.
Qed.

Lemma wp_put alias data mime token source n w : sv_ok n (wk_server w) →
  wp (_put alias data mime token source) (λ r n' w', going n w n' w' ∧
    rp_manifest_written (wk_report w') = rp_manifest_written (wk_report w) ∧
    (∀ log, L log (wk_server w) → L (log ++ [(CPutObject (object_path alias) data (Some mime) (Some (checksum_of data)), wk_server w)])
       (wk_server w')) ∧
    ∀ o, r = Ok o → o = mk_output alias (oe_asset_id o) (Z.of_nat (length data)) (checksum_of data) source ∧
      stands_for (wk_server w') alias data) n w.
Proof.
  intros Hok. unfold _put. wp_step. apply wp_worker_send; [done|]. intros [answer|e] n' a' Hb Hl _ H; [|by split_and!].
  apply wp_check; [intros e; by split_and!|]. intros Hs. destruct (H answer eq_refl Hs) as (out & -> & _ & Hh).
  destruct (bool_decide _); [unfold worker_error; wp_step; by split_and!|]. wp_step. split_and!; [done..|]. intros o [= <-]. split; [done|].
  intros space al -> Hp. exists (ao_asset_id out). by apply Hh, object_path_names.
Qed.

Lemma wp_read_input token alias n w : sv_ok n (wk_server w) →
  wp (read_input token alias) (λ r n' w', before_manifest n w n' w' ∧ ∀ data, r = Ok data → stands_for (wk_server w') alias data) n w.
Proof.
  intros Hok. unfold read_input. wp_step. apply wp_worker_send; [done|]. intros r n' a' Hg Hl Hk H.
  assert (Hb : before_manifest n w n' (set_wk_server a' w)) by (eapply sent_before; [done..|intros []]).
  destruct r as [answer|e]; [|by split].
  apply wp_check; [intros e; by split|]. intros Hs. destruct (H answer eq_refl Hs) as (data & -> & Hd). wp_step. split; [done|].
  unfold read_chunks. destruct (_ <? _); [done|]. intros data' [= <-]. intros space al -> Hp.
  destruct (Hd space al (object_path_names _ _ Hp)) as [i Hi]. exists i. by apply Hk.
Qed.

(** The input has the checksum of the task, and its copy, if there is one, its bytes. *)
Definition verified a (prefix : option string) (index : Z) (item : InputAsset) (output : option OutputEntry) : Prop := ∃ data,
  checksum_of data = ia_checksum item ∧ stands_for a (ia_alias item) data ∧
  match prefix with
  | None => output = None
  | Some prefix => ∃ i, output = Some (mk_output (output_alias prefix index) i (Z.of_nat (length data)) (checksum_of data) (ia_alias item)) ∧
      stands_for a (output_alias prefix index) data
  end.

Lemma verified_kept a a' prefix index item output : sv_keeps a a' → verified a prefix index item output → verified a' prefix index item output.
Proof.
  intros Hk (data & Hc & Hs & H). exists data. split; [done|]. split; [by eapply stands_for_kept|]. destruct prefix; [|done].
  destruct H as (i & -> & Hi). exists i. split; [done|by eapply stands_for_kept].
Qed.

Lemma wp_run_input publish index item n w : sv_ok n (wk_server w) → fst <$> publish = results →
  wp (run_input service_secret publish index item) (λ r n' w', before_manifest n w n' w' ∧
    ∀ output, r = Ok output → verified (wk_server w') (fst <$> publish) index item output) n w.
Proof.
  intros Hok Hres. unfold run_input, set_stage, update_report, event. wp_step. wp_step. wp_step.
  eapply wp_mono; [by apply wp_worker_mint|]. intros r1 n1 w1 Hb1. apply (before_start _ _ w) in Hb1; [|done..]. destruct r1 as [token|e]; [|by split].
  wp_step. eapply wp_mono; [apply wp_read_input, Hb1|]. intros [data|e] n2 w2 [Hb2 Hd]; [|split; [by eapply before_trans|done]].
  specialize (Hd data eq_refl). pose proof (before_trans _ _ _ _ _ _ Hb1 Hb2) as Hb. clear Hb1 Hb2 w1 n1.
  wp_step. destruct (decide (checksum_of data = ia_checksum item)) as [Hc|_]; [|unfold worker_error; wp_step; by split].
  wp_step. wp_step. wp_step. wp_step. wp_step. set (w3 := mk_run _ _ _ _).
  assert (Hb3 : before_manifest n w n2 w3) by (by eapply before_report). assert (Hd3 : stands_for (wk_server w3) (ia_alias item) data) by done.
  clearbody w3. clear Hd Hb w2. destruct publish as [[prefix write_token]|].
  2:{ wp_step. split; [done|]. intros output [= <-]. exists data. by split_and!. }
  wp_step. wp_step. wp_step. eapply wp_mono; [apply wp_put, Hb3|]. intros r4 n4 w4 (Hg4 & Hm4 & Hl4 & Ho).
  assert (Hb4 : before_manifest n2 w3 n4 w4).
  { apply (before_start _ (mk_run (wk_server w3) (wk_report w3) "worker.write" (wk_events w3))); [done..|].
    split; [exact Hg4|]. split; [exact Hm4|]. intros log Hl. eexists. split; [by apply Hl4|].
    repeat constructor. by apply output_ordinary. } destruct r4 as [o|e]; [|split; [by eapply before_trans|done]].
  destruct (Ho o eq_refl) as [Heq Hs]. wp_step. wp_step. wp_step. wp_step. wp_step. split.
  - eapply before_report; [by eapply before_trans; [exact Hb3|exact Hb4]|done..].
  - intros output [= <-]. exists data. split; [done|]. split; [eapply stands_for_kept; [apply Hb4|exact Hd3]|].
    exists (oe_asset_id o). split; [by f_equal|done].
Qed.

(** The inputs in turn, with the outputs there are for them. *)
Fixpoint all_verified a (prefix : option string) (index : Z) (inputs : list InputAsset) (outputs : list OutputEntry) : Prop :=
  match inputs with
  | [] => outputs = []
  | item :: inputs' => ∃ output rest, verified a prefix index item output ∧ all_verified a prefix (index + 1) inputs' rest ∧
      outputs = match output with Some o => o :: rest | None => rest end
  end.

Lemma all_verified_kept a a' prefix index inputs outputs :
  sv_keeps a a' → all_verified a prefix index inputs outputs → all_verified a' prefix index inputs outputs.
Proof.
  intros Hk. revert index outputs. induction inputs as [|item inputs IH]; intros index outputs; cbn; [done|].
  intros (output & rest & Hv & Hr & ->). exists output, rest. split; [by eapply verified_kept|]. split; [by apply IH|done].
Qed.

Lemma wp_run_inputs publish index inputs n w : sv_ok n (wk_server w) → fst <$> publish = results →
  wp (run_inputs service_secret publish index inputs) (λ r n' w', before_manifest n w n' w' ∧
    ∀ outputs, r = Ok outputs → all_verified (wk_server w') (fst <$> publish) index inputs outputs) n w.
Proof.
  revert index n w. induction inputs as [|item inputs IH]; intros index n w Hok Hres; cbn [run_inputs].
  - wp_step. split; [by apply before_refl|]. by intros outputs [= <-].
  - wp_step. eapply wp_mono; [by apply wp_run_input|]. intros [output|e] n1 w1 [Hb1 Hv]; [|by split].
    wp_step. eapply wp_mono; [apply IH; [apply Hb1|done]|]. intros [rest|e] n2 w2 [Hb2 Hr]; [wp_step|]; (split; [by eapply before_trans|]); [|done].
    intros outputs [= <-]. cbn. exists output, rest. split; [eapply verified_kept; [apply Hb2|by apply Hv]|]. split; [by apply Hr|done].
Qed.

(** A run that ended well. *)
Definition completed (task : Task) a (report : RunReport) : Prop := ∃ outputs,
  all_verified a (tk_result_prefix task) 1 (tk_inputs task) outputs ∧
  rp_manifest_written report = bool_decide (is_Some (tk_result_prefix task)) ∧
  ∀ prefix, tk_result_prefix task = Some prefix → stands_for a (manifest_name prefix) (utf8_encode (dump_manifest outputs)).

(** The requests of a run: the manifest is uploaded last, when everything it lists is
    there, or not at all. *)
Definition published (inputs : list InputAsset) (written : bool) (sent : Log) : Prop := ∃ before last,
  sent = before ++ last ∧ ordinary before ∧
  (last = [] ∧ written = false ∨ ∃ prefix outputs mime checksum a, results = Some prefix ∧
     last = [(CPutObject (object_path (manifest_name prefix)) (utf8_encode (dump_manifest outputs)) mime checksum, a)] ∧
     all_verified a results 1 inputs outputs).

Lemma published_none inputs sent : ordinary sent → published inputs false sent.
Proof. intros Ho. exists sent, []. rewrite app_nil_r. split; [done|]. split; [done|by left]. Qed.

Lemma published_before inputs written l1 l2 : ordinary l1 → published inputs written l2 → published inputs written (l1 ++ l2).
Proof.
  intros H1 (l & last & -> & H2 & H). exists (l1 ++ l), last. rewrite app_assoc. split; [done|]. split; [by apply ordinary_app|done].
Qed.

Lemma sends_published inputs a1 a2 : sends ordinary a1 a2 → sends (published inputs false) a1 a2.
Proof. intros H log Hl. destruct (H log Hl) as (sent & ? & ?). exists sent. split; [done|by apply published_none]. Qed.

Lemma wp_run_body task n w : sv_ok n (wk_server w) → rp_manifest_written (wk_report w) = false → tk_result_prefix task = results →
  wp (run_body service_secret task) (λ r n' w', going n w n' w' ∧
    sends (published (tk_inputs task) (rp_manifest_written (wk_report w'))) (wk_server w) (wk_server w') ∧
    match r with
    | Ok _ => completed task (wk_server w') (wk_report w')
    | Err _ => rp_manifest_written (wk_report w') = false
    end) n w.
Proof.
  intros Hok Hno Htask. unfold run_body. wp_step.
  eapply (wp_mono _ (λ r n' w', before_manifest n w n' w' ∧ ∀ publish, r = Ok publish → fst <$> publish = tk_result_prefix task)).
  { destruct (tk_result_prefix task) as [prefix|]; [|wp_step; split; [by apply before_refl|by intros publish [= <-]]].
    wp_step. eapply wp_mono; [by apply wp_worker_mint|]. intros [token|e] n' w' Hb; [wp_step|]; (split; [done|]); [|done].
    by intros publish [= <-]. }
  assert (Hquiet : ∀ n' w', before_manifest n w n' w' → going n w n' w' ∧
    sends (published (tk_inputs task) (rp_manifest_written (wk_report w'))) (wk_server w) (wk_server w') ∧
    rp_manifest_written (wk_report w') = false).
  { intros n' w' (Hg & Hm & Hs). rewrite Hm, Hno. split_and!; [done|by apply sends_published|done]. }
  intros [publish|e] n1 w1 [Hb1 Hp]; [|by apply Hquiet]. specialize (Hp publish eq_refl).
  wp_step. eapply wp_mono; [apply wp_run_inputs; [apply Hb1|congruence]|].
  intros [outputs|e] n2 w2 [Hb2 Hv]; pose proof (before_trans _ _ _ _ _ _ Hb1 Hb2) as Hb; [|by apply Hquiet].
  specialize (Hv outputs eq_refl). rewrite Hp in Hv. destruct publish as [[prefix write_token]|]; cbn in Hp.
  2:{ wp_step. destruct (Hquiet _ _ Hb) as (? & ? & Hm). split_and!; [done..|]. exists outputs.
      split; [done|]. rewrite <- Hp. by split. }
  unfold publish_manifest, set_stage, update_report, event. wp_step. wp_step. wp_step.
  eapply wp_mono; [apply wp_put, Hb|]. intros r3 n3 w3 (Hg3 & Hm3 & Hl3 & Ho).
  assert (Hg : going n w n3 w3) by (eapply going_trans; [apply Hb|]; by destruct Hg3; split).
  assert (Hsent : ∀ b, sends (published (tk_inputs task) b) (wk_server w) (wk_server w3)).
  { intros b. eapply (sends_app (published (tk_inputs task) b)); [apply published_before|apply Hb|].
    intros log Hl. eexists. split; [by apply Hl3|]. eexists [], _. split; [done|]. split; [constructor|]. right.
    exists prefix, outputs. do 3 eexists. split; [congruence|]. split; [done|]. rewrite <- Htask. exact Hv. }
  destruct r3 as [o|e].
  - destruct (Ho o eq_refl) as [_ Hs]. wp_step. wp_step. wp_step. split; [by destruct Hg; split|]. split; [apply Hsent|].
    exists outputs. split; [eapply all_verified_kept; [apply Hg3|exact Hv]|]. rewrite <- Hp. split; [done|]. by intros prefix' [= <-].
  - split; [done|]. split; [apply Hsent|]. rewrite Hm3. cbn. destruct Hb as (_ & -> & _). done.
Qed.

Lemma wp_run_handler e n w : sv_ok n (wk_server w) →
  wp (run_handler e) (λ r n' w', n' = n ∧ wk_server w' = wk_server w ∧
    rp_manifest_written (wk_report w') = rp_manifest_written (wk_report w) ∧
    (r = Ok tt → rp_status (wk_report w') = "failed" ∧ is_Some (rp_error (wk_report w')))) n w.
Proof.
  intros Hok. unfold run_handler, fail_run, update_report, event.
  repeat match goal with |- wp (match ?x with _ => _ end) _ _ _ => destruct x end; wp_steps; split_and!; try done;
    intros _; split_and!; done || by eexists.
Qed.

(** * Properties *)

(** C21.  A manifest is published last, and only when everything it lists is there.
    However a run ends, nothing the store held is lost, and the upload of the manifest,
    if the run makes one, is its last request: at that moment every input has been
    read with the checksum the task asks for, each has its copy, byte for byte, under
    the prefix, and the manifest lists these copies.  A report of success means that
    all this was done and, if results were asked for, the manifest is stored; a report
    of failure says why, and claims no manifest.  (What a name stands for is stated of
    plain names: those whose parts are their own normal forms and that do not repeat
    their partition.) *)
Theorem worker_publishes (task : Task) (n : nat) (a : S) (r : res (RunReport * list (string * string))) (n' : nat) (a' : S) :
  sv_ok n a → tk_result_prefix task = results → run_task service_secret task n a = (r, n', a') →
  sv_ok n' a' ∧ sv_keeps a a' ∧
  (∃ written, sends (published (tk_inputs task) written) a a' ∧
     ∀ report events, r = Ok (report, events) → rp_manifest_written report = written) ∧
  ∀ report events, r = Ok (report, events) →
    (rp_status report = "ok" ∧ rp_error report = None ∧ completed task a' report) ∨
    (rp_status report = "failed" ∧ is_Some (rp_error report) ∧ rp_manifest_written report = false).
Proof.
  intros Hok Htask. unfold run_task. set (w := mk_run _ _ _ _).
  assert (Hok1 : sv_ok (Datatypes.S n) (wk_server w)) by (eapply sv_mono; [|exact Hok]; lia).
  destruct (catch _ _ _ _) as [[r1 n1] w1] eqn:Hrun. intros H.
  eapply (wp_inv _ (λ r1 n1 w1, sv_ok n1 (wk_server w1) ∧ sv_keeps a (wk_server w1) ∧
    sends (published (tk_inputs task) (rp_manifest_written (wk_report w1))) a (wk_server w1) ∧
    (r1 = Ok tt →
     (rp_status (wk_report w1) = "ok" ∧ rp_error (wk_report w1) = None ∧ completed task (wk_server w1) (wk_report w1)) ∨
     (rp_status (wk_report w1) = "failed" ∧ is_Some (rp_error (wk_report w1)) ∧ rp_manifest_written (wk_report w1) = false))))
    in Hrun.
  - injection H as <- <- <-. destruct Hrun as (H1 & H2 & H3 & H4). split_and!; [done|done|..].
    + eexists. split; [exact H3|]. destruct r1; intros report events [= <- <-]. done.
    + destruct r1 as [[]|e]; intros report events [= <- <-]. by apply H4.
  - apply wp_catch. eapply wp_mono; [by apply wp_run_body|]. intros [[]|e] n2 w2 ([] & Hsent & Hr).
    + split_and!; [done..|]. intros _. left. by rewrite go_status0, go_error0.
    + eapply wp_mono; [by apply wp_run_handler|]. intros r3 n3 w3 (-> & Hs & Hm & Hf). rewrite Hs, Hm.
      split_and!; [done..|]. intros Hr'. right. destruct (Hf Hr') as (H1 & H2). by split_and!.
Qed.
End WorkerProps.
