(* ===== verification/ToolDemo.v ===== *)
(** * The tools before a concrete asset store

    A manifest is loaded into the process of [ApiProps], with the credentials of the two
    tools; then a worker copies what was loaded.  And a server that answers 503 twice. *)

From S2P Require Import Prelude Errors Python Effects Paths Models Retention Sha256 Registry RegistryInv RegistrySound Scenario Codec AdminQuery Admin Capabilities ObjectStore Guard GuardProps ServiceIdentity Admission IssuanceRate Schemas App Api ApiInv ApiProps IpAddress Urls Normalize Rules Fetcher Client EnsureUrl StoreContract FetchStore Csv BulkLoader BulkProps WorkerSim WorkerProps.
From Stdlib Require Import SpecFloat.

Definition tool_ticks (n : nat) : spec_float := demo_instant.
#[local] Instance tool_transport : HttpTransport (App LocalObjectStore) := serve_client tool_ticks.
#[local] Instance tool_server : ServerContract (App LocalObjectStore) := store_server tool_ticks.

Definition tool_vars : gmap string string := {["ASSET_STORE_SERVICE_CREDENTIALS" := "bulk-loader:s3,worker:s4"]}.
Definition tool_start : res (App LocalObjectStore) := create_app tool_vars None ∅ None demo_instant.
Definition tool_app : App LocalObjectStore := match tool_start with Ok x => x | Err _ => demo_app end.

Lemma tool_start_ok : create_app tool_vars None (∅ : LocalObjectStore) None demo_instant = Ok tool_app.
Proof. vm_compute. reflexivity. Qed.

Lemma tool_ok : sv_ok 0 tool_app.
Proof. by destruct (create_app_inv _ _ _ _ _ 0%nat tool_start_ok). Qed.

(** ** A load *)

Definition tool_files (path : string) : option bytes := if decide (path = "hi.txt") then Some [104; 105] else None.
Definition tool_rows : list ManifestRow := [mk_row "a" "text/plain" "hi.txt"].
Definition load (manifest : list ManifestRow) : res (Z * option string) * nat * App LocalObjectStore :=
  bulk_main tool_files (λ _, "error") (Some (manifest_text manifest)) "m" "bulk-loader" "s3" false true DEFAULT_MAX_RETRIES 0%nat tool_app.

Lemma manifest_roundtrip_witness : read_manifest (Some (manifest_text tool_rows)) = Ok tool_rows.
Proof. apply manifest_roundtrip. repeat (constructor; [vm_compute; reflexivity|]). constructor. Defined.

Lemma bulk_load_complete_witness :
  (load tool_rows).1.1 = Ok (0, None) ∧ ∃ i, sv_holds (load tool_rows).2 "cache" "m/a" i [104; 105].
Proof.
  assert (Hr : (load tool_rows).1.1 = Ok (0, None)) by (vm_compute; reflexivity). split; [exact Hr|].
  destruct (load tool_rows) as [[r n'] a'] eqn:Hrun. cbn [fst snd] in Hr |- *. unfold load in Hrun.
  destruct (bulk_load_complete _ _ _ _ _ _ _ _ _ _ _ _ _ _ tool_ok Hrun) as (_ & _ & H).
  destruct (H None Hr) as (_ & rows & Hrows & Hall).
  assert (Hm : read_manifest (Some (manifest_text tool_rows)) = Ok tool_rows) by (vm_compute; reflexivity).
  rewrite Hm in Hrows. injection Hrows as <-. apply Forall_cons in Hall as [(size & data & Hd & _ & Hh) _].
  injection Hd as <-. apply Hh; vm_compute; reflexivity.
Defined.

(** ** A task over what was loaded *)

Definition hi_checksum : string := "sha256:8f434346648f6b96df89dda901c5176b10a6d83961dd3c1ac88b59b2dc327aa4".
Definition tool_task : Task := mk_task [mk_input "cache/m/a" hi_checksum] (Some "results/u/t/1/w").
Lemma load_holds : sv_ok (load tool_rows).1.2 (load tool_rows).2 ∧ ∃ i, sv_holds (load tool_rows).2 "cache" "m/a" i [104; 105].
Proof.
  assert (Hr : (load tool_rows).1.1 = Ok (0, None)) by (vm_compute; reflexivity).
  destruct (load tool_rows) as [[r n'] a'] eqn:Hrun. cbn [fst snd] in Hr |- *.
  destruct (wp_inv _ _ _ _ _ _ _ (wp_bulk_main _ _ _ _ _ _ _ _ _ _ _ tool_ok) Hrun) as [(_ & Hok & _) H]. split; [exact Hok|].
  destruct (H None Hr) as (_ & rows & Hrows & Hall).
  assert (Hm : read_manifest (Some (manifest_text tool_rows)) = Ok tool_rows) by (vm_compute; reflexivity).
  rewrite Hm in Hrows. injection Hrows as <-. apply Forall_cons in Hall as [(size & data & Hd & _ & Hh) _].
  injection Hd as <-. apply Hh; vm_compute; reflexivity.
Qed.

(** The same process, behind a log of what it is asked. *)
Abbreviation Logged := (list (ClientRoute * App LocalObjectStore) * App LocalObjectStore)%type.
#[local] Instance logged_transport : HttpTransport Logged := λ authorization route n a,
  let '(r, n', x) := http_send authorization route n a.2 in (r, n', (a.1 ++ [(route, a.2)], x)).

#[local] Instance logged_server : ServerContract Logged.
Proof.
  refine {| sv_ok n (a : Logged) := sv_ok n a.2; sv_holds (a : Logged) := sv_holds a.2 |}.
  - intros n n' a. apply sv_mono.
  - intros a space alias i data i' data'. apply sv_unique.
  - intros auth route n a Hok. pose proof (sv_send auth route n a.2 Hok) as H. revert H. unfold wp.
    unfold http_send at 2. unfold logged_transport. by destruct (http_send auth route n a.2) as [[r n'] x].
Defined.

Lemma logged_ok n log (x : App LocalObjectStore) : sv_ok n x → sv_ok (A := Logged) n (log, x).
Proof. done. Qed.
Lemma logged_holds log (x : App LocalObjectStore) space alias i data : sv_holds x space alias i data → sv_holds (A := Logged) (log, x) space alias i data.
Proof. done. Qed.

(** The log holds these requests. *)
Definition logged (log : list (ClientRoute * Logged)) (a : Logged) : Prop := a.1 = (λ e, (e.1, e.2.2)) <$> log.

Lemma logged_send authorization route log n a : logged log a →
  wp (http_send authorization route) (λ _ _ a', logged (log ++ [(route, a)]) a') n a.
Proof.
  intros Hl. unfold wp. unfold http_send, logged_transport. destruct (http_send _ _ _ _) as [[r n'] x].
  unfold logged in *. cbn. by rewrite Hl, fmap_app.
Qed.

Definition worker_run : res (RunReport * list (string * string)) * nat * Logged :=
  run_task "s4" tool_task (load tool_rows).1.2 ([], (load tool_rows).2).

Definition report_of (r : res (RunReport * list (string * string))) : option RunReport :=
  match r with Ok (report, _) => Some report | Err _ => None end.

(** A capability to write and one to read, the input, its copy, the manifest. *)
Definition route_name (route : ClientRoute) : string :=
  match route with
  | CResolve _ _ => "resolve"
  | CMint _ => "mint"
  | CPutObject path _ _ _ => "put " +:+ path
  | CGetObject path => "get " +:+ path
  end.

Lemma worker_publishes_witness :
  valid_task tool_task = true ∧
  (rp_manifest_written <$> report_of worker_run.1.1) = Some true ∧
  (route_name ∘ fst) <$> worker_run.2.1 =
    ["mint"; "mint"; "get /objects/cache/m/a"; "put /objects/results/u/t/1/w/output-0001.bin"; "put /objects/results/u/t/1/w/manifest.json"] ∧
  (∃ i, sv_holds worker_run.2 "results" "u/t/1/w/output-0001.bin" i [104; 105]) ∧
  ∃ sent, worker_run.2.1 = (λ e, (e.1, e.2.2)) <$> sent ∧ published (Some "results/u/t/1/w") (tk_inputs tool_task) true sent.
Proof.
  split; [vm_compute; reflexivity|].
  assert (Hr : (λ report, (rp_status report, rp_manifest_written report)) <$> report_of worker_run.1.1 = Some ("ok", true)) by (vm_compute; reflexivity).
  assert (Hlog : (route_name ∘ fst) <$> worker_run.2.1 =
    ["mint"; "mint"; "get /objects/cache/m/a"; "put /objects/results/u/t/1/w/output-0001.bin"; "put /objects/results/u/t/1/w/manifest.json"])
    by (vm_compute; reflexivity).
  destruct load_holds as [Hok [j Hj]].
  apply (logged_ok _ []) in Hok. apply (logged_holds []) in Hj.
  destruct worker_run as [[r n'] a'] eqn:Hrun. unfold worker_run in Hrun. cbn [fst snd] in Hr, Hlog |- *.
  destruct r as [[report events]|e]; [|discriminate Hr]. cbn in Hr. injection Hr as Hs Hm. split; [cbn; rewrite Hm; reflexivity|].
  split; [exact Hlog|].
  destruct (worker_publishes "s4" logged logged_send (Some "results/u/t/1/w") tool_task _ _ _ _ _ Hok eq_refl Hrun)
    as (_ & Hk & (written & Hsent & Hw) & Hreport).
  split.
  - destruct (Hreport report events eq_refl) as [(_ & _ & Hc)|(Hf & _)]; [|rewrite Hs in Hf; discriminate Hf].
    destruct Hc as (outputs & (output & rest & (data & _ & Hin & i & _ & Hout) & _) & _).
    destruct (Hin "cache" "m/a" eq_refl ltac:(vm_compute; reflexivity)) as [k Hki].
    destruct (sv_unique _ _ _ _ _ _ _ (Hk _ _ _ _ Hj) Hki) as [_ <-].
    apply Hout; vm_compute; reflexivity.
  - destruct (Hsent [] eq_refl) as (sent & Hl & Hp). exists sent. split; [exact Hl|].
    rewrite <- (Hw report events eq_refl), Hm in Hp. exact Hp.
Defined.

(** ** A server that recovers

    It logs its answers: 503 twice, and then a conflict. *)

Definition busy (l : list (res Answer)) : res Answer :=
  if (length l <? 2)%nat then Ok (mk_answer 503 BNone) else Ok (mk_answer 409 BNone).
#[local] Instance busy_transport : HttpTransport (list (res Answer)) := λ auth route n l, (busy l, n, l ++ [busy l]).


