(* ===== verification/Preflight.v ===== *)
(** * The preflight of a pilot deployment

    [deploy/pilot/check_config.py]: what it demands of the configuration that Docker
    Compose renders, a JSON document; and what the two services then find in their
    environments.  The files of the machine, the output of [docker compose config] and
    the TOML reader are parameters.  The model stops, with [OutsideModel], at a number
    with a fraction whose value would matter, and where nested values of two
    environments would be compared. *)

From S2P Require Import Prelude Errors Python Paths Capabilities Codec ObjectStore Admin Guard ServiceIdentity IpAddress Urls Normalize Rules RuleConfig Regex Admission App Schemas Client Transport Fetcher EnsureUrl PilotPolicy Pilot FetcherApp.

(** ** Values of a document, as Python's operations see them *)

(** [j.get(key, d)] *)
Definition get_item (key : string) (j d : json) : res json :=
  match j with JObj items => mret (default d (item key items)) | _ => Err PyAttributeError end.

(** [j[key]] *)
Definition subscript (key : string) (j : json) : res json :=
  match j with
  | JObj items => match item key items with Some v => mret v | None => Err PyKeyError end
  | _ => Err PyTypeError
  end.

(** [j.items()] *)
Definition dict_items (j : json) : res (list (string * json)) :=
  match j with JObj items => mret items | _ => Err PyAttributeError end.

(** The values [for v in j] takes; the characters of a text. *)
Definition iterate (j : json) : res (list json) :=
  match j with
  | JArr l => mret l
  | JObj items => mret (JStr <$> items.*1)
  | JStr s => mret ((λ c, JStr (String c "")) <$> String.list_ascii_of_string s)
  | _ => Err PyTypeError
  end.

Definition truthy (j : json) : res bool :=
  match j with
  | JNull => mret false
  | JBool b => mret b
  | JInt z => mret (negb (z =? 0))
  | JStr s => mret (negb (bool_decide (s = "")))
  | JArr l => mret (match l with [] => false | _ => true end)
  | JObj l => mret (match l with [] => false | _ => true end)
  | JFloat => Err OutsideModel
  end.

(** [not j] *)
Definition falsy (j : json) : res bool := b ← truthy j; mret (negb b).

(** [j == s] *)
Definition is_str (s : string) (j : json) : bool :=
  match j with JStr t => bool_decide (t = s) | _ => false end.

(** [j == [s, ...]] *)
Fixpoint is_strs (texts : list string) (l : list json) : bool :=
  match texts, l with
  | [], [] => true
  | s :: texts, j :: l => is_str s j && is_strs texts l
  | _, _ => false
  end.
Definition is_list (texts : list string) (j : json) : bool := match j with JArr l => is_strs texts l | _ => false end.

Definition unhashable (j : json) : bool := match j with JArr _ | JObj _ => true | _ => false end.

(** [set(j) == {s, ...}]: of several texts of more than one character. *)
Definition set_is (texts : list string) (j : json) : res bool :=
  l ← iterate j;
  if existsb unhashable l then Err PyTypeError
  else mret (forallb (λ x, existsb (λ s, is_str s x) texts) l && forallb (λ s, existsb (is_str s) l) texts).

(** [len(j)] *)
Definition len_of (j : json) : res Z := l ← iterate j; mret (Z.of_nat (length l)).

(** [needle in s] *)
Fixpoint contains_text (needle s : string) : bool :=
  startswith needle s || match s with EmptyString => false | String _ s' => contains_text needle s' end.

(** [needle in j] *)
Definition needle_in (needle : string) (j : json) : res bool :=
  match j with
  | JStr s => mret (contains_text needle s)
  | _ => l ← iterate j; mret (existsb (is_str needle) l)
  end.

(** [j.startswith(p)] *)
Definition starts_with (p : string) (j : json) : res bool :=
  match j with JStr s => mret (startswith p s) | _ => Err PyAttributeError end.

(** [re.fullmatch(r, j) is None] *)
Definition unmatched (r : regex) (j : json) : res bool :=
  match j with JStr s => mret (negb (full_match r s)) | _ => Err PyTypeError end.

(** [int(j)] *)
Definition int_of (j : json) : res Z :=
  match j with
  | JStr s => match py_int s with Some z => mret z | None => Err PyValueError end
  | JInt z => mret z
  | JBool b => mret (Z.b2z b)
  | JFloat => Err OutsideModel
  | _ => Err PyTypeError
  end.

(** [x == y] for values that are not containers: [True] is [1]. *)
Definition leaf_eq (x y : json) : res bool :=
  match x, y with
  | JNull, JNull => mret true
  | JStr s, JStr t => mret (bool_decide (s = t))
  | JInt a, JInt b => mret (a =? b)
  | JInt a, JBool b | JBool b, JInt a => mret (a =? Z.b2z b)
  | JBool a, JBool b => mret (Bool.eqb a b)
  | JFloat, (JFloat | JInt _ | JBool _) | (JInt _ | JBool _), JFloat => Err OutsideModel
  | JArr _, JArr _ | JObj _, JObj _ => Err OutsideModel
  | _, _ => mret false
  end.

(** A chain of [or]: the operands after a true one are not evaluated. *)
Fixpoint any_of (operands : list (res bool)) : res bool :=
  match operands with
  | [] => mret false
  | c :: operands => b ← c; if (b : bool) then mret true else any_of operands
  end.

(** [if a or b or ...: raise ConfigFailure(...)] *)
Definition reject (operands : list (res bool)) : res unit :=
  b ← any_of operands; if (b : bool) then Err (ToolError ConfigFailure) else mret tt.

Fixpoint check_each {A} (f : A → res unit) (l : list A) : res unit :=
  match l with [] => mret tt | x :: l => f x ;; check_each f l end.

(** [x == y] for two dictionaries. *)
Definition differs_in (y : list (string * json)) (entry : string * json) : res bool :=
  match item entry.1 y with
  | None => mret true
  | Some v => b ← leaf_eq entry.2 v; mret (negb b)
  end.
Definition dict_differs (x y : json) : res bool :=
  match x, y with
  | JObj x, JObj y =>
      if (length x =? length y)%nat then any_of (differs_in y <$> x) else mret true
  | _, _ => mret true
  end.

(** [json.loads(s)] for a text. *)
Definition json_loads_text (s : string) : res json :=
  match read_value (S (String.length s)) s with
  | Some (v, rest) => if bool_decide (skip_space rest = "") then mret v else Err PyValueError
  | None => Err PyValueError
  end.

(** [username], [password] of a split URL. *)
Definition userinfo (r : SplitResult) : option string * option string :=
  let '(info, have_info, _) := rpartition_on "@" (sr_netloc r) in
  if have_info then
    let '(username, have_password, password) := partition_on ":" info in
    (Some username, if have_password then Some password else None)
  else (None, None).

(** ** Services *)

Definition SERVICES : list string := ["garage"; "postgres"; "migrate"; "asset-store"; "fetcher"; "lifecycle"].
Definition APPLICATIONS : list string := ["asset-store"; "fetcher"; "migrate"; "lifecycle"].

Fixpoint rtimes (n : nat) (r : regex) : regex := match n with O => REmpty | S n => RSeq r (rtimes n r) end.

Definition is_hex_lower (c : ascii) : bool := is_digit c || ((97 <=? byte_of c) && (byte_of c <=? 102)).
Definition sha256_id : regex := RSeq (rtext "sha256:") (rtimes 64 (RChar is_hex_lower)).
Definition registry_image : regex := rseq [rplus (RChar (λ c, negb (is_space c))); rtext "@"; sha256_id].

(** [{"max-size": "10m", "max-file": "3"}] *)
Definition is_rotation (j : json) : bool :=
  match j with
  | JObj items =>
      (length items =? 2)%nat && from_option (is_str "10m") false (item "max-size" items) &&
      from_option (is_str "3") false (item "max-file" items)
  | _ => false
  end.

Definition not_str (s : string) (j : json) : res bool := mret (negb (is_str s j)).

(** The body of the loop over the services. *)
Definition check_service (entry : string * json) : res unit :=
  let '(name, service) := entry in
  image ← get_item "image" service (JStr "");
  unpinned ← unmatched registry_image image;
  unpinned_locally ← (if mem name APPLICATIONS then unmatched sha256_id image else mret true);
  reject [mret (unpinned && unpinned_locally)] ;;
  pull_policy ← get_item "pull_policy" service JNull;
  reject [mret (mem name APPLICATIONS && negb (is_str "never" pull_policy))] ;;
  reject ((λ key, limit ← get_item key service JNull; falsy limit) <$> ["mem_limit"; "cpus"; "pids_limit"]) ;;
  log ← get_item "logging" service (JObj []);
  reject [driver ← get_item "driver" log JNull; not_str "json-file" driver;
          options ← get_item "options" log JNull; mret (negb (is_rotation options))].

Definition check_unpublished (services : json) (name : string) : res unit :=
  service ← subscript name services;
  ports ← get_item "ports" service JNull;
  reject [truthy ports].

(** [ports[0]] of a value with one element. *)
Definition first_of (j : json) : res json :=
  match j with
  | JObj _ => Err PyKeyError
  | _ => l ← iterate j; match l with v :: _ => mret v | [] => Err PyIndexError end
  end.

Definition check_loopback (services : json) (name : string) : res unit :=
  service ← subscript name services;
  ports ← get_item "ports" service (JArr []);
  reject [n ← len_of ports; mret (negb (n =? 1));
          port ← first_of ports; host_ip ← get_item "host_ip" port JNull; not_str "127.0.0.1" host_ip] ;;
  environment ← subscript "environment" service;
  dev_mode ← get_item "ASSET_STORE_DEV_MODE" environment JNull;
  reject [not_str "0" dev_mode].

(** ** Settings *)

Definition FETCHER_SETTINGS : list (string * string) :=
  [("FETCHER_PILOT_MODE", "true"); ("FETCHER_SYNTHETIC", "false"); ("FETCHER_ALLOW_PRIVATE_HOSTS", "false");
   ("ASSET_STORE_BASE_URL", "http://asset-store:8000")].

Definition check_setting (environment : json) (setting : string * string) : res unit :=
  value ← get_item setting.1 environment JNull;
  reject [not_str setting.2 value].

Definition positive_int (j : json) : bool := match j with JInt z => 0 <? z | _ => false end.

Definition budgets_match (asset fetch : json) : res unit :=
  raw ← subscript "ASSET_STORE_CAPACITY_BYTES" asset;
  budgets ← match raw : json with JStr s => json_loads_text s | _ => Err PyTypeError end;
  all_buckets ← set_is ["cache"; "tmp"; "users"; "results"] budgets;
  bad ← (if (all_buckets : bool) then items ← dict_items budgets; mret (existsb (λ entry, negb (positive_int entry.2)) items)
         else mret true);
  (if (bad : bool) then Err PyValueError else mret tt) ;;
  upload_raw ← subscript "ASSET_STORE_MAX_UPLOAD_BYTES" asset;
  upload ← int_of upload_raw;
  fetch_raw ← subscript "FETCHER_HTTP_MAX_BYTES" fetch;
  limit ← int_of fetch_raw;
  if (upload : Z) =? limit then mret tt else Err PyValueError.

Definition check_budgets (asset fetch : json) : res unit :=
  match budgets_match asset fetch with
  | Err PyKeyError | Err PyValueError | Err PyTypeError => Err (ToolError ConfigFailure)
  | r => r
  end.

Definition check_lifecycle (services asset : json) : res unit :=
  worker ← subscript "lifecycle" services;
  profiles ← get_item "profiles" worker JNull;
  reject [mret (negb (is_list ["maintenance"] profiles));
          environment ← subscript "environment" worker; dict_differs environment asset].

Definition check_migration (services asset_store : json) : res unit :=
  depends_on ← get_item "depends_on" asset_store (JObj []);
  migrate ← get_item "migrate" depends_on (JObj []);
  condition ← get_item "condition" migrate JNull;
  reject [not_str "service_completed_successfully" condition] ;;
  migration ← subscript "migrate" services;
  command ← get_item "command" migration JNull;
  reject [mret (negb (is_list ["alembic"; "upgrade"; "head"] command))].

Definition check_images (services asset_store : json) : res unit :=
  app_image ← subscript "image" asset_store;
  reject ((λ name, service ← subscript name services; image ← subscript "image" service;
                   same ← leaf_eq image app_image; mret (negb same)) <$> ["fetcher"; "migrate"; "lifecycle"]).

(** ** Credentials *)

Fixpoint read_credentials (entries : list string) (result : ServiceCredentialStore) : res ServiceCredentialStore :=
  match entries with
  | [] => mret result
  | entry :: entries =>
      let '(service_id, sep, secret) := partition_on ":" entry in
      if negb sep || bool_decide (is_Some (result !! service_id)) || (String.length secret <? 32)%nat ||
         negb (all_chars (λ c, negb (is_space c)) secret) then Err (ToolError ConfigFailure)
      else if contains_text "REPLACE" secret || contains_text "dev-secret" secret then Err (ToolError ConfigFailure)
      else read_credentials entries (<[service_id := secret]> result)
  end.

Definition credentials (raw : json) : res ServiceCredentialStore :=
  match raw with JStr s => read_credentials (split_on "," s) ∅ | _ => Err PyAttributeError end.

Definition pilot_services : gset string := {["fetcher"; "task-api"; "admin"]}.
Definition dispatchers : gset string := {["task-api"; "admin"]}.

Definition check_credentials (asset fetch : json) : res unit :=
  storage_raw ← get_item ENV_VAR asset (JStr "");
  storage_creds ← credentials storage_raw;
  dispatch_raw ← get_item ENV_VAR fetch (JStr "");
  dispatch_creds ← credentials dispatch_raw;
  reject [mret (negb (bool_decide (pilot_services ⊆ dom storage_creds ∧ dom storage_creds ⊆ pilot_services ∪ {["worker"]})));
          mret (bool_decide (dom dispatch_creds ≠ dispatchers))] ;;
  secret ← get_item "FETCHER_SERVICE_SECRET" fetch JNull;
  reject [match storage_creds !! "fetcher" with Some s => not_str s secret | None => Err PyKeyError end;
          mret (negb (forallb (λ '(k, s), bool_decide (storage_creds !! k = Some s)) (map_to_list dispatch_creds)))] ;;
  reject [mret (negb (size (list_to_set (map_to_list storage_creds).*2 : gset string) =? size storage_creds)%nat)].

(** [urlsplit(j)]: of a value without text, the empty split. *)
Definition urlsplit_of (j : json) : res SplitResult :=
  match j with
  | JStr s => urlsplit s ""
  | JArr _ | JObj _ => Err PyTypeError
  | _ => b ← truthy j; if (b : bool) then Err PyAttributeError else mret (mk_split "" "" "" "" "")
  end.

Definition check_database (services asset : json) : res unit :=
  service ← subscript "postgres" services;
  postgres ← subscript "environment" service;
  password ← get_item "POSTGRES_PASSWORD" postgres (JStr "");
  raw ← get_item "ASSET_STORE_PG_DSN" asset (JStr "");
  dsn ← urlsplit_of raw;
  reject [n ← len_of password; mret (n <? 32);
          needle_in "REPLACE" password;
          mret (bool_decide (hostname dsn ≠ Some "postgres"));
          mret (bool_decide ((userinfo dsn).1 ≠ Some "asset"));
          mret (bool_decide (sr_path dsn ≠ "/asset_store"));
          mret (match unquote (default "" (userinfo dsn).2) with Some s => negb (is_str s password) | None => true end)].

Definition check_s3_key (asset : json) (key : string) : res unit :=
  value ← get_item key asset (JStr "");
  reject [falsy value; needle_in "REPLACE" value; starts_with "GKa55e700000" value].

(** ** The model *)

Definition validate_model (model : json) : res unit :=
  services ← get_item "services" model (JObj []);
  expected ← set_is SERVICES services;
  reject [mret (negb expected)] ;;
  entries ← dict_items services;
  check_each check_service entries ;;
  check_each (check_unpublished services) ["garage"; "postgres"; "migrate"; "lifecycle"] ;;
  check_each (check_loopback services) ["asset-store"; "fetcher"] ;;
  fetcher ← subscript "fetcher" services;
  fetch ← subscript "environment" fetcher;
  check_each (check_setting fetch) FETCHER_SETTINGS ;;
  asset_store ← subscript "asset-store" services;
  asset ← subscript "environment" asset_store;
  check_setting asset ("ASSET_STORE_S3_ENDPOINT", "http://garage:3900") ;;
  check_budgets asset fetch ;;
  check_lifecycle services asset ;;
  check_migration services asset_store ;;
  check_images services asset_store ;;
  check_credentials asset fetch ;;
  check_database services asset ;;
  check_each (check_s3_key asset) ["ASSET_STORE_S3_ACCESS_KEY"; "ASSET_STORE_S3_SECRET_KEY"].

Section Host.
(** The mode of a regular file, [None] for anything else; the text of a file, [None]
    when it is not UTF-8; the output of [docker compose config], with the environments
    resolved or not, [None] when it fails; [tomllib.loads]. *)
Context (file_mode : string → option Z) (read_text : string → option string)
  (compose_config : string → bool → option string) (toml_loads : string → option (list (string * json))).

(** [not path.is_file() or path.stat().st_mode & 0o077] *)
Definition unprotected (path : string) : bool :=
  match file_mode path with Some mode => negb (Z.land mode 63 =? 0) | None => true end.

(** [Path(j)] *)
Definition path_of (j : json) : res string := match j with JStr s => mret s | _ => Err PyTypeError end.

Definition check_env_file (entry : json) : res unit :=
  raw ← subscript "path" entry;
  path ← path_of raw;
  reject [mret (negb (startswith "/" path)); mret (unprotected path)].

Definition check_env_files (service : json) : res unit :=
  env_file ← get_item "env_file" service (JArr []);
  entries ← iterate env_file;
  check_each check_env_file entries.

(** The first volume mounted as the configuration of Garage. *)
Fixpoint garage_volume (volumes : list json) : res (option json) :=
  match volumes with
  | [] => mret None
  | v :: volumes =>
      target ← get_item "target" v JNull;
      if is_str "/etc/garage.toml" target then mret (Some v) else garage_volume volumes
  end.

Definition DEV_RPC_SECRET : string := "1799bccfd7411eddcf9ebd316bc1f5287ad12a68094e1c6ac6abde7e6feae1ec".

Definition check_garage (config : json) : res unit :=
  rpc ← get_item "rpc_secret" config (JStr "");
  admin ← get_item "admin" config (JObj []);
  token ← get_item "admin_token" admin (JStr "");
  reject [unmatched (rtimes 64 (RChar is_hex_lower)) rpc;
          n ← len_of token; mret (n <? 32);
          needle_in "REPLACE" token; starts_with "dev-" token; mret (is_str DEV_RPC_SECRET rpc)] ;;
  replication ← get_item "replication_factor" config JNull;
  rpc_addr ← get_item "rpc_public_addr" config JNull;
  reject [same ← leaf_eq replication (JInt 1); mret (negb same); not_str "127.0.0.1:3901" rpc_addr].

Definition load_model (env_file : string) : res json :=
  reject [mret (unprotected env_file)] ;;
  output ← match compose_config env_file true with Some text => mret text | None => Err (ToolError ConfigFailure) end;
  model ← json_loads_text output;
  paths ← match compose_config env_file false with Some text => mret text | None => Err (ToolError ConfigFailure) end;
  source ← json_loads_text paths;
  services ← subscript "services" source;
  entries ← dict_items services;
  check_each (λ entry, check_env_files entry.2) entries ;;
  service ← subscript "garage" services;
  mounted ← get_item "volumes" service (JArr []);
  volumes ← iterate mounted;
  garage ← garage_volume volumes;
  garage ← match garage with Some v => mret v | None => Err (ToolError ConfigFailure) end;
  raw ← subscript "source" garage;
  garage_path ← path_of raw;
  reject [mret (unprotected garage_path)] ;;
  config ← match read_text garage_path ≫= toml_loads with Some c => mret (JObj c) | None => Err PyValueError end;
  check_garage config ;;
  mret model.

(** The exit status of [main]; the exceptions it does not catch. *)
Definition preflight (env_file : string) : res Z :=
  match (model ← load_model env_file; validate_model model) with
  | Ok _ => mret 0
  | Err (ToolError ConfigFailure) | Err PyValueError => mret 1
  | Err e => Err e
  end.
End Host.
