(* ===== verification/PreflightProps.v ===== *)
(** * What a configuration that passes guarantees

    The environments of the two services of an accepted configuration: both read the
    credentials the preflight read, the fetcher authenticates, a dispatcher of the
    fetcher is a service of the asset store, and the backends are the private ones. *)

From S2P Require Import Prelude Errors Python Paths Capabilities Codec ObjectStore Admin Guard Retention ServiceIdentity AdminQuery IpAddress Urls Normalize Rules RuleConfig Regex Admission App Schemas Client Transport Fetcher EnsureUrl PilotPolicy Pilot FetcherApp Preflight.

(** The environment a container is started with; a variable without a text is unset. *)
Definition process_env (j : json) : gmap string string :=
  match j with
  | JObj items => foldr (λ '(k, v) env, match v with JStr s => <[k := s]> env | _ => delete k env end) ∅ items
  | _ => ∅
  end.

(** The environment of a service in a configuration. *)
Definition service_env (name : string) (model : json) : res json :=
  services ← get_item "services" model (JObj []); service ← subscript name services; subscript "environment" service.

(** ** An accepted configuration

    That of the tests, as Compose renders it. *)

Definition repeat_text (n : nat) (c : ascii) : string := String.string_of_list_ascii (repeat c n).
Definition quoted (s : string) : string := String (chr 34) (s +:+ String (chr 34) "").

Definition demo_image : string := "example/asset-store@sha256:" +:+ repeat_text 64 "1".
Definition demo_limits : list (string * json) :=
  [("mem_limit", JStr "536870912"); ("cpus", JInt 1); ("pids_limit", JInt 128);
   ("logging", JObj [("driver", JStr "json-file"); ("options", JObj [("max-file", JStr "3"); ("max-size", JStr "10m")])])].
Definition demo_application : list (string * json) := [("image", JStr demo_image); ("pull_policy", JStr "never")].
Definition demo_ports (published : string) : list (string * json) :=
  [("ports", JArr [JObj [("mode", JStr "ingress"); ("host_ip", JStr "127.0.0.1"); ("published", JStr published)]])].
Definition demo_budgets (results : string) : string :=
  "{" +:+ quoted "cache" +:+ ":1073741824," +:+ quoted "tmp" +:+ ":67108864," +:+ quoted "users" +:+ ":1048576," +:+
  quoted "results" +:+ ":" +:+ results +:+ "}".

Definition demo_password : string := repeat_text 64 "a".
Definition demo_storage_credentials : list (string * string) :=
  [("fetcher", repeat_text 64 "b"); ("task-api", repeat_text 64 "c"); ("admin", repeat_text 64 "d")].
Definition demo_dispatch_credentials : list (string * string) :=
  [("task-api", repeat_text 64 "c"); ("admin", repeat_text 64 "d")].

Definition demo_asset_env (upload_cap : string) : json := JObj [
  ("ASSET_STORE_DEV_MODE", JStr "0");
  ("ASSET_STORE_S3_ENDPOINT", JStr "http://garage:3900");
  ("ASSET_STORE_S3_REGION", JStr "garage");
  ("ASSET_STORE_MAX_UPLOAD_BYTES", JStr upload_cap);
  ("ASSET_STORE_CAPACITY_BYTES", JStr (demo_budgets "1048576"));
  ("ASSET_STORE_PG_DSN", JStr ("postgresql://asset:" +:+ demo_password +:+ "@postgres:5432/asset_store"));
  ("ASSET_STORE_S3_ACCESS_KEY", JStr "GK012345678901234567890123");
  ("ASSET_STORE_S3_SECRET_KEY", JStr (repeat_text 64 "e"));
  (ENV_VAR, JStr (credentials_text demo_storage_credentials))].
Definition demo_fetch_env (upload_cap : string) : json := JObj [
  ("ASSET_STORE_DEV_MODE", JStr "0");
  ("ASSET_STORE_BASE_URL", JStr "http://asset-store:8000");
  ("FETCHER_PILOT_MODE", JStr "true");
  ("FETCHER_SYNTHETIC", JStr "false");
  ("FETCHER_ALLOW_PRIVATE_HOSTS", JStr "false");
  ("FETCHER_HTTP_MAX_BYTES", JStr upload_cap);
  ("FETCHER_SERVICE_SECRET", JStr (repeat_text 64 "b"));
  (ENV_VAR, JStr (credentials_text demo_dispatch_credentials))].

Definition demo_model (upload_cap : string) : json := JObj [("services", JObj [
  ("garage", JObj (("image", JStr ("dxflrs/garage@sha256:" +:+ repeat_text 64 "2")) :: demo_limits));
  ("postgres", JObj (("image", JStr ("postgres@sha256:" +:+ repeat_text 64 "3")) :: demo_limits ++
     [("environment", JObj [("POSTGRES_PASSWORD", JStr demo_password)])]));
  ("migrate", JObj (demo_application ++ demo_limits ++
     [("command", JArr [JStr "alembic"; JStr "upgrade"; JStr "head"]); ("environment", demo_asset_env upload_cap)]));
  ("asset-store", JObj (demo_application ++ demo_limits ++ demo_ports "18000" ++
     [("environment", demo_asset_env upload_cap);
      ("depends_on", JObj [("migrate", JObj [("condition", JStr "service_completed_successfully")])])]));
  ("fetcher", JObj (demo_application ++ demo_limits ++ demo_ports "18001" ++ [("environment", demo_fetch_env upload_cap)]));
  ("lifecycle", JObj (demo_application ++ demo_limits ++
     [("profiles", JArr [JStr "maintenance"]); ("environment", demo_asset_env upload_cap)]))])].

Example demo_accepted : validate_model (demo_model "52428800") = Ok tt.
Proof. vm_compute. reflexivity. Qed.

(** ** Running the checks *)

Lemma reject_Ok operands : reject operands = Ok tt → Forall (λ c, c = Ok false) operands.
Proof.
  unfold reject. intros (b & Hb & H)%res_bind_Ok. destruct b; [done|]. clear H. revert Hb.
  induction operands as [|c operands IH]; [by constructor|]. cbn. intros (b & -> & H)%res_bind_Ok.
  destruct b; [done|]. constructor; [done|by apply IH].
Qed.

Lemma check_each_Ok {A} (f : A → res unit) l : check_each f l = Ok tt → Forall (λ x, f x = Ok tt) l.
Proof.
  induction l as [|x l IH]; [by constructor|]. cbn. intros ([] & Hx & H)%res_bind_Ok. constructor; [done|by apply IH].
Qed.

Lemma not_str_false s j : not_str s j = Ok false → j = JStr s.
Proof. unfold not_str, is_str. intros [= H%negb_false_iff]. destruct j; try done. by apply bool_decide_eq_true in H as ->. Qed.

Lemma process_env_lookup items key :
  process_env (JObj items) !! key = match item key items with Some (JStr s) => Some s | _ => None end.
Proof.
  induction items as [|[k v] items IH]; [done|]. cbn in *. destruct (decide (k = key)) as [->|Hne].
  - destruct v; by rewrite ?lookup_insert_eq, ?lookup_delete_eq.
  - rewrite <- IH. destruct v; by rewrite ?lookup_insert_ne, ?lookup_delete_ne.
Qed.

(** A setting that is a text, and not the text it has when it is missing. *)
Lemma setting_text key j d s : get_item key j d = Ok (JStr s) → d ≠ JStr s → process_env j !! key = Some s.
Proof.
  destruct j as [| | | | | |items]; try done. unfold get_item. intros [= H] Hne. rewrite process_env_lookup.
  destruct (item key items) as [v|]; cbn in H; [by subst v|done].
Qed.

Lemma check_setting_text key expected j : check_setting j (key, expected) = Ok tt → process_env j !! key = Some expected.
Proof.
  unfold check_setting. cbn [fst snd]. intros (value & Hv & [Hs _]%reject_Ok%Forall_cons)%res_bind_Ok.
  apply not_str_false in Hs as ->. by eapply setting_text.
Qed.

(** ** Credentials *)

(** An entry that is read. *)
Definition read_entry (it : string * string) : Prop :=
  contains_char ":" it.1 = false ∧ (32 <= String.length it.2)%nat ∧ all_chars (λ c, negb (is_space c)) it.2 = true ∧
  contains_text "dev-secret" it.2 = false.

Lemma read_credentials_Ok entries result store :
  read_credentials entries result = Ok store →
  ∃ items, entries = entry_text <$> items ∧ NoDup items.*1 ∧ (∀ k, k ∈ items.*1 → result !! k = None) ∧
    Forall read_entry items ∧ store = list_to_map items ∪ result.
Proof.
  revert result. induction entries as [|entry entries IH]; intros result; cbn.
  { intros [= <-]. exists []. split_and!; [done|apply NoDup_nil_2|by intros k ?%elem_of_nil|done|cbn; by rewrite map_empty_union]. }
  destruct (partition_on ":" entry) as [[id sep] secret] eqn:Hp.
  destruct (_ || _ || _ || _) eqn:Hb; [done|]. destruct (contains_text "REPLACE" secret || _) eqn:Hd; [done|].
  apply orb_false_iff in Hb as [[[Hsep%negb_false_iff Hnew%bool_decide_eq_false]%orb_false_iff Hlen]%orb_false_iff Hsp%negb_false_iff].
  apply orb_false_iff in Hd as [_ Hd]. subst sep. apply partition_on_found in Hp as [-> Hid].
  intros (items & -> & Hnd & Hfresh & Hread & ->)%IH. apply eq_None_not_Some in Hnew.
  assert (Hid' : id ∉ items.*1) by (intros Hin; apply Hfresh in Hin; by rewrite lookup_insert_eq in Hin).
  exists ((id, secret) :: items). split_and!; [done|by constructor| |by constructor; [split_and!; [done|by apply Nat.ltb_ge|done|done]|]|].
  - intros k [->|Hin]%elem_of_cons; [done|]. apply Hfresh in Hin. destruct (decide (id = k)) as [->|Hne]; [done|].
    by rewrite lookup_insert_ne in Hin.
  - cbn. rewrite <- insert_union_l. symmetry. rewrite <- (insert_union_r _ _ _ _ (not_elem_of_list_to_map_1 _ _ Hid')). done.
Qed.

(** The names the preflight lets a store have are trimmed. *)
Lemma service_clean k : k ∈ pilot_services ∪ {["worker"]} → clean k ∧ contains_char ":" k = false ∧ contains_char "," k = false.
Proof. unfold pilot_services. rewrite !elem_of_union, !elem_of_singleton. by intros [[[-> | ->] | ->] | ->]. Qed.

(** What the preflight reads is what the service reads. *)
Lemma credentials_from_env (env : gmap string string) raw store :
  credentials raw = Ok store → dom store ⊆ pilot_services ∪ {["worker"]} →
  (∀ s, raw = JStr s → s ≠ "" → env !! ENV_VAR = Some s) →
  from_env env = Ok store ∧ ∀ k s, store !! k = Some s → (32 <= String.length s)%nat ∧ contains_text "dev-secret" s = false.
Proof.
  destruct raw as [| | | |raw| |]; try done. cbn [credentials]. intros Hread Hdom Henv.
  apply read_credentials_Ok in Hread as (items & Hitems & Hnd & _ & Hread & ->). rewrite map_union_empty in Hdom |- *.
  assert (Hne : items ≠ []) by (intros ->; by apply (split_on_nonnil "," raw)).
  assert (Hraw : raw = credentials_text items) by (unfold credentials_text; by rewrite <- Hitems, join_split).
  assert (Hvalid : Forall valid_entry items).
  { apply Forall_forall. intros it Hin. rewrite Forall_forall in Hread. destruct (Hread it Hin) as (Hcol & Hlen & Hsp & _).
    assert (Hkey : it.1 ∈ pilot_services ∪ {["worker"]}).
    { apply Hdom, elem_of_dom. exists it.2. apply elem_of_list_to_map; [done|]. by destruct it. }
    destruct (service_clean _ Hkey) as (Hc & _ & Hcomma). split; [done| |done|split; [done|]].
    - split; [by intros Hs; rewrite Hs in Hlen; cbn in Hlen; lia|by apply strip_by_none].
    - pose proof (split_on_segments "," raw) as Hseg. rewrite Hitems, Forall_fmap, Forall_forall in Hseg.
      specialize (Hseg it Hin). cbn in Hseg. unfold entry_text in Hseg. rewrite !contains_char_app in Hseg.
      by apply orb_false_iff in Hseg as [_ [_ Hseg]%orb_false_iff]. }
  split.
  - apply from_env_roundtrip; [done..|]. rewrite (Henv raw); [by rewrite Hraw|done|]. rewrite Hraw. by apply clean_text.
  - intros k s Hk. rewrite map_union_empty in Hk. apply elem_of_list_to_map_2 in Hk. rewrite Forall_forall in Hread. by destruct (Hread _ Hk) as (_ & ? & _ & ?).
Qed.

Lemma size_NoDup (l : list string) : size (list_to_set l : gset string) = length l → NoDup l.
Proof.
  assert (Hle : ∀ l : list string, (size (list_to_set l : gset string) <= length l)%nat).
  { clear. induction l as [|x l IH]; [done|]. cbn. rewrite size_union_alt, size_singleton.
    assert (size (list_to_set l ∖ {[x]} : gset string) <= size (list_to_set l : gset string))%nat by (apply subseteq_size; set_solver). lia. }
  induction l as [|x l IH]; [constructor|]. cbn. destruct (decide (x ∈ l)) as [Hin|Hni].
  - rewrite (subseteq_union_1_L {[x]} (list_to_set l)) by set_solver. pose proof (Hle l). lia.
  - rewrite size_union, size_singleton by set_solver. intros [= H]. constructor; auto.
Qed.

Lemma check_credentials_Ok asset fetch :
  check_credentials asset fetch = Ok tt →
  ∃ storage dispatch secret, from_env (process_env asset) = Ok storage ∧ from_env (process_env fetch) = Ok dispatch ∧
    dispatch ⊆ storage ∧ dom dispatch = dispatchers ∧ pilot_services ⊆ dom storage ∧ dom storage ⊆ pilot_services ∪ {["worker"]} ∧
    (∀ i j s, storage !! i = Some s → storage !! j = Some s → i = j) ∧
    (∀ i s, storage !! i = Some s → (32 <= String.length s)%nat ∧ contains_text "dev-secret" s = false) ∧
    process_env fetch !! "FETCHER_SERVICE_SECRET" = Some secret ∧ storage !! "fetcher" = Some secret.
Proof.
  unfold check_credentials.
  intros (sraw & Hsraw & (storage & Hs & (draw & Hdraw & (dispatch & Hd & H)%res_bind_Ok)%res_bind_Ok)%res_bind_Ok)%res_bind_Ok.
  apply res_bind_Ok in H as ([] & [Hsub [Hdom _]%Forall_cons]%reject_Ok%Forall_cons & H).
  injection Hsub as [Hsub1 Hsub2]%negb_false_iff%bool_decide_eq_true. injection Hdom as Hdom%bool_decide_eq_false.
  apply dec_stable in Hdom. apply res_bind_Ok in H as (value & Hvalue & H).
  apply res_bind_Ok in H as ([] & [Hsec [Hin _]%Forall_cons]%reject_Ok%Forall_cons & [Hsize _]%reject_Ok%Forall_cons).
  assert (Hdisp : dispatch ⊆ storage).
  { injection Hin as Hin%negb_false_iff. apply map_subseteq_spec. intros k s Hk%elem_of_map_to_list.
    rewrite forallb_forall in Hin. specialize (Hin (k, s)). apply bool_decide_eq_true in Hin; [done|]. by apply list_elem_of_In. }
  destruct (storage !! "fetcher") as [secret|] eqn:Hfetcher; [|done]. apply not_str_false in Hsec as ->.
  assert (Hdom' : dom dispatch ⊆ pilot_services ∪ {["worker"]}) by (rewrite Hdom; unfold dispatchers, pilot_services; set_solver).
  assert (Htext : ∀ j raw, get_item ENV_VAR j (JStr "") = Ok raw → ∀ s, raw = JStr s → s ≠ "" → process_env j !! ENV_VAR = Some s).
  { intros j raw Hraw s -> Hne. eapply setting_text; [done|]. by intros [= Hempty]. }
  destruct (credentials_from_env _ _ _ Hs Hsub2 (Htext _ _ Hsraw)) as [Hfrom Hlong].
  destruct (credentials_from_env _ _ _ Hd Hdom' (Htext _ _ Hdraw)) as [Hfrom' _].
  exists storage, dispatch, secret. split_and!; try done; [|by eapply setting_text].
  injection Hsize as Hsize%negb_false_iff%Nat.eqb_eq. intros i j s Hi Hj.
  assert (Hnd : NoDup (map_to_list storage).*2).
  { apply size_NoDup. rewrite length_fmap, length_map_to_list. exact Hsize. }
  apply elem_of_map_to_list in Hi, Hj. apply list_elem_of_lookup in Hi as [x Hx], Hj as [y Hy].
  assert (x = y) as ->.
  { eapply NoDup_lookup; [exact Hnd|rewrite list_lookup_fmap, Hx; done|]. by rewrite list_lookup_fmap, Hy. }
  congruence.
Qed.

(** ** Backends, budgets and the worker *)

Lemma check_s3_key_Ok asset key : check_s3_key asset key = Ok tt → ∃ s, s ≠ "" ∧ process_env asset !! key = Some s.
Proof.
  unfold check_s3_key. intros (value & Hv & [Hf [_ [Hst _]%Forall_cons]%Forall_cons]%reject_Ok%Forall_cons)%res_bind_Ok.
  destruct value as [| | | |s| |]; try done. injection Hf as Hf%negb_false_iff%negb_true_iff%bool_decide_eq_false.
  exists s. split; [done|]. eapply setting_text; [done|]. by intros [= <-].
Qed.

Lemma check_database_Ok services asset :
  check_database services asset = Ok tt →
  ∃ service postgres dsn parts password, subscript "postgres" services = Ok service ∧ subscript "environment" service = Ok postgres ∧
    process_env asset !! "ASSET_STORE_PG_DSN" = Some dsn ∧ dsn ≠ "" ∧ urlsplit dsn "" = Ok parts ∧
    hostname parts = Some "postgres" ∧ process_env postgres !! "POSTGRES_PASSWORD" = Some password ∧
    unquote (default "" (userinfo parts).2) = Some password.
Proof.
  unfold check_database.
  intros (service & Hservice & (postgres & Hpg & (password & Hpw & (raw & Hraw & (parts & Hparts & H)%res_bind_Ok)%res_bind_Ok)%res_bind_Ok)%res_bind_Ok)%res_bind_Ok.
  apply reject_Ok, Forall_cons in H as [Hlen [_ [Hhost [_ [_ [Hpass _]%Forall_cons]%Forall_cons]%Forall_cons]%Forall_cons]%Forall_cons].
  injection Hhost as Hhost%bool_decide_eq_false. apply dec_stable in Hhost.
  destruct (unquote _) as [s|] eqn:Hun; [|done]. injection Hpass as Hpass%negb_false_iff.
  destruct password as [| | | |t| |]; try done. apply bool_decide_eq_true in Hpass as ->.
  assert (Hdsn : ∃ dsn, raw = JStr dsn ∧ dsn ≠ "" ∧ urlsplit dsn "" = Ok parts).
  { destruct raw as [| | | |dsn| |]; cbn in Hparts; try done.
    - by injection Hparts as <-.
    - destruct b; [done|]. by injection Hparts as <-.
    - destruct (negb (z =? 0)); [done|]. by injection Hparts as <-.
    - exists dsn. split_and!; [done| |done]. intros ->. vm_compute in Hparts. by injection Hparts as <-. }
  destruct Hdsn as (dsn & -> & Hne & Hsplit).
  exists service, postgres, dsn, parts, s. split_and!; try done; (eapply setting_text; [done|]); intros [= <-]; [done|].
  apply res_bind_Ok in Hlen as (n & Hn & Hlen). cbn in Hn. injection Hn as <-. by vm_compute in Hlen.
Qed.

Lemma is_str_true s j : is_str s j = true → j = JStr s.
Proof. destruct j; try done. by intros ->%bool_decide_eq_true. Qed.

Lemma item_key k items : k ∈ items.*1 → is_Some (item k items : option json).
Proof.
  induction items as [|[k' v] items IH]; [by intros ?%elem_of_nil|]. cbn. destruct (decide (k' = k)); [by eexists|].
  intros [->|Hin]%elem_of_cons; [done|by apply IH].
Qed.

Lemma item_in k v items : item k items = Some v → ((k, v) : string * json) ∈ items.
Proof.
  induction items as [|[k' v'] items IH]; [done|]. cbn. destruct (decide (k' = k)) as [->|]; [intros [= ->]; by left|].
  intros H%IH. by right.
Qed.

(** The keys of a dictionary are these. *)
Lemma set_is_keys texts items :
  set_is texts (JObj items) = Ok true → (∀ k, k ∈ items.*1 → k ∈ texts) ∧ (∀ k, k ∈ texts → is_Some (item k items)).
Proof.
  unfold set_is. cbn [iterate mbind res_bind mret res_ret]. destruct (existsb unhashable _); [done|].
  intros [= [Hin Hcover]%andb_prop]. rewrite forallb_forall in Hin, Hcover. split.
  - intros k Hk. assert (Hk' : In (JStr k) (JStr <$> items.*1)) by (by apply list_elem_of_In, list_elem_of_fmap_2).
    apply Hin, existsb_exists in Hk' as (s & Hs & [= <-]%is_str_true). by apply list_elem_of_In.
  - intros k Hk%list_elem_of_In%Hcover. apply existsb_exists in Hk as (x & Hx & ->%is_str_true).
    apply list_elem_of_In, list_elem_of_fmap in Hx as (k' & [= <-] & Hx). by apply item_key.
Qed.

Lemma forallb_negb_existsb {A} (p q : A → bool) l :
  (∀ x, x ∈ l → q x = false → p x = true) → existsb q l = false → forallb p l = true.
Proof.
  intros Hpq Hq. apply forallb_forall. intros x Hx. apply Hpq; [by apply list_elem_of_In|].
  destruct (q x) eqn:Hqx; [|done]. assert (existsb q l = true) by (apply existsb_exists; by exists x). congruence.
Qed.

(** The four buckets have budgets the store reads. *)
Lemma check_budgets_Ok asset fetch :
  check_budgets asset fetch = Ok tt →
  ∃ text items, subscript "ASSET_STORE_CAPACITY_BYTES" asset = Ok (JStr text) ∧ json_loads_text text = Ok (JObj items) ∧
    forallb valid_capacity_item items = true ∧ (∀ b, b ∈ ["cache"; "tmp"; "users"; "results"] → is_Some (item b items)).
Proof.
  unfold check_budgets. intros H.
  assert (Hok : budgets_match asset fetch = Ok tt) by (by destruct (budgets_match asset fetch) as [[]|[]]).
  clear H. unfold budgets_match in Hok. apply res_bind_Ok in Hok as (raw & Hraw & (budgets & Hb & (all & Hall & H)%res_bind_Ok)%res_bind_Ok).
  apply res_bind_Ok in H as (bad & Hbad & ([] & Hnot & _)%res_bind_Ok). destruct bad; [done|]. clear Hnot.
  destruct raw as [| | | |text| |]; try done. destruct all; [|done].
  apply res_bind_Ok in Hbad as (items & Hitems & [= Hbad]). destruct budgets as [| | | | | |items']; try done.
  injection Hitems as ->. apply set_is_keys in Hall as [Hin Hcover]. exists text, items. split_and!; [done|done| |done].
  revert Hbad. apply forallb_negb_existsb. intros [k v] Hkv Hv%negb_false_iff. unfold valid_capacity_item. cbn [fst snd] in *.
  assert (Hk : k ∈ ["cache"; "tmp"; "users"; "results"]) by (apply Hin, list_elem_of_fmap; by exists (k, v)).
  apply andb_true_intro. split; [|done]. apply mem_true. revert Hk. unfold STORAGE_BUCKETS. set_solver.
Qed.

(** Equal environments, whose keys are distinct, are the same to a process. *)
Lemma leaf_eq_text x y : leaf_eq x y = Ok true → ∀ s, x = JStr s ↔ y = JStr s.
Proof. destruct x, y; try done; cbn; intros [= H] s'; try naive_solver. apply bool_decide_eq_true in H as ->. done. Qed.

Lemma any_of_false operands : any_of operands = Ok false → Forall (λ c, c = Ok false) operands.
Proof. intros H. apply reject_Ok. unfold reject. by rewrite H. Qed.

Lemma dict_same items asset :
  dict_differs (JObj items) asset = Ok false → NoDup items.*1 → process_env (JObj items) = process_env asset.
Proof.
  destruct asset as [| | | | | |items']; try done. cbn [dict_differs]. destruct (_ =? _)%nat eqn:Hlen; [|done].
  apply Nat.eqb_eq in Hlen. intros Hall%any_of_false Hnd. rewrite Forall_fmap, Forall_forall in Hall.
  assert (Heq : ∀ k v, item k items = Some v → ∃ v', item k items' = Some v' ∧ leaf_eq v v' = Ok true).
  { intros k v Hk%item_in. specialize (Hall _ Hk). unfold compose, differs_in in Hall. cbn [fst snd] in Hall.
    destruct (item k items') as [v'|]; [|done]. exists v'. split; [done|].
    apply res_bind_Ok in Hall as (b & Hb & [= Hn%negb_false_iff]). by rewrite Hb, Hn. }
  assert (Hsub : items.*1 ⊆ items'.*1).
  { intros k [v Hk]%item_key. destruct (Heq k v Hk) as (v' & Hk'%item_in & _). apply list_elem_of_fmap. by exists (k, v'). }
  apply map_eq. intros k. rewrite !process_env_lookup. destruct (item k items) as [v|] eqn:Hk.
  - destruct (Heq k v Hk) as (v' & -> & Hv). pose proof (leaf_eq_text _ _ Hv) as Ht.
    destruct v, v'; try done; try (by destruct (proj1 (Ht _) eq_refl)); try (by destruct (proj2 (Ht _) eq_refl)).
    by injection (proj1 (Ht _) eq_refl) as ->.
  - destruct (item k items') as [v'|] eqn:Hk'; [|done]. exfalso.
    assert (Hin : k ∈ items.*1); [|apply item_key in Hin as [v Hv]; congruence].
    apply item_in in Hk'. assert (Hkey : k ∈ items'.*1) by (apply list_elem_of_fmap; by exists (k, v')).
    apply list_elem_of_In. apply list_elem_of_In in Hkey. revert k Hk Hkey Hk'. intros k _ Hkey _. revert k Hkey.
    apply (NoDup_length_incl (l:=items.*1)).
    + by apply NoDup_ListNoDup.
    + rewrite !length_fmap. lia.
    + intros k Hk. apply list_elem_of_In, Hsub. by apply list_elem_of_In.
Qed.

Lemma check_lifecycle_Ok services asset :
  check_lifecycle services asset = Ok tt →
  ∃ worker environment, subscript "lifecycle" services = Ok worker ∧ subscript "environment" worker = Ok environment ∧
    dict_differs environment asset = Ok false.
Proof.
  unfold check_lifecycle. intros (worker & Hw & (profiles & _ & [_ [H _]%Forall_cons]%reject_Ok%Forall_cons)%res_bind_Ok)%res_bind_Ok.
  apply res_bind_Ok in H as (environment & He & H). by exists worker, environment.
Qed.

Lemma service_env_eq name model services service environment :
  get_item "services" model (JObj []) = Ok services → subscript name services = Ok service →
  subscript "environment" service = Ok environment → service_env name model = Ok environment.
Proof. intros H1 H2 H3. unfold service_env. rewrite H1. cbn [mbind res_bind]. rewrite H2. exact H3. Qed.

Lemma subscript_text key j s : subscript key j = Ok (JStr s) → process_env j !! key = Some s.
Proof.
  destruct j as [| | | | | |items]; try done. unfold subscript. rewrite process_env_lookup.
  destruct (item key items); [by intros [= ->]|done].
Qed.

(** What the sequence of checks has established. *)
Record accepted (model asset fetch postgres : json) : Prop := {
  ac_asset : service_env "asset-store" model = Ok asset;
  ac_fetch : service_env "fetcher" model = Ok fetch;
  ac_postgres : service_env "postgres" model = Ok postgres;
  ac_dev_mode : process_env fetch !! "ASSET_STORE_DEV_MODE" = Some "0";
  ac_settings : ∀ key expected, (key, expected) ∈ FETCHER_SETTINGS → process_env fetch !! key = Some expected;
  ac_endpoint : process_env asset !! "ASSET_STORE_S3_ENDPOINT" = Some "http://garage:3900";
  ac_budgets : check_budgets asset fetch = Ok tt;
  ac_credentials : check_credentials asset fetch = Ok tt;
  ac_database : ∃ dsn parts password, process_env asset !! "ASSET_STORE_PG_DSN" = Some dsn ∧ dsn ≠ "" ∧ urlsplit dsn "" = Ok parts ∧
    hostname parts = Some "postgres" ∧ process_env postgres !! "POSTGRES_PASSWORD" = Some password ∧
    unquote (default "" (userinfo parts).2) = Some password;
  ac_keys : ∀ key, key ∈ ["ASSET_STORE_S3_ACCESS_KEY"; "ASSET_STORE_S3_SECRET_KEY"] →
    ∃ s, s ≠ "" ∧ process_env asset !! key = Some s;
  ac_lifecycle : ∃ worker, service_env "lifecycle" model = Ok worker ∧ dict_differs worker asset = Ok false
}.

Lemma check_loopback_env services name :
  check_loopback services name = Ok tt → ∃ service environment, subscript name services = Ok service ∧
    subscript "environment" service = Ok environment ∧ process_env environment !! "ASSET_STORE_DEV_MODE" = Some "0".
Proof.
  unfold check_loopback. intros (service & Hs & (ports & _ & ([] & _ & (environment & He & (mode & Hm & H)%res_bind_Ok)%res_bind_Ok)%res_bind_Ok)%res_bind_Ok)%res_bind_Ok.
  apply reject_Ok, Forall_cons in H as [->%not_str_false _]. exists service, environment. split_and!; [done|done|].
  by eapply setting_text.
Qed.

Lemma validate_model_Ok model : validate_model model = Ok tt → ∃ asset fetch postgres, accepted model asset fetch postgres.
Proof.
  unfold validate_model. intros (services & Hservices & (expected & _ & ([] & _ & (entries & _ & H)%res_bind_Ok)%res_bind_Ok)%res_bind_Ok)%res_bind_Ok.
  apply res_bind_Ok in H as ([] & _ & ([] & _ & ([] & Hloop & (fetcher & Hfetcher & H)%res_bind_Ok)%res_bind_Ok)%res_bind_Ok).
  apply res_bind_Ok in H as (fetch & Hfetch & ([] & Hset & (asset_store & Hstore & (asset & Hasset & H)%res_bind_Ok)%res_bind_Ok)%res_bind_Ok).
  apply res_bind_Ok in H as ([] & Hend & ([] & Hbudgets & ([] & Hlife & ([] & _ & H)%res_bind_Ok)%res_bind_Ok)%res_bind_Ok).
  apply res_bind_Ok in H as ([] & _ & ([] & Hcred & ([] & Hdb & Hkeys)%res_bind_Ok)%res_bind_Ok).
  apply check_database_Ok in Hdb as (service & postgres & dsn & parts & password & Hservice & Hpg & Hdsn).
  apply check_lifecycle_Ok in Hlife as (worker & environment & Hworker & Henv & Hdiff).
  apply check_each_Ok in Hset, Hkeys, Hloop. rewrite Forall_forall in Hset. rewrite Forall_forall in Hkeys.
  apply Forall_cons in Hloop as [_ [(fetcher' & fetch' & Hfetcher' & Hfetch' & Hdev)%check_loopback_env _]%Forall_cons].
  assert (fetcher' = fetcher) as -> by congruence. assert (fetch' = fetch) as -> by congruence.
  exists asset, fetch, postgres. split; try done; try (by eapply service_env_eq).
  - intros key value Hin. by apply check_setting_text, (Hset (key, value)).
  - by apply check_setting_text.
  - by exists dsn, parts, password.
  - intros key Hin. by apply check_s3_key_Ok, Hkeys.
  - exists environment. split; [by eapply service_env_eq|done].
Qed.

Lemma dev_secret_text i : contains_text "dev-secret" (dev_secret i) = true.
Proof. reflexivity. Qed.

Lemma authenticate_held store service_id secret :
  clean service_id → store !! service_id = Some secret → authenticate store service_id secret = Ok service_id.
Proof. intros [_ Hs] Hk. rewrite authenticate_run, Hs. by rewrite decide_True. Qed.

(** * Properties *)

(** C24.  A configuration that passes the preflight deploys services that agree.  In the
    environments it gives them, the asset store chooses the private S3 endpoint and the
    database on the host [postgres], whose password is the server's; both services read
    their credentials, those the fetcher accepts from dispatchers are credentials of
    the asset store, and the secret the fetcher presents authenticates as [fetcher];
    the secrets differ from each other and from the development ones; the capacity
    document sets a valid budget for each bucket; and the sweep runs with the
    environment of the asset store. *)
Theorem preflight_sound (model : json) :
  validate_model model = Ok tt →
  ∃ asset fetch postgres worker storage dispatch secret access_key secret_key dsn parts password budgets items,
    service_env "asset-store" model = Ok asset ∧ service_env "fetcher" model = Ok fetch ∧
    service_env "postgres" model = Ok postgres ∧ service_env "lifecycle" model = Ok worker ∧
    backends_from_env (process_env asset) =
      Ok (UseS3 "http://garage:3900" (default "garage" (process_env asset !! "ASSET_STORE_S3_REGION")) access_key secret_key,
          storage, Some dsn) ∧
    (urlsplit dsn "" = Ok parts ∧ hostname parts = Some "postgres" ∧
     process_env postgres !! "POSTGRES_PASSWORD" = Some password ∧ unquote (default "" (userinfo parts).2) = Some password) ∧
    (from_env (process_env fetch) = Ok dispatch ∧ dispatch ⊆ storage ∧ dom dispatch = dispatchers ∧
     pilot_services ⊆ dom storage ∧ dom storage ⊆ pilot_services ∪ {["worker"]}) ∧
    (client_from_env (process_env fetch) =
       Ok ("http://asset-store:8000", mk_client (default DEFAULT_SERVICE_ID (process_env fetch !! "FETCHER_SERVICE_ID")) secret) ∧
     authenticate storage "fetcher" secret = Ok "fetcher") ∧
    (∀ i j s, storage !! i = Some s → storage !! j = Some s → i = j) ∧
    (∀ i s, storage !! i = Some s → (32 <= String.length s)%nat ∧ ∀ j, s ≠ dev_secret j) ∧
    (process_env asset !! "ASSET_STORE_CAPACITY_BYTES" = Some budgets ∧ json_loads_text budgets = Ok (JObj items) ∧
     forallb valid_capacity_item items = true ∧ ∀ b, b ∈ ["cache"; "tmp"; "users"; "results"] → is_Some (item b items)) ∧
    ∀ settings, worker = JObj settings → NoDup settings.*1 → process_env worker = process_env asset.
Proof.
  intros (asset & fetch & postgres & Hac)%validate_model_Ok.
  destruct (ac_database _ _ _ _ Hac) as (dsn & parts & password & Hdsn & Hdsn_ne & Hdb).
  destruct (ac_lifecycle _ _ _ _ Hac) as (worker & Hworker & Hsame).
  destruct (ac_keys _ _ _ _ Hac "ASSET_STORE_S3_ACCESS_KEY") as (k1 & Hk1_ne & Hk1); [by left|].
  destruct (ac_keys _ _ _ _ Hac "ASSET_STORE_S3_SECRET_KEY") as (k2 & Hk2_ne & Hk2); [by right; left|].
  destruct (check_budgets_Ok _ _ (ac_budgets _ _ _ _ Hac)) as (budgets & items & Hbudgets & Hitems).
  destruct (check_credentials_Ok _ _ (ac_credentials _ _ _ _ Hac))
    as (storage & dispatch & secret & Hst & Hdi & Hsub & Hdom & Hdom1 & Hdom2 & Hinj & Hlong & Hsecret & Hfetcher).
  exists asset, fetch, postgres, worker, storage, dispatch, secret, k1, k2, dsn, parts, password, budgets, items.
  split_and!; try apply Hac; try done.
  - unfold backends_from_env. rewrite (ac_endpoint _ _ _ _ Hac). cbn [given mbind res_bind]. unfold require_env.
    rewrite Hk1, Hk2, !decide_False by done. cbn [mbind res_bind mret res_ret]. rewrite Hst, Hdsn. by destruct dsn.
  - apply Hdb.
  - apply Hdb.
  - apply Hdb.
  - apply Hdb.
  - unfold client_from_env. rewrite Hsecret, (ac_settings _ _ _ _ Hac "ASSET_STORE_BASE_URL" "http://asset-store:8000");
      [|by right; right; right; left].
    destruct (Hlong _ _ Hfetcher) as [Hlen _]. cbn [default from_option id]. rewrite decide_False; [done|].
    intros ->. cbn in Hlen. lia.
  - by apply authenticate_held.
  - intros i s Hi. destruct (Hlong i s Hi) as [Hlen Hdev]. split; [done|]. intros j ->. by rewrite dev_secret_text in Hdev.
  - by apply subscript_text.
  - apply Hitems.
  - apply Hitems.
  - apply Hitems.
  - intros settings -> Hnd. by apply dict_same.
Qed.

Lemma preflight_sound_witness :
  ∃ storage access_key secret_key dsn,
    backends_from_env (process_env (demo_asset_env "52428800")) =
      Ok (UseS3 "http://garage:3900" "garage" access_key secret_key, storage, Some dsn) ∧
    dom storage ⊆ pilot_services ∪ {["worker"]} ∧
    process_env (demo_asset_env "52428800") !! ENV_VAR = Some (credentials_text demo_storage_credentials).
Proof.
  destruct (preflight_sound (demo_model "52428800") demo_accepted)
    as (asset & fetch & postgres & worker & storage & dispatch & secret & k1 & k2 & dsn & parts & password & budgets & items &
        Hasset & _ & _ & _ & Hback & _ & (_ & _ & _ & _ & Hdom) & _).
  assert (Ha : asset = demo_asset_env "52428800") by (vm_compute in Hasset; injection Hasset as <-; vm_compute; reflexivity).
  subst asset. exists storage, k1, k2, dsn. split; [|split; [exact Hdom|vm_compute; reflexivity]].
  rewrite Hback. f_equal.
Defined.

(** The byte caps have to agree, not to be positive: a configuration whose caps are zero
    passes, and the asset store it deploys does not start. *)
Theorem preflight_accepts_zero_cap {O} (store : O) (now : spec_float) :
  validate_model (demo_model "0") = Ok tt ∧
  create_app (process_env (demo_asset_env "0")) None store None now = Err ValidationError.
Proof. split; vm_compute; reflexivity. Qed.
