(* ===== verification/CachePilot.v ===== *)
(** * The checks of a running pilot

    [tools/cache-pilot/cache_smoke.py] and [pilot_acceptance.py]: [run_smoke] preloads an
    image and reads it twice, [verified_read] reads an image of the corpus and retries.
    The service is a class [PilotHttp], what the checks rely on a class [PilotServer]; the
    fetcher of [FetcherApp] over a store that keeps its contract is an instance.  What a
    check demands of the responses is stated of any service; that it never blames such a
    service without cause, of one that keeps the contract.  Elapsed times are not
    modelled. *)

From S2P Require Import Prelude Errors Python Effects Models Sha256 Codec ObjectStore Capabilities Admin Schemas ServiceIdentity Admission App Api ApiInv IpAddress Urls Normalize Rules RuleConfig Transport Fetcher Client EnsureUrl Regex PilotPolicy PilotPolicyProps Pilot StoreContract PilotProps FetcherApp FetcherAppProps FetchDemo Preflight.

(** ** The service, over HTTP *)

Record ReadResponse := mk_read_response {
  rr_status : Z;
  rr_content_type : option string;
  rr_etag : option string;
  rr_retry_after : option string;
  rr_chunks : list bytes;
  (** what reading beyond the chunks raises *)
  rr_broken : option http_error
}.

(** [post_preload url]: [POST /v1/cache/preload] of a URL, the status and the decoded
    body, [None] when it is no JSON; [stream_read path]: [GET path].  Either raises
    [HttpError] when [httpx] does. *)
Class PilotHttp (S : Type) := {
  post_preload : string → M S (Z * option json);
  stream_read : string → M S ReadResponse
}.

Definition quoted_text (s : string) : string := String (chr 34) (s +:+ String (chr 34) "").

(** [response.headers.get("Content-Type", "").split(";", 1)[0]] *)
Definition media_type (r : ReadResponse) : string := (split_first ";" (default "" (rr_content_type r))).1.

(** The path of a target: the approved characters stand for themselves in a URL. *)
Definition read_path (t : PilotTarget) : string := "/" +:+ pt_host t +:+ pt_path t.

(** The loop over the chunks, [None] once they exceed [limit] bytes: what comes after
    is not read. *)
Fixpoint receive_chunks (limit : Z) (data : bytes) (chunks : list bytes) (broken : option http_error) : res (option bytes) :=
  match chunks with
  | [] => match broken with Some e => Err (HttpError e) | None => mret (Some data) end
  | chunk :: chunks =>
      let data := data ++ chunk in
      if limit <? Z.of_nat (length data) then mret None else receive_chunks limit data chunks broken
  end.

(** ** [cache_smoke.py] *)

Record SmokeResult := mk_smoke_result { sk_size_bytes : Z; sk_checksum : string; sk_first_cache_hit : bool }.

Definition smoke_failure (message : string) : error := ToolError (SmokeFailure message).

Section Smoke.
Context {S : Type} `{!PilotHttp S}.

(** The nested [preload]: the two fields it checks. *)
Definition smoke_preload (target : PilotTarget) : M S (bool * string) :=
  '(status, body) ← post_preload (pt_origin_url target);
  raise_if (negb (status =? 200)) (smoke_failure ("preload returned HTTP " +:+ pretty status)) ;;
  match body with
  | None => raise (smoke_failure "preload returned invalid JSON")
  | Some (JObj items) =>
      match item "cache_hit" items with
      | Some (JBool cache_hit) =>
          match item "asset_id" items with
          | Some (JStr asset_id) => mret (cache_hit, asset_id)
          | _ => raise (smoke_failure "preload returned invalid asset metadata")
          end
      | _ => raise (smoke_failure "preload returned invalid hit metadata")
      end
  | Some _ => raise (smoke_failure "preload returned invalid hit metadata")
  end.

(** One pass of the loop: the checksum and the size. *)
Definition smoke_read (target : PilotTarget) (max_bytes : Z) : M S (string * Z) :=
  response ← stream_read (read_path target);
  raise_if (negb (rr_status response =? 200))
    (smoke_failure ("cached read returned HTTP " +:+ pretty (rr_status response))) ;;
  raise_if (negb (mem (media_type response) IMAGE_MIMES)) (smoke_failure "cached read returned an unsupported content type") ;;
  received ← of_res (receive_chunks max_bytes [] (rr_chunks response) (rr_broken response));
  match received with
  | None => raise (smoke_failure "cached read exceeded the byte limit")
  | Some data =>
      let checksum := checksum_of data in
      raise_if (bool_decide (rr_etag response ≠ Some (quoted_text checksum)))
        (smoke_failure "cached read ETag does not match downloaded bytes") ;;
      mret (checksum, Z.of_nat (length data))
  end.

Definition run_smoke (origin_url : string) (max_bytes : Z) : M S SmokeResult :=
  target ← of_res (PilotPolicy.require origin_url);
  raise_if (max_bytes <=? 0) (smoke_failure "byte limit must be positive") ;;
  first ← smoke_preload target;
  read1 ← smoke_read target max_bytes;
  read2 ← smoke_read target max_bytes;
  raise_if (bool_decide (read1 ≠ read2)) (smoke_failure "repeated cached reads differ") ;;
  hit ← smoke_preload target;
  raise_if (bool_decide (hit ≠ (true, first.2))) (smoke_failure "repeated preload did not reuse the cached asset") ;;
  mret (mk_smoke_result read1.2 read1.1 first.1).

(** ** [pilot_acceptance.py] *)

(** An entry of the corpus that [load_corpus] accepts. *)
Record CorpusItem := mk_corpus_item { ci_url : string; ci_size_bytes : Z; ci_checksum : string }.

(** The result of a read: what was transferred, or the error. *)
Inductive read_outcome := ReadOk (size : Z) | ReadError (name : string).

(** What [float] reads: digits may be separated by underscores. *)
Definition digit_part : regex := RSeq digit (RStar (RSeq (ropt (rtext "_")) digit)).
Definition sign : regex := ropt (RChar (λ c, Ascii.eqb c "+" || Ascii.eqb c "-")).
Definition float_number : regex :=
  RSeq (rany [RSeq digit_part (ropt (RSeq (rtext ".") (ropt digit_part))); RSeq (rtext ".") digit_part])
       (ropt (rseq [rtext "e"; sign; digit_part])).
Definition float_text : regex := RSeq sign (rany [rtext "inf"; rtext "infinity"; rtext "nan"; float_number]).
Definition is_float (s : string) : bool := full_match float_text (lower (strip s)).

(** A response that is not retried. *)
Definition judge (it : CorpusItem) (response : ReadResponse) : read_outcome :=
  if negb (rr_status response =? 200) then ReadError "http_status" else
  match receive_chunks (ci_size_bytes it) [] (rr_chunks response) (rr_broken response) with
  | Err _ => ReadError "transport_or_protocol"
  | Ok None => ReadError "byte_limit"
  | Ok (Some data) =>
      let checksum := checksum_of data in
      if negb (Z.of_nat (length data) =? ci_size_bytes it) || bool_decide (checksum ≠ ci_checksum it) ||
         bool_decide (rr_etag response ≠ Some (quoted_text checksum)) || negb (mem (media_type response) IMAGE_MIMES)
      then ReadError "integrity" else ReadOk (Z.of_nat (length data))
  end.

(** [isinstance(exc, (httpx.HTTPError, ValueError))] *)
Definition is_transport (e : error) : bool := is_httpx_error e || bool_decide (e = PyValueError).

(** The loop, with [tries] attempts; it returns at the last one. *)
Fixpoint read_attempts (tries : nat) (it : CorpusItem) (path : string) (attempts : list Z) : M S (read_outcome * list Z) :=
  match tries with
  | O => raise PyRuntimeError
  | Datatypes.S tries =>
      let failed attempts := mret (ReadError "transport_or_protocol", attempts) in
      response ← catch (response ← stream_read path; mret (Some response)) (λ e, if is_transport e then mret None else raise e);
      match response with
      | None => failed attempts
      | Some response =>
          let attempts := attempts ++ [rr_status response] in
          if (rr_status response =? 503) && negb (tries =? 0)%nat then
            if is_float (default "1" (rr_retry_after response)) then read_attempts tries it path attempts
            else failed attempts
          else mret (judge it response, attempts)
      end
  end.

Definition verified_read (it : CorpusItem) : M S (read_outcome * list Z) :=
  target ← of_res (PilotPolicy.require (ci_url it));
  read_attempts 3 it (read_path target) [].
End Smoke.

(** ** What the checks read *)

(** The entry of the corpus, and the target it names. *)
Definition corpus_item (entry : json) : res CorpusItem :=
  url ← subscript "url" entry;
  blank ← falsy url;
  _ ← (if (blank : bool) then Err denied else mret tt);
  url ← match url with JStr s => mret s | _ => Err PyTypeError end;
  _ ← PilotPolicy.require url;
  size ← subscript "size_bytes" entry;
  size ← match size with JInt z => if (0 <? z) && (z <=? 52428800) then mret z else Err PyValueError | _ => Err PyValueError end;
  raw ← subscript "checksum" entry;
  bad ← unmatched sha256_id raw;
  if (bad : bool) then Err PyValueError else
  match raw with JStr checksum => mret (mk_corpus_item url size checksum) | _ => Err PyTypeError end.

(** [load_corpus], of the text of the file; a document that is no list is not followed. *)
Definition load_corpus (text : string) : res (list CorpusItem) :=
  items ← json_loads_text text;
  empty ← falsy items;
  if (empty : bool) then Err PyValueError else
  match items with
  | JArr l => if (100 <? length l)%nat then Err PyValueError else mapM corpus_item l
  | _ => Err OutsideModel
  end.

Definition is_line_end (c : ascii) : bool :=
  let b := byte_of c in ((10 <=? b) && (b <=? 13)) || ((28 <=? b) && (b <=? 30)) || (b =? 133).

(** [s.splitlines()]; [line] is the text since the last end. *)
Fixpoint split_lines (line s : string) : list string :=
  match s with
  | EmptyString => if decide (line = "") then [] else [line]
  | String c s' =>
      if is_line_end c then
        line :: (match s' with
                 | String d s2 => if (byte_of c =? 13) && (byte_of d =? 10) then split_lines "" s2 else split_lines "" s'
                 | EmptyString => []
                 end)
      else split_lines (line +:+ String c "") s'
  end.

(** The secret of the first entry of [task-api] that has one. *)
Definition entry_secret (entry : string) : option string :=
  let '(service_id, _, secret) := partition_on ":" entry in
  if bool_decide (service_id = "task-api") && negb (bool_decide (secret = "")) then Some secret else None.
Definition line_secret (line : string) : option string :=
  let '(key, _, value) := partition_on "=" line in
  if decide (key = ENV_VAR) then head (omap entry_secret (split_on "," value)) else None.

(** [read_credential], of the mode of the file and its text. *)
Definition read_credential (mode : Z) (text : string) : res string :=
  if negb (Z.land mode 63 =? 0) then Err PyValueError else
  match head (omap line_secret (split_lines "" text)) with Some secret => mret secret | None => Err PyValueError end.

(** * What the checks rely on

    [ps_shown s t i data]: in the service [s] the image [t] is cached as the asset [i],
    whose bytes are [data].  A request may be refused at any time. *)

Class PilotServer (S : Type) `{!PilotHttp S} := {
  ps_ok : nat → S → Prop;
  ps_shown : S → PilotTarget → string → bytes → Prop;
  ps_unique s t i data i' data' : ps_shown s t i data → ps_shown s t i' data' → i = i' ∧ data = data';
  ps_preload url t n s : ps_ok n s → PilotPolicy.require url = Ok t → (String.length (fetch_url t) <= 2048)%nat →
    wp (post_preload (pt_origin_url t)) (λ res n' s', ps_ok n' s' ∧
      (∀ t i data, ps_shown s t i data → ps_shown s' t i data) ∧
      match res with
      | Ok (status, body) => status = 200 → ∃ items hit i, body = Some (JObj items) ∧
          item "cache_hit" items = Some (JBool hit) ∧ item "asset_id" items = Some (JStr i) ∧
          (∃ data, ps_shown s' t i data) ∧ (∀ i' data, ps_shown s t i' data → hit = true)
      | Err e => is_httpx_error e = true
      end) n s;
  ps_stream url t n s : ps_ok n s → PilotPolicy.require url = Ok t →
    wp (stream_read (read_path t)) (λ res n' s', ps_ok n' s' ∧
      (∀ t i data, ps_shown s t i data → ps_shown s' t i data) ∧
      match res with
      | Ok r => match rr_broken r with Some e => is_httpx_error (HttpError e) = true | None => True end ∧
          (rr_status r = 200 → ∃ i data rest, ps_shown s' t i data ∧ data = concat (rr_chunks r) ++ rest ∧
            (rr_broken r = None → rest = []) ∧ rr_etag r = Some (quoted_text (checksum_of data)) ∧
            mem (media_type r) IMAGE_MIMES = true)
      | Err e => is_httpx_error e = true
      end) n s
}.

(** What is received: all that was sent, or nothing beyond the limit. *)
Lemma receive_chunks_eq limit data chunks broken : Z.of_nat (length data) <= limit →
  receive_chunks limit data chunks broken =
    if limit <? Z.of_nat (length (data ++ concat chunks)) then Ok None else
    match broken with Some e => Err (HttpError e) | None => Ok (Some (data ++ concat chunks)) end.
Proof.
  revert data. induction chunks as [|chunk chunks IH]; intros data Hle; cbn.
  - rewrite app_nil_r. destruct (limit <? _) eqn:Hl; [lia|]. by destruct broken.
  - destruct (limit <? Z.of_nat (length (data ++ chunk))) eqn:Hl.
    + destruct (limit <? Z.of_nat (length (data ++ chunk ++ concat chunks))) eqn:Hl2; [done|].
      apply Z.ltb_lt in Hl. apply Z.ltb_ge in Hl2. rewrite length_app in Hl. rewrite !length_app in Hl2. lia.
    + rewrite IH by lia. by rewrite <- app_assoc.
Qed.

(** ** What is observed

    Of any service at all. *)

Section Observed.
#[local] Set Default Proof Using "Type*".
Context {S : Type} `{!PilotHttp S}.
Implicit Types (s : S) (t : PilotTarget).

(** A preload that was accepted: the asset, and if it was there. *)
Definition said (hit : bool) (i : string) (answer : Z * option json) : Prop := ∃ items,
  answer = (200, Some (JObj items)) ∧ item "cache_hit" items = Some (JBool hit) ∧ item "asset_id" items = Some (JStr i).

(** A read that is what it says: an image, within the limit, whole, and with the tag of
    the bytes received. *)
Record genuine (limit : Z) (r : ReadResponse) (data : bytes) : Prop := {
  gn_status : rr_status r = 200;
  gn_media : media_type r ∈ IMAGE_MIMES;
  gn_whole : rr_broken r = None ∧ data = concat (rr_chunks r);
  gn_limit : Z.of_nat (length data) <= limit;
  gn_tag : rr_etag r = Some (quoted_text (checksum_of data))
}.

(** The four requests of a smoke check that passes, from the state [s] to [s']: a
    preload, two reads of the same image, and a preload that finds the same asset. *)
Definition smoke_passes (url : string) (max_bytes : Z) (n : nat) s (r : SmokeResult) (n' : nat) s' : Prop :=
  ∃ t i answer1 n1 s1 read1 data1 n2 s2 read2 data2 n3 s3 answer2,
    PilotPolicy.require url = Ok t ∧ 0 < max_bytes ∧
    post_preload (pt_origin_url t) n s = (Ok answer1, n1, s1) ∧ said (sk_first_cache_hit r) i answer1 ∧
    stream_read (read_path t) n1 s1 = (Ok read1, n2, s2) ∧ genuine max_bytes read1 data1 ∧
    stream_read (read_path t) n2 s2 = (Ok read2, n3, s3) ∧ genuine max_bytes read2 data2 ∧
    post_preload (pt_origin_url t) n3 s3 = (Ok answer2, n', s') ∧ said true i answer2 ∧
    sk_checksum r = checksum_of data1 ∧ sk_checksum r = checksum_of data2 ∧
    sk_size_bytes r = Z.of_nat (length data1) ∧ sk_size_bytes r = Z.of_nat (length data2).

Lemma bind_run {A B} (m : M S A) (k : A → M S B) n s b n' s' :
  (m ≫= k) n s = (Ok b, n', s') ↔ ∃ a n1 s1, m n s = (Ok a, n1, s1) ∧ k a n1 s1 = (Ok b, n', s').
Proof.
  unfold mbind, M_bind. destruct (m n s) as [[[a|e] n1] s1].
  - split; [intros H; by exists a, n1, s1|]. intros (a' & n2 & s2 & [= <- <- <-] & H). done.
  - split; [done|]. intros (a' & n2 & s2 & H & _). done.
Qed.

Lemma raise_if_run b e n s n' s' : (raise_if b e : M S ()) n s = (Ok tt, n', s') ↔ b = false ∧ n' = n ∧ s' = s.
Proof. destruct b; cbn; [by split; [|intros [? _]]|]. unfold mret, M_ret. split; [by intros [= -> ->]|by intros (_ & -> & ->)]. Qed.

Lemma smoke_preload_run t hit i n s n' s' :
  smoke_preload t n s = (Ok (hit, i), n', s') ↔ ∃ answer, post_preload (pt_origin_url t) n s = (Ok answer, n', s') ∧ said hit i answer.
Proof.
  unfold smoke_preload. rewrite bind_run. split.
  - intros ([status body] & n1 & s1 & Hp & ([] & n2 & s2 & (Hs%negb_false_iff%Z.eqb_eq & -> & ->)%raise_if_run & H)%bind_run).
    exists (status, body). destruct body as [[]|]; try discriminate H. revert H. repeat case_match; intros [= -> -> -> ->] || done.
    split; [done|]. eexists. by rewrite Hs.
  - intros (answer & Hp & items & -> & Hh & Hi). eexists _, n', s'. split; [exact Hp|]. cbn. by rewrite Hh, Hi.
Qed.

Lemma smoke_read_run t max_bytes ck size n s n' s' : 0 <= max_bytes →
  smoke_read t max_bytes n s = (Ok (ck, size), n', s') ↔ ∃ r data, stream_read (read_path t) n s = (Ok r, n', s') ∧
    genuine max_bytes r data ∧ ck = checksum_of data ∧ size = Z.of_nat (length data).
Proof.
  intros Hpos. unfold smoke_read. rewrite bind_run. split.
  - intros (r & n1 & s1 & Hp & H). exists r, (concat (rr_chunks r)).
    apply bind_run in H as ([] & n2 & s2 & (Hs%negb_false_iff%Z.eqb_eq & -> & ->)%raise_if_run & H).
    apply bind_run in H as ([] & n2 & s2 & (Hm%negb_false_iff & -> & ->)%raise_if_run & H).
    rewrite receive_chunks_eq in H by (cbn; lia). cbn [app] in H. apply bind_run in H as (received & n2 & s2 & Hc & H).
    destruct (_ <? _) eqn:Hlt; [by injection Hc as <- <- <-|]. destruct (rr_broken r) eqn:Hb; [discriminate Hc|]. injection Hc as <- <- <-.
    cbv zeta in H.
    apply bind_run in H as ([] & n2 & s2 & (Ht%bool_decide_eq_false & -> & ->)%raise_if_run & H). apply dec_stable in Ht.
    injection H as <- <- -> ->. split_and!; [done|split; [done|by apply mem_true|done|lia|done]|done|done].
  - intros (r & data & Hp & [Hs Hm [Hb ->] Hl Ht] & -> & ->). exists r, n', s'. split; [done|].
    apply mem_true in Hm. rewrite Hs, Hm, Ht, receive_chunks_eq by (cbn; lia). cbn [app].
    destruct (Z.ltb_spec max_bytes (Z.of_nat (length (concat (rr_chunks r))))); [lia|]. rewrite Hb.
    apply bind_run. eexists _, _, _. split; [done|]. apply bind_run. eexists _, _, _. split; [done|]. apply bind_run. eexists _, _, _.
    split; [done|]. apply bind_run. exists tt, n', s'. split; [|done]. apply raise_if_run. split; [|done].
    apply bool_decide_eq_false. intros Hne. by apply Hne.
Qed.

Lemma run_smoke_passes url max_bytes n s r n' s' :
  run_smoke url max_bytes n s = (Ok r, n', s') ↔ smoke_passes url max_bytes n s r n' s'.
Proof.
  unfold run_smoke. split.
  - intros (t & n0 & s0 & Ht & H)%bind_run. unfold of_res in Ht. injection Ht as Ht <- <-.
    apply bind_run in H as ([] & n0 & s0 & (Hpos%Z.leb_gt & -> & ->)%raise_if_run & H).
    apply bind_run in H as ([hit i] & n1 & s1 & (answer1 & Hp1 & Hs1)%smoke_preload_run & H).
    apply bind_run in H as ([ck1 z1] & n2 & s2 & (read1 & data1 & Hr1 & Hg1 & -> & ->)%smoke_read_run & H); [|lia].
    apply bind_run in H as ([ck2 z2] & n3 & s3 & (read2 & data2 & Hr2 & Hg2 & -> & ->)%smoke_read_run & H); [|lia].
    apply bind_run in H as ([] & n4 & s4 & (Heq%bool_decide_eq_false & -> & ->)%raise_if_run & H). apply dec_stable in Heq.
    apply bind_run in H as ([hit2 i2] & n4 & s4 & (answer2 & Hp2 & Hs2)%smoke_preload_run & H).
    apply bind_run in H as ([] & n5 & s5 & (Hh%bool_decide_eq_false & -> & ->)%raise_if_run & H). apply dec_stable in Hh. injection Hh as -> ->.
    injection H as <- <- <-. exists t, i, answer1, n1, s1, read1, data1, n2, s2, read2, data2, n3, s3, answer2.
    split_and!; try done; [exact (f_equal fst Heq)|exact (f_equal snd Heq)].
  - intros (t & i & answer1 & n1 & s1 & read1 & data1 & n2 & s2 & read2 & data2 & n3 & s3 & answer2 &
      Ht & Hpos & Hp1 & Hs1 & Hr1 & Hg1 & Hr2 & Hg2 & Hp2 & Hs2 & Hc1 & Hc2 & Hz1 & Hz2).
    apply bind_run. exists t, n, s. split; [by rewrite Ht|].
    apply bind_run. exists tt, n, s. split; [apply raise_if_run; split; [lia|done]|].
    apply bind_run. exists (sk_first_cache_hit r, i), n1, s1. split; [apply smoke_preload_run; by exists answer1|].
    apply bind_run. exists (sk_checksum r, sk_size_bytes r), n2, s2. split; [apply smoke_read_run; [lia|]; by exists read1, data1|].
    apply bind_run. exists (sk_checksum r, sk_size_bytes r), n3, s3. split; [apply smoke_read_run; [lia|]; by exists read2, data2|].
    apply bind_run. exists tt, n3, s3. split; [apply raise_if_run; split; [|done]; apply bool_decide_eq_false; by intros Hne; apply Hne|].
    apply bind_run. exists (true, i), n', s'. split; [apply smoke_preload_run; by exists answer2|].
    apply bind_run. exists tt, n', s'. split; [apply raise_if_run; split; [|done]; apply bool_decide_eq_false; by intros Hne; apply Hne|].
    by destruct r.
Qed.

(** What the corpus says of an image. *)
Definition described (it : CorpusItem) (data : bytes) : Prop :=
  Z.of_nat (length data) = ci_size_bytes it ∧ checksum_of data = ci_checksum it.

(** The verdict on a response. *)
Definition verdict (it : CorpusItem) (r : ReadResponse) (outcome : read_outcome) : Prop :=
  match outcome with
  | ReadOk size => ∃ data, genuine (ci_size_bytes it) r data ∧ described it data ∧ size = ci_size_bytes it
  | ReadError name =>
      rr_status r ≠ 200 ∧ name = "http_status" ∨
      rr_status r = 200 ∧ ci_size_bytes it < Z.of_nat (length (concat (rr_chunks r))) ∧ name = "byte_limit" ∨
      rr_status r = 200 ∧ Z.of_nat (length (concat (rr_chunks r))) <= ci_size_bytes it ∧
        (is_Some (rr_broken r) ∧ name = "transport_or_protocol" ∨
         rr_broken r = None ∧ name = "integrity" ∧ ¬ ∃ data, genuine (ci_size_bytes it) r data ∧ described it data)
  end.

Lemma judge_verdict it r : 0 <= ci_size_bytes it → verdict it r (judge it r).
Proof.
  intros Hpos. unfold judge. destruct (Z.eqb_spec (rr_status r) 200) as [Hs|Hs]; cbn [negb]; [|by left].
  rewrite receive_chunks_eq by (cbn; lia). cbn [app]. destruct (_ <? _) eqn:Hlt; [right; left; split_and!; [done|lia|done]|].
  destruct (rr_broken r) as [e|] eqn:Hb.
  { right; right. split_and!; [done|lia|]. left. rewrite Hb. by split. }
  cbv zeta. destruct (_ || _) eqn:Hbad.
  - right; right. split_and!; [done|lia|]. right. split_and!; [done|done|].
    intros (data & [_ Hm [_ ->] _ Ht] & Hsize & Hck). apply mem_true in Hm.
    rewrite Hsize, Hck, Ht, Hck, Hm, Z.eqb_refl in Hbad. by rewrite !bool_decide_false in Hbad by (intros Hne; by apply Hne).
  - repeat (apply orb_false_iff in Hbad as [Hbad ?]). apply negb_false_iff, Z.eqb_eq in Hbad.
    rewrite !bool_decide_eq_false, negb_false_iff in *.
    exists (concat (rr_chunks r)). split; [|split; [split|]; [done|by apply dec_stable|done]].
    split; [done|by apply mem_true|done|lia|by apply dec_stable].
Qed.

(** [k] reads in a row answered 503, with a time to try again. *)
Inductive busy_reads (path : string) : nat → nat → S → nat → S → Prop :=
  | busy_none n s : busy_reads path 0 n s n s
  | busy_read k n s r n1 s1 n2 s2 : stream_read path n s = (Ok r, n1, s1) → rr_status r = 503 →
      is_float (default "1" (rr_retry_after r)) = true → busy_reads path k n1 s1 n2 s2 → busy_reads path (Datatypes.S k) n s n2 s2.

(** A run of attempts: it retries while the service is busy, and judges what it gets. *)
Definition attempted (tries : nat) (it : CorpusItem) (path : string) (before : list Z) (n : nat) s
    (res : res (read_outcome * list Z)) (n' : nat) s' : Prop :=
  ∃ k n1 s1 answer, busy_reads path k n s n1 s1 ∧ (k < tries)%nat ∧ stream_read path n1 s1 = (answer, n', s') ∧
  match answer with
  | Ok r => ∃ outcome, res = Ok (outcome, before ++ replicate k 503 ++ [rr_status r]) ∧
      (verdict it r outcome ∧ (rr_status r = 503 → k = pred tries) ∨
       outcome = ReadError "transport_or_protocol" ∧ rr_status r = 503 ∧ (k < pred tries)%nat ∧
         is_float (default "1" (rr_retry_after r)) = false)
  | Err e =>
      if is_transport e then res = Ok (ReadError "transport_or_protocol", before ++ replicate k 503) else res = Err e
  end.

Lemma read_attempts_run tries it path before n s res n' s' : 0 <= ci_size_bytes it → (0 < tries)%nat →
  read_attempts tries it path before n s = (res, n', s') → attempted tries it path before n s res n' s'.
Proof.
  intros Hpos. revert before n s. induction tries as [|tries IH]; intros before n s Htries; [lia|]. cbn [read_attempts].
  unfold mbind at 1, M_bind at 1, catch. unfold mbind at 1, M_bind at 1.
  destruct (stream_read path n s) as [[[r|e] n1] s1] eqn:Hr.
  2:{ intros Hrun. exists 0%nat, n, s, (Err e). split_and!; [constructor|lia| |]; destruct (is_transport e); injection Hrun as <- <- <-; try done.
      by rewrite app_nil_r. }
  cbn. destruct ((rr_status r =? 503) && negb (tries =? 0)%nat) eqn:Hbusy.
  - apply andb_prop in Hbusy as [Hs%Z.eqb_eq Hleft%negb_true_iff%Nat.eqb_neq]. destruct (is_float _) eqn:Hf.
    + intros (k & n2 & s2 & answer & Hk & Hlt & Ha & H)%IH; [|lia]. exists (Datatypes.S k), n2, s2, answer.
      split_and!; [by econstructor|lia|done|]. destruct answer as [r2|e].
      * destruct H as (outcome & -> & H). exists outcome. rewrite Hs, <- app_assoc. split; [done|].
        destruct H as [[H1 H2]|(H1 & H2 & H3 & H4)]; [left|right]; split_and!; try done; [intros Hb; specialize (H2 Hb)|]; lia.
      * cbn [replicate]. rewrite Hs, <- app_assoc in H. exact H.
    + intros [= <- <- <-]. exists 0%nat, n, s, (Ok r). split_and!; [constructor|lia|done|]. eexists. split; [done|]. right.
      split_and!; [done|done|cbn; lia|done].
  - intros [= <- <- <-]. exists 0%nat, n, s, (Ok r). split_and!; [constructor|lia|done|]. eexists. split; [done|]. left.
    split; [by apply judge_verdict|]. intros Hs. rewrite Hs in Hbusy. cbn in Hbusy. apply negb_false_iff, Nat.eqb_eq in Hbusy. by rewrite Hbusy.
Qed.
End Observed.

Section Checks.
#[local] Set Default Proof Using "Type*".
Context {S : Type} `{!PilotHttp S} `{!PilotServer S}.
Implicit Types (s : S) (t : PilotTarget).

Definition keeps_images s s' : Prop := ∀ t i data, ps_shown s t i data → ps_shown s' t i data.

#[export] Instance keeps_images_preorder : PreOrder keeps_images.
Proof. split; [by intros s t i d|]. intros s1 s2 s3 H1 H2 t i d H. by apply H2, H1. Qed.

(** Why the smoke check fails: a request was refused, or a limit is too low. *)
Inductive refusal (max_bytes : Z) t s : string → Prop :=
  | no_limit : max_bytes <= 0 → refusal max_bytes t s "byte limit must be positive"
  | preload_refused status : status ≠ 200 → refusal max_bytes t s ("preload returned HTTP " +:+ pretty status)
  | read_refused status : status ≠ 200 → refusal max_bytes t s ("cached read returned HTTP " +:+ pretty status)
  | read_too_long i data : ps_shown s t i data → max_bytes < Z.of_nat (length data) →
      refusal max_bytes t s "cached read exceeded the byte limit".

(** How a step of the check may fail. *)
Definition fails_well (max_bytes : Z) t s (e : error) : Prop :=
  is_httpx_error e = true ∨ ∃ m, e = smoke_failure m ∧ refusal max_bytes t s m.

Lemma wp_smoke_preload max_bytes url t n s :
  ps_ok n s → PilotPolicy.require url = Ok t → (String.length (fetch_url t) <= 2048)%nat →
  wp (smoke_preload t) (λ res n' s', ps_ok n' s' ∧ keeps_images s s' ∧
    match res with
    | Ok (hit, i) => (∃ data, ps_shown s' t i data) ∧ (∀ i' data, ps_shown s t i' data → hit = true)
    | Err e => fails_well max_bytes t s' e
    end) n s.
Proof.
  intros Hok Hr Hlen. unfold smoke_preload. wp_step. eapply wp_mono; [by eapply ps_preload|].
  intros [[status body]|e] n1 s1 (Hok1 & Hk1 & H); [|split_and!; [done|done|by left]].
  wp_step. apply wp_raise_if; intros Hs.
  { split_and!; [done|done|]. right. eexists. split; [done|]. apply preload_refused. by apply negb_true_iff, Z.eqb_neq in Hs. }
  apply negb_false_iff, Z.eqb_eq in Hs. destruct (H Hs) as (items & hit & i & -> & -> & -> & Hd & Hhit).
  wp_step. split_and!; done.
Qed.

Lemma wp_smoke_read max_bytes url t n s :
  ps_ok n s → PilotPolicy.require url = Ok t → 0 < max_bytes →
  wp (smoke_read t max_bytes) (λ res n' s', ps_ok n' s' ∧ keeps_images s s' ∧
    match res with
    | Ok (checksum, size) => ∃ i data, ps_shown s' t i data ∧ checksum = checksum_of data ∧
        size = Z.of_nat (length data) ∧ size <= max_bytes
    | Err e => fails_well max_bytes t s' e
    end) n s.
Proof.
  intros Hok Hr Hpos. unfold smoke_read. wp_step. eapply wp_mono; [by eapply ps_stream|].
  intros [r|e] n1 s1 (Hok1 & Hk1 & H); [|split_and!; [done|done|by left]]. destruct H as [Hbroken H].
  wp_step. apply wp_raise_if; intros Hs.
  { split_and!; [done|done|]. right. eexists. split; [done|]. apply read_refused. by apply negb_true_iff, Z.eqb_neq in Hs. }
  apply negb_false_iff, Z.eqb_eq in Hs. destruct (H Hs) as (i & data & rest & Hi & Hdata & Hrest & Htag & Hmime).
  rewrite Hmime. wp_step. apply wp_raise_if; intros ?; [done|]. wp_step. wp_step.
  rewrite receive_chunks_eq by (cbn; lia). cbn [app]. destruct (Z.ltb_spec max_bytes (Z.of_nat (length (concat (rr_chunks r))))).
  - wp_step. split_and!; [done|done|]. right. eexists. split; [done|].
    apply (read_too_long _ _ _ i data); [done|]. rewrite Hdata, length_app. lia.
  - destruct (rr_broken r) as [e|]; [split_and!; [done|done|by left]|]. rewrite (Hrest eq_refl), app_nil_r in Hdata. subst data.
    cbv zeta. wp_step. apply wp_raise_if; intros Hck.
    { apply bool_decide_eq_true in Hck. by destruct Hck. }
    wp_step. split_and!; [done|done|]. eexists i, _. by split_and!.
Qed.

Definition judged (it : CorpusItem) t s' (outcome : read_outcome) : Prop :=
  match outcome with
  | ReadOk size => ∃ i data, ps_shown s' t i data ∧ described it data ∧ size = ci_size_bytes it
  | ReadError name => name ∈ ["transport_or_protocol"; "http_status"; "byte_limit"; "integrity"] ∧
      ((name = "byte_limit" ∨ name = "integrity") → ∃ i data, ps_shown s' t i data ∧ ¬ described it data)
  end.

(** What a verdict says of what the service holds. *)
Lemma verdict_truthful it t s' (r : ReadResponse) outcome :
  (rr_status r = 200 → ∃ i data rest, ps_shown s' t i data ∧ data = concat (rr_chunks r) ++ rest ∧
     (rr_broken r = None → rest = []) ∧ rr_etag r = Some (quoted_text (checksum_of data)) ∧ mem (media_type r) IMAGE_MIMES = true) →
  verdict it r outcome → judged it t s' outcome.
Proof.
  intros H. destruct outcome as [size|name]; cbn.
  - intros (received & [Hs _ [Hb ->] _ _] & Hd & ->). destruct (H Hs) as (i & data & rest & Hi & Hdata & Hrest & _).
    rewrite (Hrest Hb), app_nil_r in Hdata. subst data. by exists i, (concat (rr_chunks r)).
  - intros [[_ ->]|[(Hs & Hlong & ->)|(Hs & Hshort & [[_ ->]|(Hb & -> & Hbad)])]]; split; try set_solver; try by intros [|].
    + intros _. destruct (H Hs) as (i & data & rest & Hi & -> & _). eexists i, _. split; [done|]. intros [Hsize _].
      rewrite length_app in Hsize. lia.
    + intros _. destruct (H Hs) as (i & data & rest & Hi & Hdata & Hrest & Ht & Hm). rewrite (Hrest Hb), app_nil_r in Hdata.
      exists i, data. split; [done|]. intros Hd. apply Hbad. exists data. split; [|done]. subst data.
      split; [done|by apply mem_true|done|done|done].
Qed.

Lemma busy_reads_ok url t k n s n' s' :
  PilotPolicy.require url = Ok t → busy_reads (read_path t) k n s n' s' → ps_ok n s → ps_ok n' s' ∧ keeps_images s s'.
Proof.
  intros Hr. induction 1 as [|k n s r n1 s1 n2 s2 Hread _ _ _ IH]; intros Hok; [done|].
  destruct (wp_inv _ _ _ _ _ _ _ (ps_stream url t n s Hok Hr) Hread) as (Hok1 & Hk1 & _).
  destruct (IH Hok1) as [Hok2 Hk2]. split; [done|by etrans].
Qed.

Lemma attempted_truthful it t n s res n' s' :
  ps_ok n s → PilotPolicy.require (ci_url it) = Ok t → attempted 3 it (read_path t) [] n s res n' s' →
  ∃ outcome attempts, res = Ok (outcome, attempts) ∧ judged it t s' outcome.
Proof.
  assert (Hfailed : judged it t s' (ReadError "transport_or_protocol")) by (split; [by left|by intros [|]]).
  intros Hok Hr (k & n1 & s1 & answer & Hk & _ & Ha & H). destruct (busy_reads_ok _ _ _ _ _ _ _ Hr Hk Hok) as [Hok1 _].
  destruct (wp_inv _ _ _ _ _ _ _ (ps_stream _ t n1 s1 Hok1 Hr) Ha) as (_ & _ & Hanswer). destruct answer as [r|e].
  - destruct H as (outcome & -> & H). eexists outcome, _. split; [done|]. destruct Hanswer as [_ Hanswer].
    destruct H as [[H _]|(-> & _)]; [by eapply verdict_truthful|done].
  - unfold is_transport in H. rewrite Hanswer in H. cbn in H. eexists _, _. split; [exact H|done].
Qed.

Lemma wp_run_smoke url max_bytes t n s :
  ps_ok n s → PilotPolicy.require url = Ok t → (String.length (fetch_url t) <= 2048)%nat →
  wp (run_smoke url max_bytes) (λ res n' s', ps_ok n' s' ∧ keeps_images s s' ∧
    match res with
    | Ok r => ∃ i data, ps_shown s' t i data ∧ sk_checksum r = checksum_of data ∧
        sk_size_bytes r = Z.of_nat (length data) ∧ sk_size_bytes r <= max_bytes ∧
        (∀ i' data', ps_shown s t i' data' → sk_first_cache_hit r = true)
    | Err e => fails_well max_bytes t s' e
    end) n s.
Proof.
  intros Hok Hr Hlen.
  unfold run_smoke. rewrite Hr. do 2 wp_step. cbv iota. wp_step. apply wp_raise_if; intros Hpos.
  { split_and!; [done|done|]. right. eexists. split; [done|]. constructor. lia. }
  wp_step. eapply wp_mono; [by apply (wp_smoke_preload max_bytes url)|].
  intros [[hit i]|e] n1 s1 (Hok1 & Hk1 & H1); [|done]. destruct H1 as [(data & Hi) Hhit].
  wp_step. eapply wp_mono; [apply (wp_smoke_read max_bytes url); [done|done|lia]|].
  intros [[ck1 z1]|e] n2 s2 (Hok2 & Hk2 & H2); [|by split_and!; [done|etrans|]]. destruct H2 as (i2 & data2 & Hi2 & -> & -> & Hle).
  wp_step. eapply wp_mono; [apply (wp_smoke_read max_bytes url); [done|done|lia]|].
  intros [[ck3 z3]|e] n3 s3 (Hok3 & Hk3 & H3); [|by split_and!; [done|do 2 (etrans; [done|])|]]. destruct H3 as (i3 & data3 & Hi3 & -> & -> & _).
  destruct (ps_unique _ _ _ _ _ _ Hi3 (Hk3 _ _ _ Hi2)) as [-> ->].
  destruct (ps_unique _ _ _ _ _ _ Hi2 (Hk2 _ _ _ Hi)) as [-> ->].
  wp_step. apply wp_raise_if; intros Hdiff; [by apply bool_decide_eq_true in Hdiff|].
  wp_step. eapply wp_mono; [by apply (wp_smoke_preload max_bytes url)|].
  intros [[hit4 i4]|e] n4 s4 (Hok4 & Hk4 & H4); [|by split_and!; [done|do 3 (etrans; [done|])|]]. destruct H4 as [(data4 & Hi4) Hhit4].
  rewrite (Hhit4 _ _ Hi3). destruct (ps_unique _ _ _ _ _ _ Hi4 (Hk4 _ _ _ Hi3)) as [-> ->].
  wp_step. apply wp_raise_if; intros Hagain; [by apply bool_decide_eq_true in Hagain|].
  wp_step. split_and!; [done|by do 3 (etrans; [done|])|]. exists i, data. split_and!; [done..|]. exact Hhit.
Qed.

End Checks.

(** * Properties *)

Section Truthful.
#[local] Set Default Proof Using "Type*".
Context {S : Type} `{!PilotHttp S}.
Implicit Types (s : S) (t : PilotTarget).

(** C26.  A read of the corpus ends in the right verdict.  Whatever the service does, it
    is asked at most three times, again only after an answer 503 with a time to wait
    that is a number; the last answer decides: the read is a success exactly when the
    answer is 200 with an image, whole, of the size and with the checksum of the corpus,
    and with the tag of the bytes received; it is an error of integrity when the bytes
    are complete and one of these is wrong, and else of what came first: another status,
    too many bytes, a broken transport, which includes a wait that is no number.  An
    exception is one of the transport that is neither [httpx]'s nor a [ValueError].  And of a service that
    keeps the contract [PilotServer] (a 200 carries a part of an image it holds, with its
    tag and an image's media type, and only [httpx] raises), a success is an image it
    holds that the corpus describes, and length or integrity are blamed only when it
    holds one that the corpus does not describe.  (The size in the corpus is not
    negative; its loader demands a positive one.) *)
Theorem verified_read_truthful (it : CorpusItem) t (n : nat) s (res : res (read_outcome * list Z)) (n' : nat) s' :
  PilotPolicy.require (ci_url it) = Ok t → 0 <= ci_size_bytes it → verified_read it n s = (res, n', s') →
  attempted 3 it (read_path t) [] n s res n' s' ∧
  ∀ server : PilotServer S, ps_ok n s → ∃ outcome attempts, res = Ok (outcome, attempts) ∧ judged it t s' outcome.
Proof.
  intros Hr Hpos Hrun. unfold verified_read in Hrun. rewrite Hr in Hrun.
  apply read_attempts_run in Hrun; [|done|lia]. split; [exact Hrun|]. intros server Hok. by eapply attempted_truthful.
Qed.

(** C25.  The smoke check tells the truth.  Of any service: it passes exactly when its four
    requests go as they should (the URL is approved and the limit positive, the preload
    is accepted, both reads answer 200 with an image, whole, within the limit, with the
    tag of the bytes received, of the same size and checksum, and the second preload
    finds the same asset in the cache), and it reports the size and the checksum of what
    was received and whether the first preload was a hit.  And of a service that keeps
    the contract [PilotServer], asked for an approved URL that can be preloaded: what is
    reported is what the service holds, and a check that fails does so because [httpx]
    raised, a request was refused, the limit is not positive, or the image the service
    holds is longer than it. *)
Theorem smoke_truthful (url : string) (max_bytes : Z) (n : nat) s (res : res SmokeResult) (n' : nat) s' :
  run_smoke url max_bytes n s = (res, n', s') →
  (∀ r, res = Ok r ↔ smoke_passes url max_bytes n s r n' s') ∧
  ∀ (server : PilotServer S) t, ps_ok n s → PilotPolicy.require url = Ok t → (String.length (fetch_url t) <= 2048)%nat →
  ps_ok n' s' ∧ keeps_images s s' ∧
  match res with
  | Ok r => ∃ i data, ps_shown s' t i data ∧ sk_checksum r = checksum_of data ∧
      sk_size_bytes r = Z.of_nat (length data) ∧ sk_size_bytes r <= max_bytes ∧
      (∀ i' data', ps_shown s t i' data' → sk_first_cache_hit r = true)
  | Err e => fails_well max_bytes t s' e
  end.
Proof.
  intros Hrun. split.
  - intros r. rewrite <- run_smoke_passes, Hrun. split; [by intros ->|by intros [= ->]].
  - intros server t Hok Hr Hlen. exact (wp_inv _ _ _ _ _ _ _ (wp_run_smoke _ _ _ _ _ Hok Hr Hlen) Hrun).
Qed.
End Truthful.


(** * The fetcher keeps the contract *)

(** [GET] and [POST] as the process answers them.  A body of JSON is decoded to what was
    encoded; an image comes in one piece. *)
Definition result_json (r : EnsureUrlResult) : json :=
  JObj [("asset_id", JStr (er_asset_id r)); ("qualified_alias", JStr (er_qualified_alias r));
        ("cache_hit", JBool (er_cache_hit r)); ("bucket", JStr (er_bucket r)); ("partition_id", JStr (er_partition_id r))].

Definition answer_json (answer : FetcherAnswer) : option json :=
  match fn_body answer with
  | FResult r => Some (result_json r)
  | FProblem p => Some (JObj [("title", JStr (problem_title p)); ("status", JInt (problem_status p))])
  | _ => None
  end.

Definition read_response (answer : FetcherAnswer) : ReadResponse :=
  match fn_body answer with
  | FImage img etag => mk_read_response (fn_status answer) (Some (im_mime img)) (Some etag) None [im_data img] None
  | FProblem p => mk_read_response (fn_status answer) (Some "application/problem+json") None (problem_retry_after p) [] None
  | _ => mk_read_response (fn_status answer) (Some "application/json") None None [] None
  end.

(** The exceptions the service does not answer with 200. *)
Definition refusing (e : error) : Prop := problem_status (fetcher_error_response e) ≠ 200.

Lemma refusing_other e : (∀ status retry_after, e ≠ FetchError (CacheBackendError status retry_after)) → refusing e.
Proof.
  intros He. unfold refusing. destruct e; try done.
  match goal with e : fetch_error |- _ => destruct e as [| | | | | |status retry_after]; try done end. by destruct (He status retry_after).
Qed.

(** A computation that raises no other. *)
Definition sane {S A} (m : M S A) : Prop := ∀ n s, wp m (λ r _ _, ∀ e, r = Err e → refusing e) n s.

Section Sane.
Context {S : Type}.

Lemma sane_ret {A} (a : A) : sane (mret a : M S A). Proof. intros n s e. done. Qed.
Lemma sane_raise {A} e : refusing e → sane (raise e : M S A). Proof. intros He n s. by intros e' [= <-]. Qed.
Lemma sane_of_res {A} (r : res A) : (∀ e, r = Err e → refusing e) → sane (of_res r : M S A).
Proof. intros Hr n s. by apply wp_of_res. Qed.
Lemma sane_known {A B} (r : res A) (a : A) (k : A → M S B) : r = Ok a → sane (k a) → sane (of_res r ≫= k).
Proof. intros -> Hk n s. apply wp_bind, wp_of_res. apply Hk. Qed.
Lemma sane_get : sane (get_state : M S S). Proof. intros n s e. done. Qed.
Lemma sane_modify f : sane (modify f : M S unit). Proof. intros n s e. done. Qed.
Lemma sane_raise_if b e : refusing e → sane (raise_if b e : M S unit).
Proof. intros He. destruct b; [by apply sane_raise|by apply sane_ret]. Qed.
Lemma sane_bind {A B} (m : M S A) (k : A → M S B) : sane m → (∀ a, sane (k a)) → sane (m ≫= k).
Proof.
  intros Hm Hk n s. wp_step. eapply wp_mono; [apply Hm|]. intros [a|e] n' s' H; [apply Hk|].
  intros e' [= <-]. by apply H.
Qed.
Lemma sane_catch {A} (m : M S A) (h : error → M S A) : sane m → (∀ e, refusing e → sane (h e)) → sane (catch m h).
Proof.
  intros Hm Hh n s. apply wp_catch. eapply wp_mono; [apply Hm|]. intros [a|e] n' s' H; [done|]. by apply Hh, H.
Qed.
Lemma sane_zoom {T A} (get : S → T) (set : T → S → S) (m : M T A) : sane m → sane (zoom get set m).
Proof. intros Hm n s. apply wp_zoom, Hm. Qed.
Lemma sane_finally {A} (m : M S A) (f : M S unit) : sane m → sane f → sane (finally m f).
Proof.
  intros Hm Hf n s. apply wp_finally. eapply wp_mono; [apply Hm|]. intros r n1 s1 H.
  eapply wp_mono; [apply Hf|]. intros [[]|e] n2 s2 H2; [done|]. intros e' [= <-]. by apply H2.
Qed.
End Sane.

Create HintDb sane.
#[export] Hint Resolve sane_ret sane_get sane_modify : sane.

Lemma refusing_denied : refusing denied. Proof. done. Qed.
Lemma refusing_require raw e : PilotPolicy.require raw = Err e → refusing e.
Proof.
  unfold PilotPolicy.require. destruct (_ || _); [by intros [= <-]|].
  assert (Hsplit : ∀ e, urlsplit raw "" = Err e → e = PyValueError).
  { intros e'. unfold urlsplit. repeat case_match; by intros [= <-]. }
  destruct (urlsplit raw "") as [parts|e'].
  2:{ rewrite (Hsplit e' eq_refl). intros [= <-]. done. }
  cbv zeta. destruct (_POLICIES _) as [policy|]; [|by intros [= <-]]. destruct (_ || _); [by intros [= <-]|].
  destruct (escapes _); [|by intros [= <-]]. destruct (existsb _ _); [by intros [= <-]|].
  destruct (unquote _); [|by intros [= <-]]. destruct (full_match _ _); [done|by intros [= <-]].
Qed.

Lemma refusing_backend e : refusing e → refusing (backend_failure e).
Proof.
  intros He. unfold backend_failure. destruct e; try done.
  - unfold _backend_error. repeat case_match; done.
  - destruct (is_httpx_error _); done.
Qed.

(** What the network and the store of a pilot are assumed of: they raise no exception of
    the pilot cache that would be answered with 200. *)
Class SaneStore (A : Type) `{!AssetStoreClient A} := {
  sane_resolve space alias : sane (client_resolve space alias : M A (option AssetOut));
  sane_mint_write scope ttl : sane (mint_write_capability scope ttl : M A string);
  sane_mint_read scope ttl : sane (mint_read_capability scope ttl : M A string);
  sane_put capability alias data mime : sane (client_put_object capability alias data mime : M A AssetOut);
  sane_read capability alias limit : sane (client_read_object capability alias limit : M A bytes)
}.
Class SaneNet (N : Type) `{!PolicyFetcher N} := {
  sane_fetch url check : (∀ u e, check u = Err e → refusing e) → sane (fetch_checked url check : M N FetchedContent)
}.
#[export] Hint Resolve sane_resolve sane_mint_write sane_mint_read sane_put sane_read refusing_backend refusing_require : sane.

(** Descend through a computation; the hints settle its leaves. *)
Ltac solve_sane :=
  repeat lazymatch goal with
  | |- sane (_ ≫= _) => apply sane_bind; [|intros ?]
  | |- sane (catch _ _) => apply sane_catch; [|intros ? ?]
  | |- sane (finally _ _) => apply sane_finally
  | |- sane (zoom _ _ _) => apply sane_zoom
  | |- sane (raise_if _ _) => apply sane_raise_if; solve [done|auto with sane]
  | |- sane (raise _) => apply sane_raise; solve [done|auto with sane]
  | |- sane (match ?x with _ => _ end) => destruct x
  | |- sane _ => solve [auto with sane]
  end.

(** The path of a target stands for it. *)
Lemma read_path_bytes raw t :
  PilotPolicy.require raw = Ok t →
  require_read (utf8_encode (read_path t)) [] = PilotPolicy.require (pt_origin_url t).
Proof.
  intros (policy & Hp & Hm & Ho)%require_inv. pose proof (policy_chars _ _ _ Hp Hm) as Hc.
  assert (Hascii : ∀ s, all_chars is_image_char s = true →
    forallb (λ b, b <? 128) (utf8_encode s) = true ∧ foldr (λ b s, String (chr b) s) "" (utf8_encode s) = s).
  { induction s as [|c s IH]; [done|]. cbn. intros [Hci Hs]%andb_prop. destruct (IH Hs) as [H1 H2].
    assert (Hb : (Z.of_N (N_of_ascii c) <? 128) = true) by (revert Hci; clear; destruct c as [[] [] [] [] [] [] [] []]; vm_compute; done).
    rewrite Hb. cbn [forallb app foldr]. rewrite Hb, H1, H2. split; [done|]. f_equal. unfold chr. by rewrite N2Z.id, Ascii.ascii_N_embedding. }
  assert (Hpath : all_chars is_image_char (read_path t) = true).
  { unfold read_path. rewrite !all_chars_app, Hc. by destruct (policy_cases _ _ Hp) as [[-> _]|[-> _]]. }
  destruct (Hascii _ Hpath) as [H1 H2]. unfold require_read. rewrite H1, H2. cbn [negb]. rewrite bool_decide_true by done.
  destruct (policy_path_shape _ _ _ Hp Hm) as ([p Hs] & _). rewrite Ho. unfold read_path, origin_of.
  destruct (policy_cases _ _ Hp) as [[-> _]|[-> _]]; rewrite Hs;
    match goal with |- context [negb (?a || ?b)] => replace (a || b) with true by (destruct p; reflexivity) end; done.
Qed.

Lemma require_origin_url raw t t' :
  PilotPolicy.require raw = Ok t → PilotPolicy.require (pt_origin_url t) = Ok t' → t' = t.
Proof.
  intros (policy & Hp & Hm & Ho)%require_inv H.
  assert (Hlen : (String.length (pt_origin_url t) <= 2048)%nat).
  { unfold PilotPolicy.require in H. destruct (2048 <? _)%nat eqn:Hl; [by rewrite orb_true_r in H|by apply Nat.ltb_ge]. }
  rewrite Ho in Hlen, H. rewrite (require_origin _ policy _ Hp Hm Hlen) in H. injection H as <-. rewrite <- Ho. by destruct t.
Qed.

(** An accepted URL is accepted in its canonical spelling, which is no longer than what is
    fetched for it. *)
Lemma require_origin_accepted raw t :
  PilotPolicy.require raw = Ok t → (String.length (fetch_url t) <= 2048)%nat → PilotPolicy.require (pt_origin_url t) = Ok t.
Proof.
  intros Hr Hlen. destruct (require_inv _ _ Hr) as (policy & Hp & Hm & Ho).
  assert (Hle : (String.length (pt_origin_url t) <= String.length (fetch_url t))%nat).
  { unfold fetch_url. destruct (decide (pt_host t = HOST)) as [Hh|]; [|done].
    destruct (legacy_ark (pt_path t)) as [a|] eqn:Ha; [|done]. apply legacy_ark_inv in Ha as [Hpath _].
    rewrite Ho, Hh, Hpath. unfold origin_of, legacy_suffix, HOST, V3_HOST. rewrite !length_app_str. cbn. lia. }
  rewrite Ho. rewrite (require_origin _ policy _ Hp Hm) by (rewrite <- Ho; lia). rewrite <- Ho. by destruct t.
Qed.

Section Service.
#[local] Set Default Proof Using "Type*".
Context {A N : Type} `{!AssetStoreClient A} `{!PolicyFetcher N} `{!UrlFetcher N} `{!SaneStore A} `{!SaneNet N}.

Lemma sane_approved max_bytes url : sane (approved_fetch max_bytes url : M (World A N) FetchedContent).
Proof.
  unfold approved_fetch. cbv zeta.
  assert (Hcheck : ∀ u e, (target ← PilotPolicy.require u; mret tt : res unit) = Err e → refusing e).
  { intros u e. destruct (PilotPolicy.require u) eqn:Hu; [done|]. intros [= <-]. by eapply refusing_require. }
  apply sane_bind; [apply sane_of_res, Hcheck|intros _].
  apply sane_bind; [|intros content; solve_sane].
  unfold fetch_checked, world_policy_fetcher, at_net. apply sane_zoom. by apply sane_fetch.
Qed.

Lemma sane_preload max_bytes url t no_cache :
  PilotPolicy.require url = Ok t → (String.length (fetch_url t) <= 2048)%nat →
  sane (preload max_bytes record_refetch url no_cache : M (World A N) EnsureUrlResult).
Proof.
  intros Hr Hlen. destruct (approved_placement url t no_cache Hr Hlen) as (u & alias & Hu & _ & Hal & _ & Hp).
  unfold preload. apply (sane_known _ _ _ Hr). apply sane_catch.
  - unfold ensure_url. cbn [preload_args ea_url]. apply (sane_known _ _ _ Hu), (sane_known _ _ _ Hp). unfold ensure_at, store_content, check_refetch.
    cbn [client_resolve mint_write_capability client_put_object world_client]. unfold at_store, record_refetch.
    apply sane_bind; [solve_sane|]. intros [asset|]; [destruct (negb _); [solve_sane|]|];
      (apply sane_bind; [apply sane_approved|intros content]); cbv zeta; solve_sane.
  - intros e He. destruct (has_status [409] e); [|solve_sane]. unfold concurrent_result. apply (sane_known _ _ _ Hal).
    cbn [client_resolve world_client]. unfold at_store. apply sane_bind; [solve_sane|]. intros [asset|]; solve_sane.
Qed.

Lemma sane_pilot_read max_bytes raw t :
  PilotPolicy.require raw = Ok t → sane (pilot_read max_bytes t : M (PilotCache (World A N)) CachedImage).
Proof.
  intros (host & policy & path & _ & _ & _ & Hal)%fetch_place. unfold pilot_read. apply (sane_known _ _ _ Hal).
  apply sane_catch; [|intros e He; destruct (has_status _ e); solve_sane].
  unfold read_image, download, _read_token, fresh_token, on_world.
  cbn [client_resolve mint_read_capability client_read_object world_client]. unfold at_store.
  apply sane_bind; [solve_sane|]. intros [asset|]; [|solve_sane].
  apply sane_bind.
  { apply sane_of_res. intros e. unfold readable. repeat case_match; try done; by intros [= <-]. }
  intros [size mime]. apply sane_bind; [solve_sane|]. intros data. cbv zeta. solve_sane.
Qed.

(** ** The routes *)

Context (fetch_advances : ∀ url check, advances (fetch_checked url check : M N FetchedContent)) (authorization : string).
Context {E : Env} `{!StoreContract A}.
Implicit Types x : FetcherApp A N.

Lemma wp_dispatcher {B} (k : string → M (FetcherApp A N) B) (Q : res B → nat → PilotCache (World A N) → Prop) n x :
  (∀ x1 caller, fa_pilot x1 = fa_pilot x → wp (k caller) (λ r n' x', Q r n' (fa_pilot x')) n x1) →
  (∀ e, refusing e → Q (Err e) n (fa_pilot x)) →
  wp (require_dispatcher authorization ≫= k) (λ r n' x', Q r n' (fa_pilot x')) n x.
Proof.
  intros Hk HQ. unfold require_dispatcher, count_ingress. wp_step. wp_step. wp_step.
  destruct (dispatcher_identity _ _) as [caller|e] eqn:Hd.
  - wp_steps. by apply Hk.
  - wp_steps. apply HQ. by destruct (dispatcher_refusal _ _ _ Hd) as [-> | ->].
Qed.

Lemma wp_job {B} (body : M (FetcherApp A N) B) (Q : res B → nat → PilotCache (World A N) → Prop) n x :
  (∀ x1, fa_pilot x1 = fa_pilot x → wp body (λ r n' x', Q r n' (fa_pilot x')) n x1) →
  Q (Err WorkCapacityError) n (fa_pilot x) →
  wp (job body) (λ r n' x', Q r n' (fa_pilot x')) n x.
Proof.
  intros Hbody HQ. unfold job, lease. wp_step. apply wp_zoom. unfold wp at 1. rewrite acquire_run.
  destruct (wa_active (fa_jobs x) <? wa_limit (fa_jobs x)) eqn:Hlt; cbn [negb].
  - apply wp_finally. wp_step. apply wp_zoom. unfold count_attempt. wp_step.
    eapply wp_mono; [by apply Hbody|]. intros r n' x' Hr. apply wp_zoom. unfold release. apply wp_modify. exact Hr.
  - wp_step. apply wp_zoom. unfold count_attempt. wp_steps. exact HQ.
Qed.

(** What a request to the process leaves of the store. *)
Definition kept (n : nat) x (n' : nat) (p : PilotCache (World A N)) : Prop :=
  st_ok n' (wd_store (pc_world p)) ∧ keeps_names (wd_store (fa_world x)) (wd_store (pc_world p)).

Lemma wp_preload_route url t alias n x :
  st_ok n (wd_store (fa_world x)) → PilotPolicy.require url = Ok t → (String.length (fetch_url t) <= 2048)%nat →
  relative_alias t = Ok alias →
  wp (preload_cache authorization (mk_preload_request url false)) (λ res n' x', kept n x n' (fa_pilot x') ∧
    match res with
    | Ok r => preloaded alias (fa_world x') r ∧
        (∀ i d, st_holds (wd_store (fa_world x)) "cache" alias i d → er_cache_hit r = true)
    | Err e => refusing e
    end) n x.
Proof.
  intros Hok Hr Hlen Hal. unfold preload_cache, fa_world.
  assert (Hx : kept n x n (fa_pilot x)) by (split; [exact Hok|done]).
  apply (wp_dispatcher _ (λ res n' p, kept n x n' p ∧ match res with
    | Ok r => preloaded alias (pc_world p) r ∧ (∀ i d, st_holds (wd_store (fa_world x)) "cache" alias i d → er_cache_hit r = true)
    | Err e => refusing e end)); [|done].
  intros x1 caller Hx1. rewrite <- Hx1 in Hx. wp_step. unfold invalid_unless. apply wp_raise_if; intros Hvalid; [done|].
  wp_step. wp_step. apply wp_catch. wp_step.
  eapply wp_mono; [apply (wp_job _ (λ res n' p, kept n x n' p ∧ match res with
    | Ok r => preloaded alias (pc_world p) r ∧ (∀ i d, st_holds (wd_store (fa_world x)) "cache" alias i d → er_cache_hit r = true)
    | Err e => refusing e end))|]; [|split; [exact Hx|done]|].
  - intros x2 Hx2. apply wp_zoom. cbn [pq_url pq_no_cache].
    rewrite Hx2, Hx1.
    eapply wp_mono; [apply wp_and; [by apply (wp_preload fetch_advances _ url t alias)|by apply (sane_preload _ _ t)]|].
    intros [r|e] n' w' [(_ & Hok' & Hk & H) Hs]; cbn; (split; [by split|]); [|by apply Hs].
    destruct (H r eq_refl) as [Hp Hhit]. split; [done|]. by apply Hhit.
  - intros [r|e] n' x' [Hk H]; unfold record_cache; wp_steps; [|by split]. split; [exact Hk|]. by destruct r.
Qed.

(** What a route for the image [t] does, by what its answer says. *)
Definition shows x t (i : string) (data : bytes) : Prop :=
  ∃ alias, relative_alias t = Ok alias ∧ st_holds (wd_store (fa_world x)) "cache" alias i data.

Lemma wp_read_route raw t alias n x :
  st_ok n (wd_store (fa_world x)) → PilotPolicy.require raw = Ok t → relative_alias t = Ok alias →
  wp (read_cache authorization (utf8_encode (read_path t)) []) (λ res n' x', kept n x n' (fa_pilot x') ∧
    match res with
    | Ok (img, etag) => (∃ i, st_holds (wd_store (fa_world x')) "cache" alias i (im_data img)) ∧
        etag = quoted_text (checksum_of (im_data img)) ∧ im_mime img ∈ IMAGE_MIMES
    | Err e => refusing e
    end) n x.
Proof.
  intros Hok Hr Hal. unfold read_cache.
  assert (Hx : kept n x n (fa_pilot x)) by (split; [exact Hok|done]).
  apply (wp_dispatcher _ (λ res n' p, kept n x n' p ∧ match res with
    | Ok (img, etag) => (∃ i, st_holds (wd_store (pc_world p)) "cache" alias i (im_data img)) ∧
        etag = quoted_text (checksum_of (im_data img)) ∧ im_mime img ∈ IMAGE_MIMES
    | Err e => refusing e end)); [|done].
  intros x1 caller Hx1. rewrite <- Hx1 in Hx. wp_step. wp_step. apply wp_catch. wp_step. wp_step.
  rewrite (read_path_bytes raw t Hr). destruct (PilotPolicy.require (pt_origin_url t)) as [t'|e] eqn:Ht.
  2:{ unfold record_cache. wp_steps. split; [exact Hx|by eapply refusing_require]. }
  apply (require_origin_url raw t) in Ht as ->; [|done].
  wp_step. eapply wp_mono; [apply (wp_job _ (λ res n' p, kept n x n' p ∧ match res with
    | Ok img => (∃ i, st_holds (wd_store (pc_world p)) "cache" alias i (im_data img)) ∧
        im_checksum img = checksum_of (im_data img) ∧ im_mime img ∈ IMAGE_MIMES
    | Err e => refusing e end))|]; [|split; [exact Hx|done]|].
  - intros x2 Hx2. apply wp_zoom. rewrite Hx2.
    assert (Hplain : plain_name "cache" alias = true).
    { destruct (fetch_place raw t Hr) as (host & policy & path & Hp & Hm & _ & Hal').
      rewrite Hal in Hal'. injection Hal' as ->. by apply (alias_plain _ policy). }
    eapply wp_mono; [apply wp_and; [apply (wp_pilot_read fetch_advances _ t alias); [by rewrite Hx1|done|done]|by apply (sane_pilot_read _ raw t)]|].
    intros [img|e] n' p' [[[_ Hok' _ Hk] H] Hs]; cbn; (split; [by split; rewrite Hx1 in Hk|]); [|by apply Hs].
    destruct (H img eq_refl) as (Hi & Hck & Hm & _). by split_and!.
  - intros [img|e] n' x' [Hk H]; unfold record_cache; wp_steps; [|by split]. split; [exact Hk|].
    destruct H as (Hi & Hck & Hm). rewrite Hck. by split_and!.
Qed.

(** The two requests, as the process answers them. *)
Definition fetcher_get_post : PilotHttp (FetcherApp A N) := {|
  post_preload url := λ n x,
    let '(answer, n', x') := fetcher_serve (mk_fetcher_request authorization (FPreload (mk_preload_request url false))) n x in
    (Ok (fn_status answer, answer_json answer), n', x');
  stream_read path := λ n x,
    let '(answer, n', x') := fetcher_serve (mk_fetcher_request authorization (FRead (utf8_encode path) [])) n x in
    (Ok (read_response answer), n', x')
|}.
#[local] Existing Instance fetcher_get_post.

Lemma kept_shows n x n' x' : kept n x n' (fa_pilot x') → ∀ t i data, shows x t i data → shows x' t i data.
Proof. intros [_ Hk] t i data (alias & Hal & Hi). exists alias. split; [done|by apply Hk]. Qed.

Lemma image_media m : mem m IMAGE_MIMES = true → (split_first ";" m).1 = m.
Proof. intros Hm%mem_true. unfold IMAGE_MIMES in Hm. rewrite !elem_of_cons in Hm. by destruct Hm as [-> | [-> | [-> | ?%elem_of_nil]]]. Qed.

Definition fetcher_server : PilotServer (FetcherApp A N).
Proof.
  refine {| ps_ok n x := st_ok n (wd_store (fa_world x)); ps_shown := shows |}.
  - intros x t i d i' d' (alias & Hal & Hi) (alias' & Hal' & Hi'). rewrite Hal in Hal'. injection Hal' as <-.
    exact (st_unique _ _ _ _ _ _ _ Hi Hi').
  - intros url t n x Hok Hr Hlen.
    assert (∃ alias, relative_alias t = Ok alias) as [alias Hal] by (destruct (fetch_place url t Hr) as (? & ? & ? & _ & _ & _ & Hal); by eexists).
    pose proof (wp_preload_route (pt_origin_url t) t _ n x Hok (require_origin_accepted _ _ Hr Hlen) Hlen Hal) as H. revert H.
    unfold wp, post_preload, fetcher_get_post, fetcher_serve. cbn [fr_authorization fr_route fetcher_dispatch].
    unfold mbind, M_bind. destruct (preload_cache _ _ n x) as [[[r|e] n'] x']; cbn; intros [Hk H].
    + split_and!; [apply Hk|by eapply kept_shows|]. intros _. destruct H as [(_ & _ & _ & data & Hi) Hhit].
      eexists _, (er_cache_hit r), (er_asset_id r). split_and!; [done|done|done|by exists data, alias|].
      intros i' d (alias' & Hal' & Hi'). rewrite Hal in Hal'. injection Hal' as <-. by eapply Hhit.
    + split_and!; [apply Hk|by eapply kept_shows|]. intros Hs. by destruct H.
  - intros url t n x Hok Hr.
    assert (∃ alias, relative_alias t = Ok alias) as [alias Hal] by (destruct (fetch_place url t Hr) as (? & ? & ? & _ & _ & _ & Hal); by eexists).
    pose proof (wp_read_route url t _ n x Hok Hr Hal) as H. revert H.
    unfold wp, stream_read, fetcher_get_post, fetcher_serve. cbn [fr_authorization fr_route fetcher_dispatch].
    unfold mbind, M_bind. destruct (read_cache _ _ _ n x) as [[[[img etag]|e] n'] x']; cbn; intros [Hk H].
    + split_and!; [apply Hk|by eapply kept_shows|done|]. intros _. destruct H as ((i & Hi) & -> & Hm).
      exists i, (im_data img), []. split_and!; [by eexists|by rewrite !app_nil_r|done|done|].
      unfold media_type. cbn. apply mem_true in Hm. by rewrite image_media.
    + split_and!; [apply Hk|by eapply kept_shows|done|]. intros Hs. by destruct H.
Defined.
End Service.

(** * The checks at work

    Against the fetcher of [FetchDemo], whose network answers with two bytes. *)

#[local] Existing Instance demo_transport.
#[local] Existing Instance demo_server.
#[local] Existing Instance demo_client.
#[local] Existing Instance demo_contract.
#[local] Existing Instance demo_fetcher.
#[local] Existing Instance demo_policy_fetcher.

Lemma sane_send auth route : sane (http_send auth route : M (App LocalObjectStore) Answer).
Proof.
  intros n x. unfold wp, http_send, demo_transport, serve_client.
  destruct (route_of (demo_ticks n) route); [|by intros e [= <-]]. destruct (serve _ n x) as [[answer n'] x']. done.
Qed.
#[local] Hint Resolve sane_send : sane.

#[local] Instance demo_sane_store : SaneStore (App LocalObjectStore).
Proof.
  split; intros; cbn [client_resolve mint_write_capability mint_read_capability client_put_object client_read_object demo_client http_client];
    unfold http_resolve, _mint_capability, http_put_object, http_read_object, call_failed, asset_json;
    (apply sane_bind; [auto with sane|intros answer]); repeat case_match; solve_sane.
  - apply sane_of_res. intros e. cbn. destruct (_ <? _); [by intros [= <-]|done].
Qed.

#[local] Instance demo_sane_net : SaneNet nat.
Proof.
  split. intros url check Hcheck n k. unfold wp, fetch_checked, demo_policy_fetcher.
  destruct (check url) as [[]|e] eqn:Hc; [done|]. intros e' [= <-]. by eapply Hcheck.
Qed.

#[local] Instance demo_http : PilotHttp (FetcherApp (App LocalObjectStore) nat) := fetcher_get_post "Service task-api:s1".
#[local] Instance demo_pilot_server : PilotServer (FetcherApp (App LocalObjectStore) nat) :=
  fetcher_server demo_checked_advances "Service task-api:s1".

(** The process of [FetchDemo]. *)
Lemma fetcher_start_world x : fetcher_start = Ok x → fa_world x = demo_world.
Proof.
  unfold fetcher_start, create_fetcher. intros (creds & _ & (limit & _ & (jobs & _ & (max_bytes & _ & H)%res_bind_Ok)%res_bind_Ok)%res_bind_Ok)%res_bind_Ok.
  by injection H as <-.
Qed.

Definition smoke_run (x : FetcherApp (App LocalObjectStore) nat) : res SmokeResult * nat * FetcherApp (App LocalObjectStore) nat :=
  run_smoke legacy_url 4 0%nat x.
Definition demo_item : CorpusItem := mk_corpus_item current_url 2 (checksum_of [104; 105]).
Definition corpus_run (x : FetcherApp (App LocalObjectStore) nat) :
    res (read_outcome * list Z) * nat * FetcherApp (App LocalObjectStore) nat :=
  verified_read demo_item (smoke_run x).1.2 (smoke_run x).2.

Definition is_smoke_pass (r : res SmokeResult) : bool :=
  match r with Ok r => (sk_size_bytes r =? 2) && negb (sk_first_cache_hit r) | Err _ => false end.
Definition is_read (r : res (read_outcome * list Z)) : bool :=
  match r with Ok (ReadOk size, [status]) => (size =? 2) && (status =? 200) | _ => false end.

Lemma smoke_run_passes : started fetcher_start (λ x, is_smoke_pass (smoke_run x).1.1) = true.
Proof. vm_compute. reflexivity. Qed.
Lemma corpus_run_reads : started fetcher_start (λ x, is_read (corpus_run x).1.1) = true.
Proof. vm_compute. reflexivity. Qed.

(** Two URLs of one image are the same name in the cache. *)
Lemma demo_target url : url ∈ [legacy_url; current_url] →
  ∃ t, PilotPolicy.require url = Ok t ∧ (String.length (fetch_url t) <= 2048)%nat.
Proof.
  intros Hin. assert (Hb : match PilotPolicy.require url with Ok t => (String.length (fetch_url t) <=? 2048)%nat | Err _ => false end = true).
  { rewrite !elem_of_cons in Hin. destruct Hin as [-> | [-> | ?%elem_of_nil]]; [vm_compute; done|vm_compute; done|done]. }
  destruct (PilotPolicy.require url) as [t|]; [|done]. exists t. split; [done|by apply Nat.leb_le].
Qed.

Lemma smoke_truthful_witness :
  match fetcher_start with
  | Ok x => ∃ r t i data, (smoke_run x).1.1 = Ok r ∧ sk_first_cache_hit r = false ∧ sk_size_bytes r = 2 ∧
      smoke_passes legacy_url 4 0 x r (smoke_run x).1.2 (smoke_run x).2 ∧
      ps_shown (smoke_run x).2 t i data ∧ sk_checksum r = checksum_of data
  | Err _ => False
  end.
Proof.
  pose proof smoke_run_passes as Hpass. destruct (demo_target legacy_url) as (t & Hr & Hlen); [apply elem_of_cons; left; reflexivity|].
  destruct fetcher_start as [x|e] eqn:Hstart; [|discriminate Hpass]. cbn [started] in Hpass.
  assert (Hok : ps_ok 0%nat x) by (unfold ps_ok, demo_pilot_server, fetcher_server; rewrite (fetcher_start_world x Hstart); exact demo_ok).
  destruct (smoke_run x) as [[res n'] x'] eqn:Hrun. cbn [fst snd] in *.
  destruct (smoke_truthful legacy_url 4 0%nat x res n' x' Hrun) as [Hpasses H].
  destruct (H demo_pilot_server t Hok Hr Hlen) as (_ & _ & Hheld). clear H. rename Hheld into H.
  destruct res as [r|e]; [|discriminate Hpass]. pose proof (proj1 (Hpasses r) eq_refl) as Hr4. destruct H as (i & data & Hi & Hck & _).
  apply andb_prop in Hpass as [Hsize Hhit]. apply Z.eqb_eq in Hsize. apply negb_true_iff in Hhit.
  exists r, t, i, data. split_and!; [reflexivity|exact Hhit|exact Hsize|exact Hr4|exact Hi|exact Hck].
Defined.

Lemma verified_read_truthful_witness :
  match fetcher_start with
  | Ok x => ∃ t i data, (corpus_run x).1.1 = Ok (ReadOk 2, [200]) ∧ ps_shown (corpus_run x).2 t i data ∧ described demo_item data ∧
      attempted 3 demo_item (read_path t) [] (smoke_run x).1.2 (smoke_run x).2 (corpus_run x).1.1 (corpus_run x).1.2 (corpus_run x).2
  | Err _ => False
  end.
Proof.
  pose proof corpus_run_reads as Hread. destruct (demo_target legacy_url) as (t & Hr & Hlen); [apply elem_of_cons; left; reflexivity|].
  destruct (demo_target current_url) as (t2 & Hr2 & _); [apply elem_of_cons; right; apply elem_of_cons; left; reflexivity|].
  destruct fetcher_start as [x|e] eqn:Hstart; [|discriminate Hread]. cbn [started] in Hread.
  assert (Hok : ps_ok 0%nat x) by (unfold ps_ok, demo_pilot_server, fetcher_server; rewrite (fetcher_start_world x Hstart); exact demo_ok).
  unfold corpus_run in *. destruct (smoke_run x) as [[res n'] x'] eqn:Hrun. cbn [fst snd] in *.
  destruct (wp_inv _ _ _ _ _ _ _ (wp_run_smoke legacy_url 4 t 0%nat x Hok Hr Hlen) Hrun) as (Hok' & _ & _).
  destruct (verified_read demo_item n' x') as [[res2 n2] x2] eqn:Hrun2. cbn [fst snd] in *.
  destruct (verified_read_truthful demo_item t2 n' x' res2 n2 x2 Hr2 ltac:(discriminate) Hrun2) as [Hattempted Hserver].
  destruct (Hserver demo_pilot_server Hok') as (outcome & attempts & Hres & Hj).
  subst res2. destruct outcome as [size|name]; [|discriminate Hread]. destruct Hj as (i & data & Hi & Hd & Hsize). subst size.
  exists t2, i, data. split_and!; [|exact Hi|exact Hd|exact Hattempted].
  destruct attempts as [|status [|]]; try discriminate Hread. cbn [is_read] in Hread. apply andb_prop in Hread as [_ Hst].
  apply Z.eqb_eq in Hst. subst status. reflexivity.
Defined.
